(* ===== verification/_CoqProject ===== *)
-Q . S2P
Prelude.v
Intervals.v
GoStd.v
GtidTypes.v
Gtid56.v
Mariadb.v
FilePos.v
Gtid56Text.v
Gtid56Block.v
Encoding.v
SqlTypes.v
Packet.v
OkPacket.v
ResultSet.v
QueryAnswer.v
BinaryValue.v
BinaryArgs.v
Prepared.v
Position.v
LastSeen.v
Binlog.v
BinlogStream.v
BinlogRows.v
BinlogCell.v
BinlogDecimal.v
BinlogTime.v
BinlogDump.v
Commands.v
Keywords.v
Key.v
Destination.v
LruCache.v
Consolidator.v
TabletEnv.v
TxLimiter.v
TxSerializer.v
Ccl.v
IdPool.v
TxPrepPool.v
Numbered.v
Gateway.v
GatewayRetry.v
