(* ===== verification/Prelude.v ===== *)
(** * A verification library for WeScale

    WeScale is a database proxy in front of MySQL.  A gateway (vtgate) accepts queries, decides which tablet
    (vttablet, one in front of each MySQL server) answers them, and keeps a record of the GTIDs,
    the global transaction ids, its clients have written, so that later reads go to servers that
    have them.  A tablet limits, queues and consolidates the queries and keeps the connections
    of its transactions in pools.  Both speak the protocol of MySQL, as a server to their clients and as a client to the
    databases, and read the binary logs of these.  This library models the parts that decide,
    encode and keep state, as functions on explicit states, and proves them correct.  Paths below are relative to
    [src/].

    ** The parts and their files

    Replication positions.
    - [Intervals], [Gtid56], [Gtid56Text], [Gtid56Block]: [go/mysql/mysql56_gtid.go] and [mysql56_gtid_set.go].  A
      set is a finite map from server ids to lists of intervals of [int64]; [Intervals] has the loops
      on the intervals of one server, [Gtid56] the operations on whole sets, the other two the
      text and the binary form.
    - [Mariadb], [FilePos]: the other two flavors, [mariadb_gtid.go] and [filepos_gtid.go].
    - [GtidTypes], [Position]: [gtid.go], [gtid_set.go] and [replication_position.go]; the Go interfaces are inductive types
      with one constructor per flavor, and the class [Flavor] states what each flavor
      promises to the code above it.
    - [LastSeen]: [go/vt/vtgate/last_seen_gtid.go], the record of the gateway.

    Routing.
    - [Key], [Destination]: [go/vt/key/key.go] and [destination.go], key ranges, sharding specifications and how the
      destination of a query becomes a list of shards.
    - [Gateway], [GatewayRetry]: [go/vt/vtgate/tabletgateway_lb.go], and the shuffle and [withRetry] of
      [tabletgateway.go] with [Execute] and [canRetry] of [go/vt/vttablet/queryservice/wrapped.go].  A read names the
      position it has to see; [PickTablet] compares it with [Position.AtLeast].

    The protocol of MySQL, in [go/mysql].
    - [Encoding]: [encoding.go], the integers and strings of all packets.
    - [SqlTypes]: [type.go], [value.go], [result.go], [proto3.go] and [bind_variables.go] of [go/sqltypes].
    - [Packet], [OkPacket]: the part of [conn.go] that frames payloads, and its OK, EOF and error packets.  A [Conn] has the
      bytes that arrive, those that have been sent, the write at which the network breaks, the sequence number and the state of the
      buffer in use.
    - [ResultSet], [QueryAnswer]: the text protocol of [query.go] and [conn.go], each side on its own and then the two together, from
      [WriteComQuery] to [handleComQuery] and back.
    - [BinaryValue], [BinaryArgs], [Prepared]: prepared statements, with their values, arguments and rows in the binary form and the
      table of the statements of a connection, a [Session].
    - [Commands]: [handleNextCommand], which reads a packet and calls one of the handlers of all these files, with
      [go/sqlescape/ids.go].

    Binary logs, in [go/mysql].
    - [Binlog]: [binlog_event.go], [binlog_event_common.go], [binlog_event_make.go] and the files of the three flavors of events.
    - [BinlogRows], [BinlogCell], [BinlogDecimal], [BinlogTime]: [binlog_event_rbr.go], table maps, rows and their values, and the encodings
      of decimals and times the server uses.
    - [BinlogStream]: [readBinlogEvent] of [flavor_filepos.go], [flavor_mysql.go] and [flavor_mariadb.go].
    - [BinlogDump]: the commands of [replication.go] that ask for a log, and their parsers in [binlog_dump.go] and
      [register_replica.go].  Positions in them are those of [Position] and [Gtid56Block].

    SQL.
    - [Keywords]: [go/vt/sqlparser/keywords.go], the keywords and the hash table they are looked up in.

    Tablets.
    - [LruCache]: [go/cache/lru_cache.go], used by [Consolidator] and [Numbered].
    - [Consolidator]: [go/sync2/consolidator.go].  Its [ConsolidatorCache] is also the statistics of [TxSerializer].
    - [TabletEnv]: the configuration and counters that [TxLimiter] and [TxSerializer] read and
      update ([tabletserver/tabletenv/config.go], [go/stats/counters.go], [go/vt/callerid/callerid.go]).
    - [TxLimiter], [TxSerializer], [TxPrepPool]: [txlimiter/tx_limiter.go], [txserializer/tx_serializer.go] and
      [tx_prep_pool.go] of [go/vt/vttablet/tabletserver].
    - [Ccl]: [ccl/concurrency_controller.go] of the same directory, queues of queries by rule.
    - [IdPool], [Numbered]: [go/pools/id_pool.go] and [numbered.go].

    [Prelude] has the integers, bytes, outcomes, sums over maps and the lemmas on transition
    systems all files share; [GoStd] the functions of Go's standard library.

    ** How the code is modelled

    A Go [int], [int64] or [uint64] is a [Z] and every operation that can overflow wraps
    ([add64], [int64], ...).  Strings and byte slices are [list byte].  A panic is the outcome
    [Panic], an error the result [Err].  A nil pointer, map or interface is [None].  A slice ends where its capacity does: to slice past
    the length is a [Panic] also where Go would find spare capacity, such as the checksum behind an event that [StripChecksum]
    has cut off.  Theorems that a function returns or ends do not depend on this; where one gives the panic of a truncated event,
    Go may read these bytes instead.  Where
    the code shares objects through pointers, the list elements of the LRU cache, the results of the
    consolidator, the queues of the hot row protection and of the rules, the objects live in a store and the
    pointers are its keys.  [float64] is the binary64 arithmetic of [SpecFloat].

    Code that holds a mutex is one step; the two sections of [Record] of [ConsolidatorCache] are one step in [Consolidator],
    where [Record_lost_count] shows what can come between them.  Where the code gives the mutex up or waits, its parts are
    separate steps, and a step relation ([any_step] in [Consolidator], [tx_step] in
    [TxSerializer], [ccl_any_step] in [Ccl]) interleaves the steps of any number of clients; an operation that would wait
    gives [Ret None] and makes no step.

    A computation on a connection is a state monad with panics and errors: [io] in [Packet] for packets, [query_io] in [ResultSet]
    with the errors of a client, [row_io] in [Prepared] with those of a row, and [cmd] there for the handlers, which change the whole
    session.  A buffer of the pool holds what was in it before, the function [stale]; nothing is known of it, so that a theorem
    about what is sent also says that every byte of it was written.

    Code outside the program is a parameter with its documented behaviour as a hypothesis:
    [slices.SortFunc] and [rand.Intn] in [Gateway], the choice of a map element in [IdPool].  [strings.ToLower] in [TxSerializer] is any
    function; where it matters, theorems ask for keys that [sanitizeKey] can show ([showable]).  The conversions between floating point numbers and texts in [BinlogCell], [BinaryValue] and [Prepared], and the
    text of a network error in [Commands], need no hypothesis.  What other parts of the program answer, the health check, the failover
    buffer and the tablets in [GatewayRetry], callbacks in [Destination], the JSON decoder in [BinlogCell], the handler, the split of
    a text and the SQL parser in [QueryAnswer], [Prepared] and [Commands], is a parameter without
    hypotheses, apart from the tablets having reported their statistics, from the shape of the answers of a handler where a theorem
    is about what the client gets ([expects_all], [binary_results]), and from a dump in [Commands] giving back the buffers it
    takes ([dumps_whole]).  A handler is taken not to change the connection it is called with.

    ** What the theorems show

    - GTID sets: with the set of transactions a set denotes ([has]), every operation on canonical sets is
      the operation on sets of transactions and keeps sets canonical; the encodings round-trip and
      reject truncated input.  [Mysql56_Merge] and the MariaDB [Intersect] are the exceptions: the theorems say what
      they compute instead.
    - Positions: [AtLeast] is a preorder with joins for every flavor, on well-formed sets; encoding round-trips.  [AtLeast_touching_intervals] has
      a parsed set that is not well-formed.
    - The record of the gateway refines a plain set of transactions under every sequence of events, and panics exactly when it intersects
      several sets of which the first is nil.
    - Key ranges: the operations on ranges in terms of the ids they hold; specifications in lower case partition the ids between their
      ends; destinations resolve to exactly the shards that hold them.
    - Gateway: a read gets a tablet that has what it asks for, if there is one; the shuffle ends and
      puts the local cell first; retries are bounded, never repeat a tablet or a query that
      succeeded, and report the last attempt.  A retry forgets the GTID of the read.
    - Encoding: round trips, and what a reader does with every length.
    - Keywords: the hash table has no collisions, and a lookup in it is a search in the list.
    - LRU cache, consolidator cache: refinement of lists in order of use.
    - Consolidator, hot row protection, the latter under a verified configuration: invariants of every interleaving, absence of panics and
      of waits under the mutex, and that everybody who waits can be served.
    - Rules: limits hold outside dry run, as long as the arguments of a rule stay the same and the map holds its queue, and everybody can be served; [Ccl_limit_exceeded] has two
      runs in which the limit is exceeded.
    - Packets: what is sent is read back, whatever its length; what is cut off is never taken for a packet.  OK and error packets are
      parsed as what was written, with session tracking.
    - Queries: the client gets the result of each statement of its text up to the first that fails, and its error, and nothing of the
      answer is left.  Prepared statements: the handler gets the arguments the client has sent, the client the rows in the binary
      form, if each result of the handler has the fields; the length computed for a value is the length of what is written.  Whatever a client sends, no buffer is held between two
      commands and the statements stay well formed.  Packets that are bound wrongly or make the server panic are shown in [Prepared].
    - Binary logs: events, table maps and rows are read back from what the writer makes of them; on any event of the stated
      form the reader of queries does not panic and the reader of rows ends; the values of a row end where the reader of rows finds its end; integers,
      decimals, dates and times mean what the server wrote; the file position flavor delivers the events of a log in order, with the
      positions of the log.
    - Limiter and pools: limits hold where they are enabled, ids and resources are exclusive while they are out, connections are not lost.

    ** Fuel

    Loops that Rocq does not see to end carry fuel or are defined by well-founded recursion on the input that
    is left ([intersect_loop] and others with [Equations]).  The fuel of [strip_all] and of [next_loop] is the length
    of its input; [format_loop] has 20 rounds, one for each decimal digit of a [uint64], and [hex_loop] 16; [partition_loop] has one more than there are
    tablets, and [partition_ok] shows that it does not run out; [merge_loop] has one round per interval, and [merge_loop_fuel] shows that more
    change nothing; [evict_loop] follows the list itself.  [retry_loop] has the number of rounds of the source.
    Where the loop of the code may not end, the function takes its fuel as an argument and returns [None] when it runs out: [ev_Rows], which ends
    within a round per byte, with rows, an error or a panic, if there is a column ([Rows_terminates]) and does not end otherwise ([Rows_diverges]); [parseOKPacket], which
    needs two rounds for a packet of the writer ([OK_roundtrip]) and may not end on others ([OK_parse_diverges]).  [read_rows] and [drainResults] read
    a packet per round, so the theorems ask for two rounds more than there are rows, and fetching results for one round per statement.

    ** Not modelled

    The SQL parser, planner, engine and expression evaluation, which form one large program of their
    own; the handshake and authentication of the protocol, which rest on cryptographic functions; the buffering of writes and the timer that
    flushes them: a write is sent at once; topology, health checks, backups and
    remote procedure calls, which are I/O against servers; parts that are driven by the wall clock and
    by goroutines with timers (resource pools, throttlers, the failover buffer, state
    manager); generated code; status pages, logging and flags.  Of the modelled files the accessors
    that only return a field, JSON wrappers, log texts and HTTP handlers are left out, in
    [withRetry] also the failpoints and the statistics it records, and of the flavors the SQL statements they
    send.  JSON documents in row events are decoded with a library that is not part of the program. *)

From Stdlib Require Export ZArith Lia.
From stdpp Require Export base gmap strings sorting numbers.
From stdpp Require Export list.
From Stdlib Require Strings.Byte Strings.String.

#[global] Open Scope Z_scope.

(** ** Tactics and hint databases *)

(** The bounds of machine integers, bytes and lengths, as side conditions. *)
Create HintDb go_bounds.

(** Rewrites the scrutinees of the goal with the equations a function elimination
    recorded for them. *)
Ltac use_tests :=
  repeat match goal with
  | H : ?x = _ |- context [match ?x with _ => _ end] => rewrite H
  | |- context [decide ?P] =>
      first [rewrite (decide_True (P := P)) by assumption
            |rewrite (decide_False (P := P)) by assumption]
  end.

(** Case analysis on the boolean tests a Go [if] or [switch] is translated to. *)
Ltac case_test :=
  match goal with
  | |- context [if ?b then _ else _] =>
      lazymatch type of b with bool => let E := fresh "Etest" in destruct b eqn:E end
  | H : context [if ?b then _ else _] |- _ =>
      lazymatch type of b with bool => let E := fresh "Etest" in destruct b eqn:E end
  end.

(** Turn boolean comparisons on [Z] into propositions [lia] can use. *)
Ltac zify_tests :=
  repeat match goal with
  | H : (_ && _)%bool = true |- _ => apply andb_true_iff in H as [? ?]
  | H : (_ && _)%bool = false |- _ => apply andb_false_iff in H
  | H : (_ || _)%bool = true |- _ => apply orb_true_iff in H
  | H : (_ || _)%bool = false |- _ => apply orb_false_iff in H as [? ?]
  | H : negb _ = true |- _ => apply negb_true_iff in H
  | H : negb _ = false |- _ => apply negb_false_iff in H
  | H : (_ <=? _) = true |- _ => apply Z.leb_le in H
  | H : (_ <=? _) = false |- _ => apply Z.leb_gt in H
  | H : (_ <? _) = true |- _ => apply Z.ltb_lt in H
  | H : (_ <? _) = false |- _ => apply Z.ltb_ge in H
  | H : (_ =? _) = true |- _ => apply Z.eqb_eq in H
  | H : (_ =? _) = false |- _ => apply Z.eqb_neq in H
  end.

(** ** Machine integers

    A Go [int64] (and [int], on the 64-bit platforms the program targets) is a
    [Z] between [MinInt64] and [MaxInt64]; a [uint64] is a [Z] in
    [0, 2^64).  Arithmetic wraps around. *)
Definition MaxInt64 : Z := 9223372036854775807.
Definition MinInt64 : Z := -9223372036854775808.
Definition MaxUint64 : Z := 18446744073709551615.

Definition wrapU (w z : Z) : Z := z mod 2 ^ w.
Definition wrapS (w z : Z) : Z := (z + 2 ^ (w - 1)) mod 2 ^ w - 2 ^ (w - 1).

Definition int64 (z : Z) : Z := wrapS 64 z.
Definition uint64 (z : Z) : Z := wrapU 64 z.
Definition uint32 (z : Z) : Z := wrapU 32 z.
Definition uint16 (z : Z) : Z := wrapU 16 z.

Definition add64 (a b : Z) : Z := int64 (a + b).
Definition sub64 (a b : Z) : Z := int64 (a - b).

Definition is_int64 (z : Z) : Prop := MinInt64 <= z <= MaxInt64.
Definition is_uint64 (z : Z) : Prop := 0 <= z <= MaxUint64.

Ltac unfold_ints :=
  unfold add64, sub64, is_int64, is_uint64, int64, uint64, uint32, uint16,
    wrapS, wrapU, MaxInt64, MinInt64, MaxUint64 in *.

Lemma int64_id z : is_int64 z -> int64 z = z.
Proof.
  unfold_ints. change (64 - 1) with 63. intros H.
  rewrite Z.mod_small; lia.
Qed.

Lemma uint64_id z : is_uint64 z -> uint64 z = z.
Proof. unfold_ints. intros H. apply Z.mod_small. lia. Qed.

Lemma int64_range z : is_int64 (int64 z).
Proof.
  unfold_ints. change (64 - 1) with 63.
  pose proof (Z.mod_pos_bound (z + 2 ^ 63) (2 ^ 64)). lia.
Qed.

Lemma uint64_range z : is_uint64 (uint64 z).
Proof. unfold_ints. pose proof (Z.mod_pos_bound z (2 ^ 64)). lia. Qed.

Lemma wrapS_mod w z : 0 < w -> - 2 ^ (w - 1) <= z < 2 ^ (w - 1) -> wrapS w (z mod 2 ^ w) = z.
Proof.
  intros Hw Hz. unfold wrapS. rewrite Z.add_mod_idemp_l by (apply Z.pow_nonzero; lia).
  rewrite Z.mod_small; [lia|]. assert (2 ^ w = 2 * 2 ^ (w - 1)); [|lia].
  rewrite <- Z.pow_succ_r by lia. f_equal. lia.
Qed.

Lemma add64_small a b : is_int64 (a + b) -> add64 a b = a + b.
Proof. apply int64_id. Qed.

Lemma sub64_small a b : is_int64 (a - b) -> sub64 a b = a - b.
Proof. apply int64_id. Qed.

Lemma int64_uint64 z : int64 (uint64 z) = int64 z.
Proof.
  unfold_ints. change (64 - 1) with 63. f_equal.
  rewrite Zplus_mod_idemp_l. done.
Qed.

(** [end + 1] on an [int64] is [end + 1] unless [end] is [MaxInt64], where it
    wraps to [MinInt64]. *)
Lemma succ64_cases z :
  is_int64 z ->
  (z < MaxInt64 /\ add64 z 1 = z + 1) \/ (z = MaxInt64 /\ add64 z 1 = MinInt64).
Proof.
  intros H. destruct (decide (z = MaxInt64)) as [->|Hne].
  - right. done.
  - left. split; [unfold_ints; lia|]. apply add64_small. unfold_ints. lia.
Qed.

Lemma pred64_small z : is_int64 z -> MinInt64 < z -> sub64 z 1 = z - 1.
Proof. intros. apply sub64_small. unfold_ints. lia. Qed.

#[export] Hint Resolve int64_range uint64_range : go_bounds.

(** ** Bytes

    Go strings and byte slices are sequences of bytes; both are [list byte]. *)
Abbreviation byte := Byte.byte.

#[export] Instance byte_eq_decision : EqDecision byte := Byte.byte_eq_dec.

Lemma byte_of_to_N (b : byte) : Byte.of_N (Byte.to_N b) = Some b.
Proof. apply Byte.of_to_N. Qed.

#[export] Instance byte_countable : Countable byte :=
  inj_countable Byte.to_N Byte.of_N byte_of_to_N.

(** Go's [uint64(b)] and [byte(i)]. *)
Definition b2z (b : byte) : Z := Z.of_N (Byte.to_N b).
Definition z2b (z : Z) : byte :=
  default Byte.x00 (Byte.of_N (Z.to_N (z mod 256))).

Lemma b2z_range b : 0 <= b2z b < 256.
Proof. unfold b2z. pose proof (Byte.to_N_bounded b). lia. Qed.

Lemma z2b_b2z b : z2b (b2z b) = b.
Proof.
  unfold z2b. rewrite Z.mod_small by apply b2z_range.
  unfold b2z. rewrite N2Z.id, Byte.of_to_N. done.
Qed.

Lemma b2z_z2b z : b2z (z2b z) = z mod 256.
Proof.
  unfold z2b, b2z. pose proof (Z.mod_pos_bound z 256).
  destruct (Byte.of_N (Z.to_N (z mod 256))) as [b|] eqn:E; simpl.
  - apply Byte.to_of_N in E. rewrite E. lia.
  - apply Byte.of_N_None_iff in E. lia.
Qed.

Lemma b2z_inj b c : b2z b = b2z c -> b = c.
Proof. intros H. by rewrite <- (z2b_b2z b), H, z2b_b2z. Qed.

#[export] Hint Resolve b2z_range : go_bounds.

(** A string literal as a byte sequence. *)
Definition bs (s : string) : list byte := String.list_byte_of_string s.

(** [len(s)], a non-negative [int]. *)
Definition zlen {A} (l : list A) : Z := Z.of_nat (length l).

Lemma zlen_nonneg {A} (l : list A) : 0 <= zlen l.
Proof. unfold zlen. lia. Qed.

Lemma zlen_app {A} (l k : list A) : zlen (l ++ k) = zlen l + zlen k.
Proof. unfold zlen. rewrite length_app. lia. Qed.

Lemma zlen_cons {A} (x : A) l : zlen (x :: l) = 1 + zlen l.
Proof. unfold zlen. simpl. lia. Qed.

Lemma zlen_nil {A} : zlen (@nil A) = 0.
Proof. done. Qed.

#[export] Hint Resolve zlen_nonneg : go_bounds.

(** Equations between lengths. *)
Create Rewrite HintDb zlen.
#[export] Hint Rewrite @zlen_app @zlen_cons @zlen_nil : zlen.

Ltac len := autorewrite with zlen in *; lia.

Lemma forallb_elem_of {A} (f : A -> bool) l :
  forallb f l = true <-> (forall x, x ∈ l -> f x = true).
Proof. rewrite forallb_forall. by setoid_rewrite list_elem_of_In. Qed.

(** ** Outcomes

    A Go call returns a value or panics ([outcome]); a call with an [error]
    result returns a value or the error ([result]). *)
Inductive outcome (A : Type) : Type :=
| Ret (a : A)
| Panic.
Arguments Ret {A} a.
Arguments Panic {A}.

Inductive result (E A : Type) : Type :=
| Ok (a : A)
| Err (e : E).
Arguments Ok {E A} a.
Arguments Err {E A} e.

#[export] Instance outcome_eq_dec {A} `{EqDecision A} : EqDecision (outcome A).
Proof. solve_decision. Defined.
#[export] Instance result_eq_dec {E A} `{EqDecision E, EqDecision A} : EqDecision (result E A).
Proof. solve_decision. Defined.

(** Evaluates an equation between closed terms of a decidable type; the sides need no
    normal form, which matters for maps. *)
Ltac eval_eq := refine (bool_decide_eq_true_1 _ _); vm_compute; reflexivity.

#[export] Instance outcome_ret : MRet outcome := fun A a => Ret a.
#[export] Instance outcome_bind : MBind outcome := fun A B f m =>
  match m with Ret a => f a | Panic => Panic end.

#[export] Instance result_ret {E} : MRet (result E) := fun A a => Ok a.
#[export] Instance result_bind {E} : MBind (result E) := fun A B f m =>
  match m with Ok a => f a | Err e => Err e end.

(** A call that may panic and may return an error; [x ←? m; k] runs [k] when [m] returns
    without one. *)
Definition tbind {E A B} (f : A -> outcome (result E B)) (m : outcome (result E A)) : outcome (result E B) :=
  match m with
  | Panic => Panic
  | Ret (Err e) => Ret (Err e)
  | Ret (Ok a) => f a
  end.

Declare Scope go_scope.
Notation "x ←? y ; z" := (tbind (fun x => z) y)
  (at level 20, y at level 100, z at level 200, only parsing) : go_scope.
Notation "' x ←? y ; z" := (tbind (fun x => z) y)
  (at level 20, x pattern, y at level 100, z at level 200, only parsing) : go_scope.
#[global] Open Scope go_scope.

(** [vterrors.Wrapf(err, ...)]: the error is replaced by one that wraps it. *)
Definition wrap_err {E E' A} (f : E -> E') (m : result E A) : result E' A :=
  match m with Ok a => Ok a | Err e => Err (f e) end.

(** ** Slices

    [s[i]], [s[i] = v], [s[i:j]] with the bounds checks Go makes; an index out
    of range panics.  A slice is modelled by its visible part: its capacity is
    its length. *)
Definition index {A} (s : list A) (i : Z) : outcome A :=
  if (0 <=? i) && (i <? zlen s)
  then match s !! Z.to_nat i with Some x => Ret x | None => Panic end
  else Panic.

Definition store {A} (s : list A) (i : Z) (v : A) : outcome (list A) :=
  if (0 <=? i) && (i <? zlen s) then Ret (<[Z.to_nat i := v]> s) else Panic.

Definition slice {A} (s : list A) (i j : Z) : outcome (list A) :=
  if (0 <=? i) && (i <=? j) && (j <=? zlen s)
  then Ret (take (Z.to_nat (j - i)) (drop (Z.to_nat i) s))
  else Panic.

(** [s[i:]]. *)
Definition slice_from {A} (s : list A) (i : Z) : outcome (list A) :=
  slice s i (zlen s).

Lemma index_app_here {A} (p : list A) x q : index (p ++ x :: q) (zlen p) = Ret x.
Proof.
  unfold index. rewrite zlen_app, zlen_cons.
  pose proof (zlen_nonneg p). pose proof (zlen_nonneg q).
  replace (_ && _) with true by (symmetry; apply andb_true_iff; split; lia).
  rewrite (lookup_app_r p) by (unfold zlen in *; lia).
  unfold zlen. rewrite Nat2Z.id, Nat.sub_diag. done.
Qed.

Lemma store_app_here {A} (p : list A) x y q :
  store (p ++ x :: q) (zlen p) y = Ret (p ++ y :: q).
Proof.
  unfold store. rewrite zlen_app, zlen_cons.
  pose proof (zlen_nonneg p). pose proof (zlen_nonneg q).
  replace (_ && _) with true by (symmetry; apply andb_true_iff; split; lia).
  unfold zlen. rewrite Nat2Z.id.
  rewrite insert_app_r_alt by lia. rewrite Nat.sub_diag. done.
Qed.

Lemma slice_app_mid {A} (p m q : list A) :
  slice (p ++ m ++ q) (zlen p) (zlen p + zlen m) = Ret m.
Proof.
  unfold slice. rewrite !zlen_app.
  pose proof (zlen_nonneg p). pose proof (zlen_nonneg q). pose proof (zlen_nonneg m).
  replace (_ && _ && _) with true
    by (symmetry; rewrite !andb_true_iff; repeat split; lia).
  replace (zlen p + zlen m - zlen p) with (zlen m) by lia.
  unfold zlen. rewrite !Nat2Z.id, drop_app_length, take_app_length. done.
Qed.

Lemma slice_from_app {A} (p q : list A) : slice_from (p ++ q) (zlen p) = Ret q.
Proof.
  unfold slice_from. pose proof (slice_app_mid p q []) as H.
  rewrite app_nil_r in H. rewrite zlen_app. exact H.
Qed.

(** Reads at constant offsets: a buffer split where the read starts. *)
Lemma index_at {A} (s p : list A) x q i : s = p ++ x :: q -> zlen p = i -> index s i = Ret x.
Proof. intros -> <-. apply index_app_here. Qed.

Lemma slice_at {A} (s p m q : list A) i j :
  s = p ++ m ++ q -> zlen p = i -> zlen p + zlen m = j -> slice s i j = Ret m.
Proof. intros -> <- <-. apply slice_app_mid. Qed.

Lemma slice_from_at {A} (s p q : list A) i : s = p ++ q -> zlen p = i -> slice_from s i = Ret q.
Proof. intros -> <-. apply slice_from_app. Qed.

(** Reads in range. *)
Lemma slice_in_range {A} (s : list A) i j : 0 <= i <= j -> j <= zlen s ->
  exists m, slice s i j = Ret m /\ zlen m = j - i.
Proof.
  intros Hi Hj. unfold slice. replace (_ && _ && _) with true by (symmetry; rewrite !andb_true_iff; lia).
  eexists. split; [done|]. unfold zlen in *. rewrite length_take, length_drop. lia.
Qed.

(** ** Maps

    A Go map is a [gmap]; [for k, v := range m] visits the entries in the order
    of [map_to_list m], which stands for Go's unspecified order: the lemmas below
    hold for every permutation of the entries, so no result depends on it. *)
Section Range.
Context {K : Type} `{Countable K} {V W : Type}.

(** The loop [for k, v := range m { if w := f(k, v) ... { out[k] = w } }]. *)
Definition range_collect (f : K -> V -> option W) (l : list (K * V)) : gmap K W :=
  foldl (fun acc '(k, v) => match f k v with Some w => <[k:=w]> acc | None => acc end) ∅ l.

(** The same loop with a body that may panic. *)
Definition range_collectM (f : K -> V -> outcome (option W)) (l : list (K * V))
  : outcome (gmap K W) :=
  foldl (fun acc '(k, v) =>
    acc ← acc; w ← f k v;
    match w with Some w => Ret (<[k:=w]> acc) | None => Ret acc end) (Ret ∅) l.

(** Induction over the entries of a map in some order, the last visited first. *)
Lemma range_ind (P : list (K * V) -> gmap K V -> Prop) :
  P [] ∅ ->
  (forall l k v m, l ≡ₚ map_to_list (delete k m) -> m !! k = Some v ->
     P l (delete k m) -> P (l ++ [(k, v)]) m) ->
  forall l m, l ≡ₚ map_to_list m -> P l m.
Proof.
  intros Hnil Hsnoc l. induction l as [|[k v] l IH] using rev_ind; intros m Hl.
  - apply Permutation_nil, map_to_list_empty_iff in Hl as ->. done.
  - assert (m !! k = Some v) as Hk.
    { apply elem_of_map_to_list. rewrite <- Hl. set_solver. }
    rewrite Permutation_app_comm in Hl. simpl in Hl.
    rewrite <- (insert_id m k v), <- insert_delete_eq, map_to_list_insert in Hl
      by (done || apply lookup_delete_eq).
    apply Permutation_cons_inv in Hl. auto.
Qed.

Lemma range_collect_lookup f (m : gmap K V) l k :
  l ≡ₚ map_to_list m -> range_collect f l !! k = (m !! k) ≫= f k.
Proof.
  unfold range_collect. revert l m. apply range_ind; [done|].
  intros l k' v m Hl Hk IH. rewrite foldl_app. simpl. revert IH.
  destruct (decide (k = k')) as [->|Hne].
  - rewrite lookup_delete_eq, Hk. simpl. intros IH.
    destruct (f k' v); [by rewrite lookup_insert_eq|done].
  - rewrite lookup_delete_ne by done. intros IH.
    destruct (f k' v); [by rewrite lookup_insert_ne|done].
Qed.

Lemma range_collectM_pure f g l :
  (forall k v, (k, v) ∈ l -> f k v = Ret (g k v)) ->
  range_collectM f l = Ret (range_collect g l).
Proof.
  unfold range_collectM, range_collect. induction l as [|[k v] l IH] using rev_ind; intros Hf.
  - done.
  - rewrite !foldl_app. simpl. rewrite IH by set_solver. simpl.
    rewrite Hf by set_solver. simpl. by destruct (g k v).
Qed.

(** One step of a loop that copies the keys [ks] of [m] into [acc]. *)
Lemma lookup_collected (m acc : gmap K V) k (ks : list K) v k' :
  m !! k = Some v -> k ∉ ks ->
  (if bool_decide (k' ∈ ks) then m !! k' else <[k := v]> acc !! k') =
  (if bool_decide (k' ∈ k :: ks) then m !! k' else acc !! k').
Proof.
  intros Hl Hnin. destruct (decide (k' = k)) as [->|Hne].
  - rewrite bool_decide_eq_false_2, bool_decide_eq_true_2 by (done || by left).
    by rewrite lookup_insert_eq.
  - rewrite lookup_insert_ne by done. destruct (decide (k' ∈ ks)).
    + rewrite !bool_decide_eq_true_2; [done|by right|done].
    + rewrite !bool_decide_eq_false_2; [done| |done]. by intros [?|?]%elem_of_cons.
Qed.

(** Copying all keys of [m] gives [m]. *)
Lemma collected_all (m r : gmap K V) (ks : list K) :
  (forall k, k ∈ ks <-> is_Some (m !! k)) ->
  (forall k, r !! k = if bool_decide (k ∈ ks) then m !! k else (∅ : gmap K V) !! k) -> r = m.
Proof.
  intros Hin Hr. apply map_eq. intros k. rewrite Hr. destruct (decide (k ∈ ks)) as [H'|H'].
  - by rewrite bool_decide_eq_true_2.
  - rewrite bool_decide_eq_false_2 by done. rewrite Hin in H'. rewrite lookup_empty.
    symmetry. by apply eq_None_not_Some.
Qed.

Lemma elem_of_keys (m : gmap K V) (ks : list K) :
  ks ≡ₚ (map_to_list m).*1 -> NoDup ks /\ forall k, k ∈ ks <-> is_Some (m !! k).
Proof.
  intros Hp. split; [rewrite Hp; apply NoDup_fst_map_to_list|].
  intros k. rewrite Hp, list_elem_of_fmap. split.
  - intros ([k' v] & -> & Hv%elem_of_map_to_list). simpl. eauto.
  - intros [v Hv]. exists (k, v). by rewrite elem_of_map_to_list.
Qed.
End Range.

(** ** Sums over maps

    The sum of a measure over the values of a map. *)
Section MapSum.
Context {K : Type} `{Countable K} {V : Type} (f : V -> Z).

Definition msum (m : gmap K V) : Z := map_fold (fun _ v n => f v + n) 0 m.

Lemma msum_empty : msum ∅ = 0.
Proof. apply map_fold_empty. Qed.

Lemma msum_insert m k v : m !! k = None -> msum (<[k := v]> m) = f v + msum m.
Proof. intros Hk. unfold msum. apply (map_fold_insert_L (fun _ v n => f v + n)); [intros; lia|done]. Qed.

Lemma msum_delete m k v : m !! k = Some v -> msum (delete k m) = msum m - f v.
Proof.
  intros Hk. rewrite <- (insert_id m k v Hk) at 2. rewrite <- insert_delete_eq.
  rewrite msum_insert by apply lookup_delete_eq. lia.
Qed.

Lemma msum_replace m k v w : m !! k = Some v -> msum (<[k := w]> m) = msum m - f v + f w.
Proof.
  intros Hk. rewrite <- insert_delete_eq, msum_insert by apply lookup_delete_eq.
  rewrite (msum_delete m k v Hk). lia.
Qed.

Lemma msum_nonneg m : (forall k v, m !! k = Some v -> 0 <= f v) -> 0 <= msum m.
Proof.
  induction m as [|k v m Hk IH] using map_ind; intros Hf; [by rewrite msum_empty|].
  rewrite msum_insert by done. assert (0 <= f v) by (apply (Hf k); apply lookup_insert_eq).
  assert (0 <= msum m); [|lia]. apply IH. intros k' v' Hv. apply (Hf k'). rewrite lookup_insert_ne; [done|congruence].
Qed.

(** A value that counts for something. *)
Lemma msum_pos m : (forall k v, m !! k = Some v -> 0 <= f v) -> 0 < msum m -> exists k v, m !! k = Some v /\ 0 < f v.
Proof.
  induction m as [|k v m Hk IH] using map_ind; intros Hf; [rewrite msum_empty; lia|].
  rewrite msum_insert by done. intros Hpos. destruct (decide (0 < f v)).
  - exists k, v. by rewrite lookup_insert_eq.
  - destruct IH as (k' & v' & Hk' & Hv'); [|specialize (Hf k v (lookup_insert_eq _ _ _)); lia|].
    + intros k' v' Hv. apply (Hf k'). rewrite lookup_insert_ne; [done|congruence].
    + exists k', v'. split; [|done]. rewrite lookup_insert_ne; [done|congruence].
Qed.

(** One value is at most the sum. *)
Lemma msum_le m k v : (forall k v, m !! k = Some v -> 0 <= f v) -> m !! k = Some v -> f v <= msum m.
Proof.
  intros Hf Hk. assert (0 <= msum (delete k m)).
  { apply msum_nonneg. intros k' v' [_ Hv]%lookup_delete_Some. by apply (Hf k'). }
  rewrite (msum_delete m k v Hk) in *. lia.
Qed.

(** Values that count at most one each. *)
Lemma msum_size m : (forall v, f v <= 1) -> msum m <= Z.of_nat (size m).
Proof.
  intros Hf. induction m as [|k v m Hk IH] using map_ind; [by rewrite msum_empty, map_size_empty|].
  rewrite msum_insert, map_size_insert_None by done. specialize (Hf v). lia.
Qed.
End MapSum.

Lemma msum_mono {K} `{Countable K} {V} (f g : V -> Z) (m : gmap K V) :
  (forall v, f v <= g v) -> msum f m <= msum g m.
Proof.
  intros Hfg. induction m as [|k v m Hk IH] using map_ind; [by rewrite !msum_empty|].
  rewrite !msum_insert by done. specialize (Hfg v). lia.
Qed.

Lemma msum_ext {K} `{Countable K} {V} (f g : V -> Z) (m : gmap K V) : (forall v, f v = g v) -> msum f m = msum g m.
Proof.
  intros Hfg. induction m as [|k v m Hk IH] using map_ind; [by rewrite !msum_empty|].
  by rewrite !msum_insert, Hfg, IH by done.
Qed.

Lemma msum_fmap {K} `{Countable K} {V W} (f : W -> Z) (g : V -> W) (m : gmap K V) : msum f (g <$> m) = msum (f ∘ g) m.
Proof.
  induction m as [|k v m Hk IH] using map_ind; [by rewrite fmap_empty, !msum_empty|].
  rewrite fmap_insert, !msum_insert, IH; [done|done|]. by rewrite lookup_fmap, Hk.
Qed.

(** ** Transition systems

    What holds at the start and is kept by every step holds in every reachable state. *)
Lemma rtc_keeps {S : Type} (step : relation S) (P : S -> Prop) s s' :
  P s -> (forall a b, P a -> step a b -> P b) -> rtc step s s' -> P s'.
Proof. intros Hs Hk Hr. revert Hs. induction Hr; eauto. Qed.

(** ** Draining a transition system

    When every state with work left has a step that leaves less work, there is a run to
    a state without work. *)
Lemma drain {S : Type} (step : relation S) (P : S -> Prop) (work : S -> Z) s :
  (forall s, P s -> 0 <= work s) ->
  (forall s, P s -> 0 < work s -> exists s', step s s' /\ P s' /\ work s' < work s) ->
  P s -> exists s', rtc step s s' /\ P s' /\ work s' = 0.
Proof.
  intros Hpos Hstep. remember (Z.to_nat (work s)) as n eqn:En. revert s En.
  induction n as [n IH] using lt_wf_ind. intros s -> Hs. specialize (Hpos s Hs) as Hn.
  destruct (decide (work s = 0)) as [E|E]; [by exists s|].
  destruct (Hstep s Hs) as (s1 & Hs1 & HP1 & Hlt); [lia|]. specialize (Hpos s1 HP1) as Hn1.
  destruct (IH (Z.to_nat (work s1)) ltac:(lia) s1 eq_refl HP1) as (s2 & Hr & HP2 & E2).
  exists s2. split; [|done]. by apply (rtc_l _ _ s1).
Qed.
