(* ===== verification/Intervals.v ===== *)
(** * Interval lists

    The per-server part of [go/mysql/mysql56_gtid_set.go]: a server's
    transactions are a list of closed intervals of [int64] sequence numbers.
    The loops of [AddGTID], [Contains], [ContainsGTID], [Union], [Intersect],
    [Difference], [TrimGTIDSet] and [Merge] that work on the intervals of one
    server are the definitions of this file; [Gtid56] composes them into the
    operations on whole sets.  A slice a loop appends to and whose last element
    it rewrites ([newIntervals], [diffIntervals]) is kept newest first, so that
    its last element is the head of the list.  Loops that walk two slices by
    index keep the remaining suffixes instead of the indices. *)

From Equations Require Import Equations.
From S2P Require Import Prelude.

Record interval := Interval { start : Z; iend : Z }.

#[export] Instance interval_eq_dec : EqDecision interval.
Proof. solve_decision. Defined.

(** Remember the equation of a scrutinee, for termination arguments. *)
Definition inspect {A} (a : A) : {b : A | a = b} := exist _ a eq_refl.

(** ** The code *)

(** [interval.contains]. *)
Definition contains (iv other : interval) : bool :=
  (start iv <=? start other) && (iend other <=? iend iv).

(** The scan of [ContainsGTID]. *)
Fixpoint containsGTID_loop (intervals : list interval) (Sequence : Z) : bool :=
  match intervals with
  | [] => false
  | iv :: rest =>
      if Sequence <? start iv then false
      else if Sequence <=? iend iv then true
      else containsGTID_loop rest Sequence
  end.

(** The inner loop of [Contains]: advance until an interval covers [iv]; [None]
    when the intervals run out. *)
Fixpoint contains_seek (intervals : list interval) (iv : interval)
  : option (list interval) :=
  match intervals with
  | [] => None
  | x :: rest => if contains x iv then Some intervals else contains_seek rest iv
  end.

(** The loop of [Contains] over the other set's intervals of one server. *)
Fixpoint contains_loop (intervals otherIntervals : list interval) : bool :=
  match otherIntervals with
  | [] => true
  | iv :: rest =>
      match contains_seek intervals iv with
      | None => false
      | Some intervals' => contains_loop intervals' rest
      end
  end.

(** The end of an iteration of [AddGTID]'s loop: the interval is merged with the
    previous one when they touch, and appended otherwise. *)
Definition append_or_merge (newIntervals : list interval) (iv : interval)
  : list interval :=
  match newIntervals with
  | prev :: newIntervals' =>
      if start iv =? add64 (iend prev) 1
      then Interval (start prev) (iend iv) :: newIntervals'
      else iv :: newIntervals
  | [] => [iv]
  end.

(** One iteration of the loop of [AddGTID] over the intervals of the GTID's
    server; the state is [added] and [newIntervals]. *)
Definition addGTID_step (Sequence : Z) (st : bool * list interval) (iv : interval)
  : bool * list interval :=
  let '(added, newIntervals) := st in
  if added then (added, append_or_merge newIntervals iv)
  else if Sequence =? sub64 (start iv) 1
  then (true, append_or_merge newIntervals (Interval Sequence (iend iv)))
  else if Sequence =? add64 (iend iv) 1
  then (true, append_or_merge newIntervals (Interval (start iv) Sequence))
  else if Sequence <? sub64 (start iv) 1
  then (true, append_or_merge (Interval Sequence Sequence :: newIntervals) iv)
  else (added, append_or_merge newIntervals iv).

Definition addGTID_loop (intervals : list interval) (Sequence : Z)
  : bool * list interval :=
  foldl (addGTID_step Sequence) (false, []) intervals.

(** The loop of [Intersect] for one server. *)
Equations? intersect_loop (intervals otherIntervals : list interval) : list interval
  by wf (length intervals + length otherIntervals)%nat lt :=
  intersect_loop [] _ := [];
  intersect_loop _ [] := [];
  intersect_loop (tmp :: intervals) (o :: otherIntervals)
    with iend o <? start tmp => {
    | true => intersect_loop (tmp :: intervals) otherIntervals;
    | false with iend tmp <? start o => {
      | true => intersect_loop intervals (o :: otherIntervals);
      | false with iend o <? iend tmp => {
        | true => Interval (Z.max (start tmp) (start o)) (Z.min (iend tmp) (iend o))
                    :: intersect_loop (tmp :: intervals) otherIntervals;
        | false => Interval (Z.max (start tmp) (start o)) (Z.min (iend tmp) (iend o))
                     :: intersect_loop intervals (o :: otherIntervals) } } }.
Proof. all: simpl; lia. Qed.

(** [popInterval]: the interval with the earliest start, and what is left. *)
Definition popInterval (s1 s2 : list interval)
  : option (interval * list interval * list interval) :=
  match s1, s2 with
  | [], [] => None
  | i1 :: r1, [] => Some (i1, r1, [])
  | [], i2 :: r2 => Some (i2, [], r2)
  | i1 :: r1, i2 :: r2 =>
      if start i1 <=? start i2 then Some (i1, r1, s2) else Some (i2, s1, r2)
  end.

Lemma popInterval_length s1 s2 iv r1 r2 :
  popInterval s1 s2 = Some (iv, r1, r2) ->
  (length r1 + length r2 < length s1 + length s2)%nat.
Proof.
  unfold popInterval. destruct s1, s2; try destruct (_ <=? _);
    intros [= <- <- <-]; simpl; lia.
Qed.

(** The body of the loop of [Union]. *)
Definition union_step (newIntervals : list interval) (nextInterval : interval)
  : list interval :=
  match newIntervals with
  | [] => [nextInterval]
  | activeInterval :: rest =>
      if iend nextInterval <=? iend activeInterval then newIntervals
      else if add64 (iend activeInterval) 1 <? start nextInterval
      then nextInterval :: newIntervals
      else Interval (start activeInterval) (iend nextInterval) :: rest
  end.

Equations? union_loop (newIntervals s1 s2 : list interval) : list interval
  by wf (length s1 + length s2)%nat lt :=
  union_loop newIntervals s1 s2 with inspect (popInterval s1 s2) => {
    | exist _ None _ => newIntervals
    | exist _ (Some (nextInterval, r1, r2)) H =>
        union_loop (union_step newIntervals nextInterval) r1 r2 }.
Proof. by eapply popInterval_length. Qed.

(** The intervals [Union] computes for a server both sets have. *)
Definition union_intervals (intervals otherIntervals : list interval) : list interval :=
  reverse (union_loop [] intervals otherIntervals).

(** [diffLoop] of [Difference]: [diffIntervals] is [iv :: done], [intervals] and
    [others] are what [advance] and [advanceOther] have left.  The result is
    [diffIntervals] and [intervals] when the loop is left. *)
Equations? diff_loop (iv : interval) (done intervals : list interval)
    (o : interval) (others : list interval)
  : outcome (list interval * list interval)
  by wf (length intervals + length others)%nat lt :=
  diff_loop iv done intervals o others with iend iv <? start o => {
  | true with intervals => {
    | [] => Ret (iv :: done, []);
    | iv' :: intervals' => diff_loop iv' (iv :: done) intervals' o others };
  | false with iend o <? start iv => {
    | true with others => {
      | [] => Ret (iv :: done, intervals);
      | o' :: others' => diff_loop iv done intervals o' others' };
    | false with (start o <=? start iv) && (iend iv <=? iend o) => {
      | true with intervals => {
        | [] => Ret (done, []);
        | iv' :: intervals' => diff_loop iv' done intervals' o others };
      | false with (start iv <? start o) && (start o <=? iend iv) && (iend iv <=? iend o) => {
        | true with intervals => {
          | [] => Ret (Interval (start iv) (sub64 (start o) 1) :: done, []);
          | iv' :: intervals' =>
              diff_loop iv' (Interval (start iv) (sub64 (start o) 1) :: done)
                intervals' o others };
        | false with (start o <=? start iv) && (start iv <=? iend o) && (iend o <? iend iv) => {
          | true with others => {
            | [] => Ret (Interval (add64 (iend o) 1) (iend iv) :: done, intervals);
            | o' :: others' =>
                diff_loop (Interval (add64 (iend o) 1) (iend iv)) done intervals o' others' };
          | false with (start iv <? start o) && (iend o <? iend iv) => {
            | true with others => {
              | [] => Ret (Interval (add64 (iend o) 1) (iend iv)
                             :: Interval (start iv) (sub64 (start o) 1) :: done, intervals);
              | o' :: others' =>
                  diff_loop (Interval (add64 (iend o) 1) (iend iv))
                    (Interval (start iv) (sub64 (start o) 1) :: done) intervals o' others' };
            | false => Panic } } } } } }.
Proof. all: simpl; lia. Qed.

(** The body of [Difference] for a server both sets have: [None] when no entry is
    written for the server. *)
Definition diff_intervals (intervals otherIntervals : list interval)
  : outcome (option (list interval)) :=
  match intervals with
  | [] => Ret None
  | iv :: intervals =>
      match otherIntervals with
      | [] => Ret (Some intervals)
      | o :: others =>
          '(diffIntervals, intervals) ← diff_loop iv [] intervals o others;
          let diffIntervals := reverse diffIntervals ++ intervals in
          match diffIntervals with
          | [] => Ret None
          | _ => Ret (Some diffIntervals)
          end
      end
  end.

(** The loop of [TrimGTIDSet] for one server. *)
Fixpoint trim_loop (lastInterval : interval) (otherIntervals : list interval)
  : list interval :=
  match otherIntervals with
  | [] => []
  | o :: rest =>
      if iend o <? iend lastInterval then o :: trim_loop lastInterval rest
      else if start o <=? iend lastInterval
      then Interval (start o) (Z.min (iend o) (iend lastInterval)) :: trim_loop lastInterval rest
      else []
  end.

(** The inner loop of [Merge]: [tmpInterval] absorbs the next intervals of either
    list that it touches; the lists are what follows [lastIntervalsIndex] and
    [otherIntervalsIndex]. *)
Definition touches (tmp : interval) (l : list interval) : bool :=
  match l with [] => false | x :: _ => start x <=? add64 (iend tmp) 1 end.

Definition merge_own (tmp : interval) (rest : list interval) : interval * list interval :=
  match rest with
  | x :: rest' =>
      if touches tmp rest
      then (Interval (start tmp) (Z.max (iend tmp) (iend x)), rest') else (tmp, rest)
  | [] => (tmp, rest)
  end.

Definition merge_other (tmp : interval) (others : list interval)
  : interval * list interval :=
  match others with
  | o :: others' =>
      if touches tmp others
      then (Interval (Z.min (start tmp) (start o)) (Z.max (iend tmp) (iend o)), others')
      else (tmp, others)
  | [] => (tmp, others)
  end.

Lemma merge_step_shorter tmp rest others :
  touches tmp rest || touches tmp others = true ->
  let '(tmp1, rest1) := merge_own tmp rest in
  let '(_, others1) := merge_other tmp1 others in
  (length rest1 + length others1 < length rest + length others)%nat.
Proof.
  unfold merge_own, merge_other.
  destruct rest as [|x rest], others as [|o others]; simpl; intros H; try done;
    repeat case_test; simpl in *; try congruence; lia.
Qed.

Equations? merge_inner (tmp : interval) (rest others : list interval)
  : interval * list interval * list interval
  by wf (length rest + length others)%nat lt :=
  merge_inner tmp rest others with inspect (touches tmp rest || touches tmp others) => {
  | exist _ true H =>
      merge_inner (merge_other (merge_own tmp rest).1 others).1
        (merge_own tmp rest).2 (merge_other (merge_own tmp rest).1 others).2;
  | exist _ false _ => (tmp, rest, others) }.
Proof.
  pose proof (merge_step_shorter tmp rest others H) as Hlt.
  destruct (merge_own tmp rest) as [tmp1 rest1]. simpl.
  destruct (merge_other tmp1 others) as [tmp2 others2]. exact Hlt.
Qed.

(** The outer loop of [Merge] for one server; [fuel] bounds its iterations, of
    which there are at most [length intervals]. *)
Fixpoint merge_loop (fuel : nat) (intervals others : list interval) : list interval :=
  match fuel, intervals with
  | S fuel, tmp :: rest =>
      let '(tmp, rest, others) := merge_inner tmp rest others in
      tmp :: merge_loop fuel rest others
  | _, _ => []
  end.

Definition merge_intervals (intervals otherIntervals : list interval) : list interval :=
  merge_loop (length intervals) intervals otherIntervals.

(** The inner loop does not lengthen the intervals that are left, so more fuel changes nothing. *)
Lemma merge_inner_shorter tmp rest others : (length (merge_inner tmp rest others).1.2 <= length rest)%nat.
Proof.
  funelim (merge_inner tmp rest others); [|done].
  etrans; [eassumption|]. unfold merge_own. destruct rest; repeat case_test; simpl; lia.
Qed.

Lemma merge_loop_fuel f g intervals others :
  (length intervals <= f)%nat -> (length intervals <= g)%nat -> merge_loop f intervals others = merge_loop g intervals others.
Proof.
  revert g intervals others. induction f as [|f IH]; intros [|g] [|tmp rest] others; simpl; intros Hf Hg; try (done || lia).
  pose proof (merge_inner_shorter tmp rest others) as Hle. destruct (merge_inner tmp rest others) as [[tmp' rest'] others'].
  simpl in Hle. f_equal. apply IH; lia.
Qed.

(** ** What an interval list denotes *)

(** The sequence numbers a list of intervals stands for. *)
Definition mem (n : Z) (l : list interval) : Prop :=
  exists iv, iv ∈ l /\ start iv <= n <= iend iv.

(** Non-empty intervals in increasing order, the first above [lo], consecutive
    ones more than [g] apart: [g = 0] for disjoint intervals, [g = 1] for
    disjoint intervals that also do not touch. *)
Fixpoint spaced (g lo : Z) (l : list interval) : Prop :=
  match l with
  | [] => True
  | iv :: l' =>
      lo < start iv /\ start iv <= iend iv <= MaxInt64 /\ spaced g (iend iv + g) l'
  end.

(** The canonical form: what MySQL itself prints. *)
Definition canonical (l : list interval) : Prop := spaced 1 MinInt64 l.

(** Non-empty intervals sorted by their start, as [ParseMysql56GTIDSet] leaves
    them. *)
Fixpoint sorted_starts (lo : Z) (l : list interval) : Prop :=
  match l with
  | [] => True
  | iv :: l' =>
      lo <= start iv /\ start iv <= iend iv <= MaxInt64 /\ sorted_starts (start iv) l'
  end.

Definition in_order (l : list interval) : Prop := sorted_starts (MinInt64 + 1) l.

Lemma mem_nil n : mem n [] <-> False.
Proof. split; [|done]. intros (iv & H & _). by apply elem_of_nil in H. Qed.

Lemma mem_cons n iv l : mem n (iv :: l) <-> start iv <= n <= iend iv \/ mem n l.
Proof.
  unfold mem. split.
  - intros (x & [->|H]%elem_of_cons & Hn); eauto.
  - intros [H|(x & H & Hn)]; [exists iv | exists x]; rewrite elem_of_cons; eauto.
Qed.

Lemma mem_app n l k : mem n (l ++ k) <-> mem n l \/ mem n k.
Proof.
  induction l as [|iv l IH]; simpl.
  - rewrite mem_nil. tauto.
  - rewrite !mem_cons, IH. tauto.
Qed.

Lemma mem_reverse n l : mem n (reverse l) <-> mem n l.
Proof. unfold mem. by setoid_rewrite elem_of_reverse. Qed.

Lemma spaced_weaken g g' lo lo' l :
  spaced g lo l -> lo' <= lo -> g' <= g -> spaced g' lo' l.
Proof.
  revert lo lo'. induction l as [|iv l IH]; simpl; [done|].
  intros lo lo' (H1 & H2 & H3) Hlo Hg. split_and!; try lia.
  eapply IH; eauto; lia.
Qed.

Lemma spaced_mem g lo l n : 0 <= g -> spaced g lo l -> mem n l -> lo < n <= MaxInt64.
Proof.
  intros Hg. revert lo. induction l as [|iv l IH]; intros lo; simpl.
  - by rewrite mem_nil.
  - intros (H1 & H2 & H3). rewrite mem_cons. intros [H|H]; [lia|].
    specialize (IH _ H3 H). lia.
Qed.

Lemma spaced_sorted g lo l : 0 <= g -> spaced g lo l -> sorted_starts (lo + 1) l.
Proof.
  intros Hg. revert lo.
  cut (forall lo lo', lo' <= lo + 1 -> spaced g lo l -> sorted_starts lo' l).
  { intros H lo. apply H. lia. }
  induction l as [|iv l IH]; simpl; [done|].
  intros lo lo' Hlo (H1 & H2 & H3). split_and!; try lia.
  eapply IH; [|exact H3]. lia.
Qed.

Lemma sorted_starts_weaken lo lo' l : sorted_starts lo l -> lo' <= lo -> sorted_starts lo' l.
Proof. destruct l; simpl; [done|]. intros (? & ? & ?) ?. split_and!; try lia; done. Qed.

Lemma canonical_in_order l : canonical l -> in_order l.
Proof. apply spaced_sorted. lia. Qed.

Lemma spaced_nonneg_canonical l : canonical l -> spaced 0 MinInt64 l.
Proof. intros H. by eapply spaced_weaken; [exact H|lia..]. Qed.

Lemma sorted_starts_mem lo l n : sorted_starts lo l -> mem n l -> lo <= n <= MaxInt64.
Proof.
  revert lo. induction l as [|iv l IH]; intros lo; simpl.
  - by rewrite mem_nil.
  - intros (H1 & H2 & H3). rewrite mem_cons. intros [H|H]; [lia|].
    specialize (IH _ H3 H). lia.
Qed.

(** The end of the last interval, or [lo - g] for an empty list: what the next
    interval must exceed by more than [g]. *)
Definition upper (g lo : Z) (l : list interval) : Z :=
  match last l with Some iv => iend iv + g | None => lo end.

Lemma upper_cons g lo iv l : upper g lo (iv :: l) = upper g (iend iv + g) l.
Proof. unfold upper. rewrite last_cons. by destruct (last l). Qed.

Lemma upper_snoc g lo l iv : upper g lo (l ++ [iv]) = iend iv + g.
Proof. unfold upper. by rewrite last_snoc. Qed.

Lemma spaced_app g lo l k : spaced g lo (l ++ k) <-> spaced g lo l /\ spaced g (upper g lo l) k.
Proof.
  revert lo. induction l as [|iv l IH]; intros lo; simpl.
  - unfold upper. simpl. tauto.
  - rewrite IH, upper_cons. tauto.
Qed.

Lemma spaced_upper g lo l n :
  0 <= g -> spaced g lo l -> mem n l -> n + g <= upper g lo l.
Proof.
  intros Hg. revert lo. induction l as [|iv l IH] using rev_ind; intros lo.
  - by rewrite mem_nil.
  - rewrite spaced_app, upper_snoc, mem_app, mem_cons, mem_nil. simpl.
    intros (H1 & H2 & H3 & _) [H|[H|[]]]; [|lia].
    specialize (IH _ H1 H). lia.
Qed.

#[export] Hint Resolve canonical_in_order spaced_nonneg_canonical : go_bounds.

(** ** Membership tests *)

(** On intervals sorted by start, [ContainsGTID]'s scan with its early exit
    decides membership. *)
Lemma containsGTID_loop_spec lo l n :
  sorted_starts lo l -> containsGTID_loop l n = true <-> mem n l.
Proof.
  revert lo. induction l as [|iv l IH]; intros lo; simpl; rewrite ?mem_nil, ?mem_cons.
  - intros _. split; [done|tauto].
  - intros (H1 & H2 & H3). destruct (Z.ltb_spec n (start iv)).
    + split; [done|]. intros [?|Hm]; [lia|].
      pose proof (sorted_starts_mem _ _ _ H3 Hm). lia.
    + destruct (Z.leb_spec n (iend iv)).
      * split; [left; lia|done].
      * rewrite IH by eauto. split; [tauto|]. intros [?|?]; [lia|done].
Qed.

Lemma contains_spec a b :
  start b <= iend b ->
  contains a b = true <-> forall n, start b <= n <= iend b -> start a <= n <= iend a.
Proof.
  intros Hb. unfold contains. rewrite andb_true_iff, !Z.leb_le. split.
  - intros [? ?] n Hn. lia.
  - intros H. pose proof (H (start b)). pose proof (H (iend b)). lia.
Qed.

Lemma contains_seek_Some l iv l' :
  contains_seek l iv = Some l' ->
  exists p x r, l = p ++ l' /\ l' = x :: r /\ contains x iv = true.
Proof.
  induction l as [|x l IH]; simpl; [done|].
  destruct (contains x iv) eqn:E.
  - intros [= <-]. by exists [], x, l.
  - intros H. destruct (IH H) as (p & y & r & -> & -> & Hc).
    by exists (x :: p), y, r.
Qed.

(** An interval inside a canonical list lies inside one of its intervals. *)
Lemma spaced_covers lo l iv :
  spaced 1 lo l -> start iv <= iend iv ->
  (forall n, start iv <= n <= iend iv -> mem n l) ->
  exists x, x ∈ l /\ contains x iv = true.
Proof.
  revert lo. induction l as [|x l IH]; intros lo; simpl.
  - intros _ Hne H. specialize (H (start iv)). rewrite mem_nil in H. lia.
  - intros (H1 & H2 & H3) Hne H.
    destruct (decide (start iv <= iend x)) as [Hle|Hgt].
    + exists x. split; [by left|]. apply contains_spec; [done|]. intros n Hn.
      assert (Hin : forall k, start iv <= k <= n -> k <= iend x).
      { intros k Hk. destruct (decide (k <= iend x)); [done|].
        pose proof (H (iend x + 1) ltac:(lia)) as Hx. rewrite mem_cons in Hx.
        destruct Hx as [?|Hm]; [lia|].
        pose proof (spaced_mem 1 _ _ _ ltac:(lia) H3 Hm). lia. }
      specialize (Hin n ltac:(lia)).
      pose proof (H (start iv) ltac:(lia)) as Hs. rewrite mem_cons in Hs.
      destruct Hs as [?|Hm]; [lia|].
      pose proof (spaced_mem 1 _ _ _ ltac:(lia) H3 Hm). lia.
    + destruct (IH (iend x + 1)) as (y & Hy & Hc); try done.
      * intros n Hn. specialize (H n Hn). rewrite mem_cons in H.
        destruct H as [?|?]; [lia|done].
      * exists y. split; [by right|done].
Qed.

Lemma contains_seek_complete lo l iv :
  spaced 1 lo l -> start iv <= iend iv ->
  (forall n, start iv <= n <= iend iv -> mem n l) ->
  exists p x r, contains_seek l iv = Some (x :: r) /\ l = p ++ x :: r /\
    contains x iv = true /\ (forall y, y ∈ p -> iend y < start iv).
Proof.
  intros Hsp Hne Hcov. destruct (spaced_covers _ _ _ Hsp Hne Hcov) as (x & Hx & Hc).
  clear Hcov. revert lo Hsp. induction l as [|y l IH]; intros lo Hsp.
  - by apply elem_of_nil in Hx.
  - destruct Hsp as (H1 & H2 & H3). simpl. destruct (contains y iv) eqn:E.
    + exists [], y, l. split_and!; try done. intros z Hz. by apply elem_of_nil in Hz.
    + apply elem_of_cons in Hx as [->|Hx]; [congruence|].
      destruct (IH Hx _ H3) as (p & z & r & Hs & -> & Hcz & Hp).
      exists (y :: p), z, r. split_and!; try done.
      intros w [->|Hw]%elem_of_cons; [|by apply Hp].
      rewrite contains_spec in Hcz by done. specialize (Hcz (start iv) ltac:(lia)).
      assert (mem (start iv) (p ++ z :: r)) as Hm by (rewrite mem_app, mem_cons; auto).
      pose proof (spaced_mem 1 _ _ _ ltac:(lia) H3 Hm). lia.
Qed.

(** [Contains] decides inclusion when the receiver's intervals are canonical. *)
Lemma contains_loop_spec lo a lob b :
  spaced 1 lo a -> sorted_starts lob b ->
  contains_loop a b = true <-> (forall n, mem n b -> mem n a).
Proof.
  revert a lo lob. induction b as [|iv b IH]; intros a lo lob Ha; simpl.
  - intros _. split; [|done]. intros _ n. by rewrite mem_nil.
  - intros (H1 & H2 & H3). split.
    + destruct (contains_seek a iv) as [a'|] eqn:Es; [|done].
      apply contains_seek_Some in Es as (p & x & r & -> & -> & Hc).
      apply spaced_app in Ha as [Hp Hx].
      intros Hl n. rewrite mem_cons, mem_app. intros [Hn|Hn].
      * right. rewrite mem_cons. left. rewrite contains_spec in Hc by lia. by apply Hc.
      * right. eapply IH; eauto.
    + intros Hsub.
      destruct (contains_seek_complete lo a iv) as (p & x & r & -> & -> & Hc & Hp);
        [done|lia|intros n Hn; apply Hsub; rewrite mem_cons; auto|].
      pose proof Ha as Ha'. apply spaced_app in Ha as [_ Hx]. apply (IH _ _ _ Hx H3).
      intros n Hn. pose proof (sorted_starts_mem _ _ _ H3 Hn) as Hlow.
      specialize (Hsub n). rewrite mem_cons, mem_app in Hsub.
      destruct Hsub as [Hm|Hm]; [by right| |done].
      destruct Hm as (y & Hy & Hny). specialize (Hp y Hy). lia.
Qed.

(** ** AddGTID *)

Lemma append_or_merge_gap acc iv :
  (forall prev, head acc = Some prev -> MinInt64 <= iend prev /\ iend prev + 1 < start iv) ->
  start iv <= MaxInt64 ->
  append_or_merge acc iv = iv :: acc.
Proof.
  intros H Hm. destruct acc as [|prev acc]; [done|]. simpl.
  destruct (H prev eq_refl) as [Hlo Hgap].
  rewrite add64_small by (unfold_ints; lia).
  replace (_ =? _) with false; [done|]. symmetry. apply Z.eqb_neq. lia.
Qed.

Lemma head_reverse {A} (l : list A) : head (reverse l) = last l.
Proof.
  induction l as [|x l _] using rev_ind; [done|].
  by rewrite reverse_snoc, last_snoc.
Qed.

Lemma spaced_snoc g lo l iv :
  spaced g lo (l ++ [iv]) <->
  spaced g lo l /\ upper g lo l < start iv /\ start iv <= iend iv <= MaxInt64.
Proof. rewrite spaced_app. simpl. tauto. Qed.

Lemma upper_bounds g lo l :
  0 <= g -> spaced g lo l -> lo <= upper g lo l <= Z.max lo (MaxInt64 + g).
Proof.
  intros Hg. revert lo. induction l as [|x l IH]; intros lo.
  - unfold upper. simpl. lia.
  - intros (? & ? & H). rewrite upper_cons. specialize (IH _ H). lia.
Qed.

(** The loop invariant of [AddGTID] after the prefix [p]. *)
Definition addGTID_inv (seq : Z) (p : list interval) (st : bool * list interval) : Prop :=
  let '(added, acc) := st in
  canonical (reverse acc) /\
  if added
  then (forall n, mem n acc <-> mem n p \/ n = seq) /\
       exists a acc', acc = a :: acc' /\ iend a <= upper 1 MinInt64 p
  else acc = reverse p /\ upper 1 MinInt64 p < seq.

Lemma addGTID_inv_added seq p acc iv :
  spaced 1 MinInt64 (p ++ [iv]) -> addGTID_inv seq p (true, acc) ->
  addGTID_inv seq (p ++ [iv]) (true, append_or_merge acc iv).
Proof.
  intros (Hp & Hup & Hiv)%spaced_snoc (Hc & Hm & a & acc' & -> & Ha).
  rewrite reverse_cons in Hc. apply spaced_snoc in Hc as (Hacc & Hua & Hab).
  pose proof (upper_bounds 1 _ _ ltac:(lia) Hacc).
  assert (forall n, mem n (a :: acc') \/ start iv <= n <= iend iv <->
                    mem n (p ++ [iv]) \/ n = seq) as Hm'.
  { intros n. rewrite Hm, mem_app, (mem_cons n iv), mem_nil. tauto. }
  simpl. rewrite add64_small by (unfold_ints; lia).
  destruct (Z.eqb_spec (start iv) (iend a + 1)) as [Heq|Hne]; rewrite !reverse_cons;
    (split; [|split; [|eexists _, _; split; [done|]; rewrite upper_snoc; simpl; lia]]).
  - apply spaced_snoc. simpl. split_and!; try done; lia.
  - intros n. rewrite <- Hm', !mem_cons. simpl. intuition lia.
  - apply spaced_snoc. rewrite upper_snoc.
    split_and!; [apply spaced_snoc; split_and!; try done; lia|lia..].
  - intros n. rewrite <- Hm', !mem_cons. intuition lia.
Qed.

(** Before the GTID is placed the intervals seen so far are unchanged, so an
    interval after them is never merged into the last one. *)
Lemma append_after_prefix p x :
  canonical p -> upper 1 MinInt64 p < start x -> start x <= MaxInt64 ->
  append_or_merge (reverse p) x = x :: reverse p.
Proof.
  intros Hp Hx Hm. apply append_or_merge_gap; [|done].
  intros y. rewrite head_reverse. intros [l ->]%last_Some. rewrite upper_snoc in Hx.
  apply spaced_snoc in Hp as (Hl & Hu & Hb).
  pose proof (upper_bounds 1 _ _ ltac:(lia) Hl). lia.
Qed.

(** The GTID extends [iv] to [x], at one end or the other. *)
Lemma addGTID_inv_extend seq p iv x :
  canonical p -> upper 1 MinInt64 p < start x -> start x <= iend x <= MaxInt64 ->
  iend x <= iend iv + 1 ->
  (forall n, start x <= n <= iend x <-> start iv <= n <= iend iv \/ n = seq) ->
  addGTID_inv seq (p ++ [iv]) (true, append_or_merge (reverse p) x).
Proof.
  intros Hp Hu Hx He Hm. rewrite append_after_prefix by (done || lia). split.
  - rewrite reverse_cons, reverse_involutive. apply spaced_snoc. done.
  - split; [|eexists _, _; split; [done|]; rewrite upper_snoc; simpl; lia].
    intros n. rewrite mem_app, !mem_cons, mem_nil, mem_reverse, Hm. tauto.
Qed.

(** The GTID is inserted as an interval of its own before [iv]. *)
Lemma addGTID_inv_insert seq p iv :
  canonical p -> upper 1 MinInt64 p < seq -> seq < start iv - 1 ->
  start iv <= iend iv <= MaxInt64 ->
  addGTID_inv seq (p ++ [iv]) (true, append_or_merge (Interval seq seq :: reverse p) iv).
Proof.
  intros Hp Hu Hs Hiv. pose proof (upper_bounds 1 _ _ ltac:(lia) Hp).
  rewrite append_or_merge_gap; simpl; [|intros x [= <-]; simpl; lia|lia]. split.
  - rewrite !reverse_cons, reverse_involutive. apply spaced_snoc.
    rewrite upper_snoc. split_and!; [apply spaced_snoc; simpl; split_and!; try done; lia|simpl; lia..].
  - split; [|eexists _, _; split; [done|]; rewrite upper_snoc; simpl; lia].
    intros n. rewrite mem_app, !mem_cons, mem_nil, mem_reverse. simpl. intuition lia.
Qed.

Lemma addGTID_step_inv seq p st iv :
  MinInt64 < seq <= MaxInt64 -> spaced 1 MinInt64 (p ++ [iv]) ->
  ~ (start iv <= seq <= iend iv) ->
  addGTID_inv seq p st -> addGTID_inv seq (p ++ [iv]) (addGTID_step seq st iv).
Proof.
  intros Hseq Hsp Hout Hinv. destruct st as [[|] acc]; [by apply addGTID_inv_added|].
  destruct Hinv as (Hc & -> & Hs). pose proof Hsp as (Hp & Hup & Hiv)%spaced_snoc.
  pose proof (upper_bounds 1 _ _ ltac:(lia) Hp) as Hub.
  simpl. rewrite pred64_small by (unfold_ints; lia).
  destruct (Z.eqb_spec seq (start iv - 1)) as [->|Hn1].
  { apply addGTID_inv_extend; simpl; try done; lia. }
  pose proof (succ64_cases (iend iv) ltac:(unfold_ints; lia)) as Hwrap.
  destruct (Z.eqb_spec seq (add64 (iend iv) 1)) as [Hn2|Hn2].
  { assert (seq = iend iv + 1) as -> by lia. apply addGTID_inv_extend; simpl; try done; lia. }
  destruct (Z.ltb_spec seq (start iv - 1)) as [Hlt|Hge]; [by apply addGTID_inv_insert|].
  rewrite append_after_prefix by (done || lia).
  split; [by rewrite reverse_cons, reverse_involutive|].
  split; [by rewrite reverse_snoc|]. rewrite upper_snoc. lia.
Qed.

Lemma addGTID_loop_inv seq l :
  MinInt64 < seq <= MaxInt64 -> canonical l -> ~ mem seq l ->
  addGTID_inv seq l (addGTID_loop l seq).
Proof.
  intros Hseq. unfold addGTID_loop. induction l as [|iv l IH] using rev_ind.
  - intros _ _. split_and!; try done. unfold upper. simpl. lia.
  - intros Hc Hnot. rewrite foldl_app. simpl. apply addGTID_step_inv; try done.
    + intros ?. apply Hnot. rewrite mem_app, mem_cons. auto.
    + apply IH; [by apply spaced_app in Hc as [? _]|].
      intros ?. apply Hnot. rewrite mem_app. auto.
Qed.

(** ** Intersect *)

Lemma intersect_loop_spaced g la a lb b :
  0 <= g -> spaced g la a -> spaced g lb b ->
  spaced g (Z.max la lb) (intersect_loop a b).
Proof.
  intros Hg. funelim (intersect_loop a b); rewrite <- ?Heqcall; simpl; try done.
  all: intros (Ha1 & Ha2 & Ha3) (Hb1 & Hb2 & Hb3); zify_tests.
  all: try (split; [lia|split; [lia|]]).
  1,3: eapply spaced_weaken; [eapply (H g la (iend o + g)); simpl; eauto|lia..].
  all: eapply spaced_weaken; [eapply (H g (iend tmp + g) lb); simpl; eauto|lia..].
Qed.

(** Numbers above [lo] are not in the intervals that end at or below [lo], so
    dropping an interval the other list has passed loses nothing. *)
Lemma intersect_loop_mem la a lb b n :
  spaced 0 la a -> spaced 0 lb b ->
  mem n (intersect_loop a b) <-> mem n a /\ mem n b.
Proof.
  funelim (intersect_loop a b); rewrite <- ?Heqcall; simpl; rewrite ?mem_nil; try tauto.
  all: intros (Ha1 & Ha2 & Ha3) (Hb1 & Hb2 & Hb3); zify_tests.
  all: assert (mem n intervals -> iend tmp < n) as Hia
      by (intros Hm; pose proof (spaced_mem 0 _ _ _ ltac:(lia) Ha3 Hm); lia).
  all: assert (mem n otherIntervals -> iend o < n) as Hib
      by (intros Hm; pose proof (spaced_mem 0 _ _ _ ltac:(lia) Hb3 Hm); lia).
  all: try (rewrite (mem_cons n (Interval _ _)); simpl).
  1,3: rewrite (H la (iend o + 0) n) by (simpl; auto).
  3,4: rewrite (H (iend tmp + 0) lb n) by (simpl; auto).
  all: rewrite !mem_cons; intuition lia.
Qed.

(** ** Union *)

Lemma popInterval_None s1 s2 : popInterval s1 s2 = None -> s1 = [] /\ s2 = [].
Proof. unfold popInterval. destruct s1, s2; try destruct (_ <=? _); done. Qed.

Lemma popInterval_Some lo s1 s2 iv r1 r2 :
  sorted_starts lo s1 -> sorted_starts lo s2 ->
  popInterval s1 s2 = Some (iv, r1, r2) ->
  lo <= start iv /\ start iv <= iend iv <= MaxInt64 /\
  sorted_starts (start iv) r1 /\ sorted_starts (start iv) r2 /\
  (forall n, mem n s1 \/ mem n s2 <-> start iv <= n <= iend iv \/ mem n r1 \/ mem n r2).
Proof.
  unfold popInterval. intros H1 H2.
  destruct s1 as [|i1 s1], s2 as [|i2 s2]; simpl in H1, H2;
    [done|..|destruct (Z.leb_spec (start i1) (start i2))];
    intros [= <- <- <-]; split_and!; simpl; try tauto; try lia.
  all: try (intros n; rewrite !mem_cons, ?mem_nil; tauto).
  all: split_and!; tauto || lia.
Qed.

(** [newIntervals] stays canonical when the next interval does not start before
    its last one, and gains exactly the next interval's numbers. *)
Lemma union_step_spec acc iv :
  canonical (reverse acc) ->
  (forall a, head acc = Some a -> start a <= start iv) ->
  MinInt64 < start iv -> start iv <= iend iv <= MaxInt64 ->
  canonical (reverse (union_step acc iv)) /\
  (forall a, head (union_step acc iv) = Some a -> start a <= start iv) /\
  (forall n, mem n (union_step acc iv) <-> mem n acc \/ start iv <= n <= iend iv).
Proof.
  intros Hc Hh Hlo Hiv. destruct acc as [|a acc]; simpl.
  { split_and!; [unfold canonical; simpl; lia|intros ? [= <-]; lia|].
    intros n. rewrite mem_cons, !mem_nil. tauto. }
  specialize (Hh a eq_refl). rewrite reverse_cons in Hc.
  pose proof Hc as (Hacc & Hu & Ha)%spaced_snoc.
  pose proof (upper_bounds 1 _ _ ltac:(lia) Hacc) as Hub.
  destruct (Z.leb_spec (iend iv) (iend a)).
  { split_and!; [by rewrite reverse_cons|by intros ? [= <-]|].
    intros n. rewrite mem_cons. intuition lia. }
  rewrite add64_small by (unfold_ints; lia).
  destruct (Z.ltb_spec (iend a + 1) (start iv)).
  - split_and!; [|intros ? [= <-]; lia|intros n; rewrite !mem_cons; tauto].
    rewrite !reverse_cons. apply spaced_snoc. rewrite upper_snoc. split_and!; done || lia.
  - split_and!; [|intros ? [= <-]; simpl; lia|intros n; rewrite !mem_cons; simpl; intuition lia].
    rewrite reverse_cons. apply spaced_snoc. simpl. split_and!; done || lia.
Qed.

Lemma union_loop_spec lo acc s1 s2 :
  canonical (reverse acc) -> (forall a, head acc = Some a -> start a <= lo) ->
  MinInt64 < lo -> sorted_starts lo s1 -> sorted_starts lo s2 ->
  canonical (reverse (union_loop acc s1 s2)) /\
  (forall n, mem n (union_loop acc s1 s2) <-> mem n acc \/ mem n s1 \/ mem n s2).
Proof.
  revert lo. funelim (union_loop acc s1 s2); rewrite <- ?Heqcall; intros lo Hc Hh Hlo Hs1 Hs2.
  - destruct (popInterval_Some _ _ _ _ _ _ Hs1 Hs2 H) as (Hp1 & Hp2 & Hr1 & Hr2 & Hp3).
    destruct (union_step_spec newIntervals nextInterval) as (Hc' & Hh' & Hm'); try done; try lia.
    { intros a Ha. specialize (Hh a Ha). lia. }
    edestruct (H0 (start nextInterval)) as [Hcr Hmr]; try done; try lia.
    split; [done|]. intros n. rewrite Hmr, Hm', Hp3. tauto.
  - destruct (popInterval_None _ _ e) as [-> ->]. split; [done|].
    intros n. rewrite !mem_nil. tauto.
Qed.

Lemma union_intervals_spec a b :
  in_order a -> in_order b ->
  canonical (union_intervals a b) /\
  (forall n, mem n (union_intervals a b) <-> mem n a \/ mem n b).
Proof.
  intros Ha Hb. unfold union_intervals.
  destruct (union_loop_spec (MinInt64 + 1) [] a b) as [Hc Hm]; try done; try lia.
  split; [done|]. intros n. rewrite mem_reverse, Hm, mem_nil. tauto.
Qed.

(** ** Difference *)

(** [diffLoop] returns, and what it adds to [done] is a list of intervals above
    [lo] that denotes [M]. *)
Definition diff_post (g lo : Z) (done : list interval) (M : Z -> Prop)
    (res : outcome (list interval * list interval)) : Prop :=
  exists acc rest D, res = Ret (acc, rest) /\ reverse acc ++ rest = reverse done ++ D /\
    spaced g lo D /\ (forall n, mem n D <-> M n).

Lemma diff_post_stop g lo done M D :
  spaced g lo D -> (forall n, mem n D <-> M n) -> diff_post g lo done M (Ret (done, D)).
Proof. intros. by exists done, D, D. Qed.

Lemma diff_post_weaken g lo lo' done M M' res :
  diff_post g lo done M res -> lo' <= lo -> (forall n, M n <-> M' n) ->
  diff_post g lo' done M' res.
Proof.
  intros (acc & rest & D & -> & Heq & Hs & Hm) Hlo HM. exists acc, rest, D.
  split_and!; try done; [by eapply spaced_weaken; eauto; lia|].
  intros n. by rewrite Hm.
Qed.

Lemma diff_post_lower g lo lo' done M res :
  diff_post g lo done M res -> lo' <= lo -> diff_post g lo' done M res.
Proof. intros. by eapply diff_post_weaken. Qed.

Lemma diff_post_push g lo done M M' x res :
  diff_post g (iend x + g) (x :: done) M' res ->
  lo < start x -> start x <= iend x <= MaxInt64 ->
  (forall n, start x <= n <= iend x \/ M' n <-> M n) -> diff_post g lo done M res.
Proof.
  intros (acc & rest & D & -> & Heq & Hs & Hm) Hlo Hx HM. exists acc, rest, (x :: D).
  split_and!; [done|by rewrite Heq, reverse_cons, <- app_assoc|simpl; split_and!; done || lia|].
  intros n. by rewrite mem_cons, Hm, HM.
Qed.

Lemma diff_post_last g lo done M x D :
  spaced g (iend x + g) D -> lo < start x -> start x <= iend x <= MaxInt64 ->
  (forall n, start x <= n <= iend x \/ mem n D <-> M n) ->
  diff_post g lo done M (Ret (x :: done, D)).
Proof.
  intros Hs Hlo Hx HM. eapply diff_post_push; [by apply (diff_post_stop _ _ _ (fun n => mem n D))|done..].
Qed.

(** Membership goals of [diffLoop]'s cases: the intervals after [iv] (after [o])
    lie above it. *)
Ltac diff_mem_at n :=
  cbv beta;
  repeat match goal with H : context [_ = false] |- _ => clear H end;
  repeat match goal with
  | H : spaced ?g ?lo ?l |- _ =>
      let F := fresh in
      assert (mem n l -> lo < n) as F
        by (let Hm := fresh in intros Hm; eapply (spaced_mem g lo l n) in Hm; [lia|lia|done]);
      clear H
  end;
  rewrite ?mem_cons, ?mem_nil in *; simpl in *; intuition lia.
Ltac diff_mem := let n := fresh "n" in intros n; diff_mem_at n.
Ltac diff_side := try solve [done | lia | simpl; split_and?; done || lia].

Lemma diff_loop_spec g lo lo' iv done rest o others :
  0 <= g <= 1 -> MinInt64 <= lo -> MinInt64 <= lo' ->
  spaced g lo (iv :: rest) -> spaced 0 lo' (o :: others) ->
  diff_post g lo done (fun n => mem n (iv :: rest) /\ ~ mem n (o :: others))
    (diff_loop iv done rest o others).
Proof.
  revert lo lo'. funelim (diff_loop iv done rest o others); rewrite <- ?Heqcall;
    intros lo lo' Hg Hlo Hlo' (Ha1 & Ha2 & Ha3) (Hb1 & Hb2 & Hb3); clear Heqcall; zify_tests.
  all: try match goal with |- context [sub64 (start ?x) 1] =>
      rewrite (pred64_small (start x)) in * by (unfold_ints; lia) end.
  all: try match goal with |- context [add64 (iend ?x) 1] =>
      rewrite (add64_small (iend x)) in * by (unfold_ints; lia) end.
  11: lia.
  - apply diff_post_last; [done|done|done|diff_mem].
  - eapply diff_post_push; [apply (H g (iend iv + g) lo')|..]; diff_side. diff_mem.
  - apply diff_post_last; [done|done|done|diff_mem].
  - eapply diff_post_weaken; [apply (H g lo (iend o + 0))|..]; diff_side. diff_mem.
  - apply diff_post_stop; [done|diff_mem].
  - eapply diff_post_weaken; [apply (H g (iend iv + g) lo')|..]; diff_side. diff_mem.
  - apply diff_post_last; [done|simpl; lia..|diff_mem].
  - eapply diff_post_push; [eapply diff_post_lower; [apply (H g (iend iv + g) lo')|..]|..];
      diff_side. diff_mem.
  - apply diff_post_last; [done|simpl; lia..|diff_mem].
  - eapply diff_post_weaken; [apply (H g (iend o) (iend o + 0))|..]; diff_side. diff_mem.
  - eapply diff_post_push; [eapply (diff_post_last _ _ _ (fun n => iend o < n <= iend iv \/ mem n intervals))|..];
      diff_side; diff_mem.
  - eapply (diff_post_push _ _ _ _ _ (Interval (start iv) (start o - 1)));
      [apply (H g (start o - 1 + g) (iend o + 0))|..]; diff_side.
    intros n. destruct (Z.lt_ge_cases n (start o)); diff_mem_at n.
Qed.

(** [Difference] for one server, when the other set's list is not empty. *)
Lemma diff_intervals_spec g a b :
  0 <= g <= 1 -> spaced g MinInt64 a -> spaced 0 MinInt64 b -> b <> [] ->
  exists r, diff_intervals a b = Ret r /\ spaced g MinInt64 (default [] r) /\
    r <> Some [] /\ (forall n, mem n (default [] r) <-> mem n a /\ ~ mem n b).
Proof.
  intros Hg Ha Hb Hne. destruct b as [|o b]; [done|]. destruct a as [|iv a]; simpl.
  { exists None. split_and!; try done. intros n. simpl. rewrite mem_nil. tauto. }
  destruct (diff_loop_spec g MinInt64 MinInt64 iv [] a o b Hg ltac:(lia) ltac:(lia) Ha Hb)
    as (acc & rest & D & -> & Heq & Hs & Hm).
  simpl. rewrite Heq. destruct D as [|d D]; simpl in *.
  - exists None. split_and!; try done.
  - exists (Some (d :: D)). split_and!; try done.
Qed.

(** ** TrimGTIDSet *)

Lemma trim_loop_spec g lo lst b :
  0 <= g -> iend lst <= MaxInt64 -> spaced g lo b ->
  spaced g lo (trim_loop lst b) /\
  (forall n, mem n (trim_loop lst b) <-> mem n b /\ n <= iend lst).
Proof.
  intros Hg Hmax. revert lo. induction b as [|o b IH]; intros lo; simpl.
  - intros _. split; [done|]. intros n. rewrite mem_nil. tauto.
  - intros (H1 & H2 & H3). destruct (IH _ H3) as [IHs IHm].
    assert (forall n, mem n b -> iend o < n) as Hb
      by (intros n Hn; pose proof (spaced_mem g _ _ _ Hg H3 Hn); lia).
    destruct (Z.ltb_spec (iend o) (iend lst)).
    { split; [done|]. intros n. rewrite !mem_cons, IHm. intuition lia. }
    destruct (Z.leb_spec (start o) (iend lst)).
    + assert (trim_loop lst b = []) as ->.
      { destruct b as [|o' b]; [done|]. simpl in *.
        replace (_ <? _) with false by (symmetry; apply Z.ltb_ge; lia).
        replace (_ <=? _) with false by (symmetry; apply Z.leb_gt; lia). done. }
      simpl. split; [split_and!; done || lia|].
      intros n. rewrite !mem_cons, mem_nil. specialize (Hb n). simpl. intuition lia.
    + split; [done|]. intros n. rewrite mem_nil, mem_cons. specialize (Hb n). intuition lia.
Qed.

(** ** Canonical lists represent their sets uniquely *)

Lemma canonical_ext_from lo lo' a b :
  spaced 1 lo a -> spaced 1 lo' b -> (forall n, mem n a <-> mem n b) -> a = b.
Proof.
  revert lo lo' b. induction a as [|x a IH]; intros lo lo' [|y b] Ha Hb Hm; [done|..].
  - specialize (Hm (start y)). rewrite mem_nil, mem_cons in Hm. simpl in Hb. intuition lia.
  - specialize (Hm (start x)). rewrite mem_nil, mem_cons in Hm. simpl in Ha. intuition lia.
  - destruct Ha as (Ha1 & Ha2 & Ha3), Hb as (Hb1 & Hb2 & Hb3).
    assert (forall n, mem n a -> iend x + 1 < n) as Ia
      by (intros n Hn; pose proof (spaced_mem 1 _ _ _ ltac:(lia) Ha3 Hn); lia).
    assert (forall n, mem n b -> iend y + 1 < n) as Ib
      by (intros n Hn; pose proof (spaced_mem 1 _ _ _ ltac:(lia) Hb3 Hn); lia).
    assert (forall n, start x <= n <= iend x \/ mem n a <-> start y <= n <= iend y \/ mem n b) as Hxy
      by (intros n; specialize (Hm n); by rewrite !mem_cons in Hm).
    assert (start x = start y) as Hs.
    { destruct (proj1 (Hxy (start x)) ltac:(lia)) as [?|?%Ib];
      destruct (proj2 (Hxy (start y)) ltac:(lia)) as [?|?%Ia]; lia. }
    assert (iend x = iend y) as He.
    { destruct (Z.lt_trichotomy (iend x) (iend y)) as [?|[?|?]]; [|done|].
      - destruct (proj2 (Hxy (iend x + 1)) ltac:(lia)) as [?|?%Ia]; lia.
      - destruct (proj1 (Hxy (iend y + 1)) ltac:(lia)) as [?|?%Ib]; lia. }
    destruct x, y; simpl in *; subst. f_equal. eapply IH; eauto.
    intros n. specialize (Hxy n). specialize (Ia n). specialize (Ib n). intuition lia.
Qed.

Lemma canonical_ext a b :
  canonical a -> canonical b -> (forall n, mem n a <-> mem n b) -> a = b.
Proof. apply canonical_ext_from. Qed.

(** ** Merging *)

(** The inner loop unfolded once. *)
Lemma merge_inner_eq tmp rest others :
  merge_inner tmp rest others =
  if touches tmp rest || touches tmp others then
    let '(tmp1, rest1) := merge_own tmp rest in
    let '(tmp2, others2) := merge_other tmp1 others in
    merge_inner tmp2 rest1 others2
  else (tmp, rest, others).
Proof.
  funelim (merge_inner tmp rest others); use_tests; try done.
  destruct (merge_own tmp rest) as [tmp1 rest1]. simpl. by destruct (merge_other tmp1 others).
Qed.

(** It takes every interval of the other list that does not start after the current
    one, adjacent or not. *)
Lemma merge_intervals_before p q s e :
  MinInt64 <= p <= q -> q < s -> s <= e < MaxInt64 ->
  merge_intervals [Interval s e] [Interval p q] = [Interval p e].
Proof.
  intros Hpq Hgap Hse. unfold merge_intervals. cbn [length merge_loop].
  assert (add64 e 1 = e + 1) as He by (apply add64_small; unfold_ints; lia).
  rewrite merge_inner_eq. cbn [touches merge_own merge_other start iend orb]. rewrite He.
  rewrite (proj2 (Z.leb_le p (e + 1))) by lia. cbn [touches start iend]. 
  rewrite merge_inner_eq. cbn [touches orb].
  rewrite Z.min_r, Z.max_l by lia. done.
Qed.
