(* ===== verification/GoStd.v ===== *)
(** * The standard library functions the program calls

    [strings] (Cut, Split, SplitN, TrimSpace, Join), [strconv] (ParseUint,
    ParseInt, Atoi, FormatInt), [encoding/hex], [encoding/binary] (fixed-width
    little- and big-endian integers), [fmt] (padded numbers), [time] (dates),
    [hash/crc32], [bytes.Compare] and sorting, on byte
    sequences, with the round trips and order facts the components use. *)

From S2P Require Import Prelude.

(** ** strings *)
Module strings.

(** [strings.Cut(s, sep)] for a one-byte separator; also the
    [IndexByte]-then-slice idiom. *)
Fixpoint Cut (sep : byte) (s : list byte) : list byte * list byte * bool :=
  match s with
  | [] => ([], [], false)
  | c :: s' =>
      if decide (c = sep) then ([], s', true)
      else let '(before, after, found) := Cut sep s' in (c :: before, after, found)
  end.

(** [strings.Split(s, sep)]: never empty. *)
Fixpoint Split (sep : byte) (s : list byte) : list (list byte) :=
  match s with
  | [] => [[]]
  | c :: s' =>
      if decide (c = sep) then [] :: Split sep s'
      else match Split sep s' with
           | [] => [[c]]
           | p :: ps => (c :: p) :: ps
           end
  end.

Fixpoint Join (sep : byte) (parts : list (list byte)) : list byte :=
  match parts with
  | [] => []
  | [p] => p
  | p :: ps => p ++ sep :: Join sep ps
  end.

(** The UTF-8 encodings of the characters [unicode.IsSpace] accepts. *)
Definition space_encodings : list (list byte) :=
  [ [z2b 9]; [z2b 10]; [z2b 11]; [z2b 12]; [z2b 13]; [z2b 32];
    [z2b 194; z2b 133]; [z2b 194; z2b 160]; [z2b 225; z2b 154; z2b 128];
    [z2b 226; z2b 128; z2b 128]; [z2b 226; z2b 128; z2b 129];
    [z2b 226; z2b 128; z2b 130]; [z2b 226; z2b 128; z2b 131];
    [z2b 226; z2b 128; z2b 132]; [z2b 226; z2b 128; z2b 133];
    [z2b 226; z2b 128; z2b 134]; [z2b 226; z2b 128; z2b 135];
    [z2b 226; z2b 128; z2b 136]; [z2b 226; z2b 128; z2b 137];
    [z2b 226; z2b 128; z2b 138]; [z2b 226; z2b 128; z2b 168];
    [z2b 226; z2b 128; z2b 169]; [z2b 226; z2b 128; z2b 175];
    [z2b 226; z2b 129; z2b 159]; [z2b 227; z2b 128; z2b 128] ].

Fixpoint strip_prefix (p s : list byte) : option (list byte) :=
  match p, s with
  | [], _ => Some s
  | a :: p', c :: s' => if decide (a = c) then strip_prefix p' s' else None
  | _ :: _, [] => None
  end.

Fixpoint strip_one (encs : list (list byte)) (s : list byte) : option (list byte) :=
  match encs with
  | [] => None
  | p :: encs' =>
      match strip_prefix p s with Some s' => Some s' | None => strip_one encs' s end
  end.

(** Every encoding is non-empty, so [length s] rounds remove them all. *)
Fixpoint strip_all (fuel : nat) (encs : list (list byte)) (s : list byte) : list byte :=
  match fuel with
  | O => s
  | S fuel =>
      match strip_one encs s with Some s' => strip_all fuel encs s' | None => s end
  end.

Definition TrimSpace (s : list byte) : list byte :=
  let s := strip_all (length s) space_encodings s in
  reverse (strip_all (length s) (reverse <$> space_encodings) (reverse s)).

(** *** Facts *)

Lemma Cut_found sep p q : sep ∉ p -> Cut sep (p ++ sep :: q) = (p, q, true).
Proof.
  induction p as [|c p IH]; simpl; intros H.
  - by rewrite decide_True.
  - rewrite decide_False by set_solver. rewrite IH by set_solver. done.
Qed.

Lemma Cut_absent sep p : sep ∉ p -> Cut sep p = (p, [], false).
Proof.
  induction p as [|c p IH]; simpl; intros H; [done|].
  rewrite decide_False by set_solver. rewrite IH by set_solver. done.
Qed.

(** The first cut of a joined list is its first part. *)
Lemma Cut_Join sep x xs :
  sep ∉ x -> exists found, Cut sep (Join sep (x :: xs)) = (x, Join sep xs, found).
Proof.
  intros Hx. destruct xs as [|y xs].
  - exists false. by apply Cut_absent.
  - exists true. change (Join sep (x :: y :: xs)) with (x ++ sep :: Join sep (y :: xs)).
    by apply Cut_found.
Qed.

Lemma Join_head sep c x xs : exists t, Join sep ((c :: x) :: xs) = c :: t.
Proof. destruct xs; simpl; eauto. Qed.

Lemma Split_absent sep p : sep ∉ p -> Split sep p = [p].
Proof.
  induction p as [|c p IH]; simpl; intros H; [done|].
  rewrite decide_False by set_solver. rewrite IH by set_solver. done.
Qed.

Lemma Split_app sep p q : sep ∉ p -> Split sep (p ++ sep :: q) = p :: Split sep q.
Proof.
  induction p as [|c p IH]; simpl; intros H.
  - by rewrite decide_True.
  - rewrite decide_False by set_solver. rewrite IH by set_solver. done.
Qed.

Lemma Split_Join sep parts :
  parts <> [] -> Forall (fun p => sep ∉ p) parts -> Split sep (Join sep parts) = parts.
Proof.
  induction parts as [|p [|p' ps] IH]; [done|..]; intros _ H.
  - apply Split_absent. by inversion H.
  - inversion H as [|? ? Hp Hps]; subst. change (Join sep (p :: p' :: ps))
      with (p ++ sep :: Join sep (p' :: ps)).
    rewrite Split_app by done. by rewrite IH.
Qed.

Lemma strip_prefix_head_ne p a c s :
  head p = Some a -> a <> c -> strip_prefix p (c :: s) = None.
Proof. destruct p as [|b p]; [done|]. simpl. intros [= ->] Hne. by rewrite decide_False. Qed.

(** [TrimSpace] leaves a string alone whose first and last bytes begin and end
    no white space character. *)
Definition space_heads : list byte := omap head space_encodings.
Definition space_lasts : list byte := omap last space_encodings.

Lemma strip_one_head encs c s :
  c ∉ (omap head encs : list byte) -> Forall (fun p => p <> []) encs ->
  strip_one encs (c :: s) = None.
Proof.
  induction encs as [|p encs IH]; simpl; [done|].
  intros Hc Hne. inversion Hne as [|? ? Hp Hps]; subst.
  destruct p as [|a p]; [done|]. simpl in *.
  rewrite decide_False by set_solver. apply IH; [set_solver|done].
Qed.

Lemma strip_all_none fuel encs s : strip_one encs s = None -> strip_all fuel encs s = s.
Proof. intros H. destruct fuel; simpl; [done|]. by rewrite H. Qed.

Lemma TrimSpace_id s c d :
  head s = Some c -> last s = Some d -> c ∉ space_heads -> d ∉ space_lasts ->
  TrimSpace s = s.
Proof.
  intros Hh [l ->]%last_Some Hc Hd. unfold TrimSpace.
  assert (strip_one space_encodings (l ++ [d]) = None) as Hs.
  { destruct (l ++ [d]) as [|x s]; [done|]. injection Hh as ->.
    apply strip_one_head; [done|]. repeat constructor; done. }
  rewrite (strip_all_none _ space_encodings (l ++ [d]) Hs).
  rewrite strip_all_none; [by rewrite reverse_involutive|].
  rewrite reverse_snoc. apply strip_one_head; [|repeat constructor; done].
  intros Hin. apply Hd. unfold space_lasts. revert Hin. clear. vm_compute. done.
Qed.

Lemma TrimSpace_nil : TrimSpace [] = [].
Proof. done. Qed.

End strings.

(** ** bytes.Compare and string order *)

(** [bytes.Compare]: [Lt], [Eq], [Gt] for -1, 0, 1. *)
Fixpoint bytes_compare (a b : list byte) : comparison :=
  match a with
  | [] => if b is [] then Eq else Lt
  | x :: a' =>
      match b with
      | [] => Gt
      | y :: b' => match (b2z x ?= b2z y)%Z with Eq => bytes_compare a' b' | c => c end
      end
  end.

Definition bytes_lt (a b : list byte) : bool :=
  match bytes_compare a b with Lt => true | _ => false end.
Definition bytes_le (a b : list byte) : bool :=
  match bytes_compare a b with Gt => false | _ => true end.

Lemma bytes_compare_eq a b : bytes_compare a b = Eq <-> a = b.
Proof.
  revert b. induction a as [|x a IH]; intros [|y b]; simpl; try (split; congruence).
  destruct (Z.compare_spec (b2z x) (b2z y)) as [Heq| |]; [|split; [done|intros [= -> ->]; lia]..].
  apply b2z_inj in Heq as ->. rewrite IH. split; [by intros ->|by intros [= ->]].
Qed.

Lemma bytes_compare_refl a : bytes_compare a a = Eq.
Proof. by apply bytes_compare_eq. Qed.

Lemma bytes_compare_antisym a b : bytes_compare b a = CompOpp (bytes_compare a b).
Proof.
  revert b. induction a as [|x a IH]; intros [|y b]; simpl; try done.
  rewrite Z.compare_antisym. destruct (b2z x ?= b2z y); simpl; auto.
Qed.

Lemma bytes_lt_trans a b c : bytes_lt a b = true -> bytes_lt b c = true -> bytes_lt a c = true.
Proof.
  unfold bytes_lt. revert b c. induction a as [|x a IH]; intros [|y b] [|z c]; simpl; try done.
  intros Hxy Hyz.
  destruct (Z.compare_spec (b2z x) (b2z y)); [|..]; try done;
    destruct (Z.compare_spec (b2z y) (b2z z)); try done;
    destruct (Z.compare_spec (b2z x) (b2z z)); try done; try lia; eauto.
Qed.

Lemma bytes_lt_irrefl a : bytes_lt a a = false.
Proof. unfold bytes_lt. by rewrite bytes_compare_refl. Qed.

Lemma bytes_le_lt a b : bytes_le a b = negb (bytes_lt b a).
Proof. unfold bytes_le, bytes_lt. rewrite (bytes_compare_antisym a b). by destruct (bytes_compare a b). Qed.

Lemma bytes_trichotomy a b : {bytes_lt a b = true} + {a = b} + {bytes_lt b a = true}.
Proof.
  unfold bytes_lt. rewrite (bytes_compare_antisym a b).
  destruct (bytes_compare a b) eqn:E; [left; right|left; left|right]; try done.
  by apply bytes_compare_eq.
Qed.

(** The order as relations, for reasoning by transitivity. *)
Lemma bytes_le_refl a : bytes_le a a = true.
Proof. unfold bytes_le. by rewrite bytes_compare_refl. Qed.

Lemma bytes_lt_le a b : bytes_lt a b = true -> bytes_le a b = true.
Proof. unfold bytes_lt, bytes_le. by destruct (bytes_compare a b). Qed.

Lemma bytes_not_lt a b : bytes_lt a b = false <-> bytes_le b a = true.
Proof. rewrite bytes_le_lt. by destruct (bytes_lt a b). Qed.

Lemma bytes_not_le a b : bytes_le a b = false <-> bytes_lt b a = true.
Proof. rewrite bytes_le_lt. by destruct (bytes_lt b a). Qed.

Lemma bytes_le_cases a b : bytes_le a b = true <-> bytes_lt a b = true \/ a = b.
Proof.
  unfold bytes_le, bytes_lt. rewrite <- (bytes_compare_eq a b).
  by destruct (bytes_compare a b); split; try tauto; intros [?|?].
Qed.

Lemma bytes_le_lt_trans a b c : bytes_le a b = true -> bytes_lt b c = true -> bytes_lt a c = true.
Proof. intros [H| ->]%bytes_le_cases ?; [by apply (bytes_lt_trans a b)|done]. Qed.

Lemma bytes_lt_le_trans a b c : bytes_lt a b = true -> bytes_le b c = true -> bytes_lt a c = true.
Proof. intros ? [H| <-]%bytes_le_cases; [by apply (bytes_lt_trans a b)|done]. Qed.

Lemma bytes_le_trans a b c : bytes_le a b = true -> bytes_le b c = true -> bytes_le a c = true.
Proof. intros [H| ->]%bytes_le_cases ?; [by apply bytes_lt_le, (bytes_lt_le_trans a b)|done]. Qed.

Lemma bytes_lt_asym a b : bytes_lt a b = true -> bytes_lt b a = false.
Proof. intros H. apply bytes_not_lt. by apply bytes_lt_le. Qed.

Lemma bytes_le_antisym a b : bytes_le a b = true -> bytes_le b a = true -> a = b.
Proof.
  intros [H|?]%bytes_le_cases H'; [|done]. apply bytes_lt_asym, bytes_not_lt in H.
  apply bytes_le_cases in H' as [H'|?]; [|done]. apply bytes_not_lt in H. congruence.
Qed.

Lemma bytes_le_nil a : bytes_le [] a = true.
Proof. by destruct a. Qed.

Lemma bytes_lt_nil a : bytes_lt a [] = false.
Proof. by destruct a. Qed.

(** The larger of two strings. *)
Definition bytes_max (a b : list byte) : list byte := if bytes_lt a b then b else a.

Lemma bytes_max_le a b c :
  bytes_le (bytes_max a b) c = true <-> bytes_le a c = true /\ bytes_le b c = true.
Proof.
  unfold bytes_max. destruct (bytes_lt a b) eqn:E.
  - split; [|tauto]. intros H. split; [|done]. by apply (bytes_le_trans a b); [apply bytes_lt_le|].
  - apply bytes_not_lt in E. split; [|tauto]. intros H. split; [done|]. by apply (bytes_le_trans b a).
Qed.

Lemma bytes_max_lt a b c :
  bytes_lt (bytes_max a b) c = true <-> bytes_lt a c = true /\ bytes_lt b c = true.
Proof.
  unfold bytes_max. destruct (bytes_lt a b) eqn:E.
  - split; [|tauto]. intros H. split; [|done]. by apply (bytes_lt_trans a b).
  - apply bytes_not_lt in E. split; [|tauto]. intros H. split; [done|]. by apply (bytes_le_lt_trans b a).
Qed.

Lemma bytes_max_ge a b :
  bytes_le a (bytes_max a b) = true /\ bytes_le b (bytes_max a b) = true.
Proof. apply bytes_max_le, bytes_le_refl. Qed.

(** ** strconv *)
Module strconv.

Inductive num_error := ErrSyntax | ErrRange.

#[global] Instance num_error_eq_dec : EqDecision num_error.
Proof. solve_decision. Defined.

Definition is_digit (c : byte) : bool := (48 <=? b2z c) && (b2z c <=? 57).

Fixpoint parse_digits (maxVal n : Z) (s : list byte) : result num_error Z :=
  match s with
  | [] => Ok n
  | c :: s' =>
      if is_digit c then
        let n1 := n * 10 + (b2z c - 48) in
        if maxVal <? n1 then Err ErrRange else parse_digits maxVal n1 s'
      else Err ErrSyntax
  end.

(** [strconv.ParseUint(s, 10, bitSize)]. *)
Definition ParseUint (s : list byte) (bitSize : Z) : result num_error Z :=
  match s with
  | [] => Err ErrSyntax
  | _ => parse_digits (2 ^ bitSize - 1) 0 s
  end.

(** [strconv.ParseInt(s, 10, bitSize)]. *)
Definition ParseIntBits (s : list byte) (bitSize : Z) : result num_error Z :=
  match s with
  | [] => Err ErrSyntax
  | c :: s' =>
      let '(neg, digits) :=
        if decide (c = z2b 43) then (false, s')
        else if decide (c = z2b 45) then (true, s') else (false, s) in
      un ← ParseUint digits bitSize;
      if negb neg && (2 ^ (bitSize - 1) <=? un) then Err ErrRange
      else if neg && (2 ^ (bitSize - 1) <? un) then Err ErrRange
      else Ok (if neg : bool then - un else un)
  end.

(** [strconv.ParseInt(s, 10, 64)], and [strconv.Atoi] where [int] has 64 bits. *)
Definition ParseInt (s : list byte) : result num_error Z := ParseIntBits s 64.

Definition digit (d : Z) : byte := z2b (48 + d).

Fixpoint format_loop (fuel : nat) (z : Z) (acc : list byte) : list byte :=
  match fuel with
  | O => acc
  | S fuel =>
      if z <? 10 then digit z :: acc
      else format_loop fuel (z / 10) (digit (z mod 10) :: acc)
  end.

(** Twenty digits are enough: [2 ^ 64 < 10 ^ 20]. *)
Definition FormatUint (z : Z) : list byte := format_loop 20 z [].

(** [strconv.FormatInt(z, 10)] and the [%d] verb. *)
Definition FormatInt (z : Z) : list byte :=
  if z <? 0 then z2b 45 :: FormatUint (- z) else FormatUint z.

(** *** Facts *)

Lemma b2z_digit d : 0 <= d < 10 -> b2z (digit d) = 48 + d.
Proof. intros. unfold digit. rewrite b2z_z2b, Z.mod_small; lia. Qed.

Lemma is_digit_digit d : 0 <= d < 10 -> is_digit (digit d) = true.
Proof. intros. unfold is_digit. rewrite b2z_digit by done. apply andb_true_iff. lia. Qed.

Lemma parse_format_loop fuel M z acc :
  0 <= z < 10 ^ Z.of_nat fuel -> z <= M ->
  parse_digits M 0 (format_loop fuel z acc) = parse_digits M z acc.
Proof.
  revert z acc. induction fuel as [|fuel IH]; intros z acc Hz HM.
  { simpl in *. assert (z = 0) as -> by lia. done. }
  simpl format_loop. destruct (Z.ltb_spec z 10).
  - cbn [parse_digits]. rewrite is_digit_digit, b2z_digit by lia. cbv zeta.
    replace (0 * 10 + (48 + z - 48)) with z by lia. by rewrite (proj2 (Z.ltb_ge M z)) by lia.
  - pose proof (Z.mod_pos_bound z 10). pose proof (Z.div_mod z 10).
    rewrite IH.
    + cbn [parse_digits]. rewrite is_digit_digit, b2z_digit by lia. cbv zeta.
      replace (z / 10 * 10 + (48 + z mod 10 - 48)) with z by lia.
      by rewrite (proj2 (Z.ltb_ge M z)) by lia.
    + rewrite Nat2Z.inj_succ, Z.pow_succ_r in Hz by lia. split; [apply Z.div_pos; lia|].
      apply Z.div_lt_upper_bound; lia.
    + assert (z / 10 <= z) by (apply Z.div_le_upper_bound; lia). lia.
Qed.

Lemma format_loop_digits fuel z acc :
  0 <= z -> Forall (fun c => is_digit c = true) acc ->
  Forall (fun c => is_digit c = true) (format_loop fuel z acc).
Proof.
  revert z acc. induction fuel as [|fuel IH]; intros z acc Hz Hacc; simpl; [done|].
  pose proof (Z.mod_pos_bound z 10). destruct (Z.ltb_spec z 10).
  - constructor; [apply is_digit_digit; lia|done].
  - apply IH; [apply Z.div_pos; lia|]. constructor; [apply is_digit_digit; lia|done].
Qed.

Lemma format_loop_nonempty fuel z acc : acc <> [] -> format_loop fuel z acc <> [].
Proof.
  revert z acc. induction fuel as [|fuel IH]; intros z acc H; simpl; [done|].
  destruct (z <? 10); [done|]. by apply IH.
Qed.

Lemma format_loop_cons fuel z : exists c s, format_loop (S fuel) z [] = c :: s.
Proof.
  simpl. destruct (z <? 10); [eauto|].
  pose proof (format_loop_nonempty fuel (z / 10) [digit (z mod 10)] ltac:(done)) as H.
  destruct (format_loop _ _ _); [done|eauto].
Qed.

Lemma format_loop_length fuel n z acc : (0 < n)%nat -> 0 <= z < 10 ^ Z.of_nat n ->
  (length (format_loop fuel z acc) <= n + length acc)%nat.
Proof.
  revert n z acc. induction fuel as [|fuel IH]; intros n z acc Hn Hz; cbn [format_loop]; [lia|].
  destruct (Z.ltb_spec z 10); [simpl; lia|]. destruct n as [|[|n]]; [lia|simpl in Hz; lia|].
  rewrite Nat2Z.inj_succ, Z.pow_succ_r in Hz by lia.
  etrans; [apply (IH (S n))|simpl; lia]; [lia|]. split; [apply Z.div_pos; lia|apply Z.div_lt_upper_bound; lia].
Qed.

Lemma FormatUint_digits z : 0 <= z -> Forall (fun c => is_digit c = true) (FormatUint z).
Proof. intros. by apply format_loop_digits. Qed.

Lemma FormatUint_cons z : exists c s, FormatUint z = c :: s.
Proof. apply format_loop_cons. Qed.

Lemma FormatUint_not_in z c : 0 <= z -> is_digit c = false -> c ∉ FormatUint z.
Proof.
  intros Hz Hc Hin. pose proof (FormatUint_digits z Hz) as H.
  rewrite Forall_forall in H. specialize (H c Hin). congruence.
Qed.

Lemma FormatInt_not_in z c :
  is_digit c = false -> c <> z2b 45 -> c ∉ FormatInt z.
Proof.
  intros Hc Hd. unfold FormatInt. destruct (Z.ltb_spec z 0).
  - apply not_elem_of_cons. split; [done|]. apply FormatUint_not_in; [lia|done].
  - apply FormatUint_not_in; [lia|done].
Qed.

(** The first and last characters of a printed number. *)
Lemma FormatUint_ends z :
  0 <= z -> exists c d s, FormatUint z = c :: s /\ last (FormatUint z) = Some d /\
  is_digit c = true /\ is_digit d = true.
Proof.
  intros Hz. destruct (FormatUint_cons z) as (c & s & E).
  pose proof (FormatUint_digits z Hz) as Hf.
  destruct (last (FormatUint z)) as [d|] eqn:El; [|apply last_None in El; congruence].
  exists c, d, s. split_and!; [done|done|rewrite E in Hf; by inversion Hf|].
  apply last_Some in El as [l El]. rewrite El in Hf. apply Forall_app in Hf as [_ Hf]. by inversion Hf.
Qed.

Lemma ParseUint_FormatUint z w :
  0 <= z < 2 ^ w -> 0 <= w <= 64 -> ParseUint (FormatUint z) w = Ok z.
Proof.
  intros Hz Hw. unfold ParseUint.
  destruct (FormatUint_cons z) as (c & s & E). rewrite E, <- E.
  unfold FormatUint. rewrite parse_format_loop; [done| |lia].
  assert (2 ^ w <= 2 ^ 64) by (apply Z.pow_le_mono_r; lia).
  change (10 ^ Z.of_nat 20) with 100000000000000000000. lia.
Qed.

Lemma FormatInt_nonneg z : 0 <= z -> FormatInt z = FormatUint z.
Proof. intros. unfold FormatInt. by rewrite (proj2 (Z.ltb_ge z 0)) by lia. Qed.

Lemma ParseIntBits_FormatInt z w : 1 <= w <= 64 -> - 2 ^ (w - 1) <= z < 2 ^ (w - 1) -> ParseIntBits (FormatInt z) w = Ok z.
Proof.
  intros Hw Hz. assert (2 ^ w = 2 * 2 ^ (w - 1)) as E2 by (rewrite <- Z.pow_succ_r by lia; f_equal; lia).
  unfold FormatInt. destruct (Z.ltb_spec z 0).
  - unfold ParseIntBits. rewrite decide_False by (vm_compute; done). rewrite decide_True by done.
    rewrite ParseUint_FormatUint by lia. cbn [mbind result_bind negb andb].
    rewrite (proj2 (Z.ltb_ge (2 ^ (w - 1)) (- z))) by lia.
    f_equal. lia.
  - unfold ParseIntBits. destruct (FormatUint_cons z) as (c & s & E). rewrite E.
    assert (is_digit c = true) as Hc.
    { pose proof (FormatUint_digits z ltac:(lia)) as Hd. rewrite E in Hd. by inversion Hd. }
    rewrite !decide_False by (intros ->; vm_compute in Hc; done).
    rewrite <- E, ParseUint_FormatUint by lia. cbn [mbind result_bind negb andb].
    by rewrite (proj2 (Z.leb_gt (2 ^ (w - 1)) z)) by lia.
Qed.

Lemma ParseInt_FormatInt z : is_int64 z -> ParseInt (FormatInt z) = Ok z.
Proof. intros Hz. apply ParseIntBits_FormatInt; [lia|]. change (2 ^ (64 - 1)) with (2 ^ 63). unfold_ints. lia. Qed.

Lemma parse_digits_range M n s z :
  0 <= n <= M -> parse_digits M n s = Ok z -> 0 <= z <= M.
Proof.
  revert n. induction s as [|c s IH]; intros n Hn; simpl; [by intros [= <-]|].
  unfold is_digit. destruct ((48 <=? b2z c) && (b2z c <=? 57))%bool eqn:Ed; [|done].
  destruct (Z.ltb_spec M (n * 10 + (b2z c - 48))); [done|].
  apply IH. zify_tests. lia.
Qed.

Lemma ParseUint_range s w z : 0 <= w -> ParseUint s w = Ok z -> 0 <= z < 2 ^ w.
Proof.
  intros Hw. unfold ParseUint. destruct s; [done|]. intros H.
  apply parse_digits_range in H; [lia|]. pose proof (Z.pow_pos_nonneg 2 w). lia.
Qed.

Lemma ParseInt_range s z : ParseInt s = Ok z -> is_int64 z.
Proof.
  unfold ParseInt, ParseIntBits. change (2 ^ (64 - 1)) with (2 ^ 63). destruct s as [|c s]; [done|].
  destruct (if decide (c = z2b 43) then _ else _) as [neg digits].
  destruct (ParseUint digits 64) as [un|] eqn:E; cbn [mbind result_bind]; [|done].
  apply ParseUint_range in E; [|lia].
  destruct neg; cbn [negb andb]; case_test; try done; zify_tests; intros [= <-]; unfold_ints; lia.
Qed.

(** Digits begin and end no white space character. *)
Lemma digit_not_space c : is_digit c = true -> c ∉ strings.space_lasts.
Proof.
  intros Hc Hin.
  assert (Forall (fun c => is_digit c = false) strings.space_lasts) as H
    by (vm_compute; repeat constructor).
  rewrite Forall_forall in H. specialize (H c Hin). congruence.
Qed.

End strconv.

(** ** encoding/hex *)
Module hex.

Inductive hex_error := InvalidByteError | ErrLength.

#[global] Instance hex_error_eq_dec : EqDecision hex_error.
Proof. solve_decision. Defined.

Definition hex_digit (n : Z) : byte := z2b (if n <? 10 then 48 + n else 87 + n).

Fixpoint Encode (src : list byte) : list byte :=
  match src with
  | [] => []
  | b :: src' => hex_digit (Z.shiftr (b2z b) 4) :: hex_digit (Z.land (b2z b) 15) :: Encode src'
  end.

Definition from_hex_char (c : byte) : option Z :=
  let z := b2z c in
  if (48 <=? z) && (z <=? 57) then Some (z - 48)
  else if (97 <=? z) && (z <=? 102) then Some (z - 97 + 10)
  else if (65 <=? z) && (z <=? 70) then Some (z - 65 + 10)
  else None.

(** [hex.Decode] and [hex.DecodeString]. *)
Fixpoint Decode (src : list byte) : result hex_error (list byte) :=
  match src with
  | [] => Ok []
  | [c] => match from_hex_char c with None => Err InvalidByteError | Some _ => Err ErrLength end
  | c :: d :: src' =>
      match from_hex_char c, from_hex_char d with
      | Some a, Some b => rest ← Decode src'; Ok (z2b (Z.lor (Z.shiftl a 4) b) :: rest)
      | _, _ => Err InvalidByteError
      end
  end.

(** Induction two elements at a time. *)
Lemma list_pair_ind {A} (P : list A -> Prop) :
  P [] -> (forall x, P [x]) -> (forall x y l, P l -> P (x :: y :: l)) -> forall l, P l.
Proof.
  intros H0 H1 H2 l. enough (P l /\ forall x, P (x :: l)) as [? _] by done.
  induction l as [|x l [IH1 IH2]]; auto.
Qed.

Lemma from_hex_digit n : 0 <= n < 16 -> from_hex_char (hex_digit n) = Some n.
Proof.
  intros H.
  assert (forallb (fun k => bool_decide (from_hex_char (hex_digit k) = Some k)) (seqZ 0 16) = true)
    as Hall by (vm_compute; reflexivity).
  rewrite forallb_elem_of in Hall. refine (bool_decide_eq_true_1 _ (Hall n _)).
  apply elem_of_seqZ. lia.
Qed.

Lemma nibbles b : Z.lor (Z.shiftl (Z.shiftr (b2z b) 4) 4) (Z.land (b2z b) 15) = b2z b.
Proof.
  change 15 with (Z.ones 4). apply Z.bits_inj'. intros n Hn.
  rewrite Z.lor_spec, Z.shiftl_spec, Z.land_spec by done.
  destruct (Z.lt_ge_cases n 4).
  - rewrite Z.testbit_neg_r, Z.ones_spec_low by lia. by rewrite andb_true_r.
  - rewrite Z.shiftr_spec, Z.ones_spec_high by lia. rewrite andb_false_r, orb_false_r.
    f_equal. lia.
Qed.

Lemma nibble_ranges b : 0 <= Z.shiftr (b2z b) 4 < 16 /\ 0 <= Z.land (b2z b) 15 < 16.
Proof.
  pose proof (b2z_range b). rewrite Z.shiftr_div_pow2 by lia. change 15 with (Z.ones 4).
  rewrite Z.land_ones by lia. split; [|apply Z.mod_pos_bound; lia].
  split; [apply Z.div_pos; lia|apply Z.div_lt_upper_bound; lia].
Qed.

Lemma Decode_Encode s : Decode (Encode s) = Ok s.
Proof.
  induction s as [|b s IH]; simpl; [done|]. destruct (nibble_ranges b).
  rewrite !from_hex_digit, IH by done. simpl. by rewrite nibbles, z2b_b2z.
Qed.

Lemma length_Decode s d : Decode s = Ok d -> length s = (2 * length d)%nat.
Proof.
  revert d. induction s as [| |c e s IH] using list_pair_ind; intros d; simpl.
  - by intros [= <-].
  - by destruct (from_hex_char x).
  - destruct (from_hex_char c), (from_hex_char e); try done.
    destruct (Decode s) as [r|] eqn:E; simpl; [|done]. intros [= <-]. simpl.
    rewrite (IH r) by done. lia.
Qed.

Lemma length_Encode s : length (Encode s) = (2 * length s)%nat.
Proof. induction s as [|b s IH]; simpl; lia. Qed.

Lemma Encode_app s t : Encode (s ++ t) = Encode s ++ Encode t.
Proof. induction s as [|b s IH]; simpl; congruence. Qed.

(** The characters [Encode] writes. *)
Definition is_lower_hex (c : byte) : bool :=
  ((48 <=? b2z c) && (b2z c <=? 57)) || ((97 <=? b2z c) && (b2z c <=? 102)).

Lemma hex_digit_lower n : 0 <= n < 16 -> is_lower_hex (hex_digit n) = true.
Proof.
  intros H. unfold is_lower_hex, hex_digit. rewrite b2z_z2b.
  destruct (Z.ltb_spec n 10); rewrite Z.mod_small by lia; lia.
Qed.

Lemma Encode_lower s : Forall (fun c => is_lower_hex c = true) (Encode s).
Proof.
  induction s as [|b s IH]; simpl; [done|]. destruct (nibble_ranges b).
  repeat constructor; auto using hex_digit_lower.
Qed.

Lemma Encode_not_in s c : is_lower_hex c = false -> c ∉ Encode s.
Proof.
  intros Hc Hin. pose proof (Encode_lower s) as H. rewrite Forall_forall in H.
  specialize (H c Hin). congruence.
Qed.

Lemma digit_lower_hex c : strconv.is_digit c = true -> is_lower_hex c = true.
Proof. unfold strconv.is_digit, is_lower_hex. by intros ->. Qed.

Lemma lower_hex_not_space c : is_lower_hex c = true -> c ∉ strings.space_heads.
Proof.
  intros Hc Hin.
  assert (Forall (fun c => is_lower_hex c = false) strings.space_heads) as H
    by (vm_compute; repeat constructor).
  rewrite Forall_forall in H. specialize (H c Hin). congruence.
Qed.

End hex.

(** ** encoding/binary *)
Module binary.

(** The [n] low bytes of [z], least significant first. *)
Fixpoint le_bytes (n : nat) (z : Z) : list byte :=
  match n with
  | O => []
  | S n => z2b z :: le_bytes n (Z.shiftr z 8)
  end.

Fixpoint of_le (s : list byte) : Z :=
  match s with
  | [] => 0
  | b :: s' => Z.lor (b2z b) (Z.shiftl (of_le s') 8)
  end.

Definition be_bytes (n : nat) (z : Z) : list byte := reverse (le_bytes n z).
Definition of_be (s : list byte) : Z := of_le (reverse s).

Lemma length_le_bytes n z : length (le_bytes n z) = n.
Proof. revert z. induction n; intros; simpl; auto. Qed.

Lemma length_be_bytes n z : length (be_bytes n z) = n.
Proof. unfold be_bytes. by rewrite length_reverse, length_le_bytes. Qed.

(** [lor] of a byte and a value shifted past it is their sum. *)
Lemma lor_byte b z : Z.lor (b2z b) (Z.shiftl z 8) = b2z b + 256 * z.
Proof.
  pose proof (b2z_range b). rewrite Z.shiftl_mul_pow2 by lia. change (2 ^ 8) with 256.
  rewrite (Z.mul_comm z). rewrite <- Z.add_lor_land.
  enough (Z.land (b2z b) (256 * z) = 0) as -> by lia.
  rewrite Z.mul_comm. change 256 with (2 ^ 8). rewrite <- Z.shiftl_mul_pow2 by lia.
  apply Z.bits_inj'. intros n Hn. rewrite Z.land_spec, Z.bits_0, Z.shiftl_spec by done.
  destruct (Z.lt_ge_cases n 8).
  - rewrite (Z.testbit_neg_r z) by lia. apply andb_false_r.
  - rewrite (Z.bits_above_log2 (b2z b)); [done|lia|].
    destruct (Z.eq_dec (b2z b) 0) as [->|]; [simpl; lia|].
    apply Z.log2_lt_pow2; [lia|].
    assert (2 ^ 8 <= 2 ^ n) by (apply Z.pow_le_mono_r; lia). lia.
Qed.

Lemma of_le_cons b s : of_le (b :: s) = b2z b + 256 * of_le s.
Proof. apply lor_byte. Qed.

Lemma of_le_le_bytes n z : of_le (le_bytes n z) = z mod 256 ^ Z.of_nat n.
Proof.
  revert z. induction n as [|n IH]; intros z.
  - simpl. by rewrite Z.mod_1_r.
  - change (le_bytes (S n) z) with (z2b z :: le_bytes n (Z.shiftr z 8)).
    rewrite of_le_cons, IH, b2z_z2b, Z.shiftr_div_pow2 by lia. change (2 ^ 8) with 256.
    rewrite Nat2Z.inj_succ, Z.pow_succ_r by lia.
    rewrite Z.rem_mul_r by lia. lia.
Qed.

Lemma of_le_range s : 0 <= of_le s < 256 ^ zlen s.
Proof.
  induction s as [|b s IH]; [simpl; done|].
  rewrite of_le_cons, zlen_cons. pose proof (b2z_range b). pose proof (zlen_nonneg s).
  rewrite Z.pow_add_r by lia. change (256 ^ 1) with 256. lia.
Qed.

Lemma le_bytes_of_le s : le_bytes (length s) (of_le s) = s.
Proof.
  induction s as [|b s IH]; [done|].
  simpl length. cbn [le_bytes]. rewrite of_le_cons. pose proof (b2z_range b).
  rewrite Z.shiftr_div_pow2 by lia. change (2 ^ 8) with 256.
  replace ((b2z b + 256 * of_le s) / 256) with (of_le s)
    by (apply Z.div_unique with (b2z b); lia).
  rewrite IH. f_equal. apply b2z_inj. rewrite b2z_z2b.
  symmetry. apply Z.mod_unique with (of_le s); lia.
Qed.

Lemma of_be_be_bytes n z : of_be (be_bytes n z) = z mod 256 ^ Z.of_nat n.
Proof. unfold of_be, be_bytes. by rewrite reverse_involutive, of_le_le_bytes. Qed.

Lemma be_bytes_of_be s : be_bytes (length s) (of_be s) = s.
Proof.
  unfold of_be, be_bytes. rewrite <- (length_reverse s), le_bytes_of_le.
  apply reverse_involutive.
Qed.

Lemma of_le_le_bytes_8 z : of_le (le_bytes 8 z) = uint64 z.
Proof. apply of_le_le_bytes. Qed.

End binary.

Lemma zlen_le_bytes n z : zlen (binary.le_bytes n z) = Z.of_nat n.
Proof. unfold zlen. by rewrite binary.length_le_bytes. Qed.

Lemma zlen_be_bytes n z : zlen (binary.be_bytes n z) = Z.of_nat n.
Proof. unfold zlen. by rewrite binary.length_be_bytes. Qed.

#[export] Hint Rewrite zlen_le_bytes zlen_be_bytes : zlen.

(** ** fmt *)
Module fmt.

(** [%0nd] of a value that is not negative; [%.nd] prints the same. *)
Definition pad_uint (n : nat) (z : Z) : list byte :=
  let s := strconv.FormatUint z in replicate (n - length s) (z2b 48) ++ s.

(** [%0nd]: the sign counts. *)
Definition pad_int (n : nat) (z : Z) : list byte :=
  if z <? 0 then z2b 45 :: pad_uint (n - 1) (- z) else pad_uint n z.

Lemma length_pad_uint n z : (0 < n)%nat -> 0 <= z < 10 ^ Z.of_nat n -> length (pad_uint n z) = n.
Proof.
  intros Hn Hz. unfold pad_uint. rewrite length_app, length_replicate. pose proof (strconv.format_loop_length 20 n z [] Hn Hz) as Hl.
  fold (strconv.FormatUint z) in Hl. cbn [length] in Hl. lia.
Qed.

Lemma ParseUint_pad_uint n z w : 0 <= z < 2 ^ w -> 0 <= w <= 64 -> strconv.ParseUint (pad_uint n z) w = Ok z.
Proof.
  intros Hz Hw. pose proof (strconv.ParseUint_FormatUint z w Hz Hw) as H. unfold pad_uint.
  generalize (n - length (strconv.FormatUint z))%nat as k. destruct (strconv.FormatUint_cons z) as (c & s & E). rewrite E in H |- *.
  intros k. enough (strconv.parse_digits (2 ^ w - 1) 0 (replicate k (z2b 48) ++ c :: s) = Ok z) as Hk by (by destruct k).
  induction k as [|k IH]; [exact H|]. cbn [replicate app strconv.parse_digits].
  change (strconv.is_digit (z2b 48)) with true. cbv iota. change (0 * 10 + (b2z (z2b 48) - 48)) with 0.
  rewrite (proj2 (Z.ltb_ge _ _)) by lia. exact IH.
Qed.

Lemma pad_uint_digits n z : 0 <= z -> Forall (fun c => strconv.is_digit c = true) (pad_uint n z).
Proof. intros Hz. apply Forall_app. split; [by apply Forall_replicate|by apply strconv.FormatUint_digits]. Qed.

Lemma pad_uint_not_in n z c : 0 <= z -> strconv.is_digit c = false -> c ∉ pad_uint n z.
Proof.
  intros Hz Hc Hin. pose proof (pad_uint_digits n z Hz) as H. rewrite Forall_forall in H. by rewrite H in Hc.
Qed.

End fmt.

(** ** time *)
Module time.

(** The date of a day counted from 1970-01-01, as [time.Unix(v, 0).UTC().Date()] gives it for dates after year 0: years start in
    March, so that the leap day is the last of a year. *)
Definition Date (days : Z) : Z * Z * Z :=
  let z := days + 719468 in
  let era := z / 146097 in
  let doe := z - era * 146097 in
  let yoe := (doe - doe / 1460 + doe / 36524 - doe / 146096) / 365 in
  let doy := doe - (365 * yoe + yoe / 4 - yoe / 100) in
  let mp := (5 * doy + 2) / 153 in
  let day := doy - (153 * mp + 2) / 5 + 1 in
  let month := if mp <? 10 then mp + 3 else mp - 9 in
  (yoe + era * 400 + (if month <=? 2 then 1 else 0), month, day).

(** [t.Clock()]. *)
Definition Clock (v : Z) : Z * Z * Z :=
  let s := v mod 86400 in (s / 3600, s mod 3600 / 60, s mod 60).

(** The Gregorian calendar: the day after a date. *)
Definition leap (y : Z) : bool := (y mod 4 =? 0) && (negb (y mod 100 =? 0) || (y mod 400 =? 0)).

Definition month_days (y m : Z) : Z :=
  if m =? 2 then if leap y then 29 else 28
  else if (m =? 4) || (m =? 6) || (m =? 9) || (m =? 11) then 30 else 31.

Definition next_day (d : Z * Z * Z) : Z * Z * Z :=
  let '(y, m, d) := d in
  if d <? month_days y m then (y, m, d + 1) else if m <? 12 then (y, m + 1, 1) else (y + 1, 1, 1).

(** Days that a 32-bit timestamp can fall on. *)
Definition last_day : Z := 4294967295 / 86400.

Fixpoint dates_from (n : nat) (k : Z) (d : Z * Z * Z) : bool :=
  match n with
  | O => true
  | S n => bool_decide (Date k = d) && dates_from n (k + 1) (next_day d)
  end.

(** Counting the calendar from 1970-01-01 gives [Date], on every day of the range. *)
Lemma Date_calendar : dates_from (Z.to_nat last_day + 1) 0 (1970, 1, 1) = true.
Proof. vm_compute. reflexivity. Qed.

End time.

(** ** hash/crc32 *)
Module crc32.

(** One step of the division by the reversed IEEE polynomial. *)
Definition step (c : Z) : Z :=
  if Z.testbit c 0 then Z.lxor (Z.shiftr c 1) 0xEDB88320 else Z.shiftr c 1.

Definition update_byte (c : Z) (b : byte) : Z := Nat.iter 8 step (Z.lxor c (b2z b)).

(** [crc32.ChecksumIEEE(data)]. *)
Definition ChecksumIEEE (data : list byte) : Z :=
  Z.lxor (foldl update_byte 0xFFFFFFFF data) 0xFFFFFFFF.

(** The check value of the algorithm. *)
Example ChecksumIEEE_check : ChecksumIEEE (bs "123456789") = 0xCBF43926.
Proof. by vm_compute. Qed.

End crc32.

(** ** Sorting

    [slices.SortFunc] and [sort.Slice] are modelled by insertion sort: a sorted
    permutation, which is unique when the keys are distinct; [sort.SliceStable]
    in addition keeps the order of equal elements, as insertion sort does. *)
Section Sort.
Context {A : Type} (less : A -> A -> bool).

Fixpoint sort_insert (x : A) (l : list A) : list A :=
  match l with
  | [] => [x]
  | y :: l' => if less x y then x :: l else y :: sort_insert x l'
  end.

Definition SortFunc (l : list A) : list A :=
  foldl (fun acc x => sort_insert x acc) [] l.

Lemma sort_insert_perm x l : sort_insert x l ≡ₚ x :: l.
Proof.
  induction l as [|y l IH]; simpl; [done|].
  destruct (less x y); [done|]. rewrite IH. apply Permutation_swap.
Qed.

Lemma SortFunc_perm l : SortFunc l ≡ₚ l.
Proof.
  unfold SortFunc. induction l as [|x l IH] using rev_ind; [done|].
  rewrite foldl_app. simpl. rewrite sort_insert_perm, IH. by rewrite Permutation_app_comm.
Qed.

(** Earlier elements are not greater than later ones. *)
Definition ordered : list A -> Prop := StronglySorted (fun x y => less y x = false).

Lemma sort_insert_last x l :
  Forall (fun y => less x y = false) l -> sort_insert x l = l ++ [x].
Proof.
  induction l as [|y l IH]; simpl; [done|]. intros H. inversion H as [|? ? Hy Hl]; subst.
  rewrite Hy, IH by done. done.
Qed.

(** Sorting leaves a list alone that is already in order. *)
Lemma SortFunc_ordered l : ordered l -> SortFunc l = l.
Proof.
  unfold SortFunc, ordered. induction l as [|x l IH] using rev_ind; [done|].
  intros H. rewrite foldl_app. simpl.
  assert (StronglySorted (fun x y => less y x = false) l /\ Forall (fun y => less x y = false) l)
    as [Hl Hx].
  { clear IH. induction l as [|y l IH]; simpl in *; [by split; constructor|].
    inversion H as [|? ? Hs Hf]; subst. apply Forall_app in Hf as [Hf1 Hf2].
    inversion Hf2; subst. destruct (IH Hs). split; by constructor. }
  rewrite IH by done. by apply sort_insert_last.
Qed.

Hypothesis less_trans : forall x y z, less x y = true -> less y z = true -> less x z = true.
Hypothesis less_irrefl : forall x, less x x = false.

Lemma sort_insert_ordered x l : ordered l -> ordered (sort_insert x l).
Proof.
  unfold ordered. induction l as [|y l IH]; simpl; intros H; [by repeat constructor|].
  inversion H as [|? ? Hs Hf]; subst. destruct (less x y) eqn:E.
  - constructor; [done|]. rewrite Forall_forall in Hf |- *.
    intros z [->|Hz]%elem_of_cons.
    + destruct (less y x) eqn:E'; [|done]. pose proof (less_trans _ _ _ E E'). congruence.
    + destruct (less z x) eqn:E'; [|done].
      pose proof (less_trans _ _ _ E' E). rewrite Hf in *; done.
  - constructor; [by apply IH|]. rewrite Forall_forall in Hf |- *.
    intros z Hz. rewrite sort_insert_perm in Hz. apply elem_of_cons in Hz as [->|Hz]; [done|].
    by apply Hf.
Qed.

Lemma SortFunc_is_ordered l : ordered (SortFunc l).
Proof.
  unfold SortFunc. induction l as [|x l IH] using rev_ind; [constructor|].
  rewrite foldl_app. simpl. by apply sort_insert_ordered.
Qed.
End Sort.
