(* ===== verification/GtidTypes.v ===== *)
(** * GTIDs and GTID sets

    The data of [go/mysql/gtid.go], [gtid_set.go] and the three flavors:
    [mysql56_gtid.go], [mariadb_gtid.go] and [filepos_gtid.go].  The Go
    interfaces [GTID] and [GTIDSet] have these three implementations each, so
    they are inductive types with one constructor per implementation; a [nil]
    interface value is [None]. *)

From S2P Require Import Prelude Intervals.

(** [SID], a [[16]byte]: the bytes; [sid_ok] is its length. *)
Definition SID : Type := list byte.
Definition sid_ok (sid : SID) : Prop := length sid = 16%nat.

#[export] Instance SID_eq_dec : EqDecision SID := _.
#[export] Instance SID_countable : Countable SID := _.

Record Mysql56GTID := { Server : SID; Sequence : Z }.

(** [Mysql56GTIDSet], a [map[SID][]interval]; [None] is the nil map. *)
Abbreviation m56map := (gmap SID (list interval)).
Abbreviation Mysql56GTIDSet := (option m56map).

Record MariadbGTID := { Domain : Z; MServer : Z; MSequence : Z }.

(** [MariadbGTIDSet], a [map[uint32]MariadbGTID]; [None] is the nil map. *)
Abbreviation mdbmap := (gmap Z MariadbGTID).
Abbreviation MariadbGTIDSet := (option mdbmap).

Record filePosGTID := { file : list byte; pos : Z }.

Inductive GTID :=
| Gtid56 (g : Mysql56GTID)
| GtidMariadb (g : MariadbGTID)
| GtidFilePos (g : filePosGTID).

Inductive GTIDSet :=
| Set56 (s : Mysql56GTIDSet)
| SetMariadb (s : MariadbGTIDSet)
| SetFilePos (g : filePosGTID).

#[export] Instance MariadbGTID_eq_dec : EqDecision MariadbGTID.
Proof. solve_decision. Defined.
#[export] Instance filePosGTID_eq_dec : EqDecision filePosGTID.
Proof. solve_decision. Defined.
#[export] Instance Mysql56GTID_eq_dec : EqDecision Mysql56GTID.
Proof. solve_decision. Defined.
#[export] Instance GTID_eq_dec : EqDecision GTID.
Proof. solve_decision. Defined.
#[export] Instance GTIDSet_eq_dec : EqDecision GTIDSet.
Proof. solve_decision. Defined.

Definition Mysql56FlavorID : list byte := bs "MySQL56".
Definition MariadbFlavorID : list byte := bs "MariaDB".
Definition FilePosFlavorID : list byte := bs "FilePos".
