(* ===== verification/Gtid56.v ===== *)
(** * MySQL 5.6 GTIDs and GTID sets

    [go/mysql/mysql56_gtid.go] and [go/mysql/mysql56_gtid_set.go]: server ids, the
    printed form of GTIDs and sets, and the set operations.  The lemmas say what
    each operation computes in terms of the transactions a set denotes ([has]) and
    that canonical sets stay canonical. *)

From Equations Require Import Equations.
From S2P Require Import Prelude Intervals GoStd GtidTypes.

(** The errors of the GTID parsers, one constructor per error return. *)
Inductive gtid_error :=
| InvalidSID
| InvalidSIDHex (e : hex.hex_error)
| InvalidInterval (e : strconv.num_error)
| IntervalStartNotPositive
| ExpectedUuidInterval
| ExpectedUuidSequence
| InvalidSequence (e : strconv.num_error)
| ExpectedDomainServerSequence
| InvalidDomain (e : strconv.num_error)
| InvalidServer (e : strconv.num_error)
| ExpectedFilePos
| InvalidPos
| CannotReadNSIDs
| CannotReadSID (i : Z)
| CannotReadNIntervals (i : Z)
| CannotReadStart (i j : Z)
| CannotReadEnd (i j : Z)
| UnknownFlavor (flavor : list byte).

#[export] Instance gtid_error_eq_dec : EqDecision gtid_error.
Proof. solve_decision. Defined.

Definition comma : byte := z2b 44.
Definition colon : byte := z2b 58.
Definition dash : byte := z2b 45.
Definition slash : byte := z2b 47.

(** ** Server ids *)

(** [SID.String]. *)
Definition SID_String (sid : SID) : list byte :=
  hex.Encode (take 4 sid) ++ dash :: hex.Encode (take 2 (drop 4 sid)) ++
  dash :: hex.Encode (take 2 (drop 6 sid)) ++ dash :: hex.Encode (take 2 (drop 8 sid)) ++
  dash :: hex.Encode (take 6 (drop 10 sid)).

(** [ParseSID]. *)
Definition ParseSID (s : list byte) : result gtid_error SID :=
  if bool_decide (zlen s = 36) && bool_decide (s !! 8%nat = Some dash) &&
     bool_decide (s !! 13%nat = Some dash) && bool_decide (s !! 18%nat = Some dash) &&
     bool_decide (s !! 23%nat = Some dash)
  then
    let b := take 8 s ++ take 4 (drop 9 s) ++ take 4 (drop 14 s) ++
             take 4 (drop 19 s) ++ drop 24 s in
    wrap_err InvalidSIDHex (hex.Decode b)
  else Err InvalidSID.

(** ** Single GTIDs *)

(** [parseMysql56GTID]. *)
Definition parseMysql56GTID (s : list byte) : result gtid_error GTID :=
  match strings.Split colon s with
  | [p0; p1] =>
      sid ← ParseSID p0;
      seq ← wrap_err InvalidSequence (strconv.ParseInt p1);
      Ok (Gtid56 {| Server := sid; Sequence := seq |})
  | _ => Err ExpectedUuidSequence
  end.

(** [Mysql56GTID.String]. *)
Definition Mysql56GTID_String (gtid : Mysql56GTID) : list byte :=
  SID_String (Server gtid) ++ colon :: strconv.FormatInt (Sequence gtid).

(** ** Operations on sets *)

(** [set[sid]]: no intervals for a missing server, nor in the nil map. *)
Definition get (set : Mysql56GTIDSet) (sid : SID) : list interval :=
  default [] (set ≫= fun m => m !! sid).

Definition entries (set : Mysql56GTIDSet) : list (SID * list interval) :=
  map_to_list (default ∅ set).

(** [sortSIDs] and [SIDs]. *)
Definition sortSIDs (sids : list SID) : list SID := SortFunc bytes_lt sids.
Definition SIDs (set : Mysql56GTIDSet) : list SID := sortSIDs (entries set).*1.

Definition interval_String (iv : interval) : list byte :=
  colon :: strconv.FormatInt (start iv) ++
  (if iend iv =? start iv then [] else dash :: strconv.FormatInt (iend iv)).

(** One server's part of [Mysql56GTIDSet.String]. *)
Definition uuid_set_String (set : Mysql56GTIDSet) (sid : SID) : list byte :=
  SID_String sid ++ concat (interval_String <$> get set sid).

(** [Mysql56GTIDSet.String]. *)
Definition Mysql56GTIDSet_String (set : Mysql56GTIDSet) : list byte :=
  strings.Join comma (uuid_set_String set <$> SIDs set).

(** [Mysql56GTIDSet.Last]. *)
Definition Mysql56GTIDSet_Last (set : Mysql56GTIDSet) : list byte :=
  match last (SIDs set) with
  | None => []
  | Some sid =>
      SID_String sid ++
      match last (get set sid) with
      | None => []
      | Some lastInterval => colon :: strconv.FormatInt (iend lastInterval)
      end
  end.

(** [Mysql56GTIDSet.ContainsGTID]. *)
Definition Mysql56_ContainsGTID (set : Mysql56GTIDSet) (gtid : option GTID) : bool :=
  match gtid with
  | Some (Gtid56 gtid56) => containsGTID_loop (get set (Server gtid56)) (Sequence gtid56)
  | _ => false
  end.

(** [Mysql56GTIDSet.Contains]. *)
Definition Mysql56_Contains (set : Mysql56GTIDSet) (other : option GTIDSet) : bool :=
  match other with
  | Some (Set56 other56) =>
      forallb (fun '(sid, otherIntervals) => contains_loop (get set sid) otherIntervals)
        (entries other56)
  | _ => false
  end.

(** The comparison of two servers' intervals in [Equal]. *)
Fixpoint equal_loop (intervals otherIntervals : list interval) : bool :=
  match intervals, otherIntervals with
  | iv :: intervals', o :: others' =>
      bool_decide (iv = o) && equal_loop intervals' others'
  | _, _ => true
  end.

(** [Mysql56GTIDSet.Equal]. *)
Definition Mysql56_Equal (set : Mysql56GTIDSet) (other : option GTIDSet) : bool :=
  match other with
  | Some (Set56 other56) =>
      (zlen (entries set) =? zlen (entries other56)) &&
      forallb (fun '(sid, intervals) =>
        let otherIntervals := get other56 sid in
        (zlen intervals =? zlen otherIntervals) && equal_loop intervals otherIntervals)
        (entries set)
  | _ => false
  end.

(** The loop of [AddGTID] over the set; the state is [added] and [newSet]. *)
Definition addGTID_entry (gtid56 : Mysql56GTID) (st : bool * m56map)
    (e : SID * list interval) : bool * m56map :=
  let '(added, newSet) := st in
  let '(sid, intervals) := e in
  let '(added, newIntervals) :=
    if decide (sid = Server gtid56)
    then foldl (addGTID_step (Sequence gtid56)) (added, []) intervals
    else (added, reverse intervals) in
  (added, <[sid := reverse newIntervals]> newSet).

(** [Mysql56GTIDSet.AddGTID]. *)
Definition Mysql56_AddGTID (set : Mysql56GTIDSet) (gtid : option GTID) : Mysql56GTIDSet :=
  match gtid with
  | Some (Gtid56 gtid56) =>
      if Mysql56_ContainsGTID set gtid then set
      else
        let '(added, newSet) := foldl (addGTID_entry gtid56) (false, ∅) (entries set) in
        if added then Some newSet
        else Some (<[Server gtid56 :=
                       default [] (newSet !! Server gtid56) ++
                       [Interval (Sequence gtid56) (Sequence gtid56)]]> newSet)
  | _ => set
  end.

(** [Mysql56GTID.GTIDSet]. *)
Definition Mysql56GTID_GTIDSet (gtid : Mysql56GTID) : Mysql56GTIDSet :=
  Mysql56_AddGTID (Some ∅) (Some (Gtid56 gtid)).

(** [Mysql56GTIDSet.Intersect]. *)
Definition Mysql56_Intersect (set : Mysql56GTIDSet) (other : option GTIDSet)
  : Mysql56GTIDSet :=
  match set, other with
  | Some m, Some (Set56 mydbOther) =>
      Some (range_collect (fun sid intervals =>
        match default ∅ mydbOther !! sid with
        | None => None
        | Some otherIntervals =>
            match intersect_loop intervals otherIntervals with
            | [] => None
            | intersectIntervals => Some intersectIntervals
            end
        end) (map_to_list m))
  | _, _ => Some ∅
  end.

(** [Mysql56GTIDSet.Merge]; [None] is the nil interface. *)
Definition Mysql56_Merge (set : Mysql56GTIDSet) (other : option GTIDSet) : option GTIDSet :=
  match set, other with
  | None, _ => None
  | Some m, Some (Set56 mydbOther) =>
      Some (Set56 (Some (range_collect (fun sid intervals =>
        match default ∅ mydbOther !! sid with
        | None => Some intervals
        | Some otherIntervals => Some (merge_intervals intervals otherIntervals)
        end) (map_to_list m))))
  | Some _, _ => Some (Set56 set)
  end.

(** [Mysql56GTIDSet.TrimGTIDSet]; [Ret None] is the nil interface. *)
Definition Mysql56_TrimGTIDSet (set : Mysql56GTIDSet) (other : option GTIDSet)
  : outcome (option GTIDSet) :=
  match set, other with
  | Some m, Some (Set56 mydbOther) =>
      newSet ← range_collectM (fun otherSID otherIntervals =>
        match m !! otherSID with
        | None => Ret None
        | Some intervals =>
            lastInterval ← index intervals (zlen intervals - 1);
            Ret (Some (trim_loop lastInterval otherIntervals))
        end) (entries mydbOther);
      Ret (Some (Set56 (Some newSet)))
  | _, _ => Ret None
  end.

(** [Mysql56GTIDSet.Union]; [None] is the nil interface. *)
Definition Mysql56_Union (set : Mysql56GTIDSet) (other : option GTIDSet) : option GTIDSet :=
  match set, other with
  | None, Some _ => other
  | Some m, Some (Set56 mydbOther) =>
      let newSet := range_collect (fun otherSID otherIntervals =>
        match m !! otherSID with
        | None => Some otherIntervals
        | Some intervals => Some (union_intervals intervals otherIntervals)
        end) (entries mydbOther) in
      Some (Set56 (Some (foldl (fun newSet '(sid, intervals) =>
        match newSet !! sid with
        | Some _ => newSet
        | None => <[sid := intervals]> newSet
        end) newSet (map_to_list m))))
  | _, _ => Some (Set56 set)
  end.

(** [Mysql56GTIDSet.Difference]. *)
Definition Mysql56_Difference (set other : Mysql56GTIDSet) : outcome Mysql56GTIDSet :=
  match set, other with
  | Some m, Some other =>
      differenceSet ← range_collectM (fun sid intervals =>
        match other !! sid with
        | None => Ret (Some intervals)
        | Some otherIntervals => diff_intervals intervals otherIntervals
        end) (map_to_list m);
      Ret (Some differenceSet)
  | _, _ => Ret set
  end.

(** ** What a set denotes *)

(** Transaction [n] of server [sid] is in the set. *)
Definition has (set : Mysql56GTIDSet) (sid : SID) (n : Z) : Prop := mem n (get set sid).

(** Every server's intervals satisfy [P]. *)
Definition all_intervals (P : list interval -> Prop) (set : Mysql56GTIDSet) : Prop :=
  forall sid intervals, default ∅ set !! sid = Some intervals -> P intervals.

(** A canonical set: every server has a non-empty list of intervals in canonical
    form. *)
Definition canonical_set : Mysql56GTIDSet -> Prop :=
  all_intervals (fun l => canonical l /\ l <> []).

(** Disjoint intervals in increasing order; [Union] and the parser need even
    less, [in_order]. *)
Definition disjoint_set : Mysql56GTIDSet -> Prop := all_intervals (spaced 0 MinInt64).
Definition ordered_set : Mysql56GTIDSet -> Prop := all_intervals in_order.

Lemma get_Some (m : m56map) sid : get (Some m) sid = default [] (m !! sid).
Proof. done. Qed.

Lemma get_spec (P : list interval -> Prop) set sid :
  all_intervals P set -> P [] -> P (get set sid).
Proof.
  intros H Hnil. unfold get. destruct set as [m|]; simpl; [|done].
  destruct (m !! sid) as [l|] eqn:E; simpl; [|done]. by apply (H sid).
Qed.

Lemma all_intervals_impl (P Q : list interval -> Prop) set :
  all_intervals P set -> (forall l, P l -> Q l) -> all_intervals Q set.
Proof. intros H HPQ sid l Hl. apply HPQ. by apply (H sid). Qed.

Lemma canonical_get set sid : canonical_set set -> canonical (get set sid).
Proof. intros H. apply get_spec; [|done]. eapply all_intervals_impl; [done|]. by intros l [? _]. Qed.

Lemma canonical_set_disjoint set : canonical_set set -> disjoint_set set.
Proof. intros H. eapply all_intervals_impl; [done|]. intros l [? ?]. auto with go_bounds. Qed.

Lemma canonical_set_ordered set : canonical_set set -> ordered_set set.
Proof. intros H. eapply all_intervals_impl; [done|]. intros l [? ?]. auto with go_bounds. Qed.

Lemma elem_of_entries set sid l :
  (sid, l) ∈ entries set <-> default ∅ set !! sid = Some l.
Proof. apply elem_of_map_to_list. Qed.

#[export] Hint Resolve canonical_get canonical_set_disjoint canonical_set_ordered : go_bounds.

(** ** ContainsGTID and Contains *)

Lemma ContainsGTID_correct set g :
  ordered_set set ->
  Mysql56_ContainsGTID set (Some (Gtid56 g)) = true <-> has set (Server g) (Sequence g).
Proof.
  intros H. simpl. apply (containsGTID_loop_spec (MinInt64 + 1)).
  by apply (get_spec in_order).
Qed.

Lemma Contains_correct set other56 :
  canonical_set set -> ordered_set other56 ->
  Mysql56_Contains set (Some (Set56 other56)) = true <->
  (forall sid n, has other56 sid n -> has set sid n).
Proof.
  intros Hs Ho. simpl. rewrite forallb_elem_of. split.
  - intros H sid n Hn. unfold has, get in Hn.
    destruct other56 as [m|]; simpl in *; [|by apply mem_nil in Hn].
    destruct (m !! sid) as [l|] eqn:E; simpl in Hn; [|by apply mem_nil in Hn].
    specialize (H (sid, l)). rewrite elem_of_entries in H. specialize (H E).
    rewrite (contains_loop_spec MinInt64 _ (MinInt64 + 1)) in H; auto with go_bounds.
    + by apply H.
    + by apply canonical_get.
    + by apply (Ho sid).
  - intros H [sid l] Hl%elem_of_entries.
    apply (contains_loop_spec MinInt64 _ (MinInt64 + 1)).
    + by apply canonical_get.
    + by apply (Ho sid).
    + intros n Hn. apply H. unfold has, get.
      destruct other56 as [m|]; simpl in *; [|done]. by rewrite Hl.
Qed.

(** ** AddGTID *)

Lemma addGTID_entries_spec g l m :
  l ≡ₚ map_to_list m ->
  let '(added, newSet) := foldl (addGTID_entry g) (false, ∅) l in
  (forall sid, sid <> Server g -> newSet !! sid = m !! sid) /\
  match m !! Server g with
  | None => added = false /\ newSet !! Server g = None
  | Some intervals =>
      added = (addGTID_loop intervals (Sequence g)).1 /\
      newSet !! Server g = Some (reverse (addGTID_loop intervals (Sequence g)).2)
  end.
Proof.
  revert l m. apply range_ind; [done|].
  intros l k v m Hl Hk IH. rewrite foldl_app. simpl.
  destruct (foldl (addGTID_entry g) (false, ∅) l) as [added newSet]. simpl.
  destruct IH as [IHne IHs]. destruct (decide (k = Server g)) as [->|Hne].
  - rewrite lookup_delete_eq in IHs. destruct IHs as [-> _]. rewrite Hk.
    destruct (foldl _ _ v) as [a ni] eqn:E. unfold addGTID_loop. rewrite E. simpl.
    split; [|by rewrite lookup_insert_eq]. intros sid Hsid.
    rewrite lookup_insert_ne, IHne, lookup_delete_ne by done. done.
  - rewrite lookup_delete_ne in IHs by done. rewrite reverse_involutive.
    rewrite lookup_insert_ne by done. split; [|done].
    intros sid Hsid. destruct (decide (sid = k)) as [->|].
    + by rewrite lookup_insert_eq.
    + rewrite lookup_insert_ne, IHne, lookup_delete_ne by done. done.
Qed.

(** The intervals of the GTID's server after [AddGTID], for a GTID the set does
    not have yet. *)
Lemma addGTID_server_spec g l :
  MinInt64 < Sequence g <= MaxInt64 -> canonical l -> ~ mem (Sequence g) l ->
  let '(added, acc) := addGTID_loop l (Sequence g) in
  let r := if added then reverse acc
           else reverse acc ++ [Interval (Sequence g) (Sequence g)] in
  canonical r /\ r <> [] /\ (forall n, mem n r <-> mem n l \/ n = Sequence g).
Proof.
  intros Hseq Hc Hn. pose proof (addGTID_loop_inv _ _ Hseq Hc Hn) as Hinv.
  destruct (addGTID_loop l (Sequence g)) as [[|] acc]; destruct Hinv as [Hacc Hinv]; cbv zeta.
  - destruct Hinv as (Hm & a & acc' & -> & _). split_and!; [done| |].
    + rewrite reverse_cons. by destruct (reverse acc').
    + intros n. by rewrite mem_reverse.
  - destruct Hinv as [-> Hup]. rewrite reverse_involutive in *. split_and!.
    + apply spaced_snoc. simpl. split_and!; [done|done|lia..].
    + by destruct l.
    + intros n. rewrite mem_app, mem_cons, mem_nil. simpl. intuition lia.
Qed.

Lemma get_default set sid : get set sid = default [] (default ∅ set !! sid).
Proof. by destruct set. Qed.

(** A set that differs from a canonical one in the intervals of one server. *)
Lemma replace_server set (m' : m56map) sid0 r :
  canonical_set set -> (forall sid, sid <> sid0 -> m' !! sid = default ∅ set !! sid) ->
  m' !! sid0 = Some r -> canonical r -> r <> [] ->
  canonical_set (Some m') /\
  (forall sid n, has (Some m') sid n <-> if decide (sid = sid0) then mem n r else has set sid n).
Proof.
  intros Hc Hne Hs Hr Hr0. split.
  - intros sid l Hl. simpl in Hl. destruct (decide (sid = sid0)) as [->|Hn].
    + rewrite Hs in Hl. by injection Hl as <-.
    + rewrite Hne in Hl by done. by apply (Hc sid).
  - intros sid n. unfold has. rewrite get_Some. destruct (decide (sid = sid0)) as [->|Hn].
    + by rewrite Hs.
    + rewrite Hne by done. by rewrite get_default.
Qed.

Lemma AddGTID_correct set g :
  canonical_set set -> MinInt64 < Sequence g <= MaxInt64 ->
  canonical_set (Mysql56_AddGTID set (Some (Gtid56 g))) /\
  (forall sid n, has (Mysql56_AddGTID set (Some (Gtid56 g))) sid n <->
     has set sid n \/ (sid = Server g /\ n = Sequence g)).
Proof.
  intros Hc Hseq. cbn [Mysql56_AddGTID].
  pose proof (ContainsGTID_correct set g (canonical_set_ordered _ Hc)) as Hin.
  destruct (Mysql56_ContainsGTID set (Some (Gtid56 g))).
  { split; [done|]. intros sid n. split; [auto|]. intros [?|[-> ->]]; [done|]. by apply Hin. }
  assert (~ mem (Sequence g) (get set (Server g))) as Hnot by (intros ?%Hin; done).
  pose proof (addGTID_entries_spec g (entries set) (default ∅ set) ltac:(done)) as Hf.
  pose proof (addGTID_server_spec g _ Hseq (canonical_get set (Server g) Hc) Hnot) as Hsrv.
  destruct (foldl (addGTID_entry g) (false, ∅) (entries set)) as [added newSet].
  destruct Hf as [Hne Hs].
  destruct (addGTID_loop (get set (Server g)) (Sequence g)) as [a acc] eqn:Eloop.
  assert (added = a /\ default [] (newSet !! Server g) = reverse acc /\
          (a = true -> newSet !! Server g = Some (reverse acc))) as (-> & Hacc & Hsome).
  { rewrite get_default in Eloop. destruct (default ∅ set !! Server g) as [l|]; simpl in Eloop.
    - rewrite Eloop in Hs. destruct Hs as [-> Hs]. by rewrite Hs.
    - injection Eloop as <- <-. destruct Hs as [-> ->]. done. }
  destruct Hsrv as (Hr & Hr0 & Hm).
  assert (exists m', (if a then Some newSet
                      else Some (<[Server g := default [] (newSet !! Server g) ++
                                     [Interval (Sequence g) (Sequence g)]]> newSet)) = Some m' /\
            (forall sid, sid <> Server g -> m' !! sid = default ∅ set !! sid) /\
            m' !! Server g = Some (if a then reverse acc
               else reverse acc ++ [Interval (Sequence g) (Sequence g)])) as (m' & -> & Hm1 & Hm2).
  { destruct a; eexists; split; try done; split; auto.
    - intros sid Hsid. rewrite lookup_insert_ne by done. auto.
    - by rewrite lookup_insert_eq, Hacc. }
  destruct (replace_server set m' (Server g) _ Hc Hm1 Hm2 Hr Hr0) as [Hc' Hh].
  split; [done|]. intros sid n. rewrite Hh. destruct (decide (sid = Server g)) as [->|].
  - rewrite Hm. unfold has. tauto.
  - tauto.
Qed.

(** ** Union, Intersect, Difference, TrimGTIDSet, Equal *)

Lemma has_Some (m : m56map) sid n : has (Some m) sid n <-> mem n (default [] (m !! sid)).
Proof. done. Qed.

Lemma Union_lookup (m o : m56map) :
  exists r, Mysql56_Union (Some m) (Some (Set56 (Some o))) = Some (Set56 (Some r)) /\
  forall sid, r !! sid =
    match m !! sid, o !! sid with
    | Some a, Some b => Some (union_intervals a b)
    | Some a, None => Some a
    | None, b => b
    end.
Proof.
  simpl. eexists. split; [done|]. intros sid.
  set (new := range_collect _ _).
  assert (new !! sid = match o !! sid with
    | None => None
    | Some b => match m !! sid with None => Some b | Some a => Some (union_intervals a b) end
    end) as Hnew.
  { unfold new. rewrite (range_collect_lookup _ o) by done. by destruct (o !! sid). }
  clearbody new. cut (forall l m0, l ≡ₚ map_to_list m0 ->
    foldl (fun newSet '(sid, intervals) =>
      match newSet !! sid with Some _ => newSet | None => <[sid:=intervals]> newSet end) new l !! sid
    = match new !! sid with Some b => Some b | None => m0 !! sid end).
  { intros H. rewrite (H _ m) by done. rewrite Hnew. by destruct (m !! sid), (o !! sid). }
  apply range_ind; [simpl; rewrite lookup_empty; by destruct (new !! sid)|].
  intros l k v m0 Hl Hk IH. rewrite foldl_app. simpl.
  destruct (decide (sid = k)) as [->|Hne].
  - rewrite lookup_delete_eq in IH. rewrite Hk.
    destruct (foldl _ new l !! k) eqn:E; destruct (new !! k) eqn:E'; rewrite ?E; try congruence.
    by rewrite lookup_insert_eq.
  - rewrite lookup_delete_ne in IH by done. rewrite <- IH.
    destruct (foldl _ new l !! k); [done|]. by rewrite lookup_insert_ne.
Qed.

(** The other set's intervals may be empty for a server the receiver has, as
    [TrimGTIDSet] leaves them. *)
Lemma Union_correct_gen m o :
  canonical_set (Some m) ->
  (forall sid l, o !! sid = Some l -> canonical l /\ (l <> [] \/ is_Some (m !! sid))) ->
  exists r, Mysql56_Union (Some m) (Some (Set56 (Some o))) = Some (Set56 (Some r)) /\
    canonical_set (Some r) /\
    (forall sid n, has (Some r) sid n <-> has (Some m) sid n \/ has (Some o) sid n).
Proof.
  intros Hm Ho. destruct (Union_lookup m o) as (r & Hr & Hl). exists r. split; [done|].
  assert (forall sid a b, m !! sid = Some a -> o !! sid = Some b ->
    canonical (union_intervals a b) /\ (forall n, mem n (union_intervals a b) <-> mem n a \/ mem n b))
    as Hab.
  { intros sid a b Ha Hb. destruct (Hm sid a Ha) as [Hca Hna], (Ho sid b Hb) as [Hcb _].
    apply union_intervals_spec; auto with go_bounds. }
  split.
  - intros sid l Hsid. simpl in Hsid. rewrite Hl in Hsid.
    destruct (m !! sid) as [a|] eqn:Ea.
    2:{ destruct (Ho sid l Hsid) as [Hc [Hn|[? Hs]]]; [done|congruence]. }
    destruct (o !! sid) as [b|] eqn:Eb; [|injection Hsid as <-; by apply (Hm sid)].
    injection Hsid as <-. destruct (Hab sid a b Ea Eb) as (Hc & Hmem). split; [done|].
    intros Hnil. rewrite Hnil in Hmem. destruct (Hm sid a Ea) as [Hca Hne].
    destruct a as [|iv a]; [done|]. destruct Hca as (? & ? & _).
    specialize (Hmem (start iv)). rewrite mem_nil, mem_cons in Hmem. intuition lia.
  - intros sid n. rewrite !has_Some, Hl.
    destruct (m !! sid) as [a|] eqn:Ea, (o !! sid) as [b|] eqn:Eb; simpl; rewrite ?mem_nil; try tauto.
    destruct (Hab sid a b Ea Eb) as (_ & Hmem). by rewrite Hmem.
Qed.

Lemma Union_correct m o :
  canonical_set (Some m) -> canonical_set (Some o) ->
  exists r, Mysql56_Union (Some m) (Some (Set56 (Some o))) = Some (Set56 (Some r)) /\
    canonical_set (Some r) /\
    (forall sid n, has (Some r) sid n <-> has (Some m) sid n \/ has (Some o) sid n).
Proof.
  intros Hm Ho. apply Union_correct_gen; [done|]. intros sid l Hl.
  destruct (Ho sid l Hl). auto.
Qed.

Lemma Intersect_correct m o :
  canonical_set (Some m) -> canonical_set (Some o) ->
  exists r, Mysql56_Intersect (Some m) (Some (Set56 (Some o))) = Some r /\
    canonical_set (Some r) /\
    (forall sid n, has (Some r) sid n <-> has (Some m) sid n /\ has (Some o) sid n).
Proof.
  intros Hm Ho. simpl. eexists. split; [done|]. set (r := range_collect _ _).
  assert (forall sid, r !! sid = match m !! sid, o !! sid with
    | Some a, Some b => match intersect_loop a b with [] => None | l => Some l end
    | _, _ => None end) as Hr.
  { intros sid. unfold r. rewrite (range_collect_lookup _ m) by done. by destruct (m !! sid), (o !! sid). }
  clearbody r. split.
  - intros sid l. simpl. rewrite Hr. destruct (m !! sid) as [a|] eqn:Ea; [|done].
    destruct (o !! sid) as [b|] eqn:Eb; [|done].
    destruct (Hm sid a Ea) as [Ha _], (Ho sid b Eb) as [Hb _].
    pose proof (intersect_loop_spaced 1 _ a _ b ltac:(lia) Ha Hb) as Hs.
    destruct (intersect_loop a b) as [|x l'] eqn:E; [done|]. intros [= <-]. split; [|done].
    eapply spaced_weaken; [exact Hs|lia..].
  - intros sid n. rewrite !has_Some, Hr.
    destruct (m !! sid) as [a|] eqn:Ea; [|simpl; rewrite mem_nil; tauto].
    destruct (o !! sid) as [b|] eqn:Eb; [|simpl; rewrite mem_nil; tauto].
    destruct (Hm sid a Ea) as [Ha _], (Ho sid b Eb) as [Hb _].
    rewrite <- (intersect_loop_mem MinInt64 a MinInt64 b) by auto with go_bounds.
    simpl. destruct (intersect_loop a b); simpl; done.
Qed.

Lemma Difference_correct m o :
  canonical_set (Some m) -> canonical_set (Some o) ->
  exists r, Mysql56_Difference (Some m) (Some o) = Ret (Some r) /\
    canonical_set (Some r) /\
    (forall sid n, has (Some r) sid n <-> has (Some m) sid n /\ ~ has (Some o) sid n).
Proof.
  intros Hm Ho.
  assert (forall sid a b, m !! sid = Some a -> o !! sid = Some b ->
    exists r, diff_intervals a b = Ret r /\ canonical (default [] r) /\ r <> Some [] /\
      forall n, mem n (default [] r) <-> mem n a /\ ~ mem n b) as Hdiff.
  { intros sid a b Ha Hb. destruct (Hm sid a Ha), (Ho sid b Hb).
    apply diff_intervals_spec; auto with go_bounds; lia. }
  set (f := fun (sid : SID) (a : list interval) =>
    match o !! sid with
    | None => Some a
    | Some b => match diff_intervals a b with Ret r => r | Panic => None end
    end).
  simpl. rewrite (range_collectM_pure _ f).
  2:{ intros sid a Ha%elem_of_map_to_list. unfold f. destruct (o !! sid) as [b|] eqn:Eb; [|done].
      destruct (Hdiff sid a b Ha Eb) as (r & -> & _). done. }
  simpl. eexists. split; [done|].
  assert (forall sid, range_collect f (map_to_list m) !! sid = m !! sid ≫= f sid) as Hr
    by (intros; by apply range_collect_lookup).
  split.
  - intros sid l. simpl. rewrite Hr. destruct (m !! sid) as [a|] eqn:Ea; [|done].
    simpl. unfold f. destruct (o !! sid) as [b|] eqn:Eb; [|intros [= <-]; by apply (Hm sid)].
    destruct (Hdiff sid a b Ea Eb) as (r & -> & Hc & Hne & _). intros ->. split; [done|].
    congruence.
  - intros sid n. rewrite !has_Some, Hr. destruct (m !! sid) as [a|] eqn:Ea; simpl;
      [|rewrite mem_nil; tauto].
    unfold f. destruct (o !! sid) as [b|] eqn:Eb; simpl; [|rewrite mem_nil; tauto].
    destruct (Hdiff sid a b Ea Eb) as (r & -> & _ & _ & Hmem). by rewrite Hmem.
Qed.

Lemma index_last {A} (l : list A) x : last l = Some x -> index l (zlen l - 1) = Ret x.
Proof.
  intros [l' ->]%last_Some. rewrite zlen_app. replace (zlen l' + zlen [x] - 1) with (zlen l').
  - apply index_app_here.
  - unfold zlen. simpl. lia.
Qed.

(** The end of the server's last interval bounds what [TrimGTIDSet] keeps. *)
Definition below_last (set : Mysql56GTIDSet) (sid : SID) (n : Z) : Prop :=
  exists iv, last (get set sid) = Some iv /\ n <= iend iv.

Lemma last_end_bound lo l iv : spaced 1 lo l -> last l = Some iv -> iend iv <= MaxInt64.
Proof. intros H [l' ->]%last_Some. apply spaced_snoc in H as (_ & _ & ?). lia. Qed.

Lemma Trim_correct m o :
  canonical_set (Some m) -> canonical_set (Some o) ->
  exists r, Mysql56_TrimGTIDSet (Some m) (Some (Set56 (Some o))) = Ret (Some (Set56 (Some r))) /\
    (forall sid l, r !! sid = Some l -> canonical l /\ is_Some (m !! sid)) /\
    (forall sid n, has (Some r) sid n <-> has (Some o) sid n /\ below_last (Some m) sid n).
Proof.
  intros Hm Ho.
  set (f := fun (sid : SID) (b : list interval) =>
    match m !! sid with
    | None => None
    | Some a => match last a with Some lst => Some (trim_loop lst b) | None => None end
    end).
  simpl. rewrite (range_collectM_pure _ f).
  2:{ intros sid b Hb%elem_of_map_to_list. unfold f. destruct (m !! sid) as [a|] eqn:Ea; [|done].
      destruct (Hm sid a Ea) as [_ Hne]. destruct (last a) as [lst|] eqn:El;
        [|by apply last_None in El]. by rewrite (index_last _ _ El). }
  simpl. eexists. split; [done|].
  assert (forall sid, range_collect f (map_to_list o) !! sid = o !! sid ≫= f sid) as Hr
    by (intros; by apply range_collect_lookup).
  split.
  - intros sid l. rewrite Hr. destruct (o !! sid) as [b|] eqn:Eb; [|done]. simpl. unfold f.
    destruct (m !! sid) as [a|] eqn:Ea; [|done]. destruct (last a) as [lst|] eqn:El; [|done].
    intros [= <-]. split; [|done]. destruct (Hm sid a Ea) as [Hca _], (Ho sid b Eb) as [Hcb _].
    apply (trim_loop_spec 1 MinInt64); [lia|by apply (last_end_bound _ _ _ Hca)|done].
  - intros sid n. rewrite !has_Some, Hr. unfold below_last. rewrite get_Some.
    destruct (o !! sid) as [b|] eqn:Eb; simpl; [|rewrite mem_nil; tauto]. unfold f.
    destruct (m !! sid) as [a|] eqn:Ea; simpl.
    2:{ rewrite mem_nil. split; [done|]. by intros (_ & iv & ? & _). }
    destruct (Hm sid a Ea) as [Hca _], (Ho sid b Eb) as [Hcb _].
    destruct (last a) as [lst|] eqn:El; simpl.
    2:{ rewrite mem_nil. split; [done|]. by intros (_ & iv & ? & _). }
    rewrite (proj2 (trim_loop_spec 1 _ lst b ltac:(lia) (last_end_bound _ _ _ Hca El) Hcb)).
    split; intros [Hb He]; (split; [done|]); [eauto|]. destruct He as (iv & [= <-] & ?). done.
Qed.

Lemma equal_loop_eq a b : length a = length b -> equal_loop a b = true <-> a = b.
Proof.
  revert b. induction a as [|x a IH]; intros [|y b]; simpl; try done.
  intros [= Hl]. rewrite andb_true_iff, bool_decide_eq_true, IH by done.
  split; [by intros [-> ->]|by intros [= -> ->]].
Qed.

Lemma length_entries set : length (entries set) = size (default ∅ set).
Proof. apply length_map_to_list. Qed.

(** [Equal] on sets without empty interval lists is equality of the maps. *)
Lemma Equal_eq m o :
  all_intervals (fun l => l <> []) (Some m) ->
  Mysql56_Equal (Some m) (Some (Set56 (Some o))) = true <-> m = o.
Proof.
  intros Hne. cbn [Mysql56_Equal]. unfold zlen at 1 2.
  rewrite andb_true_iff, Z.eqb_eq, forallb_elem_of, !length_entries. simpl. split.
  - intros [Hsize Hall]. assert (m ⊆ o) as Hsub.
    { apply map_subseteq_spec. intros sid l Hl.
      specialize (Hall (sid, l)). rewrite elem_of_entries in Hall. specialize (Hall Hl).
      apply andb_true_iff in Hall as [Hlen Heq]. apply Z.eqb_eq in Hlen. unfold zlen in Hlen.
      rewrite get_Some in *. apply equal_loop_eq in Heq; [|lia].
      destruct (o !! sid); simpl in *; [congruence|]. subst. by specialize (Hne sid [] Hl). }
    apply map_subseteq_size_eq; [done|lia].
  - intros <-. split; [done|]. intros [sid l] Hl%elem_of_entries.
    rewrite get_default, Hl. simpl. rewrite Z.eqb_refl. by apply equal_loop_eq.
Qed.

Lemma canonical_maps_ext m o :
  canonical_set (Some m) -> canonical_set (Some o) ->
  (forall sid n, has (Some m) sid n <-> has (Some o) sid n) -> m = o.
Proof.
  intros Hm Ho H. apply map_eq. intros sid.
  assert (default [] (m !! sid) = default [] (o !! sid)) as Heq.
  { apply canonical_ext; [by apply (canonical_get (Some m))|by apply (canonical_get (Some o))|].
    intros n. apply H. }
  destruct (m !! sid) as [a|] eqn:Ea, (o !! sid) as [b|] eqn:Eb; simpl in Heq; subst; try done.
  - by destruct (Hm sid [] Ea).
  - by destruct (Ho sid [] Eb).
Qed.

(** *** Rebuilding a set server by server *)

Lemma SIDs_perm m : SIDs (Some m) ≡ₚ (map_to_list m).*1.
Proof. unfold SIDs, sortSIDs. by rewrite SortFunc_perm. Qed.

Lemma SIDs_spec m : NoDup (SIDs (Some m)) /\ forall sid, sid ∈ SIDs (Some m) <-> is_Some (m !! sid).
Proof. apply elem_of_keys, SIDs_perm. Qed.

(** ** Theorems *)

Lemma canonical_singleton sid l :
  l <> [] -> canonical l -> canonical_set (Some {[sid := l]}).
Proof. intros Hne Hc sid' l'. simpl. rewrite lookup_singleton_Some. by intros [<- <-]. Qed.

(** Sets for the witnesses: two servers' worth of intervals. *)
Definition sid_a : SID := bs "0123456789abcdef".
Definition sid_b : SID := bs "fedcba9876543210".
Definition one_server (sid : SID) (l : list interval) : m56map := {[sid := l]}.

Ltac solve_canonical :=
  apply canonical_singleton; [done|]; vm_compute; repeat split; discriminate.

Lemma canonical_a : canonical_set (Some (one_server sid_a [Interval 1 5; Interval 10 20])).
Proof. solve_canonical. Qed.

Lemma canonical_a2 : canonical_set (Some (one_server sid_a [Interval 3 12])).
Proof. solve_canonical. Qed.

(** C34: [Contains] decides inclusion of the transactions of its argument, for a
    canonical receiver and an argument whose intervals are sorted. *)
Theorem Contains_inclusion (set other56 : Mysql56GTIDSet) :
  canonical_set set -> ordered_set other56 ->
  Mysql56_Contains set (Some (Set56 other56)) = true <->
  (forall sid n, has other56 sid n -> has set sid n).
Proof. apply Contains_correct. Qed.

Lemma Contains_inclusion_witness :
  Mysql56_Contains (Some (one_server sid_a [Interval 1 5; Interval 10 20]))
    (Some (Set56 (Some (one_server sid_a [Interval 3 12])))) = true <->
  (forall sid n, has (Some (one_server sid_a [Interval 3 12])) sid n ->
     has (Some (one_server sid_a [Interval 1 5; Interval 10 20])) sid n).
Proof.
  apply (Contains_inclusion (Some (one_server sid_a [Interval 1 5; Interval 10 20]))
    (Some (one_server sid_a [Interval 3 12])));
    [exact canonical_a|apply canonical_set_ordered, canonical_a2].
Defined.

(** [AddGTID] keeps a set canonical and adds exactly the given transaction;
    afterwards [ContainsGTID] finds it. *)
Theorem AddGTID_adds (set : Mysql56GTIDSet) (g : Mysql56GTID) :
  canonical_set set -> MinInt64 < Sequence g <= MaxInt64 ->
  let set' := Mysql56_AddGTID set (Some (Gtid56 g)) in
  canonical_set set' /\ Mysql56_ContainsGTID set' (Some (Gtid56 g)) = true /\
  forall sid n, has set' sid n <-> has set sid n \/ (sid = Server g /\ n = Sequence g).
Proof.
  intros Hc Hs. destruct (AddGTID_correct set g Hc Hs) as [Hc' Hh]. cbv zeta. split_and!; [done| |done].
  apply ContainsGTID_correct; [by apply canonical_set_ordered|]. apply Hh. by right.
Qed.

Lemma AddGTID_adds_witness :
  let set' := Mysql56_AddGTID (Some (one_server sid_a [Interval 1 5; Interval 10 20]))
    (Some (Gtid56 {| Server := sid_a; Sequence := 6 |})) in
  canonical_set set' /\
  Mysql56_ContainsGTID set' (Some (Gtid56 {| Server := sid_a; Sequence := 6 |})) = true /\
  forall sid n, has set' sid n <->
    has (Some (one_server sid_a [Interval 1 5; Interval 10 20])) sid n \/ (sid = sid_a /\ n = 6).
Proof.
  apply (AddGTID_adds (Some (one_server sid_a [Interval 1 5; Interval 10 20]))
    {| Server := sid_a; Sequence := 6 |}); [exact canonical_a|done].
Defined.

(** C32: [Union] of canonical sets is canonical and holds the transactions of both. *)
Theorem Union_union (m o : m56map) :
  canonical_set (Some m) -> canonical_set (Some o) ->
  exists r, Mysql56_Union (Some m) (Some (Set56 (Some o))) = Some (Set56 (Some r)) /\
    canonical_set (Some r) /\
    (forall sid n, has (Some r) sid n <-> has (Some m) sid n \/ has (Some o) sid n).
Proof. apply Union_correct. Qed.

Lemma Union_union_witness :
  exists r, Mysql56_Union (Some (one_server sid_a [Interval 1 5; Interval 10 20]))
      (Some (Set56 (Some (one_server sid_a [Interval 3 12])))) = Some (Set56 (Some r)) /\
    canonical_set (Some r) /\
    (forall sid n, has (Some r) sid n <->
       has (Some (one_server sid_a [Interval 1 5; Interval 10 20])) sid n \/
       has (Some (one_server sid_a [Interval 3 12])) sid n).
Proof. apply Union_union; [exact canonical_a|exact canonical_a2]. Defined.

(** [Intersect] of canonical sets is canonical and holds the transactions common to
    both. *)
Theorem Intersect_intersection (m o : m56map) :
  canonical_set (Some m) -> canonical_set (Some o) ->
  exists r, Mysql56_Intersect (Some m) (Some (Set56 (Some o))) = Some r /\
    canonical_set (Some r) /\
    (forall sid n, has (Some r) sid n <-> has (Some m) sid n /\ has (Some o) sid n).
Proof. apply Intersect_correct. Qed.

Lemma Intersect_intersection_witness :
  exists r, Mysql56_Intersect (Some (one_server sid_a [Interval 1 5; Interval 10 20]))
      (Some (Set56 (Some (one_server sid_a [Interval 3 12])))) = Some r /\
    canonical_set (Some r) /\
    (forall sid n, has (Some r) sid n <->
       has (Some (one_server sid_a [Interval 1 5; Interval 10 20])) sid n /\
       has (Some (one_server sid_a [Interval 3 12])) sid n).
Proof. apply Intersect_intersection; [exact canonical_a|exact canonical_a2]. Defined.

(** C33: [Difference] of canonical sets does not panic, is canonical and holds the
    transactions of the first that are not in the second. *)
Theorem Difference_difference (m o : m56map) :
  canonical_set (Some m) -> canonical_set (Some o) ->
  exists r, Mysql56_Difference (Some m) (Some o) = Ret (Some r) /\
    canonical_set (Some r) /\
    (forall sid n, has (Some r) sid n <-> has (Some m) sid n /\ ~ has (Some o) sid n).
Proof. apply Difference_correct. Qed.

Lemma Difference_difference_witness :
  exists r, Mysql56_Difference (Some (one_server sid_a [Interval 1 5; Interval 10 20]))
      (Some (one_server sid_a [Interval 3 12])) = Ret (Some r) /\
    canonical_set (Some r) /\
    (forall sid n, has (Some r) sid n <->
       has (Some (one_server sid_a [Interval 1 5; Interval 10 20])) sid n /\
       ~ has (Some (one_server sid_a [Interval 3 12])) sid n).
Proof. apply Difference_difference; [exact canonical_a|exact canonical_a2]. Defined.

(** [TrimGTIDSet] does not panic on canonical sets and keeps the argument's
    transactions up to the end of the receiver's last interval for their server. *)
Theorem TrimGTIDSet_trims (m o : m56map) :
  canonical_set (Some m) -> canonical_set (Some o) ->
  exists r, Mysql56_TrimGTIDSet (Some m) (Some (Set56 (Some o))) = Ret (Some (Set56 (Some r))) /\
    (forall sid n, has (Some r) sid n <-> has (Some o) sid n /\ below_last (Some m) sid n).
Proof.
  intros Hm Ho. destruct (Trim_correct m o Hm Ho) as (r & Hr & _ & Hh). by exists r.
Qed.

Lemma TrimGTIDSet_trims_witness :
  exists r, Mysql56_TrimGTIDSet (Some (one_server sid_a [Interval 3 12]))
      (Some (Set56 (Some (one_server sid_a [Interval 1 5; Interval 10 20])))) =
      Ret (Some (Set56 (Some r))) /\
    (forall sid n, has (Some r) sid n <->
       has (Some (one_server sid_a [Interval 1 5; Interval 10 20])) sid n /\
       below_last (Some (one_server sid_a [Interval 3 12])) sid n).
Proof. apply TrimGTIDSet_trims; [exact canonical_a2|exact canonical_a]. Defined.

(** On canonical sets [Equal] decides whether both hold the same transactions. *)
Theorem Equal_same_transactions (m o : m56map) :
  canonical_set (Some m) -> canonical_set (Some o) ->
  Mysql56_Equal (Some m) (Some (Set56 (Some o))) = true <->
  (forall sid n, has (Some m) sid n <-> has (Some o) sid n).
Proof.
  intros Hm Ho. rewrite Equal_eq by (intros sid l Hl; by apply (Hm sid l)). split.
  - by intros ->.
  - by apply canonical_maps_ext.
Qed.

Lemma Equal_same_transactions_witness :
  Mysql56_Equal (Some (one_server sid_a [Interval 1 5; Interval 10 20]))
    (Some (Set56 (Some (one_server sid_a [Interval 3 12])))) = true <->
  (forall sid n, has (Some (one_server sid_a [Interval 1 5; Interval 10 20])) sid n <->
     has (Some (one_server sid_a [Interval 3 12])) sid n).
Proof. apply Equal_same_transactions; [exact canonical_a|exact canonical_a2]. Defined.

(** [Merge] joins an interval of the receiver with any interval of the argument
    that starts before it, also when a gap lies between the two: the result then
    holds transactions of neither set. *)
Theorem Merge_fills_gap (sid : SID) (p q s e : Z) :
  MinInt64 <= p <= q -> q + 1 < s -> s <= e < MaxInt64 ->
  Mysql56_Merge (Some (one_server sid [Interval s e]))
    (Some (Set56 (Some (one_server sid [Interval p q])))) =
    Some (Set56 (Some (one_server sid [Interval p e]))) /\
  has (Some (one_server sid [Interval p e])) sid (q + 1) /\
  ~ has (Some (one_server sid [Interval s e])) sid (q + 1) /\
  ~ has (Some (one_server sid [Interval p q])) sid (q + 1).
Proof.
  intros Hpq Hgap Hse. split.
  - cbn [Mysql56_Merge]. do 3 f_equal. apply map_eq. intros sid'.
    rewrite (range_collect_lookup _ (one_server sid [Interval s e])) by done. unfold one_server.
    destruct (decide (sid' = sid)) as [->|Hne]; [|by rewrite !lookup_singleton_ne].
    rewrite !lookup_singleton_eq. cbn [option_bind mbind default from_option id].
    change (default ∅ (Some ({[sid := [Interval p q]]} : m56map)))
      with ({[sid := [Interval p q]]} : m56map).
    by rewrite lookup_singleton_eq, merge_intervals_before by lia.
  - unfold one_server. rewrite !has_Some, !lookup_singleton_eq. cbn [default from_option id].
    rewrite !mem_cons, !mem_nil. cbn [start iend]. lia.
Qed.

Lemma Merge_fills_gap_witness :
  Mysql56_Merge (Some (one_server sid_a [Interval 10 20]))
    (Some (Set56 (Some (one_server sid_a [Interval 1 2])))) =
    Some (Set56 (Some (one_server sid_a [Interval 1 20]))) /\
  has (Some (one_server sid_a [Interval 1 20])) sid_a 3 /\
  ~ has (Some (one_server sid_a [Interval 10 20])) sid_a 3 /\
  ~ has (Some (one_server sid_a [Interval 1 2])) sid_a 3.
Proof. apply (Merge_fills_gap sid_a 1 2 10 20); done. Defined.
