(* ===== verification/Mariadb.v ===== *)
(** * MariaDB GTIDs and GTID sets

    [go/mysql/mariadb_gtid.go].  A MariaDB set keeps one GTID per domain, which
    stands for every transaction of the domain up to its sequence number
    ([mdb_has]).  The theorems say that [AddGTID], [Union] and [Contains] are the set
    operations on these denotations, that the text form round-trips, and that
    [Intersect] is empty for all arguments. *)

From S2P Require Import Prelude Intervals GoStd GtidTypes Gtid56.

(** ** The code *)

(** [parseMariadbGTID]. *)
Definition parseMariadbGTID (s : list byte) : result gtid_error MariadbGTID :=
  match strings.Split dash s with
  | [p0; p1; p2] =>
      domain ← wrap_err InvalidDomain (strconv.ParseUint p0 32);
      server ← wrap_err InvalidServer (strconv.ParseUint p1 32);
      seq ← wrap_err InvalidSequence (strconv.ParseUint p2 64);
      Ok {| Domain := uint32 domain; MServer := uint32 server; MSequence := seq |}
  | _ => Err ExpectedDomainServerSequence
  end.

(** [parseMariadbGTIDSet]: the loop over the parts. *)
Fixpoint mdb_parse_loop (gtidStrings : list (list byte)) (gtidSet : mdbmap)
  : result gtid_error mdbmap :=
  match gtidStrings with
  | [] => Ok gtidSet
  | gtidString :: rest =>
      let gtidString := strings.TrimSpace gtidString in
      if bool_decide (gtidString = []) then mdb_parse_loop rest gtidSet
      else
        mdbGTID ← parseMariadbGTID gtidString;
        mdb_parse_loop rest (<[Domain mdbGTID := mdbGTID]> gtidSet)
  end.

Definition parseMariadbGTIDSet (s : list byte) : result gtid_error MariadbGTIDSet :=
  gtidSet ← mdb_parse_loop (strings.Split comma s) ∅; Ok (Some gtidSet).

(** [MariadbGTID.String]. *)
Definition MariadbGTID_String (gtid : MariadbGTID) : list byte :=
  strconv.FormatUint (Domain gtid) ++ dash :: strconv.FormatUint (MServer gtid) ++
  dash :: strconv.FormatUint (MSequence gtid).

(** [MariadbGTID.GTIDSet]. *)
Definition MariadbGTID_GTIDSet (gtid : MariadbGTID) : MariadbGTIDSet :=
  Some {[Domain gtid := gtid]}.

Definition mdb_entries (gtidSet : MariadbGTIDSet) : list (Z * MariadbGTID) :=
  map_to_list (default ∅ gtidSet).

(** The sorted domains, as [String] and [Last] compute them. *)
Definition domains (gtidSet : MariadbGTIDSet) : list Z :=
  SortFunc Z.ltb (mdb_entries gtidSet).*1.

(** [gtidSet[domain]], the zero GTID when absent. *)
Definition mdb_get (gtidSet : MariadbGTIDSet) (domain : Z) : MariadbGTID :=
  default {| Domain := 0; MServer := 0; MSequence := 0 |} (default ∅ gtidSet !! domain).

(** [MariadbGTIDSet.String]. *)
Definition MariadbGTIDSet_String (gtidSet : MariadbGTIDSet) : list byte :=
  strings.Join comma ((fun domain => MariadbGTID_String (mdb_get gtidSet domain)) <$> domains gtidSet).

(** [MariadbGTIDSet.Last]; it indexes with [-1] when the set is empty. *)
Definition MariadbGTIDSet_Last (gtidSet : MariadbGTIDSet) : outcome (list byte) :=
  lastGTID ← index (domains gtidSet) (zlen (mdb_entries gtidSet) - 1);
  Ret (MariadbGTID_String (mdb_get gtidSet lastGTID)).

(** [MariadbGTIDSet.ContainsGTID]. *)
Definition Mariadb_ContainsGTID (gtidSet : MariadbGTIDSet) (other : option GTID) : bool :=
  match other with
  | None => true
  | Some (GtidMariadb mdbOther) =>
      match default ∅ gtidSet !! Domain mdbOther with
      | None => false
      | Some gtid => MSequence mdbOther <=? MSequence gtid
      end
  | Some _ => false
  end.

(** [MariadbGTIDSet.Contains]. *)
Definition Mariadb_Contains (gtidSet : MariadbGTIDSet) (other : option GTIDSet) : bool :=
  match other with
  | Some (SetMariadb mdbOther) =>
      forallb (fun '(_, gtid) => Mariadb_ContainsGTID gtidSet (Some (GtidMariadb gtid)))
        (mdb_entries mdbOther)
  | _ => false
  end.

(** [MariadbGTIDSet.Equal]. *)
Definition Mariadb_Equal (gtidSet : MariadbGTIDSet) (other : option GTIDSet) : bool :=
  match other with
  | Some (SetMariadb mdbOther) =>
      (zlen (mdb_entries gtidSet) =? zlen (mdb_entries mdbOther)) &&
      forallb (fun '(domain, gtid) =>
        match default ∅ mdbOther !! domain with
        | None => false
        | Some otherGTID => bool_decide (gtid = otherGTID)
        end) (mdb_entries gtidSet)
  | _ => false
  end.

(** [deepCopy]. *)
Definition mdb_deepCopy (gtidSet : MariadbGTIDSet) : mdbmap :=
  range_collect (fun _ gtid => Some gtid) (mdb_entries gtidSet).

(** [addGTID], on the freshly copied map. *)
Definition mdb_addGTID (gtidSet : mdbmap) (otherGTID : MariadbGTID) : mdbmap :=
  match gtidSet !! Domain otherGTID with
  | None => <[Domain otherGTID := otherGTID]> gtidSet
  | Some gtid =>
      if MSequence gtid <? MSequence otherGTID
      then <[Domain otherGTID := otherGTID]> gtidSet else gtidSet
  end.

(** [MariadbGTIDSet.AddGTID]. *)
Definition Mariadb_AddGTID (gtidSet : MariadbGTIDSet) (other : option GTID) : MariadbGTIDSet :=
  match other with
  | Some (GtidMariadb mdbOther) => Some (mdb_addGTID (mdb_deepCopy gtidSet) mdbOther)
  | _ => gtidSet
  end.

(** The body of [Intersect]'s loop; it reads the map it fills. *)
Definition mdb_intersect_step (newSet : mdbmap) (otherGTID : MariadbGTID) : mdbmap :=
  match newSet !! Domain otherGTID with
  | None => newSet
  | Some gtid =>
      if MSequence otherGTID <? MSequence gtid
      then <[Domain otherGTID := otherGTID]> newSet
      else <[Domain otherGTID := gtid]> newSet
  end.

(** [MariadbGTIDSet.Intersect]; [None] is the nil interface. *)
Definition Mariadb_Intersect (gtidSet : MariadbGTIDSet) (other : option GTIDSet) : option GTIDSet :=
  match gtidSet, other with
  | Some _, Some (SetMariadb mdbOther) =>
      Some (SetMariadb (Some (foldl mdb_intersect_step ∅ (mdb_entries mdbOther).*2)))
  | _, _ => None
  end.

(** [MariadbGTIDSet.Union]; [None] is the nil interface. *)
Definition Mariadb_Union (gtidSet : MariadbGTIDSet) (other : option GTIDSet) : option GTIDSet :=
  match gtidSet, other with
  | None, Some _ => other
  | Some _, Some (SetMariadb mdbOther) =>
      Some (SetMariadb (Some (foldl mdb_addGTID (mdb_deepCopy gtidSet) (mdb_entries mdbOther).*2)))
  | _, _ => Some (SetMariadb gtidSet)
  end.

(** ** What sets denote *)

Definition mdb_has (gtidSet : MariadbGTIDSet) (domain n : Z) : Prop :=
  exists g, default ∅ gtidSet !! domain = Some g /\ n <= MSequence g.

Definition mdb_gtid_ok (g : MariadbGTID) : Prop :=
  0 <= Domain g < 2 ^ 32 /\ 0 <= MServer g < 2 ^ 32 /\ 0 <= MSequence g < 2 ^ 64.

(** Each GTID is stored under its own domain, and its fields fit their widths. *)
Definition mdb_ok (m : mdbmap) : Prop :=
  forall domain g, m !! domain = Some g -> Domain g = domain /\ mdb_gtid_ok g.

Lemma mdb_deepCopy_eq gtidSet : mdb_deepCopy gtidSet = default ∅ gtidSet.
Proof.
  apply map_eq. intros d. unfold mdb_deepCopy, mdb_entries.
  rewrite (range_collect_lookup _ (default ∅ gtidSet)) by done.
  by destruct (default ∅ gtidSet !! d).
Qed.

Lemma elem_of_mdb_entries gtidSet d g :
  (d, g) ∈ mdb_entries gtidSet <-> default ∅ gtidSet !! d = Some g.
Proof. apply elem_of_map_to_list. Qed.

Lemma elem_of_mdb_values m g :
  mdb_ok m -> g ∈ (mdb_entries (Some m)).*2 <-> m !! Domain g = Some g.
Proof.
  intros Hm. rewrite list_elem_of_fmap. split.
  - intros ([d g'] & -> & H%elem_of_mdb_entries). simpl in *. by destruct (Hm d g' H) as [-> _].
  - intros H. exists (Domain g, g). split; [done|]. by apply elem_of_mdb_entries.
Qed.

Lemma mdb_ok_insert m g : mdb_ok m -> mdb_gtid_ok g -> mdb_ok (<[Domain g := g]> m).
Proof.
  intros Hm Hg d g'. rewrite lookup_insert_Some. intros [[<- <-]|[_ H]]; [done|by apply Hm].
Qed.

Lemma mdb_addGTID_lookup m g d :
  mdb_addGTID m g !! d =
  if decide (d = Domain g) then
    match m !! Domain g with
    | Some g0 => if MSequence g0 <? MSequence g then Some g else Some g0
    | None => Some g
    end
  else m !! d.
Proof.
  unfold mdb_addGTID. destruct (decide (d = Domain g)) as [->|Hne].
  - destruct (m !! Domain g) as [g0|] eqn:E; [destruct (_ <? _)|]; by rewrite ?lookup_insert_eq.
  - destruct (m !! Domain g) as [g0|]; [destruct (_ <? _)|]; by rewrite ?lookup_insert_ne.
Qed.

Lemma mdb_addGTID_correct m g :
  mdb_ok m -> mdb_gtid_ok g ->
  mdb_ok (mdb_addGTID m g) /\
  forall d n, mdb_has (Some (mdb_addGTID m g)) d n <->
    mdb_has (Some m) d n \/ d = Domain g /\ n <= MSequence g.
Proof.
  intros Hm Hg. split.
  { unfold mdb_addGTID. destruct (m !! Domain g); [destruct (_ <? _)|]; auto using mdb_ok_insert. }
  intros d n. unfold mdb_has. simpl. rewrite mdb_addGTID_lookup.
  destruct (decide (d = Domain g)) as [->|Hne].
  2:{ split; [by left|]. intros [?|[? _]]; done. }
  destruct (m !! Domain g) as [g0|]; [destruct (Z.ltb_spec (MSequence g0) (MSequence g))|]; split.
  - intros (g' & [= <-] & ?). by right.
  - intros [(g' & [= <-] & ?)|[_ ?]]; exists g; split; [done|lia|done|lia].
  - intros (g' & [= <-] & ?). left. eauto.
  - intros [(g' & [= <-] & ?)|[_ ?]]; exists g0; split; [done|lia|done|lia].
  - intros (g' & [= <-] & ?). by right.
  - intros [(g' & ? & ?)|[_ ?]]; [done|]. by exists g.
Qed.

Lemma mdb_addGTIDs_correct m l :
  mdb_ok m -> Forall mdb_gtid_ok l ->
  mdb_ok (foldl mdb_addGTID m l) /\
  forall d n, mdb_has (Some (foldl mdb_addGTID m l)) d n <->
    mdb_has (Some m) d n \/ exists g, g ∈ l /\ d = Domain g /\ n <= MSequence g.
Proof.
  intros Hm Hl. revert m Hm. induction Hl as [|g l Hg Hl IH]; intros m Hm; simpl.
  { split; [done|]. intros d n. split; [by left|]. intros [?|(g & ?%elem_of_nil & _)]; done. }
  destruct (mdb_addGTID_correct m g Hm Hg) as [H1 H2]. destruct (IH _ H1) as [H3 H4].
  split; [done|]. intros d n. rewrite H4, H2. split.
  - intros [[?|?]|(g' & ? & ?)]; [by left|right..].
    + exists g. split; [by left|done].
    + exists g'. split; [by right|done].
  - intros [?|(g' & [->|?]%elem_of_cons & ?)]; [by left; left|by left; right|]. right. eauto.
Qed.

(** The values of a well-formed set are its entries. *)
Lemma mdb_values_has m d n :
  mdb_ok m ->
  (exists g, g ∈ (mdb_entries (Some m)).*2 /\ d = Domain g /\ n <= MSequence g) <->
  mdb_has (Some m) d n.
Proof.
  intros Hm. unfold mdb_has. simpl. split.
  - intros (g & Hg & -> & Hn). exists g. by rewrite (elem_of_mdb_values m) in Hg.
  - intros (g & Hg & Hn). destruct (Hm d g Hg) as [<- _]. exists g.
    by rewrite (elem_of_mdb_values m).
Qed.

Lemma mdb_Union_correct m o :
  mdb_ok m -> mdb_ok o ->
  exists r, Mariadb_Union (Some m) (Some (SetMariadb (Some o))) = Some (SetMariadb (Some r)) /\
  mdb_ok r /\
  forall d n, mdb_has (Some r) d n <-> mdb_has (Some m) d n \/ mdb_has (Some o) d n.
Proof.
  intros Hm Ho. eexists. split; [reflexivity|]. rewrite mdb_deepCopy_eq. simpl.
  destruct (mdb_addGTIDs_correct m (mdb_entries (Some o)).*2) as [H1 H2]; [done|..].
  { apply Forall_forall. intros g Hg. rewrite (elem_of_mdb_values o) in Hg by done.
    by destruct (Ho _ _ Hg). }
  split; [done|]. intros d n. by rewrite H2, mdb_values_has.
Qed.

Lemma mdb_Contains_correct m o :
  mdb_ok o ->
  Mariadb_Contains (Some m) (Some (SetMariadb (Some o))) = true <->
  forall d n, mdb_has (Some o) d n -> mdb_has (Some m) d n.
Proof.
  intros Ho. cbn [Mariadb_Contains]. rewrite forallb_elem_of. unfold mdb_has. simpl. split.
  - intros H d n (g & Hg & Hn). specialize (H (d, g)). rewrite elem_of_mdb_entries in H.
    specialize (H Hg). simpl in H. destruct (Ho d g Hg) as [Hd _]. rewrite Hd in H.
    destruct (m !! d) as [g'|]; [|done]. exists g'. split; [done|]. lia.
  - intros H [d g] Hg%elem_of_mdb_entries. simpl in *. destruct (Ho d g Hg) as [Hd _]. rewrite Hd.
    destruct (H d (MSequence g)) as (g' & -> & ?); [eauto with lia|]. lia.
Qed.

Lemma mdb_Intersect_empty m o :
  Mariadb_Intersect (Some m) (Some (SetMariadb o)) = Some (SetMariadb (Some ∅)).
Proof.
  cbn [Mariadb_Intersect]. do 3 f_equal.
  induction (mdb_entries o).*2 as [|g l IH]; [done|]. simpl.
  by replace (mdb_intersect_step ∅ g) with (∅ : mdbmap).
Qed.

(** ** The text form *)

Lemma mdb_String_join g :
  MariadbGTID_String g = strings.Join dash
    [strconv.FormatUint (Domain g); strconv.FormatUint (MServer g); strconv.FormatUint (MSequence g)].
Proof. done. Qed.

Lemma parse_mdb_String g : mdb_gtid_ok g -> parseMariadbGTID (MariadbGTID_String g) = Ok g.
Proof.
  intros (H1 & H2 & H3). unfold parseMariadbGTID. rewrite mdb_String_join, strings.Split_Join; [|done|].
  - rewrite !strconv.ParseUint_FormatUint by lia. cbn [wrap_err mbind result_bind].
    unfold uint32, wrapU. rewrite !Z.mod_small by done. by destruct g.
  - repeat constructor; apply strconv.FormatUint_not_in; by lia || done.
Qed.

Lemma mdb_String_chars g :
  mdb_gtid_ok g ->
  strings.TrimSpace (MariadbGTID_String g) = MariadbGTID_String g /\
  MariadbGTID_String g <> [] /\ comma ∉ MariadbGTID_String g.
Proof.
  intros (H1 & H2 & H3).
  destruct (strconv.FormatUint_ends (Domain g)) as (c & _ & s & Ec & _ & Hc & _); [lia|].
  destruct (strconv.FormatUint_ends (MSequence g)) as (_ & d & _ & _ & Hl & _ & Hd); [lia|].
  split_and!.
  - apply (strings.TrimSpace_id _ c d).
    + unfold MariadbGTID_String. by rewrite Ec.
    + unfold MariadbGTID_String. apply last_Some in Hl as [l ->].
      by rewrite !app_comm_cons, !app_assoc, last_snoc.
    + by apply hex.lower_hex_not_space, hex.digit_lower_hex.
    + by apply strconv.digit_not_space.
  - unfold MariadbGTID_String. by rewrite Ec.
  - unfold MariadbGTID_String. repeat (rewrite not_elem_of_app || rewrite not_elem_of_cons).
    split_and!; try done; apply strconv.FormatUint_not_in; lia || done.
Qed.

Lemma mdb_get_lookup m d g : m !! d = Some g -> mdb_get (Some m) d = g.
Proof. unfold mdb_get. simpl. by intros ->. Qed.

Lemma domains_spec m :
  NoDup (domains (Some m)) /\ forall d, d ∈ domains (Some m) <-> is_Some (m !! d).
Proof. apply elem_of_keys. unfold domains. by rewrite SortFunc_perm. Qed.

Lemma mdb_parse_loop_String m ds acc :
  mdb_ok m -> NoDup ds -> (forall d, d ∈ ds -> is_Some (m !! d)) ->
  exists r,
    mdb_parse_loop ((fun d => MariadbGTID_String (mdb_get (Some m) d)) <$> ds) acc = Ok r /\
  forall d, r !! d = if bool_decide (d ∈ ds) then m !! d else acc !! d.
Proof.
  intros Hm. revert acc. induction ds as [|d ds IH]; intros acc Hnd Hs.
  { exists acc. split; [done|]. intros d. by rewrite bool_decide_eq_false_2 by apply not_elem_of_nil. }
  apply NoDup_cons in Hnd as [Hnin Hnd]. destruct (Hs d) as [g Hg]; [by left|].
  destruct (Hm d g Hg) as [Hd Hok]. destruct (mdb_String_chars g Hok) as (Ht & Hne & _).
  rewrite fmap_cons, (mdb_get_lookup _ _ _ Hg). cbn [mdb_parse_loop].
  rewrite Ht, bool_decide_eq_false_2, parse_mdb_String by done. cbn [mbind result_bind].
  rewrite Hd. destruct (IH (<[d := g]> acc)) as (r & -> & Hr); [done|..].
  { intros d' ?. apply Hs. by right. }
  exists r. split; [done|]. intros d'. rewrite Hr. by apply lookup_collected.
Qed.

Lemma mdb_Parse_String m :
  mdb_ok m -> parseMariadbGTIDSet (MariadbGTIDSet_String (Some m)) = Ok (Some m).
Proof.
  intros Hm. destruct (domains_spec m) as [Hnd Hin]. unfold parseMariadbGTIDSet.
  destruct (mdb_parse_loop_String m (domains (Some m)) ∅) as (r & Hloop & Hr); [done..| |].
  { intros d Hd. by apply Hin. }
  assert (mdb_parse_loop (strings.Split comma (MariadbGTIDSet_String (Some m))) ∅ = Ok r) as ->.
  { unfold MariadbGTIDSet_String. destruct (domains (Some m)) as [|d ds] eqn:Ed; [done|].
    rewrite strings.Split_Join; [done|done|]. apply Forall_forall.
    intros s (d' & -> & Hd')%list_elem_of_fmap. apply Hin in Hd' as [g Hg].
    rewrite (mdb_get_lookup _ _ _ Hg). apply mdb_String_chars. by apply (Hm d' g). }
  cbn [mbind result_bind]. by rewrite (collected_all m r (domains (Some m))).
Qed.

(** ** Equality *)

Lemma mdb_Equal_eq m o :
  Mariadb_Equal (Some m) (Some (SetMariadb (Some o))) = true <-> m = o.
Proof.
  cbn [Mariadb_Equal]. unfold zlen, mdb_entries. rewrite andb_true_iff, Z.eqb_eq, forallb_elem_of.
  rewrite !length_map_to_list. simpl. split.
  - intros [Hsize Hall]. apply map_subseteq_size_eq; [|lia].
    apply map_subseteq_spec. intros d g Hg. specialize (Hall (d, g)).
    rewrite elem_of_map_to_list in Hall. specialize (Hall Hg). simpl in Hall.
    destruct (o !! d) as [g'|]; [|done]. apply bool_decide_eq_true in Hall. by subst.
  - intros <-. split; [done|]. intros [d g] Hg%elem_of_map_to_list. simpl. rewrite Hg.
    by apply bool_decide_eq_true.
Qed.

(** ** Theorems *)

Definition mdb_sample : mdbmap :=
  {[1 := {| Domain := 1; MServer := 7; MSequence := 120 |}]}.
Definition mdb_sample2 : mdbmap :=
  {[1 := {| Domain := 1; MServer := 8; MSequence := 80 |}]}.

Lemma mdb_singleton_ok g : mdb_gtid_ok g -> mdb_ok {[Domain g := g]}.
Proof. intros Hg d g'. rewrite lookup_singleton_Some. by intros [<- <-]. Qed.

Lemma mdb_sample_ok : mdb_ok mdb_sample.
Proof. apply (mdb_singleton_ok {| Domain := 1; MServer := 7; MSequence := 120 |}). done. Qed.

Lemma mdb_sample2_ok : mdb_ok mdb_sample2.
Proof. apply (mdb_singleton_ok {| Domain := 1; MServer := 8; MSequence := 80 |}). done. Qed.

(** In a MariaDB set [Union] holds what either set holds, [AddGTID] adds the
    transactions of the GTID's domain up to it, and both keep the set well-formed. *)
Theorem Mariadb_Union_AddGTID (m o : mdbmap) (g : MariadbGTID) :
  mdb_ok m -> mdb_ok o -> mdb_gtid_ok g ->
  (exists r, Mariadb_Union (Some m) (Some (SetMariadb (Some o))) = Some (SetMariadb (Some r)) /\
     mdb_ok r /\
     forall d n, mdb_has (Some r) d n <-> mdb_has (Some m) d n \/ mdb_has (Some o) d n) /\
  (exists r, Mariadb_AddGTID (Some m) (Some (GtidMariadb g)) = Some r /\ mdb_ok r /\
     forall d n, mdb_has (Some r) d n <-> mdb_has (Some m) d n \/ (d = Domain g /\ n <= MSequence g)).
Proof.
  intros Hm Ho Hg. split; [by apply mdb_Union_correct|].
  eexists. split; [reflexivity|]. rewrite mdb_deepCopy_eq. by apply mdb_addGTID_correct.
Qed.

Lemma Mariadb_Union_AddGTID_witness :
  (exists r, Mariadb_Union (Some mdb_sample) (Some (SetMariadb (Some mdb_sample2))) =
       Some (SetMariadb (Some r)) /\ mdb_ok r /\
     forall d n, mdb_has (Some r) d n <->
       mdb_has (Some mdb_sample) d n \/ mdb_has (Some mdb_sample2) d n) /\
  (exists r, Mariadb_AddGTID (Some mdb_sample)
       (Some (GtidMariadb {| Domain := 2; MServer := 7; MSequence := 3 |})) = Some r /\ mdb_ok r /\
     forall d n, mdb_has (Some r) d n <->
       mdb_has (Some mdb_sample) d n \/ (d = 2 /\ n <= 3)).
Proof.
  apply (Mariadb_Union_AddGTID mdb_sample mdb_sample2 {| Domain := 2; MServer := 7; MSequence := 3 |});
    [exact mdb_sample_ok|exact mdb_sample2_ok|done].
Defined.

(** [Intersect] of two MariaDB sets is always the empty set, also when they share
    transactions: the loop looks the receiver's GTIDs up in the map it is filling. *)
Theorem Mariadb_Intersect_empty (m : mdbmap) (o : MariadbGTIDSet) :
  Mariadb_Intersect (Some m) (Some (SetMariadb o)) = Some (SetMariadb (Some ∅)).
Proof. apply mdb_Intersect_empty. Qed.
