(* ===== verification/FilePos.v ===== *)
(** * File and position GTIDs

    [go/mysql/filepos_gtid.go].  A file name and an offset stand for every
    transaction up to that place ([fp_has]), files being ordered by name.  [Contains] and
    [Union] are the set operations on these denotations; [AddGTID] replaces the
    position, and [Intersect] returns its argument. *)

From S2P Require Import Prelude GoStd GtidTypes Gtid56.

(** ** The code *)

(** [parseFilePosGTID]. *)
Definition parseFilePosGTID (s : list byte) : result gtid_error filePosGTID :=
  match strings.Split colon s with
  | [p0; p1] =>
      pos ← wrap_err (fun _ => InvalidPos) (strconv.ParseInt p1);
      Ok {| file := p0; pos := pos |}
  | _ => Err ExpectedFilePos
  end.

(** [ParseFilePosGTIDSet]. *)
Definition ParseFilePosGTIDSet (s : list byte) : result gtid_error filePosGTID :=
  parseFilePosGTID s.

(** [filePosGTID.String]. *)
Definition filePosGTID_String (gtid : filePosGTID) : list byte :=
  file gtid ++ colon :: strconv.FormatInt (pos gtid).

(** [filePosGTID.ContainsGTID]. *)
Definition FilePos_ContainsGTID (gtid : filePosGTID) (other : option GTID) : bool :=
  match other with
  | None => true
  | Some (GtidFilePos filePosOther) =>
      if bytes_lt (file filePosOther) (file gtid) then true
      else if bytes_lt (file gtid) (file filePosOther) then false
      else pos filePosOther <=? pos gtid
  | Some _ => false
  end.

(** [filePosGTID.Contains]. *)
Definition FilePos_Contains (gtid : filePosGTID) (other : option GTIDSet) : bool :=
  match other with
  | Some (SetFilePos filePosOther) => FilePos_ContainsGTID gtid (Some (GtidFilePos filePosOther))
  | _ => false
  end.

(** [filePosGTID.Equal]. *)
Definition FilePos_Equal (gtid : filePosGTID) (other : option GTIDSet) : bool :=
  match other with
  | Some (SetFilePos filePosOther) => bool_decide (gtid = filePosOther)
  | _ => false
  end.

(** [filePosGTID.AddGTID]. *)
Definition FilePos_AddGTID (gtid : filePosGTID) (other : option GTID) : filePosGTID :=
  match other with
  | Some (GtidFilePos filePosOther) => filePosOther
  | _ => gtid
  end.

(** [filePosGTID.Intersect]; [None] is the nil interface. *)
Definition FilePos_Intersect (gtid : filePosGTID) (other : option GTIDSet) : option GTIDSet :=
  match other with
  | Some (SetFilePos filePosOther) =>
      if negb (FilePos_Equal filePosOther other) then None else Some (SetFilePos filePosOther)
  | _ => None
  end.

(** [filePosGTID.Union]. *)
Definition FilePos_Union (gtid : filePosGTID) (other : option GTIDSet) : filePosGTID :=
  match other with
  | Some (SetFilePos filePosOther) =>
      if FilePos_Contains gtid other then gtid else filePosOther
  | _ => gtid
  end.

(** ** What positions denote *)

(** The places up to and including [gtid]. *)
Definition fp_has (gtid : filePosGTID) (place : list byte * Z) : Prop :=
  bytes_lt place.1 (file gtid) = true \/ place.1 = file gtid /\ place.2 <= pos gtid.

Lemma fp_has_self g : fp_has g (file g, pos g).
Proof. right. split; [done|simpl; lia]. Qed.

Lemma fp_has_trans g h place : fp_has g (file h, pos h) -> fp_has h place -> fp_has g place.
Proof.
  unfold fp_has. simpl. intros [H1|[E1 H1]] [H2|[E2 H2]].
  - left. by apply (bytes_lt_trans _ (file h)).
  - left. by rewrite E2.
  - left. by rewrite <- E1.
  - right. split; [congruence|lia].
Qed.

Lemma fp_ContainsGTID_has g h :
  FilePos_ContainsGTID g (Some (GtidFilePos h)) = true <-> fp_has g (file h, pos h).
Proof.
  cbn [FilePos_ContainsGTID]. unfold fp_has. simpl.
  destruct (bytes_lt (file h) (file g)) eqn:E1; [split; [by left|done]|].
  destruct (bytes_lt (file g) (file h)) eqn:E2.
  - split; [done|]. intros [?|[E _]]; [congruence|]. rewrite E, bytes_lt_irrefl in E2. done.
  - rewrite Z.leb_le. split; [intros; right|by intros [?|[_ ?]]].
    split; [|done]. destruct (bytes_trichotomy (file h) (file g)) as [[?|?]|?]; congruence.
Qed.

Lemma fp_Contains_correct g h :
  FilePos_Contains g (Some (SetFilePos h)) = true <-> forall place, fp_has h place -> fp_has g place.
Proof.
  cbn [FilePos_Contains]. rewrite fp_ContainsGTID_has. split.
  - intros H place. by apply fp_has_trans.
  - intros H. apply H, fp_has_self.
Qed.

(** Of two positions one contains the other. *)
Lemma fp_total g h : FilePos_Contains g (Some (SetFilePos h)) = false -> fp_has h (file g, pos g).
Proof.
  cbn. destruct (bytes_lt (file h) (file g)) eqn:E1; [done|].
  destruct (bytes_lt (file g) (file h)) eqn:E2; [by left|]. rewrite Z.leb_gt. intros H.
  right. simpl. split; [|lia]. destruct (bytes_trichotomy (file h) (file g)) as [[?|?]|?]; congruence.
Qed.

Lemma fp_Union_correct g h place :
  fp_has (FilePos_Union g (Some (SetFilePos h))) place <-> fp_has g place \/ fp_has h place.
Proof.
  unfold FilePos_Union. destruct (FilePos_Contains g _) eqn:E.
  - rewrite fp_Contains_correct in E. split; [by left|]. intros [?|?]; auto.
  - apply fp_total in E. split; [by right|]. intros [?|?]; [|done]. by apply (fp_has_trans h g).
Qed.

Lemma fp_Parse_String g :
  colon ∉ file g -> is_int64 (pos g) -> parseFilePosGTID (filePosGTID_String g) = Ok g.
Proof.
  intros Hf Hp. unfold parseFilePosGTID.
  change (filePosGTID_String g) with (strings.Join colon [file g; strconv.FormatInt (pos g)]).
  rewrite strings.Split_Join; [|done|].
  - rewrite strconv.ParseInt_FormatInt by done. by destruct g.
  - repeat constructor; [done|]. by apply strconv.FormatInt_not_in.
Qed.
