(* ===== verification/Gtid56Text.v ===== *)
(** * The text form of MySQL 5.6 GTID sets

    The parsers of [go/mysql/mysql56_gtid.go] and [go/mysql/mysql56_gtid_set.go], and
    [Subtract], which works on texts.  Printing and parsing are inverse on every set
    the parser produces. *)

From Equations Require Import Equations.
From S2P Require Import Prelude Intervals GoStd GtidTypes Gtid56.

(** ** The code *)

(** [parseInterval]. *)
Definition parseInterval (s : list byte) : result gtid_error interval :=
  let '(part0, part1, twoParts) := strings.Cut dash s in
  st ← wrap_err InvalidInterval (strconv.ParseUint part0 63);
  if st <? 1 then Err IntervalStartNotPositive
  else if twoParts : bool then
    en ← wrap_err InvalidInterval (strconv.ParseUint part1 63);
    Ok (Interval st en)
  else Ok (Interval st st).

Lemma Cut_shorter sep c s :
  (length (strings.Cut sep (c :: s)).1.2 < length (c :: s))%nat.
Proof.
  revert c. induction s as [|d s IH]; intros c; simpl; destruct (decide (c = sep)); simpl; try lia.
  specialize (IH d). simpl in IH. destruct (decide (d = sep)); simpl in *; [lia|].
  destruct (strings.Cut sep s) as [[a b] f]. simpl in *. lia.
Qed.

(** The loop over the intervals of one server: [rest] ([tail] in the source) is cut
    at colons. *)
Equations? parse_intervals (rest : list byte) (intervals : list interval)
  : result gtid_error (list interval) by wf (length rest) lt :=
  parse_intervals [] intervals := Ok intervals;
  parse_intervals (c :: rest) intervals
    with parseInterval (strings.Cut colon (c :: rest)).1.1 => {
    | Err e => Err e;
    | Ok iv =>
        parse_intervals (strings.Cut colon (c :: rest)).1.2
          (if iend iv <? start iv then intervals else intervals ++ [iv]) }.
Proof. apply Cut_shorter. Qed.

Definition start_less (a b : interval) : bool := start a <? start b.

(** The body of the loop of [ParseMysql56GTIDSet] for one uuid set. *)
Definition parse_uuid_set (uuidSet : list byte) (set : m56map)
  : result gtid_error m56map :=
  let uuidSet := strings.TrimSpace uuidSet in
  if bool_decide (uuidSet = []) then Ok set
  else
    let '(hd, tl, ok) := strings.Cut colon uuidSet in
    if negb ok then Err ExpectedUuidInterval
    else
      sid ← ParseSID hd;
      intervals ← parse_intervals tl [];
      match intervals with
      | [] => Ok set
      | _ =>
          let intervals := default [] (set !! sid) ++ intervals in
          Ok (<[sid := SortFunc start_less intervals]> set)
      end.

(** The loop of [ParseMysql56GTIDSet]: [input] is cut at commas. *)
Equations? parse_sets (input : list byte) (set : m56map) : result gtid_error m56map
  by wf (length input) lt :=
  parse_sets [] set := Ok set;
  parse_sets (c :: input) set
    with parse_uuid_set (strings.Cut comma (c :: input)).1.1 set => {
    | Err e => Err e;
    | Ok set' => parse_sets (strings.Cut comma (c :: input)).1.2 set' }.
Proof. apply Cut_shorter. Qed.

(** [ParseMysql56GTIDSet]. *)
Definition ParseMysql56GTIDSet (s : list byte) : result gtid_error Mysql56GTIDSet :=
  set ← parse_sets s ∅; Ok (Some set).

(** [Subtract]. *)
Definition Subtract (lhs rhs : list byte) : outcome (result gtid_error (list byte)) :=
  match ParseMysql56GTIDSet lhs with
  | Err e => Ret (Err e)
  | Ok lhsSet =>
      match ParseMysql56GTIDSet rhs with
      | Err e => Ret (Err e)
      | Ok rhsSet =>
          diffSet ← Mysql56_Difference lhsSet rhsSet;
          Ret (Ok (Mysql56GTIDSet_String diffSet))
      end
  end.

(** ** Printing, then parsing *)

Lemma sid_ok_inv sid :
  sid_ok sid -> exists b0 b1 b2 b3 b4 b5 b6 b7 b8 b9 b10 b11 b12 b13 b14 b15,
  sid = [b0; b1; b2; b3; b4; b5; b6; b7; b8; b9; b10; b11; b12; b13; b14; b15].
Proof.
  unfold sid_ok. intros H. do 16 (destruct sid as [|? sid]; [done|]).
  destruct sid; [|done]. by repeat eexists.
Qed.

Lemma ParseSID_String sid : sid_ok sid -> ParseSID (SID_String sid) = Ok sid.
Proof.
  intros (b0 & b1 & b2 & b3 & b4 & b5 & b6 & b7 & b8 & b9 & b10 & b11 & b12 & b13 & b14 & b15 & ->)
    %sid_ok_inv.
  unfold ParseSID. rewrite !bool_decide_eq_true_2 by reflexivity. cbn [andb].
  match goal with |- context [hex.Decode ?b] =>
    change b with (hex.Encode [b0; b1; b2; b3; b4; b5; b6; b7; b8; b9; b10; b11; b12; b13; b14; b15])
  end.
  by rewrite hex.Decode_Encode.
Qed.

(** The text of an interval, without its colon. *)
Definition interval_body (iv : interval) : list byte :=
  strconv.FormatInt (start iv) ++
  (if iend iv =? start iv then [] else dash :: strconv.FormatInt (iend iv)).

Definition interval_ok (iv : interval) : Prop := 1 <= start iv /\ start iv <= iend iv <= MaxInt64.

Lemma parseInterval_body iv : interval_ok iv -> parseInterval (interval_body iv) = Ok iv.
Proof.
  intros [H1 H2]. unfold parseInterval, interval_body.
  rewrite (strconv.FormatInt_nonneg (start iv)) by lia.
  assert (dash ∉ strconv.FormatUint (start iv)) as Hd
    by (apply strconv.FormatUint_not_in; [lia|done]).
  destruct (Z.eqb_spec (iend iv) (start iv)) as [E|E].
  - rewrite app_nil_r, strings.Cut_absent by done.
    rewrite strconv.ParseUint_FormatUint by (unfold_ints; lia). simpl.
    rewrite (proj2 (Z.ltb_ge (start iv) 1)) by lia. rewrite <- E at 2. by destruct iv.
  - rewrite strings.Cut_found by done. rewrite (strconv.FormatInt_nonneg (iend iv)) by lia.
    rewrite !strconv.ParseUint_FormatUint by (unfold_ints; lia). simpl.
    rewrite (proj2 (Z.ltb_ge (start iv) 1)) by lia. by destruct iv.
Qed.

Lemma interval_body_not_in iv c :
  interval_ok iv -> strconv.is_digit c = false -> c <> dash -> c ∉ interval_body iv.
Proof.
  intros [H1 H2] Hc Hd. unfold interval_body. rewrite !strconv.FormatInt_nonneg by lia.
  apply not_elem_of_app. split; [apply strconv.FormatUint_not_in; [lia|done]|].
  destruct (iend iv =? start iv); [apply not_elem_of_nil|].
  apply not_elem_of_cons. split; [done|]. apply strconv.FormatUint_not_in; [lia|done].
Qed.

Lemma interval_body_ends iv :
  interval_ok iv ->
  (exists c s, interval_body iv = c :: s) /\
  exists d, last (interval_body iv) = Some d /\ strconv.is_digit d = true.
Proof.
  intros [H1 H2]. unfold interval_body. rewrite !strconv.FormatInt_nonneg by lia.
  destruct (strconv.FormatUint_ends (start iv)) as (c & d & s & E & Hd & _ & ?); [lia|].
  split; [rewrite E; simpl; eauto|].
  destruct (iend iv =? start iv); [rewrite app_nil_r; eauto|].
  destruct (strconv.FormatUint_ends (iend iv)) as (_ & d' & _ & _ & Hd' & _ & ?); [lia|].
  exists d'. split; [|done].
  apply last_Some in Hd' as [l ->]. by rewrite app_comm_cons, app_assoc, last_snoc.
Qed.

Lemma parse_intervals_bodies l acc :
  Forall interval_ok l ->
  parse_intervals (strings.Join colon (interval_body <$> l)) acc = Ok (acc ++ l).
Proof.
  revert acc. induction l as [|iv l IH]; intros acc H; [by rewrite app_nil_r|].
  inversion H as [|? ? Hiv Hl]; subst. rewrite fmap_cons.
  destruct (interval_body_ends iv Hiv) as [(c & s & E) _].
  destruct (strings.Cut_Join colon (interval_body iv) (interval_body <$> l)) as [f Hcut];
    [by apply interval_body_not_in|].
  destruct (strings.Join_head colon c s (interval_body <$> l)) as [t Ht].
  rewrite <- E in Ht. rewrite Ht in Hcut |- *.
  rewrite parse_intervals_equation_2.
  replace (parseInterval _) with (Ok (E := gtid_error) iv)
    by (rewrite Hcut; symmetry; by apply parseInterval_body).
  rewrite parse_intervals_clause_2_equation_1.
  destruct Hiv as [? ?]. rewrite (proj2 (Z.ltb_ge (iend iv) (start iv))) by lia.
  rewrite Hcut. cbn [fst snd]. rewrite IH by done. by rewrite <- app_assoc.
Qed.

Lemma uuid_set_String_join set sid iv l :
  get set sid = iv :: l ->
  uuid_set_String set sid = SID_String sid ++ colon :: strings.Join colon (interval_body <$> iv :: l).
Proof.
  unfold uuid_set_String. intros ->. f_equal. revert iv.
  induction l as [|iv' l IH]; intros iv; [by rewrite fmap_cons; cbn; rewrite app_nil_r|].
  rewrite fmap_cons. cbn [concat]. rewrite IH.
  rewrite fmap_cons. cbn [strings.Join]. unfold interval_String, interval_body.
  by rewrite <- app_comm_cons.
Qed.

Lemma SID_String_shape sid :
  sid_ok sid ->
  (exists c s, SID_String sid = c :: s /\ hex.is_lower_hex c = true) /\
  forall c, hex.is_lower_hex c = false -> c <> dash -> c ∉ SID_String sid.
Proof.
  intros Hsid. unfold SID_String. split.
  - destruct sid as [|b sid]; [done|]. eexists _, _. split; [reflexivity|].
    by destruct b.
  - intros c Hc Hd. pose proof (fun l => hex.Encode_not_in l c Hc) as Henc.
    repeat (rewrite not_elem_of_app; split; [apply Henc|];
            rewrite not_elem_of_cons; split; [done|]).
    apply Henc.
Qed.

(** Sets whose text form is complete: 16-byte server ids, each with a non-empty list
    of intervals sorted by start and inside [1, MaxInt64]. *)
Definition printable_list (l : list interval) : Prop := l <> [] /\ sorted_starts 1 l.

Definition printable (m : m56map) : Prop :=
  forall sid l, m !! sid = Some l -> sid_ok sid /\ printable_list l.

Lemma sorted_starts_lower lo l iv : sorted_starts lo l -> iv ∈ l -> lo <= start iv.
Proof.
  revert lo. induction l as [|x l IH]; intros lo H; [by intros ?%elem_of_nil|].
  destruct H as (H1 & H2 & H3). intros [->|Hin]%elem_of_cons; [lia|].
  specialize (IH _ H3 Hin). lia.
Qed.

Lemma sorted_starts_ordered lo l : sorted_starts lo l -> ordered start_less l.
Proof.
  revert lo. induction l as [|x l IH]; intros lo H; [constructor|].
  destruct H as (H1 & H2 & H3). constructor; [by apply (IH (start x))|].
  apply Forall_forall. intros y Hy. apply Z.ltb_ge. by apply (sorted_starts_lower _ l).
Qed.

Lemma sorted_starts_ok lo l : 1 <= lo -> sorted_starts lo l -> Forall interval_ok l.
Proof.
  revert lo. induction l as [|x l IH]; intros lo Hlo H; [done|].
  destruct H as (H1 & H2 & H3). constructor; [split; lia|]. apply (IH (start x)); [lia|done].
Qed.

Lemma uuid_set_String_trim m sid l :
  sid_ok sid -> printable_list l -> m !! sid = Some l ->
  (exists c s, uuid_set_String (Some m) sid = c :: s) /\
  strings.TrimSpace (uuid_set_String (Some m) sid) = uuid_set_String (Some m) sid.
Proof.
  intros Hsid [Hne Hl] Hm. destruct l as [|iv l]; [done|].
  assert (get (Some m) sid = iv :: l) as Hget by (by rewrite get_default; simpl; rewrite Hm).
  rewrite (uuid_set_String_join _ _ _ _ Hget).
  destruct (SID_String_shape sid Hsid) as [(c & s & Hc & Hlow) _].
  split; [rewrite Hc; simpl; eauto|].
  assert (exists pre iv', interval_ok iv' /\
    colon :: strings.Join colon (interval_body <$> iv :: l) = pre ++ interval_body iv')
    as (pre & iv' & Hok & ->).
  { apply sorted_starts_ok in Hl; [|lia]. clear -Hl. revert iv Hl.
    induction l as [|iv' l IH]; intros iv Hl; inversion Hl; subst.
    - by exists [colon], iv.
    - destruct (IH iv') as (pre & z & Hz & E); [done|].
      exists (colon :: interval_body iv ++ pre), z. split; [done|].
      simpl in *. rewrite <- app_assoc, <- E. done. }
  destruct (interval_body_ends iv' Hok) as [_ (d & Hd & Hdig)].
  apply (strings.TrimSpace_id _ c d).
  - by rewrite Hc.
  - apply last_Some in Hd as [body ->]. by rewrite !app_assoc, last_snoc.
  - by apply hex.lower_hex_not_space.
  - by apply strconv.digit_not_space.
Qed.

Lemma parse_uuid_set_String m sid l acc :
  sid_ok sid -> printable_list l -> m !! sid = Some l -> acc !! sid = None ->
  parse_uuid_set (uuid_set_String (Some m) sid) acc = Ok (<[sid := l]> acc).
Proof.
  intros Hsid Hp Hm Hacc. unfold parse_uuid_set.
  destruct (uuid_set_String_trim m sid l) as [(c & s & Hc) ->]; [done..|].
  rewrite bool_decide_eq_false_2 by (by rewrite Hc).
  destruct Hp as [Hne Hl]. destruct l as [|iv l]; [done|].
  assert (get (Some m) sid = iv :: l) as Hget by (by rewrite get_default; simpl; rewrite Hm).
  rewrite (uuid_set_String_join _ _ _ _ Hget).
  rewrite strings.Cut_found by (by apply SID_String_shape). cbn [negb].
  rewrite ParseSID_String by done. cbn [mbind result_bind].
  rewrite parse_intervals_bodies by (by apply (sorted_starts_ok 1)).
  cbn [mbind result_bind app]. rewrite Hacc. cbn [default app from_option].
  rewrite SortFunc_ordered; [done|]. by apply (sorted_starts_ordered 1).
Qed.

Lemma uuid_set_String_no_comma m sid l :
  sid_ok sid -> printable_list l -> m !! sid = Some l ->
  comma ∉ uuid_set_String (Some m) sid.
Proof.
  intros Hsid [Hne Hl] Hm. destruct l as [|iv l]; [done|].
  assert (get (Some m) sid = iv :: l) as Hget by (by rewrite get_default; simpl; rewrite Hm).
  unfold uuid_set_String. rewrite Hget.
  apply not_elem_of_app. split; [by apply SID_String_shape|].
  apply sorted_starts_ok in Hl; [|lia]. revert Hl. generalize (iv :: l). clear.
  intros l Hl. induction Hl as [|iv l Hiv Hl IH]; [apply not_elem_of_nil|].
  rewrite fmap_cons. cbn [concat]. apply not_elem_of_app. split; [|done].
  apply not_elem_of_cons. split; [done|]. by apply interval_body_not_in.
Qed.

(** Parsing the joined parts of distinct servers adds exactly these servers. *)
Lemma parse_sets_String m sids acc :
  printable m -> NoDup sids -> (forall sid, sid ∈ sids -> is_Some (m !! sid) /\ acc !! sid = None) ->
  exists r, parse_sets (strings.Join comma (uuid_set_String (Some m) <$> sids)) acc = Ok r /\
  forall sid, r !! sid = if bool_decide (sid ∈ sids) then m !! sid else acc !! sid.
Proof.
  intros Hp. revert acc. induction sids as [|sid sids IH]; intros acc Hnd Hs.
  { exists acc. split; [done|]. intros sid. by rewrite bool_decide_eq_false_2 by apply not_elem_of_nil. }
  apply NoDup_cons in Hnd as [Hnin Hnd].
  destruct (Hs sid) as [[l Hl] Hacc]; [by left|]. destruct (Hp sid l Hl) as [Hsid Hpl].
  rewrite fmap_cons.
  destruct (uuid_set_String_trim m sid l) as [(c & s & Hc) _]; [done..|].
  destruct (strings.Cut_Join comma (uuid_set_String (Some m) sid)
    (uuid_set_String (Some m) <$> sids)) as [f Hcut]; [by apply (uuid_set_String_no_comma _ _ l)|].
  destruct (strings.Join_head comma c s (uuid_set_String (Some m) <$> sids)) as [t Ht].
  rewrite <- Hc in Ht. rewrite Ht in Hcut |- *. rewrite parse_sets_equation_2.
  replace (parse_uuid_set _ acc) with (Ok (E := gtid_error) (<[sid := l]> acc))
    by (rewrite Hcut; symmetry; by apply parse_uuid_set_String).
  rewrite parse_sets_clause_2_equation_1, Hcut. cbn [fst snd].
  destruct (IH (<[sid := l]> acc)) as (r & -> & Hr); [done|..].
  { intros sid' Hin. destruct (Hs sid') as [? ?]; [by right|]. split; [done|].
    rewrite lookup_insert_ne; [done|]. by intros ->. }
  exists r. split; [done|]. intros sid'. rewrite Hr. by apply lookup_collected.
Qed.

Lemma Parse_String m :
  printable m -> ParseMysql56GTIDSet (Mysql56GTIDSet_String (Some m)) = Ok (Some m).
Proof.
  intros Hp. destruct (SIDs_spec m) as [Hnd Hin]. unfold ParseMysql56GTIDSet, Mysql56GTIDSet_String.
  destruct (parse_sets_String m (SIDs (Some m)) ∅) as (r & -> & Hr); [done..| |].
  { intros sid ?%Hin. split; [done|]. apply lookup_empty. }
  cbn [mbind result_bind]. by rewrite (collected_all m r (SIDs (Some m))).
Qed.

(** ** What the parser accepts *)

Lemma ParseSID_ok s sid : ParseSID s = Ok sid -> sid_ok sid.
Proof.
  unfold ParseSID. case_test; [|done]. zify_tests. rewrite !bool_decide_eq_true in *.
  destruct (hex.Decode _) as [d|] eqn:E; simpl; [|done]. intros [= <-].
  apply hex.length_Decode in E. rewrite !length_app, !length_take, !length_drop in E.
  unfold sid_ok. unfold zlen in *. lia.
Qed.

Lemma parseInterval_range s iv :
  parseInterval s = Ok iv -> 1 <= start iv <= MaxInt64 /\ 0 <= iend iv <= MaxInt64.
Proof.
  unfold parseInterval. destruct (strings.Cut dash s) as [[p0 p1] two].
  destruct (strconv.ParseUint p0 63) as [st|] eqn:E0; cbn [wrap_err mbind result_bind]; [|done].
  apply strconv.ParseUint_range in E0; [|lia].
  destruct (Z.ltb_spec st 1); [done|]. destruct two.
  - destruct (strconv.ParseUint p1 63) as [en|] eqn:E1; cbn [wrap_err mbind result_bind]; [|done].
    apply strconv.ParseUint_range in E1; [|lia]. intros [= <-]. cbn [start iend]. unfold_ints. lia.
  - intros [= <-]. cbn [start iend]. unfold_ints. lia.
Qed.

Lemma parse_intervals_ok s acc l :
  Forall interval_ok acc -> parse_intervals s acc = Ok l -> Forall interval_ok l.
Proof.
  intros Hacc. funelim (parse_intervals s acc); try done.
  - by intros [= <-].
  - intros Hl. apply (H l); [|done]. pose proof (parseInterval_range _ _ Heq).
    destruct (Z.ltb_spec (iend iv) (start iv)); [done|].
    apply Forall_app. split; [done|]. repeat constructor; lia.
Qed.

Lemma ordered_sorted_starts lo l :
  ordered start_less l -> Forall interval_ok l -> (forall iv, iv ∈ l -> lo <= start iv) ->
  sorted_starts lo l.
Proof.
  intros Ho Hok. revert lo. induction Ho as [|iv l Ho IH Hf]; intros lo Hlo; [done|].
  inversion Hok as [|? ? [? ?] Hok']; subst. split_and!; [apply Hlo; by left|lia..|].
  apply IH; [done|]. intros iv' Hin. rewrite Forall_forall in Hf. apply Z.ltb_ge. by apply Hf.
Qed.

Lemma sorted_printable_list l :
  l <> [] -> Forall interval_ok l -> printable_list (SortFunc start_less l).
Proof.
  intros Hne Hok. pose proof (SortFunc_perm start_less l) as Hp. split.
  - intros E. rewrite E in Hp. by apply Hne, Permutation_nil.
  - rewrite <- Hp in Hok. apply ordered_sorted_starts; [|done|].
    + apply SortFunc_is_ordered; unfold start_less; intros; rewrite ?Z.ltb_ge in *; [|lia].
      rewrite Z.ltb_lt in *. lia.
    + rewrite Forall_forall in Hok. intros iv Hin. by apply Hok.
Qed.

Lemma printable_insert m sid l : printable m -> sid_ok sid -> printable_list l -> printable (<[sid := l]> m).
Proof.
  intros Hm Hs Hl sid' l'. rewrite lookup_insert_Some. intros [[<- <-]|[_ ?]]; [done|]. by apply Hm.
Qed.

Lemma parse_uuid_set_printable s m m' :
  printable m -> parse_uuid_set s m = Ok m' -> printable m'.
Proof.
  intros Hm. unfold parse_uuid_set. case_test; [by intros [= <-]|].
  destruct (strings.Cut colon _) as [[hd tl] found]. destruct found; [|done]. cbn [negb].
  destruct (ParseSID hd) as [sid|] eqn:Es; cbn [mbind result_bind]; [|done].
  destruct (parse_intervals tl []) as [l|] eqn:El; cbn [mbind result_bind]; [|done].
  apply parse_intervals_ok in El; [|done]. apply ParseSID_ok in Es.
  destruct l as [|iv l]; [by intros [= <-]|]. intros [= <-].
  apply printable_insert; [done..|]. apply sorted_printable_list; [by destruct (m !! sid) as [[]|]|].
  apply Forall_app. split; [|done]. destruct (m !! sid) as [l0|] eqn:E0; [|done].
  destruct (Hm sid l0 E0) as (_ & _ & Hl0). by apply (sorted_starts_ok 1).
Qed.

Lemma parse_sets_printable s m m' : printable m -> parse_sets s m = Ok m' -> printable m'.
Proof.
  intros Hm. funelim (parse_sets s m); try done.
  - by intros [= <-].
  - intros Hr. apply (H m'); [|done]. by apply (parse_uuid_set_printable _ _ _ Hm Heq).
Qed.

Lemma Parse_printable s set :
  ParseMysql56GTIDSet s = Ok set -> exists m, set = Some m /\ printable m.
Proof.
  unfold ParseMysql56GTIDSet. destruct (parse_sets s ∅) as [m|] eqn:E; simpl; [|done].
  intros [= <-]. exists m. split; [done|]. apply (parse_sets_printable s ∅); [|done].
  intros sid l. by rewrite lookup_empty.
Qed.

(** A canonical set is printable when its members are valid transactions. *)
Definition valid_members (m : m56map) : Prop :=
  forall sid n, has (Some m) sid n -> sid_ok sid /\ 1 <= n.

Lemma canonical_printable m : canonical_set (Some m) -> valid_members m -> printable m.
Proof.
  intros Hc Hv sid l Hl. destruct (Hc sid l Hl) as [Hcan Hne].
  destruct l as [|iv l]; [done|]. simpl in Hcan. destruct Hcan as (H1 & H2 & H3).
  destruct (Hv sid (start iv)) as [Hsid Hn].
  { rewrite has_Some, Hl. simpl. rewrite mem_cons. left. lia. }
  split; [done|]. split; [done|]. simpl. split_and!; try lia.
  apply (spaced_sorted 1) in H3; [|lia]. eapply sorted_starts_weaken; [exact H3|]. lia.
Qed.

Lemma printable_members m : printable m -> valid_members m.
Proof.
  intros Hp sid n. rewrite has_Some. destruct (m !! sid) as [l|] eqn:E; simpl; [|by rewrite mem_nil].
  destruct (Hp sid l E) as (Hs & _ & Hl). intros Hn. split; [done|].
  by apply (sorted_starts_mem 1 l n).
Qed.

(** ** Single GTIDs *)

Lemma parse_Mysql56GTID_String g :
  sid_ok (Server g) -> is_int64 (Sequence g) ->
  parseMysql56GTID (Mysql56GTID_String g) = Ok (Gtid56 g).
Proof.
  intros Hs Hq. unfold parseMysql56GTID.
  change (Mysql56GTID_String g)
    with (strings.Join colon [SID_String (Server g); strconv.FormatInt (Sequence g)]).
  rewrite strings.Split_Join; [|done|].
  - rewrite ParseSID_String, strconv.ParseInt_FormatInt by done. by destruct g.
  - repeat constructor; [by apply SID_String_shape|by apply strconv.FormatInt_not_in].
Qed.

Lemma parseMysql56GTID_ok s gtid :
  parseMysql56GTID s = Ok gtid ->
  exists g, gtid = Gtid56 g /\ sid_ok (Server g) /\ is_int64 (Sequence g).
Proof.
  unfold parseMysql56GTID. destruct (strings.Split colon s) as [|p0 [|p1 [|]]]; try done.
  destruct (ParseSID p0) as [sid|] eqn:Es; cbn [mbind result_bind]; [|done].
  destruct (strconv.ParseInt p1) as [n|] eqn:En; cbn [wrap_err mbind result_bind]; [|done].
  intros [= <-]. eexists. split_and!; [done|by apply (ParseSID_ok p0)|by apply (strconv.ParseInt_range p1)].
Qed.

(** ** Theorems *)

Lemma singleton_ok sid l :
  sid_ok sid -> l <> [] -> canonical l -> sorted_starts 1 l ->
  canonical_set (Some {[sid := l]}) /\ valid_members {[sid := l]}.
Proof.
  intros Hs Hne Hc Hst. split.
  - by apply canonical_singleton.
  - apply printable_members. intros sid' l'. rewrite lookup_singleton_Some.
    intros [<- <-]. done.
Qed.

Lemma sample_ok :
  canonical_set (Some (one_server sid_a [Interval 1 5; Interval 10 20])) /\
  valid_members (one_server sid_a [Interval 1 5; Interval 10 20]).
Proof. apply singleton_ok; try done; simpl; unfold_ints; lia. Qed.

Lemma sample2_ok :
  canonical_set (Some (one_server sid_a [Interval 3 12])) /\
  valid_members (one_server sid_a [Interval 3 12]).
Proof. apply singleton_ok; try done; simpl; unfold_ints; lia. Qed.

(** Whatever text the parser accepts, printing the parsed set gives a text that
    parses to the same set; all its server ids have 16 bytes and all its interval
    lists are non-empty, sorted by start and within [1, MaxInt64]. *)
Theorem ParseMysql56GTIDSet_String_stable (s : list byte) (set : Mysql56GTIDSet) :
  ParseMysql56GTIDSet s = Ok set ->
  (exists m, set = Some m /\ printable m) /\
  ParseMysql56GTIDSet (Mysql56GTIDSet_String set) = Ok set.
Proof.
  intros H. destruct (Parse_printable s set H) as (m & -> & Hm).
  split; [by exists m|]. by apply Parse_String.
Qed.

Definition sample_set_text : list byte := SID_String sid_b ++ bs ":10-20 ," ++ SID_String sid_a ++ bs ":1-5:7".

Definition parsed_sample : Mysql56GTIDSet :=
  Some (<[sid_b := [Interval 10 20]]> (one_server sid_a [Interval 1 5; Interval 7 7])).

Lemma ParseMysql56GTIDSet_String_stable_witness :
  (exists m, parsed_sample = Some m /\ printable m) /\
  ParseMysql56GTIDSet (Mysql56GTIDSet_String parsed_sample) = Ok parsed_sample.
Proof.
  apply (ParseMysql56GTIDSet_String_stable sample_set_text). eval_eq.
Defined.

(** [Subtract] of the texts of two canonical sets is the text of their
    difference, which parses back to a set with exactly these transactions. *)
Theorem Subtract_texts (m o : m56map) :
  canonical_set (Some m) /\ valid_members m -> canonical_set (Some o) /\ valid_members o ->
  exists r text, Subtract (Mysql56GTIDSet_String (Some m)) (Mysql56GTIDSet_String (Some o)) =
      Ret (Ok text) /\
    ParseMysql56GTIDSet text = Ok (Some r) /\
    (forall sid n, has (Some r) sid n <-> has (Some m) sid n /\ ~ has (Some o) sid n).
Proof.
  intros [Hm Hvm] [Ho Hvo]. destruct (Difference_correct m o Hm Ho) as (r & Hr & Hc & Hh).
  exists r, (Mysql56GTIDSet_String (Some r)). unfold Subtract.
  rewrite !Parse_String, Hr by auto using canonical_printable. split_and!; [done| |done].
  apply Parse_String, canonical_printable; [done|]. intros sid n [? _]%Hh. by apply Hvm.
Qed.

Lemma Subtract_texts_witness :
  exists r text, Subtract
      (Mysql56GTIDSet_String (Some (one_server sid_a [Interval 1 5; Interval 10 20])))
      (Mysql56GTIDSet_String (Some (one_server sid_a [Interval 3 12]))) = Ret (Ok text) /\
    ParseMysql56GTIDSet text = Ok (Some r) /\
    (forall sid n, has (Some r) sid n <->
       has (Some (one_server sid_a [Interval 1 5; Interval 10 20])) sid n /\
       ~ has (Some (one_server sid_a [Interval 3 12])) sid n).
Proof. apply Subtract_texts; [exact sample_ok|exact sample2_ok]. Defined.
