(* ===== verification/Gtid56Block.v ===== *)
(** * The SID block encoding of MySQL 5.6 GTID sets

    [Mysql56GTIDSet.SIDBlock] and [NewMysql56GTIDSetFromSIDBlock] of
    [go/mysql/mysql56_gtid_set.go], with the readers of [bytes.Reader] and
    [binary.Read] they use.  Decoding an encoded set gives the set back, whatever
    follows it; a truncated block is an error. *)

From Equations Require Import Equations.
From S2P Require Import Prelude Intervals GoStd GtidTypes Gtid56.

(** ** The code *)

Definition interval_block (iv : interval) : list byte :=
  binary.le_bytes 8 (start iv) ++ binary.le_bytes 8 (add64 (iend iv) 1).

Definition sid_block (set : Mysql56GTIDSet) (sid : SID) : list byte :=
  sid ++ binary.le_bytes 8 (uint64 (zlen (get set sid))) ++
  concat (interval_block <$> get set sid).

(** [Mysql56GTIDSet.SIDBlock]. *)
Definition SIDBlock (set : Mysql56GTIDSet) : list byte :=
  binary.le_bytes 8 (uint64 (zlen (entries set))) ++ concat (sid_block set <$> SIDs set).

(** Reading [n] bytes; [None] when the buffer holds fewer. *)
Definition read_bytes (n : nat) (buf : list byte) : option (list byte * list byte) :=
  if (n <=? length buf)%nat then Some (take n buf, drop n buf) else None.

(** [binary.Read(buf, binary.LittleEndian, &x)] for a [uint64]. *)
Definition read_uint64 (buf : list byte) : option (Z * list byte) :=
  '(x, buf) ← read_bytes 8 buf; Some (binary.of_le x, buf).

Lemma read_bytes_length n buf x buf' :
  read_bytes n buf = Some (x, buf') -> length buf = (n + length buf')%nat.
Proof.
  unfold read_bytes. destruct (Nat.leb_spec n (length buf)); [|done].
  intros [= <- <-]. rewrite length_drop. lia.
Qed.

Lemma read_uint64_length buf x buf' :
  read_uint64 buf = Some (x, buf') -> length buf = (8 + length buf')%nat.
Proof.
  unfold read_uint64. destruct (read_bytes 8 buf) as [[y b]|] eqn:E; simpl; [|done].
  intros [= <- <-]. by apply (read_bytes_length _ _ _ _ E).
Qed.

(** The inner loop: the intervals [j], ..., [nIntervals - 1] of server [sid]. *)
Equations? block_intervals (i nIntervals j : Z) (sid : SID) (buf : list byte) (set : m56map)
  : result gtid_error (m56map * list byte) by wf (length buf) lt :=
  block_intervals i nIntervals j sid buf set with decide (j < nIntervals) => {
    | right _ => Ok (set, buf);
    | left _ with inspect (read_uint64 buf) => {
      | exist _ None _ => Err (CannotReadStart i j);
      | exist _ (Some (st, buf1)) _ with inspect (read_uint64 buf1) => {
        | exist _ None _ => Err (CannotReadEnd i j);
        | exist _ (Some (en, buf2)) _ =>
            block_intervals i nIntervals (j + 1) sid buf2
              (<[sid := default [] (set !! sid) ++
                   [Interval (int64 st) (int64 (uint64 (en - 1)))]]> set) } } }.
Proof.
  apply read_uint64_length in e, e0. lia.
Qed.

Lemma block_intervals_length i n j sid buf set set' buf' :
  block_intervals i n j sid buf set = Ok (set', buf') -> (length buf' <= length buf)%nat.
Proof.
  funelim (block_intervals i n j sid buf set); try done.
  - intros [= <- <-]. lia.
  - intros Hr. specialize (H _ _ Hr).
    pose proof (read_uint64_length _ _ _ e). pose proof (read_uint64_length _ _ _ e0). lia.
Qed.

(** The outer loop: the servers [i], ..., [nSIDs - 1]. *)
Equations? block_sids (nSIDs i : Z) (buf : list byte) (set : m56map)
  : result gtid_error (m56map * list byte) by wf (length buf) lt :=
  block_sids nSIDs i buf set with decide (i < nSIDs) => {
    | right _ => Ok (set, buf);
    | left _ with inspect (read_bytes 16 buf) => {
      | exist _ None _ => Err (CannotReadSID i);
      | exist _ (Some (sid, buf1)) _ with inspect (read_uint64 buf1) => {
        | exist _ None _ => Err (CannotReadNIntervals i);
        | exist _ (Some (nIntervals, buf2)) _
          with inspect (block_intervals i nIntervals 0 sid buf2 set) => {
          | exist _ (Err e) _ => Err e;
          | exist _ (Ok (set', buf3)) _ => block_sids nSIDs (i + 1) buf3 set' } } } }.
Proof.
  apply read_bytes_length in e. apply read_uint64_length in e0.
  apply block_intervals_length in e1. lia.
Qed.

(** [NewMysql56GTIDSetFromSIDBlock]; bytes after the last server are ignored. *)
Definition NewMysql56GTIDSetFromSIDBlock (data : list byte) : result gtid_error Mysql56GTIDSet :=
  match read_uint64 data with
  | None => Err CannotReadNSIDs
  | Some (nSIDs, buf) =>
      '(set, _) ← block_sids nSIDs 0 buf ∅;
      Ok (Some set)
  end.

(** ** Encoding, then decoding *)

Lemma read_bytes_app n x buf : length x = n -> read_bytes n (x ++ buf) = Some (x, buf).
Proof.
  intros <-. unfold read_bytes. rewrite length_app.
  rewrite (proj2 (Nat.leb_le (length x) _)) by lia. by rewrite take_app_length, drop_app_length.
Qed.

Lemma read_uint64_app z buf : read_uint64 (binary.le_bytes 8 z ++ buf) = Some (uint64 z, buf).
Proof.
  unfold read_uint64. rewrite read_bytes_app by apply binary.length_le_bytes. cbn [mbind option_bind].
  by rewrite binary.of_le_le_bytes_8.
Qed.

(** Both ends survive, also [MaxInt64], whose encoding wraps around. *)
Lemma interval_block_end z : is_int64 z -> int64 (uint64 (uint64 (add64 z 1) - 1)) = z.
Proof.
  intros Hz. rewrite int64_uint64. unfold_ints. change (64 - 1) with 63.
  change (2 ^ 63) with 9223372036854775808 in *. change (2 ^ 64) with 18446744073709551616 in *.
  Z.to_euclidean_division_equations. lia.
Qed.

(** The loops unfolded once. *)
Lemma block_intervals_eq i n j sid buf set :
  block_intervals i n j sid buf set =
  if decide (j < n) then
    match read_uint64 buf with
    | None => Err (CannotReadStart i j)
    | Some (st, buf1) =>
        match read_uint64 buf1 with
        | None => Err (CannotReadEnd i j)
        | Some (en, buf2) =>
            block_intervals i n (j + 1) sid buf2
              (<[sid := default [] (set !! sid) ++
                   [Interval (int64 st) (int64 (uint64 (en - 1)))]]> set)
        end
    end
  else Ok (set, buf).
Proof.
  funelim (block_intervals i n j sid buf set); use_tests; done.
Qed.

Lemma block_sids_eq n i buf set :
  block_sids n i buf set =
  if decide (i < n) then
    match read_bytes 16 buf with
    | None => Err (CannotReadSID i)
    | Some (sid, buf1) =>
        match read_uint64 buf1 with
        | None => Err (CannotReadNIntervals i)
        | Some (nIntervals, buf2) =>
            '(set', buf3) ← block_intervals i nIntervals 0 sid buf2 set;
            block_sids n (i + 1) buf3 set'
        end
    end
  else Ok (set, buf).
Proof.
  unfold mbind, result_bind. funelim (block_sids n i buf set); use_tests; done.
Qed.

Definition int64_interval (iv : interval) : Prop := is_int64 (start iv) /\ is_int64 (iend iv).

Lemma block_intervals_encoded i n j sid l set rest :
  Forall int64_interval l -> j + zlen l = n ->
  block_intervals i n j sid (concat (interval_block <$> l) ++ rest) set =
  Ok (if decide (l = []) then set else <[sid := default [] (set !! sid) ++ l]> set, rest).
Proof.
  intros Hl. revert j set. induction Hl as [|iv l [Hs He] Hl IH]; intros j set Hn; rewrite block_intervals_eq.
  - rewrite decide_False by (unfold zlen in *; simpl in *; lia). by rewrite decide_True.
  - rewrite zlen_cons in Hn. pose proof (zlen_nonneg l). rewrite decide_True by lia.
    rewrite fmap_cons. cbn [concat]. unfold interval_block at 1. rewrite <- !app_assoc, read_uint64_app.
    rewrite read_uint64_app, interval_block_end by done.
    rewrite int64_uint64, int64_id by done. rewrite IH by lia. f_equal. f_equal.
    rewrite (decide_False (P := iv :: l = [])) by done. destruct iv as [st en].
    destruct (decide (l = [])) as [->|Hne]; [done|].
    rewrite lookup_insert_eq, insert_insert_eq. simpl. by rewrite <- app_assoc.
Qed.

(** Sets whose binary form is complete. *)
Definition encodable_list (l : list interval) : Prop :=
  l <> [] /\ is_uint64 (zlen l) /\ Forall int64_interval l.

Definition encodable (m : m56map) : Prop :=
  is_uint64 (Z.of_nat (size m)) /\
  forall sid l, m !! sid = Some l -> sid_ok sid /\ encodable_list l.

Lemma block_sids_encoded m n i sids acc rest :
  encodable m -> NoDup sids -> i + zlen sids = n ->
  (forall sid, sid ∈ sids -> is_Some (m !! sid) /\ acc !! sid = None) ->
  exists r, block_sids n i (concat (sid_block (Some m) <$> sids) ++ rest) acc = Ok (r, rest) /\
  forall sid, r !! sid = if bool_decide (sid ∈ sids) then m !! sid else acc !! sid.
Proof.
  intros [Hsize Hm]. revert i acc. induction sids as [|sid sids IH]; intros i acc Hnd Hn Hs;
    rewrite block_sids_eq.
  { rewrite decide_False by (unfold zlen in *; simpl in *; lia). exists acc. split; [done|].
    intros sid. by rewrite bool_decide_eq_false_2 by apply not_elem_of_nil. }
  apply NoDup_cons in Hnd as [Hnin Hnd]. rewrite zlen_cons in Hn. pose proof (zlen_nonneg sids).
  rewrite decide_True by lia. rewrite fmap_cons. cbn [concat].
  destruct (Hs sid) as [[l Hl] Hacc]; [by left|]. destruct (Hm sid l Hl) as (Hsid & Hne & Hlen & Hiv).
  unfold sid_block at 1. rewrite get_Some, Hl. change (default [] (Some l)) with l. rewrite <- !app_assoc, read_bytes_app, read_uint64_app by done.
  rewrite !uint64_id by (apply uint64_range || done).
  rewrite block_intervals_encoded by (done || lia). rewrite decide_False by done.
  rewrite Hacc. cbn [default from_option app mbind result_bind].
  destruct (IH (i + 1) (<[sid := l]> acc)) as (r & -> & Hr); [done|lia| |].
  { intros sid' Hin. destruct (Hs sid') as [? ?]; [by right|]. split; [done|].
    rewrite lookup_insert_ne; [done|]. by intros ->. }
  exists r. split; [done|]. intros sid'. rewrite Hr. by apply lookup_collected.
Qed.

Lemma SIDBlock_decoded m rest :
  encodable m ->
  exists r buf, read_uint64 (SIDBlock (Some m) ++ rest) = Some (zlen (SIDs (Some m)), buf) /\
  block_sids (zlen (SIDs (Some m))) 0 buf ∅ = Ok (r, rest) /\ r = m.
Proof.
  intros He. destruct (SIDs_spec m) as [Hnd Hin].
  destruct (block_sids_encoded m (zlen (SIDs (Some m))) 0 (SIDs (Some m)) ∅ rest)
    as (r & Hr & Hl); [done..| |].
  { intros sid ?%Hin. split; [done|]. apply lookup_empty. }
  exists r, (concat (sid_block (Some m) <$> SIDs (Some m)) ++ rest).
  split_and!; [|done|by apply (collected_all m r (SIDs (Some m)))].
  unfold SIDBlock. rewrite <- app_assoc, read_uint64_app. do 2 f_equal.
  assert (zlen (entries (Some m)) = Z.of_nat (size m)) as Hz by (unfold zlen; by rewrite length_entries).
  rewrite Hz, !uint64_id by (apply uint64_range || apply He).
  unfold zlen. by rewrite SIDs_perm, length_fmap, length_map_to_list.
Qed.

(** ** Truncated blocks *)

(** What a read takes from a buffer it also takes from a longer one. *)
Lemma read_bytes_mono n buf x buf' tl :
  read_bytes n buf = Some (x, buf') -> read_bytes n (buf ++ tl) = Some (x, buf' ++ tl).
Proof.
  unfold read_bytes. destruct (Nat.leb_spec n (length buf)); [|done]. intros [= <- <-].
  rewrite length_app, (proj2 (Nat.leb_le n _)) by lia.
  by rewrite take_app_le, drop_app_le by lia.
Qed.

Lemma read_uint64_mono buf x buf' tl :
  read_uint64 buf = Some (x, buf') -> read_uint64 (buf ++ tl) = Some (x, buf' ++ tl).
Proof.
  unfold read_uint64. destruct (read_bytes 8 buf) as [[y b]|] eqn:E; simpl; [|done].
  intros [= <- <-]. by rewrite (read_bytes_mono _ _ _ _ tl E).
Qed.

Lemma block_intervals_mono i n j sid buf set r buf' tl :
  block_intervals i n j sid buf set = Ok (r, buf') ->
  block_intervals i n j sid (buf ++ tl) set = Ok (r, buf' ++ tl).
Proof.
  funelim (block_intervals i n j sid buf set); try done; intros Hr; rewrite block_intervals_eq.
  - injection Hr as <- <-. by rewrite decide_False.
  - rewrite decide_True by done.
    repeat match goal with
    | E : read_uint64 _ = Some _ |- _ => rewrite (read_uint64_mono _ _ _ tl E)
    end. by apply H.
Qed.

Lemma block_sids_mono n i buf set r buf' tl :
  block_sids n i buf set = Ok (r, buf') -> block_sids n i (buf ++ tl) set = Ok (r, buf' ++ tl).
Proof.
  funelim (block_sids n i buf set); try done; intros Hr; rewrite block_sids_eq.
  - injection Hr as <- <-. by rewrite decide_False.
  - rewrite decide_True by done.
    repeat match goal with
    | E : read_bytes _ _ = Some _ |- _ => rewrite (read_bytes_mono _ _ _ _ tl E)
    | E : read_uint64 _ = Some _ |- _ => rewrite (read_uint64_mono _ _ _ tl E)
    | E : block_intervals _ _ _ _ _ _ = Ok _ |- _ =>
        rewrite (block_intervals_mono _ _ _ _ _ _ _ _ tl E)
    end. by apply H.
Qed.

Lemma SIDBlock_cut (m : m56map) (k : nat) :
  encodable m -> (k < length (SIDBlock (Some m)))%nat ->
  exists e, NewMysql56GTIDSetFromSIDBlock (take k (SIDBlock (Some m))) = Err e.
Proof.
  intros He Hk. unfold NewMysql56GTIDSetFromSIDBlock.
  destruct (read_uint64 (take k _)) as [[n buf]|] eqn:E1; [|eauto].
  destruct (block_sids n 0 buf ∅) as [[r buf']|e] eqn:E2; [|simpl; eauto].
  exfalso. destruct (SIDBlock_decoded m [] He) as (r' & b & Hb & Hs & _).
  apply (read_uint64_mono _ _ _ (drop k (SIDBlock (Some m)))) in E1.
  rewrite app_nil_r, <- (take_drop k (SIDBlock (Some m))) in Hb. rewrite E1 in Hb.
  injection Hb as -> <-.
  apply (block_sids_mono _ _ _ _ _ _ (drop k (SIDBlock (Some m)))) in E2.
  rewrite Hs in E2. injection E2 as _ Hnil. symmetry in Hnil. apply app_nil in Hnil as [_ Hnil].
  apply (f_equal length) in Hnil. rewrite length_drop in Hnil. cbn [length] in Hnil. lia.
Qed.

(** ** Theorems *)

Lemma encodable_singleton sid l :
  sid_ok sid -> encodable_list l -> encodable {[sid := l]}.
Proof.
  intros Hs Hl. split; [rewrite map_size_singleton; vm_compute; split; discriminate|].
  intros sid' l'. rewrite lookup_singleton_Some. by intros [<- <-].
Qed.

Lemma encodable_sample : encodable (one_server sid_a [Interval 1 5; Interval 10 MaxInt64]).
Proof.
  apply encodable_singleton; [done|]. split_and!; [done|vm_compute; split; discriminate|].
  repeat constructor; vm_compute; discriminate.
Qed.

(** C35: decoding the SID block of a set gives the set back, also when more bytes
    follow it and for every pair of [int64] bounds, [MaxInt64] included. *)
Theorem SIDBlock_roundtrip (m : m56map) (rest : list byte) :
  encodable m -> NewMysql56GTIDSetFromSIDBlock (SIDBlock (Some m) ++ rest) = Ok (Some m).
Proof.
  intros He. destruct (SIDBlock_decoded m rest He) as (r & buf & Hb & Hs & ->).
  unfold NewMysql56GTIDSetFromSIDBlock. by rewrite Hb, Hs.
Qed.

(** Every proper prefix of a SID block is rejected. *)
Theorem SIDBlock_truncated (m : m56map) (k : nat) :
  encodable m -> (k < length (SIDBlock (Some m)))%nat ->
  exists e, NewMysql56GTIDSetFromSIDBlock (take k (SIDBlock (Some m))) = Err e.
Proof. apply SIDBlock_cut. Qed.

Lemma SIDBlock_roundtrip_witness :
  NewMysql56GTIDSetFromSIDBlock
    (SIDBlock (Some (one_server sid_a [Interval 1 5; Interval 10 MaxInt64])) ++ bs "tail") =
  Ok (Some (one_server sid_a [Interval 1 5; Interval 10 MaxInt64])).
Proof. apply (SIDBlock_roundtrip _ (bs "tail")). exact encodable_sample. Defined.

Lemma SIDBlock_truncated_witness :
  exists e, NewMysql56GTIDSetFromSIDBlock
    (take 63 (SIDBlock (Some (one_server sid_a [Interval 1 5; Interval 10 MaxInt64])))) = Err e.
Proof.
  apply (SIDBlock_truncated _ 63); [exact encodable_sample|]. vm_compute. lia.
Defined.
