(* ===== verification/Encoding.v ===== *)
(** * The MySQL wire encoding of integers and strings

    [go/mysql/encoding.go]: fixed-width and length-encoded integers, NUL-terminated
    and length-encoded strings, and the [coder] cursor.  Writers return the buffer
    and the next position, readers the value, the next position and the [ok] flag;
    both panic where Go's bounds checks do.  The theorems are the round trips, the
    safety of the readers on arbitrary input, and what happens to a length that
    does not fit an [int]. *)

From S2P Require Import Prelude GoStd.

(** ** Buffers *)

(** [data[pos+k] = b0; data[pos+k+1] = b1; ...]. *)
Fixpoint store_seq (data : list byte) (pos k : Z) (bytes : list byte) : outcome (list byte) :=
  match bytes with
  | [] => Ret data
  | b :: bytes =>
      data ← store data (add64 pos k) b;
      store_seq data pos (k + 1) bytes
  end.

(** [n := copy(data[pos:], value)]. *)
Definition copy_at (data : list byte) (pos : Z) (value : list byte) : outcome (list byte * Z) :=
  dst ← slice_from data pos;
  let n := Z.min (zlen dst) (zlen value) in
  Ret (take (Z.to_nat pos) data ++ take (Z.to_nat n) value ++ drop (Z.to_nat (pos + n)) data, n).

(** [byte(i >> k)]. *)
Definition byte_at (i k : Z) : byte := z2b (Z.shiftr i k).

(** ** Writers *)

(** [lenEncIntSize]. *)
Definition lenEncIntSize (i : Z) : Z :=
  if i <? 251 then 1 else if i <? 2 ^ 16 then 3 else if i <? 2 ^ 24 then 4 else 9.

(** [writeLenEncInt]. *)
Definition writeLenEncInt (data : list byte) (pos i : Z) : outcome (list byte * Z) :=
  if i <? 251 then
    data ← store_seq data pos 0 [z2b i]; Ret (data, add64 pos 1)
  else if i <? 2 ^ 16 then
    data ← store_seq data pos 0 [z2b 252; z2b i; byte_at i 8]; Ret (data, add64 pos 3)
  else if i <? 2 ^ 24 then
    data ← store_seq data pos 0 [z2b 253; z2b i; byte_at i 8; byte_at i 16];
    Ret (data, add64 pos 4)
  else
    data ← store_seq data pos 0
      [z2b 254; z2b i; byte_at i 8; byte_at i 16; byte_at i 24;
       byte_at i 32; byte_at i 40; byte_at i 48; byte_at i 56];
    Ret (data, add64 pos 9).

(** [lenNullString], [lenEOFString], [lenEncStringSize]. *)
Definition lenNullString (value : list byte) : Z := add64 (zlen value) 1.
Definition lenEOFString (value : list byte) : Z := zlen value.
Definition lenEncStringSize (value : list byte) : Z :=
  let l := zlen value in add64 (lenEncIntSize (uint64 l)) l.

(** [writeNullString]. *)
Definition writeNullString (data : list byte) (pos : Z) (value : list byte)
  : outcome (list byte * Z) :=
  '(data, n) ← copy_at data pos value;
  let pos := add64 pos n in
  data ← store data pos (z2b 0);
  Ret (data, add64 pos 1).

(** [writeEOFString]. *)
Definition writeEOFString (data : list byte) (pos : Z) (value : list byte)
  : outcome (list byte * Z) :=
  '(data, n) ← copy_at data pos value;
  Ret (data, add64 pos n).

(** [writeByte], [writeUint16], [writeUint32], [writeUint64]. *)
Definition writeByte (data : list byte) (pos : Z) (value : byte) : outcome (list byte * Z) :=
  data ← store data pos value; Ret (data, add64 pos 1).

Definition writeUint16 (data : list byte) (pos value : Z) : outcome (list byte * Z) :=
  data ← store_seq data pos 0 [z2b value; byte_at value 8]; Ret (data, add64 pos 2).

Definition writeUint32 (data : list byte) (pos value : Z) : outcome (list byte * Z) :=
  data ← store_seq data pos 0 [z2b value; byte_at value 8; byte_at value 16; byte_at value 24];
  Ret (data, add64 pos 4).

Definition writeUint64 (data : list byte) (pos value : Z) : outcome (list byte * Z) :=
  data ← store_seq data pos 0
    [z2b value; byte_at value 8; byte_at value 16; byte_at value 24;
     byte_at value 32; byte_at value 40; byte_at value 48; byte_at value 56];
  Ret (data, add64 pos 8).

(** [writeLenEncString]. *)
Definition writeLenEncString (data : list byte) (pos : Z) (value : list byte)
  : outcome (list byte * Z) :=
  '(data, pos) ← writeLenEncInt data pos (uint64 (zlen value));
  writeEOFString data pos value.

(** [writeZeroes]; the loop runs [len] times, not at all for a negative [len]. *)
Definition writeZeroes (data : list byte) (pos len : Z) : outcome (list byte * Z) :=
  data ← store_seq data pos 0 (replicate (Z.to_nat len) (z2b 0));
  Ret (data, add64 pos len).

(** ** Readers

    The value, the next position and the [ok] flag; when the flag is false, Go's
    zero values. *)

(** [readByte] and [readUint8]. *)
Definition readByte (data : list byte) (pos : Z) : outcome (byte * Z * bool) :=
  if zlen data <=? pos then Ret (z2b 0, 0, false)
  else b ← index data pos; Ret (b, add64 pos 1, true).

(** [readBytes]. *)
Definition readBytes (data : list byte) (pos size : Z) : outcome (list byte * Z * bool) :=
  if zlen data <=? sub64 (add64 pos size) 1 then Ret ([], 0, false)
  else s ← slice data pos (add64 pos size); Ret (s, add64 pos size, true).

(** [make([]byte, size)]: it panics unless [size] is a valid length. *)
Definition make_bytes (size : Z) : outcome (list byte) :=
  if (0 <=? size) && (size <=? MaxInt64) then Ret (replicate (Z.to_nat size) (z2b 0)) else Panic.

(** [copy(result, src)] into a whole slice. *)
Definition copy_into (result src : list byte) : list byte :=
  take (length result) src ++ drop (length src) result.

(** [readBytesCopy]. *)
Definition readBytesCopy (data : list byte) (pos size : Z) : outcome (list byte * Z * bool) :=
  if zlen data <=? sub64 (add64 pos size) 1 then Ret ([], 0, false)
  else
    result ← make_bytes size;
    s ← slice data pos (add64 pos size);
    Ret (copy_into result s, add64 pos size, true).

(** [bytes.IndexByte], -1 when absent. *)
Fixpoint IndexByte (c : byte) (s : list byte) : Z :=
  match s with
  | [] => -1
  | b :: s' =>
      if decide (b = c) then 0
      else let i := IndexByte c s' in if i =? -1 then -1 else i + 1
  end.

(** [readNullString]. *)
Definition readNullString (data : list byte) (pos : Z) : outcome (list byte * Z * bool) :=
  rest ← slice_from data pos;
  let stop := IndexByte (z2b 0) rest in
  if stop =? -1 then Ret ([], 0, false)
  else s ← slice data pos (add64 pos stop); Ret (s, add64 (add64 pos stop) 1, true).

(** [readEOFString]; the position it returns is [len(data) - pos]. *)
Definition readEOFString (data : list byte) (pos : Z) : outcome (list byte * Z * bool) :=
  s ← slice_from data pos;
  Ret (s, sub64 (zlen data) pos, true).

(** [readUint16], [readUint32], [readUint64]: the guard and the little-endian
    value of the next [n] bytes. *)
Definition readUintN (n : Z) (data : list byte) (pos : Z) : outcome (Z * Z * bool) :=
  if zlen data <=? add64 pos (n - 1) then Ret (0, 0, false)
  else s ← slice data pos (add64 pos n); Ret (binary.of_le s, add64 pos n, true).

Definition readUint16 : list byte -> Z -> outcome (Z * Z * bool) := readUintN 2.
Definition readUint32 : list byte -> Z -> outcome (Z * Z * bool) := readUintN 4.
Definition readUint64 : list byte -> Z -> outcome (Z * Z * bool) := readUintN 8.

(** [uint64(data[pos+1]) | uint64(data[pos+2])<<8 | ...], [n] bytes, the byte number
    [k] shifted by [8 * k]. *)
Fixpoint or_bytes (data : list byte) (pos : Z) (n : nat) (k acc : Z) : outcome Z :=
  match n with
  | O => Ret acc
  | S n =>
      b ← index data (add64 pos (k + 1));
      or_bytes data pos n (k + 1) (Z.lor acc (Z.shiftl (b2z b) (8 * k)))
  end.

(** [readLenEncInt]. *)
Definition readLenEncInt (data : list byte) (pos : Z) : outcome (Z * Z * bool) :=
  if zlen data <=? pos then Ret (0, 0, false)
  else
    b ← index data pos;
    if b2z b =? 252 then
      if zlen data <=? add64 pos 2 then Ret (0, 0, false)
      else v ← or_bytes data pos 2 0 0; Ret (v, add64 pos 3, true)
    else if b2z b =? 253 then
      if zlen data <=? add64 pos 3 then Ret (0, 0, false)
      else v ← or_bytes data pos 3 0 0; Ret (v, add64 pos 4, true)
    else if b2z b =? 254 then
      if zlen data <=? add64 pos 8 then Ret (0, 0, false)
      else v ← or_bytes data pos 8 0 0; Ret (v, add64 pos 9, true)
    else Ret (b2z b, add64 pos 1, true).

(** [readLenEncString] and [readLenEncStringAsBytes], which differ only in whether
    the bytes are copied into a string. *)
Definition readLenEncString (data : list byte) (pos : Z) : outcome (list byte * Z * bool) :=
  '(size, pos, ok) ← readLenEncInt data pos;
  if negb ok then Ret ([], 0, false)
  else
    let s := int64 size in
    if zlen data <=? sub64 (add64 pos s) 1 then Ret ([], 0, false)
    else r ← slice data pos (add64 pos s); Ret (r, add64 pos s, true).

Definition readLenEncStringAsBytes : list byte -> Z -> outcome (list byte * Z * bool) :=
  readLenEncString.

(** [skipLenEncString]. *)
Definition skipLenEncString (data : list byte) (pos : Z) : outcome (Z * bool) :=
  '(size, pos, ok) ← readLenEncInt data pos;
  if negb ok then Ret (0, false)
  else
    let s := int64 size in
    if zlen data <=? sub64 (add64 pos s) 1 then Ret (0, false)
    else Ret (add64 pos s, true).

(** [readLenEncStringAsBytesCopy]. *)
Definition readLenEncStringAsBytesCopy (data : list byte) (pos : Z)
  : outcome (list byte * Z * bool) :=
  '(size, pos, ok) ← readLenEncInt data pos;
  if negb ok then Ret ([], 0, false)
  else
    let s := int64 size in
    if zlen data <=? sub64 (add64 pos s) 1 then Ret ([], 0, false)
    else
      result ← make_bytes size;
      r ← slice data pos (add64 pos s);
      Ret (copy_into result r, add64 pos s, true).

(** ** The coder cursor *)

Record coder := { c_data : list byte; c_pos : Z }.

(** [coder.readLenEncInt], [readUint16], [readByte] and [readLenEncString]: the
    cursor moves to the returned position, also when the read fails. *)
Definition coder_read {A} (read : list byte -> Z -> outcome (A * Z * bool)) (d : coder)
  : outcome (A * bool * coder) :=
  '(res, newPos, ok) ← read (c_data d) (c_pos d);
  Ret (res, ok, {| c_data := c_data d; c_pos := newPos |}).

Definition coder_readLenEncInt : coder -> outcome (Z * bool * coder) := coder_read readLenEncInt.
Definition coder_readUint16 : coder -> outcome (Z * bool * coder) := coder_read readUint16.
Definition coder_readByte : coder -> outcome (byte * bool * coder) := coder_read readByte.
Definition coder_readLenEncString : coder -> outcome (list byte * bool * coder) :=
  coder_read readLenEncString.

(** [coder.readLenEncInfo]: the cursor moves only when the read succeeds. *)
Definition coder_readLenEncInfo (d : coder) : outcome (list byte * bool * coder) :=
  '(res, newPos, ok) ← readLenEncString (c_data d) (c_pos d);
  Ret (res, ok, if ok : bool then {| c_data := c_data d; c_pos := newPos |} else d).

(** [coder.writeByte], [writeLenEncInt], [writeUint16], [writeUint32],
    [writeLenEncString] and [writeEOFString]. *)
Definition coder_write {A} (write : list byte -> Z -> A -> outcome (list byte * Z)) (d : coder)
    (value : A) : outcome coder :=
  '(data, newPos) ← write (c_data d) (c_pos d) value;
  Ret {| c_data := data; c_pos := newPos |}.

Definition coder_writeByte : coder -> byte -> outcome coder := coder_write writeByte.
Definition coder_writeLenEncInt : coder -> Z -> outcome coder := coder_write writeLenEncInt.
Definition coder_writeUint16 : coder -> Z -> outcome coder := coder_write writeUint16.
Definition coder_writeUint32 : coder -> Z -> outcome coder := coder_write writeUint32.
Definition coder_writeLenEncString : coder -> list byte -> outcome coder :=
  coder_write writeLenEncString.
Definition coder_writeEOFString : coder -> list byte -> outcome coder :=
  coder_write writeEOFString.

(** ** Facts about buffers *)

(** A buffer [p ++ old ++ q] of legal length; writers at [zlen p] replace [old]. *)
Definition buffer_ok (data : list byte) : Prop := zlen data <= MaxInt64.

Lemma add64_pos a b : 0 <= a -> 0 <= b -> a + b <= MaxInt64 -> add64 a b = a + b.
Proof. intros. apply add64_small. unfold_ints. lia. Qed.

Lemma store_seq_app p pre old q bytes :
  length old = length bytes -> zlen p + zlen pre + zlen bytes <= MaxInt64 ->
  store_seq (p ++ pre ++ old ++ q) (zlen p) (zlen pre) bytes = Ret (p ++ pre ++ bytes ++ q).
Proof.
  revert pre old. induction bytes as [|b bytes IH]; intros pre [|o old] Hlen Hb; try done.
  injection Hlen as Hlen. rewrite zlen_cons in Hb. cbn [store_seq].
  pose proof (zlen_nonneg p). pose proof (zlen_nonneg pre). pose proof (zlen_nonneg bytes).
  rewrite add64_pos, <- zlen_app, app_assoc by lia. cbn [app].
  rewrite store_app_here. cbn [mbind outcome_bind].
  replace (zlen pre + 1) with (zlen (pre ++ [b])) by (rewrite zlen_app; unfold zlen; simpl; lia).
  rewrite <- app_assoc. change (b :: old ++ q) with ([b] ++ old ++ q). rewrite (app_assoc pre [b]).
  rewrite IH; [by rewrite <- (app_assoc pre)|done|]. rewrite zlen_app. unfold zlen in *. simpl. lia.
Qed.

Lemma store_seq_here p old q bytes :
  length old = length bytes -> zlen p + zlen bytes <= MaxInt64 ->
  store_seq (p ++ old ++ q) (zlen p) 0 bytes = Ret (p ++ bytes ++ q).
Proof. intros Hl Hb. apply (store_seq_app p [] old q bytes Hl). unfold zlen in *. simpl. lia. Qed.

Lemma copy_at_here p old q value :
  length old = length value ->
  copy_at (p ++ old ++ q) (zlen p) value = Ret (p ++ value ++ q, zlen value).
Proof.
  intros Hl. unfold copy_at. rewrite slice_from_app. cbn [mbind outcome_bind].
  assert (zlen old = zlen value) as Hz by (unfold zlen; lia).
  rewrite zlen_app, Hz. pose proof (zlen_nonneg q). rewrite Z.min_r by lia. f_equal. f_equal.
  unfold zlen. rewrite Nat2Z.id, take_app_length. f_equal. rewrite Nat2Z.id, take_ge by lia. f_equal.
  replace (Z.to_nat (Z.of_nat (length p) + Z.of_nat (length value))) with (length (p ++ old))
    by (rewrite length_app; lia).
  by rewrite app_assoc, drop_app_length.
Qed.

Lemma le_bytes_shifts i :
  binary.le_bytes 2 i = [z2b i; byte_at i 8] /\
  binary.le_bytes 3 i = [z2b i; byte_at i 8; byte_at i 16] /\
  binary.le_bytes 4 i = [z2b i; byte_at i 8; byte_at i 16; byte_at i 24] /\
  binary.le_bytes 8 i = [z2b i; byte_at i 8; byte_at i 16; byte_at i 24;
                         byte_at i 32; byte_at i 40; byte_at i 48; byte_at i 56].
Proof.
  unfold byte_at. cbn [binary.le_bytes]. rewrite !Z.shiftr_shiftr by lia. done.
Qed.

Lemma or_bytes_app p b0 t s q acc :
  zlen p + 1 + zlen t + zlen s <= MaxInt64 ->
  or_bytes (p ++ b0 :: t ++ s ++ q) (zlen p) (length s) (zlen t) acc =
  Ret (Z.lor acc (Z.shiftl (binary.of_le s) (8 * zlen t))).
Proof.
  revert t acc. induction s as [|b s IH]; intros t acc Hb.
  { cbn [length or_bytes binary.of_le]. by rewrite Z.shiftl_0_l, Z.lor_0_r. }
  rewrite zlen_cons in Hb. cbn [length or_bytes].
  pose proof (zlen_nonneg p). pose proof (zlen_nonneg t). pose proof (zlen_nonneg s).
  rewrite add64_pos by lia.
  replace (zlen p + (zlen t + 1)) with (zlen (p ++ b0 :: t)) by (rewrite zlen_app, zlen_cons; lia).
  rewrite app_comm_cons, app_assoc. cbn [app]. rewrite index_app_here. cbn [mbind outcome_bind].
  replace (zlen t + 1) with (zlen (t ++ [b])) by (rewrite zlen_app; unfold zlen; simpl; lia).
  replace ((p ++ b0 :: t) ++ b :: s ++ q) with (p ++ b0 :: (t ++ [b]) ++ s ++ q)
    by (rewrite <- !app_assoc; reflexivity).
  rewrite IH by (rewrite zlen_app; unfold zlen in *; simpl; lia). f_equal.
  rewrite <- Z.lor_assoc. f_equal. cbn [binary.of_le]. rewrite Z.shiftl_lor, Z.shiftl_shiftl by lia.
  do 2 f_equal. rewrite zlen_app. unfold zlen. simpl. lia.
Qed.

Lemma or_bytes_here p b0 s q :
  zlen p + 1 + zlen s <= MaxInt64 ->
  or_bytes (p ++ b0 :: s ++ q) (zlen p) (length s) 0 0 = Ret (binary.of_le s).
Proof.
  intros Hb. pose proof (or_bytes_app p b0 [] s q 0) as H. cbn [app] in H.
  change (zlen []) with 0 in H. rewrite H by lia. rewrite Z.lor_0_l. cbn. by rewrite Z.shiftl_0_r.
Qed.

(** ** Length-encoded integers *)

(** The encoding [writeLenEncInt] stores. *)
Definition lenenc (i : Z) : list byte :=
  if i <? 251 then [z2b i]
  else if i <? 2 ^ 16 then z2b 252 :: binary.le_bytes 2 i
  else if i <? 2 ^ 24 then z2b 253 :: binary.le_bytes 3 i
  else z2b 254 :: binary.le_bytes 8 i.

Lemma zlen_lenenc i : zlen (lenenc i) = lenEncIntSize i.
Proof. unfold lenenc, lenEncIntSize. by repeat case_test. Qed.

Lemma lenEncIntSize_range i : 1 <= lenEncIntSize i <= 9.
Proof. unfold lenEncIntSize. repeat case_test; lia. Qed.

Lemma writeLenEncInt_here p old q i :
  zlen old = lenEncIntSize i -> buffer_ok (p ++ old ++ q) ->
  writeLenEncInt (p ++ old ++ q) (zlen p) i =
  Ret (p ++ lenenc i ++ q, zlen p + lenEncIntSize i).
Proof.
  unfold buffer_ok. rewrite !zlen_app. intros Hold Hb. pose proof (zlen_nonneg p).
  pose proof (zlen_nonneg q). destruct (le_bytes_shifts i) as (E2 & E3 & E4 & E8).
  assert (forall bytes, zlen bytes = zlen old ->
    store_seq (p ++ old ++ q) (zlen p) 0 bytes = Ret (p ++ bytes ++ q)) as Hst.
  { intros bytes Hz. apply store_seq_here; [|lia]. unfold zlen in Hz. lia. }
  pose proof (zlen_lenenc i) as Hl. rewrite <- Hold in Hl.
  unfold writeLenEncInt, lenEncIntSize, lenenc in *.
  destruct (i <? 251); [|destruct (i <? 2 ^ 16); [|destruct (i <? 2 ^ 24)]];
    rewrite ?E2, ?E3, ?E8 in *; rewrite Hst by done; cbn [mbind outcome_bind];
    rewrite add64_pos by lia; done.
Qed.

Lemma zlen_suffix_le (p m q : list byte) : zlen p + zlen m <= zlen (p ++ m ++ q).
Proof. rewrite !zlen_app. pose proof (zlen_nonneg q). lia. Qed.

(** Reading the header byte and the [n] bytes behind it. *)
Lemma readLenEncInt_wide p h s q n :
  buffer_ok (p ++ (h :: s) ++ q) -> zlen s = n ->
  (b2z h = 252 /\ n = 2) \/ (b2z h = 253 /\ n = 3) \/ (b2z h = 254 /\ n = 8) ->
  readLenEncInt (p ++ (h :: s) ++ q) (zlen p) = Ret (binary.of_le s, zlen p + 1 + n, true).
Proof.
  intros Hb Hn Hh. unfold buffer_ok in Hb. pose proof (zlen_suffix_le p (h :: s) q) as Hle.
  rewrite zlen_cons in Hle. pose proof (zlen_nonneg p). unfold readLenEncInt.
  rewrite (proj2 (Z.leb_gt _ (zlen p))) by lia. cbn [app] in *. rewrite index_app_here.
  cbn [mbind outcome_bind].
  assert (forall k, Z.of_nat k = n -> or_bytes (p ++ h :: s ++ q) (zlen p) k 0 0 = Ret (binary.of_le s))
    as Hor.
  { intros k Hk. replace k with (length s) by (unfold zlen in Hn; lia). apply or_bytes_here. lia. }
  destruct Hh as [[-> ->]|[[-> ->]|[-> ->]]]; cbn [Z.eqb Pos.eqb];
    rewrite (add64_pos (zlen p)) by lia; rewrite (proj2 (Z.leb_gt _ _)) by lia;
    rewrite Hor by done; cbn [mbind outcome_bind]; rewrite add64_pos by lia; do 3 f_equal; lia.
Qed.

Lemma readLenEncInt_here p q i :
  is_uint64 i -> buffer_ok (p ++ lenenc i ++ q) ->
  readLenEncInt (p ++ lenenc i ++ q) (zlen p) = Ret (i, zlen p + lenEncIntSize i, true).
Proof.
  intros Hi Hb. unfold lenenc, lenEncIntSize in *.
  destruct (Z.ltb_spec i 251).
  - unfold buffer_ok in Hb. pose proof (zlen_suffix_le p [z2b i] q) as Hle.
    pose proof (zlen_nonneg p). change (zlen [z2b i]) with 1 in Hle. unfold readLenEncInt.
    rewrite (proj2 (Z.leb_gt _ (zlen p))) by lia. cbn [app] in *. rewrite index_app_here.
    cbn [mbind outcome_bind]. unfold is_uint64 in Hi. rewrite b2z_z2b, Z.mod_small by lia.
    rewrite !(proj2 (Z.eqb_neq i _)) by lia. by rewrite add64_pos by lia.
  - destruct (Z.ltb_spec i (2 ^ 16)); [|destruct (Z.ltb_spec i (2 ^ 24))].
    + rewrite (readLenEncInt_wide p (z2b 252) (binary.le_bytes 2 i) q 2) by (done || by left).
      rewrite binary.of_le_le_bytes, Z.mod_small by lia. do 3 f_equal. lia.
    + rewrite (readLenEncInt_wide p (z2b 253) (binary.le_bytes 3 i) q 3)
        by (done || by right; left).
      rewrite binary.of_le_le_bytes, Z.mod_small by lia. do 3 f_equal. lia.
    + rewrite (readLenEncInt_wide p (z2b 254) (binary.le_bytes 8 i) q 8)
        by (done || by right; right).
      rewrite binary.of_le_le_bytes_8, uint64_id by done. do 3 f_equal. lia.
Qed.

(** ** Length-encoded strings *)

(** What the readers do with the length [i] once it is decoded: [pos] is the position
    behind it and [n] the number of bytes left. *)
Inductive length_class := Fits | TooLong | Overflows.

Definition classify (pos i n : Z) : length_class :=
  if i <=? n then Fits else if i <=? 2 ^ 63 - pos then TooLong else Overflows.

Lemma guard_classify pos i n :
  is_uint64 i -> 1 <= pos -> 0 <= n -> pos + n <= MaxInt64 ->
  (pos + n <=? sub64 (add64 pos (int64 i)) 1) =
  match classify pos i n with TooLong => true | _ => false end.
Proof.
  intros Hi Hp Hn Hb. unfold classify.
  destruct (Z.leb_spec i n); [|destruct (Z.leb_spec i (2 ^ 63 - pos))].
  - rewrite (int64_id i), add64_small, sub64_small by (unfold_ints; lia). apply Z.leb_gt. lia.
  - destruct (decide (i = 2 ^ 63 - pos)) as [->|Hne].
    + rewrite (int64_id (2 ^ 63 - pos)) by (unfold_ints; lia).
      replace (add64 pos (2 ^ 63 - pos)) with MinInt64
        by (unfold add64; replace (pos + (2 ^ 63 - pos)) with (2 ^ 63) by lia; done).
      change (sub64 MinInt64 1) with MaxInt64. apply Z.leb_le. lia.
    + rewrite (int64_id i), add64_small, sub64_small by (unfold_ints; lia). apply Z.leb_le. lia.
  - apply Z.leb_gt. unfold_ints. change (64 - 1) with 63.
    change (2 ^ 63) with 9223372036854775808 in *. change (2 ^ 64) with 18446744073709551616 in *.
    Z.to_euclidean_division_equations. lia.
Qed.

(** The wrapped position of the end of a string whose length overflows is before its
    beginning. *)
Lemma overflow_backwards pos i n :
  is_uint64 i -> 1 <= pos -> 0 <= n -> pos + n <= MaxInt64 -> classify pos i n = Overflows ->
  add64 pos (int64 i) < pos.
Proof.
  intros Hi Hp Hn Hb. unfold classify.
  destruct (Z.leb_spec i n); [done|]. destruct (Z.leb_spec i (2 ^ 63 - pos)); [done|]. intros _.
  unfold_ints. change (64 - 1) with 63.
  change (2 ^ 63) with 9223372036854775808 in *. change (2 ^ 64) with 18446744073709551616 in *.
  Z.to_euclidean_division_equations. lia.
Qed.

Lemma slice_backwards {A} (s : list A) i j : j < i -> slice s i j = Panic.
Proof.
  intros H. unfold slice. rewrite (proj2 (Z.leb_gt i j)) by lia. by rewrite andb_false_r.
Qed.

Lemma copy_into_all (result src : list byte) : length result = length src -> copy_into result src = src.
Proof. intros H. unfold copy_into. rewrite take_ge, drop_ge by lia. apply app_nil_r. Qed.

Section Strings.
Context (p q : list byte) (i : Z).
Hypothesis i_uint64 : is_uint64 i.
Hypothesis buffer : buffer_ok (p ++ lenenc i ++ q).

Let here : Z := zlen p + lenEncIntSize i.

Lemma here_bounds : 1 <= here /\ here + zlen q <= MaxInt64 /\ zlen (p ++ lenenc i ++ q) = here + zlen q.
Proof using buffer.
  unfold here. pose proof (zlen_nonneg p). pose proof (lenEncIntSize_range i).
  unfold buffer_ok in buffer. rewrite !zlen_app, zlen_lenenc in *. lia.
Qed.

Lemma slice_string :
  i <= zlen q -> slice (p ++ lenenc i ++ q) here (here + i) = Ret (take (Z.to_nat i) q).
Proof using i_uint64.
  intros Hi. unfold here. rewrite <- zlen_lenenc, <- zlen_app, app_assoc.
  rewrite <- (take_drop (Z.to_nat i) q) at 1.
  assert (zlen (take (Z.to_nat i) q) = i) as Hz.
  { unfold zlen in *. unfold is_uint64 in i_uint64. rewrite length_take. lia. }
  replace (zlen (p ++ lenenc i) + i) with (zlen (p ++ lenenc i) + zlen (take (Z.to_nat i) q))
    by (by rewrite Hz).
  apply slice_app_mid.
Qed.

Lemma readLenEncString_cases :
  readLenEncString (p ++ lenenc i ++ q) (zlen p) =
  match classify here i (zlen q) with
  | Fits => Ret (take (Z.to_nat i) q, here + i, true)
  | TooLong => Ret ([], 0, false)
  | Overflows => Panic
  end.
Proof using i_uint64 buffer.
  destruct here_bounds as (H1 & H2 & H3). pose proof (zlen_nonneg q) as H0.
  unfold readLenEncString. rewrite readLenEncInt_here by done. cbn [mbind outcome_bind negb].
  fold here. rewrite H3, guard_classify by done.
  pose proof (overflow_backwards here i (zlen q) i_uint64 H1 H0 H2) as Hov. unfold classify in *.
  destruct (Z.leb_spec i (zlen q)); [|destruct (Z.leb_spec i (2 ^ 63 - here))].
  - unfold is_uint64 in i_uint64. rewrite (int64_id i), add64_small by (unfold_ints; lia).
    by rewrite slice_string.
  - done.
  - rewrite slice_backwards; [done|]. by apply Hov.
Qed.

Lemma skipLenEncString_cases :
  skipLenEncString (p ++ lenenc i ++ q) (zlen p) =
  match classify here i (zlen q) with
  | Fits => Ret (here + i, true)
  | TooLong => Ret (0, false)
  | Overflows => Ret (add64 here (int64 i), true)
  end.
Proof using i_uint64 buffer.
  destruct here_bounds as (H1 & H2 & H3). pose proof (zlen_nonneg q) as H0.
  unfold skipLenEncString. rewrite readLenEncInt_here by done. cbn [mbind outcome_bind negb].
  fold here. rewrite H3, guard_classify by done. unfold classify.
  destruct (Z.leb_spec i (zlen q)); [|by destruct (i <=? 2 ^ 63 - here)].
  unfold is_uint64 in i_uint64. by rewrite (int64_id i), add64_small by (unfold_ints; lia).
Qed.

Lemma readLenEncStringAsBytesCopy_cases :
  readLenEncStringAsBytesCopy (p ++ lenenc i ++ q) (zlen p) =
  readLenEncString (p ++ lenenc i ++ q) (zlen p).
Proof using i_uint64 buffer.
  rewrite readLenEncString_cases.
  destruct here_bounds as (H1 & H2 & H3). pose proof (zlen_nonneg q) as H0.
  unfold readLenEncStringAsBytesCopy. rewrite readLenEncInt_here by done.
  cbn [mbind outcome_bind negb]. fold here. rewrite H3, guard_classify by done.
  pose proof (overflow_backwards here i (zlen q) i_uint64 H1 H0 H2) as Hov. unfold classify in *.
  unfold is_uint64 in i_uint64.
  destruct (Z.leb_spec i (zlen q)); [|destruct (Z.leb_spec i (2 ^ 63 - here))].
  - rewrite (int64_id i), add64_small by (unfold_ints; lia). unfold make_bytes.
    rewrite (proj2 (Z.leb_le 0 i)), (proj2 (Z.leb_le i MaxInt64)) by lia. cbn [andb mbind outcome_bind].
    rewrite slice_string by done. cbn [mbind outcome_bind]. rewrite copy_into_all; [done|].
    rewrite length_replicate, length_take. unfold zlen in *. lia.
  - done.
  - unfold make_bytes. case_test; [|done]. cbn [mbind outcome_bind].
    rewrite slice_backwards; [done|]. by apply Hov.
Qed.
End Strings.

(** [old] is replaced by the encoded length and the string. *)
Lemma writeLenEncString_here p old q value :
  zlen old = lenEncStringSize value -> buffer_ok (p ++ old ++ q) -> zlen value < 2 ^ 62 ->
  writeLenEncString (p ++ old ++ q) (zlen p) value =
  Ret (p ++ lenenc (zlen value) ++ value ++ q, zlen p + lenEncStringSize value).
Proof.
  intros Hold Hb Hv. pose proof (zlen_nonneg value). pose proof (zlen_nonneg p).
  unfold lenEncStringSize in *. rewrite uint64_id in * by (unfold_ints; lia).
  set (size := lenEncIntSize (zlen value)) in *. pose proof (lenEncIntSize_range (zlen value)) as Hs.
  fold size in Hs. rewrite (add64_pos size) in * by (unfold_ints; lia).
  unfold writeLenEncString. rewrite uint64_id by (unfold_ints; lia).
  assert (zlen (take (Z.to_nat size) old) = size) as Hz1.
  { unfold zlen in *. rewrite length_take. lia. }
  rewrite <- (take_drop (Z.to_nat size) old), <- app_assoc.
  rewrite writeLenEncInt_here; [|done|by rewrite (app_assoc (take _ old)), take_drop].
  cbn [mbind outcome_bind]. fold size. unfold writeEOFString. rewrite (app_assoc p).
  replace (zlen p + size) with (zlen (p ++ lenenc (zlen value)))
    by (rewrite zlen_app, zlen_lenenc; fold size; lia).
  rewrite copy_at_here by (rewrite length_drop; unfold zlen in *; lia). cbn [mbind outcome_bind].
  unfold buffer_ok in Hb. rewrite !zlen_app in Hb. pose proof (zlen_nonneg q).
  rewrite zlen_app, zlen_lenenc. fold size. rewrite add64_pos by lia.
  rewrite <- app_assoc. f_equal. f_equal. lia.
Qed.

(** ** NUL-terminated strings and fixed-width integers *)

Lemma IndexByte_found c v r : c ∉ v -> IndexByte c (v ++ c :: r) = zlen v.
Proof.
  induction v as [|b v IH]; intros H; cbn [app IndexByte].
  - by rewrite decide_True.
  - apply not_elem_of_cons in H as [Hb Hv]. rewrite decide_False, IH by done.
    rewrite zlen_cons. pose proof (zlen_nonneg v).
    rewrite (proj2 (Z.eqb_neq (zlen v) (-1))) by lia. lia.
Qed.

Lemma writeNullString_here p old q value :
  zlen old = zlen value + 1 -> buffer_ok (p ++ old ++ q) ->
  writeNullString (p ++ old ++ q) (zlen p) value =
  Ret (p ++ value ++ z2b 0 :: q, zlen p + zlen value + 1).
Proof.
  intros Hold Hb. unfold buffer_ok in Hb. rewrite !zlen_app in Hb.
  pose proof (zlen_nonneg p). pose proof (zlen_nonneg q). pose proof (zlen_nonneg value).
  destruct old as [|x old _] using rev_ind; [unfold zlen in *; simpl in *; lia|].
  rewrite zlen_app in Hold, Hb. change (zlen [x]) with 1 in Hold, Hb.
  unfold writeNullString. rewrite <- app_assoc, copy_at_here by (unfold zlen in *; lia).
  cbn [mbind outcome_bind app]. rewrite (add64_pos (zlen p)) by lia.
  rewrite app_assoc, <- zlen_app, store_app_here. cbn [mbind outcome_bind].
  rewrite zlen_app, add64_pos by lia. by rewrite <- app_assoc.
Qed.

Lemma readNullString_here p value q :
  z2b 0 ∉ value -> buffer_ok (p ++ value ++ z2b 0 :: q) ->
  readNullString (p ++ value ++ z2b 0 :: q) (zlen p) =
  Ret (value, zlen p + zlen value + 1, true).
Proof.
  intros Hv Hb. unfold buffer_ok in Hb. rewrite !zlen_app, zlen_cons in Hb.
  pose proof (zlen_nonneg p). pose proof (zlen_nonneg q). pose proof (zlen_nonneg value).
  unfold readNullString. rewrite slice_from_app. cbn [mbind outcome_bind].
  rewrite IndexByte_found by done. rewrite (proj2 (Z.eqb_neq (zlen value) (-1))) by lia.
  rewrite (add64_pos (zlen p)), slice_app_mid by lia. cbn [mbind outcome_bind].
  by rewrite add64_pos by lia.
Qed.

Lemma readUintN_here n p s q :
  zlen s = n -> 1 <= n -> buffer_ok (p ++ s ++ q) ->
  readUintN n (p ++ s ++ q) (zlen p) = Ret (binary.of_le s, zlen p + n, true).
Proof.
  intros Hs Hn Hb. unfold buffer_ok in Hb. rewrite !zlen_app in Hb.
  pose proof (zlen_nonneg p). pose proof (zlen_nonneg q). unfold readUintN.
  rewrite !add64_pos, !zlen_app by lia. rewrite (proj2 (Z.leb_gt _ _)) by lia.
  rewrite <- Hs, slice_app_mid. done.
Qed.

(** ** Arbitrary input *)

Lemma index_in_range {A} (s : list A) i :
  0 <= i < zlen s -> exists x, index s i = Ret x.
Proof.
  intros Hi. unfold index. replace (_ && _) with true by (symmetry; apply andb_true_iff; lia).
  destruct (lookup_lt_is_Some_2 s (Z.to_nat i)) as [x ->]; [unfold zlen in Hi; lia|eauto].
Qed.

Lemma or_bytes_total data pos n k acc :
  0 <= pos -> 0 <= k -> pos + k + Z.of_nat n < zlen data -> buffer_ok data ->
  exists v, or_bytes data pos n k acc = Ret v.
Proof.
  unfold buffer_ok. revert k acc. induction n as [|n IH]; intros k acc Hp Hk Hn Hb; [cbn; eauto|].
  cbn [or_bytes]. rewrite add64_pos by lia.
  destruct (index_in_range data (pos + (k + 1))) as [b ->]; [lia|]. cbn [mbind outcome_bind].
  apply IH; lia.
Qed.

Lemma readLenEncInt_total data pos :
  0 <= pos <= MaxInt64 - 9 -> buffer_ok data ->
  exists v pos' ok, readLenEncInt data pos = Ret (v, pos', ok) /\
  (ok = true -> pos < pos' <= zlen data).
Proof.
  intros Hp Hb. unfold readLenEncInt.
  destruct (Z.leb_spec (zlen data) pos); [repeat eexists; done|].
  destruct (index_in_range data pos) as [b ->]; [lia|]. cbn [mbind outcome_bind].
  rewrite !(add64_pos pos) by lia.
  destruct (b2z b =? 252); [|destruct (b2z b =? 253); [|destruct (b2z b =? 254)]].
  1-3: case_test; zify_tests; [repeat eexists; done|];
    match goal with |- context [or_bytes ?d ?p ?n 0 0] =>
      destruct (or_bytes_total d p n 0 0) as [v ->]; [lia..|done|] end;
    cbn [mbind outcome_bind]; repeat eexists; lia.
  repeat eexists; lia.
Qed.

(** ** Theorems *)

(** Writing a length-encoded integer into a buffer with room for it replaces
    exactly [lenEncIntSize] bytes, and reading at the same place gives the integer
    back and the position behind it; every [uint64] is covered. *)
Theorem LenEncInt_roundtrip (p old q : list byte) (i : Z) :
  is_uint64 i -> zlen old = lenEncIntSize i -> buffer_ok (p ++ old ++ q) ->
  exists e, zlen e = zlen old /\
  writeLenEncInt (p ++ old ++ q) (zlen p) i = Ret (p ++ e ++ q, zlen p + lenEncIntSize i) /\
  readLenEncInt (p ++ e ++ q) (zlen p) = Ret (i, zlen p + lenEncIntSize i, true).
Proof.
  intros Hi Hold Hb. exists (lenenc i). pose proof (zlen_lenenc i).
  split_and!; [lia|by apply writeLenEncInt_here|]. apply readLenEncInt_here; [done|].
  unfold buffer_ok in *. rewrite !zlen_app in *. lia.
Qed.

Lemma LenEncInt_roundtrip_witness :
  exists e, zlen e = zlen (bs "123456789") /\
  writeLenEncInt (bs "ab" ++ bs "123456789" ++ bs "c") (zlen (bs "ab")) MaxUint64 =
    Ret (bs "ab" ++ e ++ bs "c", zlen (bs "ab") + lenEncIntSize MaxUint64) /\
  readLenEncInt (bs "ab" ++ e ++ bs "c") (zlen (bs "ab")) =
    Ret (MaxUint64, zlen (bs "ab") + lenEncIntSize MaxUint64, true).
Proof.
  apply (LenEncInt_roundtrip (bs "ab") (bs "123456789") (bs "c") MaxUint64);
    [split; vm_compute; discriminate|vm_compute; reflexivity|vm_compute; discriminate].
Defined.

(** A length-encoded string written into a buffer with room for it is read back by
    [readLenEncString], its two byte variants and [skipLenEncString], all of which
    stop at the position the writer returned. *)
Theorem LenEncString_roundtrip (p old q value : list byte) :
  zlen old = lenEncStringSize value -> buffer_ok (p ++ old ++ q) -> zlen value < 2 ^ 62 ->
  exists data stop, writeLenEncString (p ++ old ++ q) (zlen p) value = Ret (data, stop) /\
  zlen data = zlen (p ++ old ++ q) /\
  readLenEncString data (zlen p) = Ret (value, stop, true) /\
  readLenEncStringAsBytes data (zlen p) = Ret (value, stop, true) /\
  readLenEncStringAsBytesCopy data (zlen p) = Ret (value, stop, true) /\
  skipLenEncString data (zlen p) = Ret (stop, true).
Proof.
  intros Hold Hb Hv. pose proof (zlen_nonneg value). pose proof (lenEncIntSize_range (zlen value)).
  pose proof (zlen_nonneg q). assert (is_uint64 (zlen value)) as Hu by (unfold_ints; lia).
  assert (lenEncStringSize value = lenEncIntSize (zlen value) + zlen value) as Hsize.
  { unfold lenEncStringSize. rewrite uint64_id by done. apply add64_pos; unfold_ints; lia. }
  assert (zlen (p ++ lenenc (zlen value) ++ value ++ q) = zlen (p ++ old ++ q)) as Hlen.
  { rewrite !zlen_app, zlen_lenenc. lia. }
  assert (buffer_ok (p ++ lenenc (zlen value) ++ value ++ q)) as Hb' by (unfold buffer_ok in *; lia).
  eexists _, _. split; [by apply writeLenEncString_here|]. split; [done|].
  unfold readLenEncStringAsBytes. rewrite readLenEncStringAsBytesCopy_cases by done.
  rewrite readLenEncString_cases, skipLenEncString_cases by done.
  unfold classify. rewrite zlen_app, (proj2 (Z.leb_le (zlen value) _)) by lia.
  assert (take (Z.to_nat (zlen value)) (value ++ q) = value) as ->.
  { unfold zlen. by rewrite Nat2Z.id, take_app_length. }
  rewrite Hsize, Z.add_assoc. by split_and!.
Qed.

Lemma LenEncString_roundtrip_witness :
  exists data stop, writeLenEncString (bs "ab" ++ bs "1234" ++ bs "c") (zlen (bs "ab")) (bs "xyz") =
    Ret (data, stop) /\
  zlen data = zlen (bs "ab" ++ bs "1234" ++ bs "c") /\
  readLenEncString data (zlen (bs "ab")) = Ret (bs "xyz", stop, true) /\
  readLenEncStringAsBytes data (zlen (bs "ab")) = Ret (bs "xyz", stop, true) /\
  readLenEncStringAsBytesCopy data (zlen (bs "ab")) = Ret (bs "xyz", stop, true) /\
  skipLenEncString data (zlen (bs "ab")) = Ret (stop, true).
Proof.
  apply (LenEncString_roundtrip (bs "ab") (bs "1234") (bs "c") (bs "xyz"));
    [vm_compute; reflexivity|vm_compute; discriminate|vm_compute; reflexivity].
Defined.

(** What the string readers do with every decoded length [i]: with [pos] behind the
    length and [zlen q] bytes left, a length that fits is read; one that does not, up
    to [2^63 - pos], is reported as not ok; a larger one wraps around the guard:
    [readLenEncString] and its byte variants panic and [skipLenEncString] reports
    success at a position before the string. *)
Theorem LenEncString_lengths (p q : list byte) (i : Z) :
  is_uint64 i -> buffer_ok (p ++ lenenc i ++ q) ->
  let pos := zlen p + lenEncIntSize i in
  let data := p ++ lenenc i ++ q in
  (i <= zlen q ->
     readLenEncString data (zlen p) = Ret (take (Z.to_nat i) q, pos + i, true)) /\
  (zlen q < i <= 2 ^ 63 - pos -> readLenEncString data (zlen p) = Ret ([], 0, false) /\
     skipLenEncString data (zlen p) = Ret (0, false)) /\
  (zlen q < i /\ 2 ^ 63 - pos < i -> readLenEncString data (zlen p) = Panic /\
     readLenEncStringAsBytesCopy data (zlen p) = Panic /\
     exists back, skipLenEncString data (zlen p) = Ret (back, true) /\ back < pos).
Proof.
  intros Hi Hb. cbv zeta. destruct (here_bounds p q i Hb) as (H1 & H2 & H3).
  pose proof (zlen_nonneg q). pose proof (overflow_backwards _ i (zlen q) Hi H1 ltac:(done) H2) as Hov.
  rewrite readLenEncStringAsBytesCopy_cases, readLenEncString_cases, skipLenEncString_cases by done.
  unfold classify in *. split_and!; intros Hc.
  - by rewrite (proj2 (Z.leb_le i (zlen q))) by lia.
  - rewrite (proj2 (Z.leb_gt i (zlen q))), (proj2 (Z.leb_le i _)) by lia. done.
  - rewrite (proj2 (Z.leb_gt i (zlen q))), (proj2 (Z.leb_gt i _)) in * by lia.
    split_and!; [done..|]. eexists. split; [done|]. by apply Hov.
Qed.

Lemma LenEncString_lengths_witness :
  let pos := zlen (bs "ab") + lenEncIntSize MaxUint64 in
  let data := bs "ab" ++ lenenc MaxUint64 ++ bs "xyz" in
  (MaxUint64 <= zlen (bs "xyz") ->
     readLenEncString data (zlen (bs "ab")) =
     Ret (take (Z.to_nat MaxUint64) (bs "xyz"), pos + MaxUint64, true)) /\
  (zlen (bs "xyz") < MaxUint64 <= 2 ^ 63 - pos ->
     readLenEncString data (zlen (bs "ab")) = Ret ([], 0, false) /\
     skipLenEncString data (zlen (bs "ab")) = Ret (0, false)) /\
  (zlen (bs "xyz") < MaxUint64 /\ 2 ^ 63 - pos < MaxUint64 ->
     readLenEncString data (zlen (bs "ab")) = Panic /\
     readLenEncStringAsBytesCopy data (zlen (bs "ab")) = Panic /\
     exists back, skipLenEncString data (zlen (bs "ab")) = Ret (back, true) /\ back < pos).
Proof.
  apply (LenEncString_lengths (bs "ab") (bs "xyz") MaxUint64);
    [split; vm_compute; discriminate|vm_compute; discriminate].
Defined.

(** On arbitrary bytes and any position at or after the start, [readLenEncInt] does
    not panic, and when it reports success it has moved forward and not past the end
    of the buffer. *)
Theorem readLenEncInt_safe (data : list byte) (pos : Z) :
  0 <= pos <= MaxInt64 - 9 -> buffer_ok data ->
  exists v pos' ok, readLenEncInt data pos = Ret (v, pos', ok) /\
  (ok = true -> pos < pos' <= zlen data).
Proof. apply readLenEncInt_total. Qed.

Lemma readLenEncInt_safe_witness :
  exists v pos' ok, readLenEncInt (bs "hello") 3 = Ret (v, pos', ok) /\
  (ok = true -> 3 < pos' <= zlen (bs "hello")).
Proof. apply (readLenEncInt_safe (bs "hello") 3); [split; vm_compute; discriminate|vm_compute; discriminate]. Defined.

(** NUL-terminated strings without a zero byte are read back as written, at the
    position the writer returned. *)
Theorem NullString_roundtrip (p old q value : list byte) :
  z2b 0 ∉ value -> zlen old = lenNullString value -> buffer_ok (p ++ old ++ q) ->
  zlen value < MaxInt64 ->
  exists data stop, writeNullString (p ++ old ++ q) (zlen p) value = Ret (data, stop) /\
  zlen data = zlen (p ++ old ++ q) /\
  readNullString data (zlen p) = Ret (value, stop, true).
Proof.
  intros Hv Hold Hb Hlen. pose proof (zlen_nonneg value). unfold lenNullString in Hold.
  rewrite add64_pos in Hold by lia. unfold buffer_ok in *.
  assert (zlen (p ++ value ++ z2b 0 :: q) = zlen (p ++ old ++ q)) as Hz.
  { rewrite !zlen_app, zlen_cons. lia. }
  eexists _, _. split; [by apply writeNullString_here|]. split; [done|].
  apply readNullString_here; [done|]. unfold buffer_ok. lia.
Qed.

Lemma NullString_roundtrip_witness :
  exists data stop, writeNullString (bs "ab" ++ bs "1234" ++ bs "c") (zlen (bs "ab")) (bs "xyz") =
    Ret (data, stop) /\
  zlen data = zlen (bs "ab" ++ bs "1234" ++ bs "c") /\
  readNullString data (zlen (bs "ab")) = Ret (bs "xyz", stop, true).
Proof.
  apply (NullString_roundtrip (bs "ab") (bs "1234") (bs "c") (bs "xyz"));
    [refine (bool_decide_unpack _ _); by vm_compute|by vm_compute|vm_compute; discriminate|done].
Defined.

(** The fixed-width integers. *)
Lemma uint_roundtrip (n : nat) p w q v :
  zlen w = Z.of_nat n -> (1 <= n)%nat -> buffer_ok (p ++ w ++ q) -> 0 <= v < 256 ^ Z.of_nat n ->
  exists e, store_seq (p ++ w ++ q) (zlen p) 0 (binary.le_bytes n v) = Ret (p ++ e ++ q) /\
  readUintN (Z.of_nat n) (p ++ e ++ q) (zlen p) = Ret (v, add64 (zlen p) (Z.of_nat n), true).
Proof.
  intros Hw Hn Hb Hv. unfold buffer_ok in *. rewrite !zlen_app in *. pose proof (zlen_nonneg p).
  pose proof (zlen_nonneg q). exists (binary.le_bytes n v).
  assert (zlen (binary.le_bytes n v) = Z.of_nat n) as Hz
    by (unfold zlen; by rewrite binary.length_le_bytes).
  split; [apply store_seq_here; unfold zlen in *; lia|]. rewrite add64_pos by lia.
  rewrite readUintN_here; [by rewrite binary.of_le_le_bytes, Z.mod_small|done|lia|].
  unfold buffer_ok. rewrite !zlen_app. lia.
Qed.

Lemma Uint16_roundtrip p w q v :
  zlen w = 2 -> buffer_ok (p ++ w ++ q) -> 0 <= v < 2 ^ 16 ->
  exists data stop, writeUint16 (p ++ w ++ q) (zlen p) v = Ret (data, stop) /\
  readUint16 data (zlen p) = Ret (v, stop, true).
Proof.
  intros Hw Hb Hv. destruct (uint_roundtrip 2 p w q v Hw ltac:(lia) Hb Hv) as (e & He & Hr).
  destruct (le_bytes_shifts v) as (E & _). unfold writeUint16. rewrite <- E, He.
  eexists _, _. split; [done|]. exact Hr.
Qed.

Lemma Uint32_roundtrip p w q v :
  zlen w = 4 -> buffer_ok (p ++ w ++ q) -> 0 <= v < 2 ^ 32 ->
  exists data stop, writeUint32 (p ++ w ++ q) (zlen p) v = Ret (data, stop) /\
  readUint32 data (zlen p) = Ret (v, stop, true).
Proof.
  intros Hw Hb Hv. destruct (uint_roundtrip 4 p w q v Hw ltac:(lia) Hb Hv) as (e & He & Hr).
  destruct (le_bytes_shifts v) as (_ & _ & E & _). unfold writeUint32. rewrite <- E, He.
  eexists _, _. split; [done|]. exact Hr.
Qed.

Lemma Uint64_roundtrip p w q v :
  zlen w = 8 -> buffer_ok (p ++ w ++ q) -> 0 <= v < 2 ^ 64 ->
  exists data stop, writeUint64 (p ++ w ++ q) (zlen p) v = Ret (data, stop) /\
  readUint64 data (zlen p) = Ret (v, stop, true).
Proof.
  intros Hw Hb Hv. destruct (uint_roundtrip 8 p w q v Hw ltac:(lia) Hb Hv) as (e & He & Hr).
  destruct (le_bytes_shifts v) as (_ & _ & _ & E). unfold writeUint64. rewrite <- E, He.
  eexists _, _. split; [done|]. exact Hr.
Qed.

(** The position [readEOFString] returns is the number of bytes read, not the position
    behind them. *)
Example readEOFString_position :
  readEOFString (bs "abcdef") 2 = Ret (bs "cdef", 4, true).
Proof. eval_eq. Qed.
