(* ===== verification/SqlTypes.v ===== *)
(** * SQL types and values

    The types, values and results of [go/sqltypes]: the numbers of [querypb.Type] and what their bits tell, the
    translation between them and the types of MySQL with their flags, the values and the results of queries, and the
    form in which a result travels between the processes of a cluster. *)

From S2P Require Import Prelude Intervals GoStd.

(** ** Types *)

(** [querypb.Type] values. *)
Definition Type_NULL_TYPE : Z := 0.
Definition Type_INT8 : Z := 257.
Definition Type_UINT8 : Z := 770.
Definition Type_INT16 : Z := 259.
Definition Type_UINT16 : Z := 772.
Definition Type_INT24 : Z := 261.
Definition Type_UINT24 : Z := 774.
Definition Type_INT32 : Z := 263.
Definition Type_UINT32 : Z := 776.
Definition Type_INT64 : Z := 265.
Definition Type_UINT64 : Z := 778.
Definition Type_FLOAT32 : Z := 1035.
Definition Type_FLOAT64 : Z := 1036.
Definition Type_TIMESTAMP : Z := 2061.
Definition Type_DATE : Z := 2062.
Definition Type_TIME : Z := 2063.
Definition Type_DATETIME : Z := 2064.
Definition Type_YEAR : Z := 785.
Definition Type_DECIMAL : Z := 18.
Definition Type_TEXT : Z := 6163.
Definition Type_BLOB : Z := 10260.
Definition Type_VARCHAR : Z := 6165.
Definition Type_VARBINARY : Z := 10262.
Definition Type_CHAR : Z := 6167.
Definition Type_BINARY : Z := 10264.
Definition Type_BIT : Z := 2073.
Definition Type_ENUM : Z := 2074.
Definition Type_SET : Z := 2075.
Definition Type_TUPLE : Z := 28.
Definition Type_GEOMETRY : Z := 2077.
Definition Type_JSON : Z := 2078.
Definition Type_EXPRESSION : Z := 31.
Definition Type_HEXNUM : Z := 4128.
Definition Type_HEXVAL : Z := 4129.
Definition Type_BITNUM : Z := 4130.

Definition flagIsIntegral : Z := 256.
Definition flagIsUnsigned : Z := 512.
Definition flagIsFloat : Z := 1024.
Definition flagIsQuoted : Z := 2048.
Definition flagIsText : Z := 4096.
Definition flagIsBinary : Z := 8192.

Definition IsIntegral (t : Z) : bool := Z.land t flagIsIntegral =? flagIsIntegral.
Definition IsSigned (t : Z) : bool := Z.land t (Z.lor flagIsIntegral flagIsUnsigned) =? flagIsIntegral.
Definition IsUnsigned (t : Z) : bool :=
  Z.land t (Z.lor flagIsIntegral flagIsUnsigned) =? Z.lor flagIsIntegral flagIsUnsigned.
Definition IsFloat (t : Z) : bool := Z.land t flagIsFloat =? flagIsFloat.
Definition IsQuoted (t : Z) : bool := (Z.land t flagIsQuoted =? flagIsQuoted) && negb (t =? Type_BIT).
Definition IsText (t : Z) : bool := Z.land t flagIsText =? flagIsText.
Definition IsBinary (t : Z) : bool := Z.land t flagIsBinary =? flagIsBinary.
Definition IsNumber (t : Z) : bool := IsIntegral t || IsFloat t || (t =? Type_DECIMAL).
Definition IsDate (t : Z) : bool :=
  (t =? Type_DATETIME) || (t =? Type_DATE) || (t =? Type_TIMESTAMP) || (t =? Type_TIME).

(** *** The types of MySQL *)

(** [replication_constants.go]. *)

Definition TypeDecimal : Z := 0.
Definition TypeTiny : Z := 1.
Definition TypeShort : Z := 2.
Definition TypeLong : Z := 3.
Definition TypeFloat : Z := 4.
Definition TypeDouble : Z := 5.
Definition TypeNull : Z := 6.
Definition TypeTimestamp : Z := 7.
Definition TypeLongLong : Z := 8.
Definition TypeInt24 : Z := 9.
Definition TypeDate : Z := 10.
Definition TypeTime : Z := 11.
Definition TypeDateTime : Z := 12.
Definition TypeYear : Z := 13.
Definition TypeNewDate : Z := 14.
Definition TypeVarchar : Z := 15.
Definition TypeBit : Z := 16.
Definition TypeTimestamp2 : Z := 17.
Definition TypeDateTime2 : Z := 18.
Definition TypeTime2 : Z := 19.
Definition TypeJSON : Z := 245.
Definition TypeNewDecimal : Z := 246.
Definition TypeEnum : Z := 247.
Definition TypeSet : Z := 248.
Definition TypeTinyBlob : Z := 249.
Definition TypeMediumBlob : Z := 250.
Definition TypeLongBlob : Z := 251.
Definition TypeBlob : Z := 252.
Definition TypeVarString : Z := 253.
Definition TypeString : Z := 254.
Definition TypeGeometry : Z := 255.

Definition mysqlUnsigned : Z := 32.
Definition mysqlBinary : Z := 128.
Definition mysqlEnum : Z := 256.
Definition mysqlSet : Z := 2048.

Definition mysqlToType : gmap Z Z := list_to_map [
  (0, Type_DECIMAL); (1, Type_INT8); (2, Type_INT16); (3, Type_INT32); (4, Type_FLOAT32); (5, Type_FLOAT64);
  (6, Type_NULL_TYPE); (7, Type_TIMESTAMP); (8, Type_INT64); (9, Type_INT24); (10, Type_DATE); (11, Type_TIME);
  (12, Type_DATETIME); (13, Type_YEAR); (15, Type_VARCHAR); (16, Type_BIT); (17, Type_TIMESTAMP); (18, Type_DATETIME);
  (19, Type_TIME); (245, Type_JSON); (246, Type_DECIMAL); (247, Type_ENUM); (248, Type_SET); (249, Type_TEXT);
  (250, Type_TEXT); (251, Type_TEXT); (252, Type_TEXT); (253, Type_VARCHAR); (254, Type_CHAR); (255, Type_GEOMETRY)].

Definition modifyType (typ flags : Z) : Z :=
  let set f := negb (Z.land flags f =? 0) in
  if typ =? Type_INT8 then (if set mysqlUnsigned then Type_UINT8 else typ)
  else if typ =? Type_INT16 then (if set mysqlUnsigned then Type_UINT16 else typ)
  else if typ =? Type_INT32 then (if set mysqlUnsigned then Type_UINT32 else typ)
  else if typ =? Type_INT64 then (if set mysqlUnsigned then Type_UINT64 else typ)
  else if typ =? Type_INT24 then (if set mysqlUnsigned then Type_UINT24 else typ)
  else if typ =? Type_TEXT then (if set mysqlBinary then Type_BLOB else typ)
  else if typ =? Type_VARCHAR then (if set mysqlBinary then Type_VARBINARY else typ)
  else if typ =? Type_CHAR then
    (if set mysqlBinary then Type_BINARY else if set mysqlEnum then Type_ENUM else if set mysqlSet then Type_SET else typ)
  else if typ =? Type_YEAR then (if set mysqlBinary then Type_VARBINARY else typ)
  else typ.

(** [MySQLToType]; the error has the unsupported type. *)
Definition MySQLToType (mysqlType flags : Z) : result Z Z :=
  match mysqlToType !! mysqlType with
  | None => Err mysqlType
  | Some typ => Ok (modifyType typ flags)
  end.

Definition AreTypesEquivalent (fromBinlog fromSchema : Z) : bool :=
  let both b s := (fromBinlog =? b) && (fromSchema =? s) in
  (fromBinlog =? fromSchema) || both Type_VARCHAR Type_VARBINARY || both Type_CHAR Type_BINARY || both Type_CHAR Type_ENUM ||
  both Type_CHAR Type_SET || both Type_TEXT Type_BLOB || both Type_INT8 Type_UINT8 || both Type_INT16 Type_UINT16 ||
  both Type_INT24 Type_UINT24 || both Type_INT32 Type_UINT32 || both Type_INT64 Type_UINT64.

Definition typeToMySQL : gmap Z (Z * Z) := list_to_map [
  (Type_INT8, (1, 0)); (Type_UINT8, (1, mysqlUnsigned)); (Type_INT16, (2, 0)); (Type_UINT16, (2, mysqlUnsigned));
  (Type_INT32, (3, 0)); (Type_UINT32, (3, mysqlUnsigned)); (Type_FLOAT32, (4, 0)); (Type_FLOAT64, (5, 0));
  (Type_NULL_TYPE, (6, mysqlBinary)); (Type_TIMESTAMP, (7, 0)); (Type_INT64, (8, 0)); (Type_UINT64, (8, mysqlUnsigned));
  (Type_INT24, (9, 0)); (Type_UINT24, (9, mysqlUnsigned)); (Type_DATE, (10, mysqlBinary)); (Type_TIME, (11, mysqlBinary));
  (Type_DATETIME, (12, mysqlBinary)); (Type_YEAR, (13, mysqlUnsigned)); (Type_BIT, (16, mysqlUnsigned)); (Type_JSON, (245, 0));
  (Type_DECIMAL, (246, 0)); (Type_TEXT, (252, 0)); (Type_BLOB, (252, mysqlBinary)); (Type_BITNUM, (253, mysqlBinary));
  (Type_HEXNUM, (253, mysqlBinary)); (Type_HEXVAL, (253, mysqlBinary)); (Type_VARCHAR, (253, 0));
  (Type_VARBINARY, (253, mysqlBinary)); (Type_CHAR, (254, 0)); (Type_BINARY, (254, mysqlBinary)); (Type_ENUM, (254, mysqlEnum));
  (Type_SET, (254, mysqlSet)); (Type_GEOMETRY, (255, 0))].

(** [TypeToMySQL]; a type that is not in the map has the zero value. *)
Definition TypeToMySQL (typ : Z) : Z * Z := default (0, 0) (typeToMySQL !! typ).

(** [IsNum]. *)
Definition IsNum (typ : Z) : bool :=
  ((typ <=? TypeInt24) && negb (typ =? TypeTimestamp)) || (typ =? TypeYear) || (typ =? TypeNewDecimal).

Definition int8 (z : Z) : Z := wrapS 8 z.
Definition int16 (z : Z) : Z := wrapS 16 z.
Definition int32 (z : Z) : Z := wrapS 32 z.

(** ** Values and results *)

Record Value := { v_typ : Z; v_val : list byte }.

#[export] Instance Value_eq_dec : EqDecision Value.
Proof. solve_decision. Defined.

Definition NULL : Value := {| v_typ := Type_NULL_TYPE; v_val := [] |}.
Definition value_IsNull (v : Value) : bool := v_typ v =? Type_NULL_TYPE.

Definition MakeTrusted (typ : Z) (val : list byte) : Value :=
  if typ =? Type_NULL_TYPE then NULL else {| v_typ := typ; v_val := val |}.

(** [querypb.Field]. *)
Record Field := {
  f_Name : list byte;
  f_Type : Z;
  f_Table : list byte;
  f_OrgTable : list byte;
  f_Database : list byte;
  f_OrgName : list byte;
  f_ColumnLength : Z;
  f_Charset : Z;
  f_Decimals : Z;
  f_Flags : Z;
  f_ColumnType : list byte
}.

(** [&querypb.Field{Type: t}]. *)
Definition type_field (t : Z) : Field :=
  {| f_Name := []; f_Type := t; f_Table := []; f_OrgTable := []; f_Database := []; f_OrgName := []; f_ColumnLength := 0;
     f_Charset := 0; f_Decimals := 0; f_Flags := 0; f_ColumnType := [] |}.

(** [sqltypes.Result]; a slice that is nil is [None]. *)
Record SqlResult := {
  r_Fields : option (list Field);
  r_RowsAffected : Z;
  r_InsertID : Z;
  r_Rows : option (list (list Value));
  r_SessionStateChanges : list byte;
  r_StatusFlags : Z;
  r_Info : list byte
}.

(** The elements of a slice that may be nil. *)
Definition elems {A} (s : option (list A)) : list A := default [] s.

(** [append(s, x)] and [append(s, xs...)]; the result is nil only for a nil slice and nothing to append. *)
Definition append_one {A} (s : option (list A)) (x : A) : option (list A) := Some (elems s ++ [x]).
Definition append_all {A} (s : option (list A)) (xs : list A) : option (list A) :=
  match s, xs with None, [] => None | _, _ => Some (elems s ++ xs) end.

(** *** Operations on results *)

Definition set_rows (r : SqlResult) (rows : option (list (list Value))) : SqlResult :=
  {| r_Fields := r_Fields r; r_RowsAffected := r_RowsAffected r; r_InsertID := r_InsertID r; r_Rows := rows;
     r_SessionStateChanges := r_SessionStateChanges r; r_StatusFlags := r_StatusFlags r; r_Info := r_Info r |}.

Definition set_fields (r : SqlResult) (fields : option (list Field)) : SqlResult :=
  {| r_Fields := fields; r_RowsAffected := r_RowsAffected r; r_InsertID := r_InsertID r; r_Rows := r_Rows r;
     r_SessionStateChanges := r_SessionStateChanges r; r_StatusFlags := r_StatusFlags r; r_Info := r_Info r |}.

Definition set_type (t : Z) (v : Value) : Value := if v_typ v =? Type_NULL_TYPE then v else {| v_typ := t; v_val := v_val v |}.

(** One field of [Repair]: [r[j].typ = f.Type] in every row; a row that is too short panics. *)
Fixpoint repair_column (j : Z) (t : Z) (rows : list (list Value)) : outcome (list (list Value)) :=
  match rows with
  | [] => Ret []
  | r :: rows =>
      v ← index r j;
      r ← store r j (set_type t v);
      rows ← repair_column j t rows;
      Ret (r :: rows)
  end.

Fixpoint repair_fields (j : Z) (fields : list Field) (rows : list (list Value)) : outcome (list (list Value)) :=
  match fields with
  | [] => Ret rows
  | f :: fields => rows ← repair_column j (f_Type f) rows; repair_fields (j + 1) fields rows
  end.

(** [Repair]. *)
Definition Repair (r : SqlResult) (fields : list Field) : outcome SqlResult :=
  rows ← repair_fields 0 fields (elems (r_Rows r));
  Ret (set_rows r (match r_Rows r with None => None | Some _ => Some rows end)).

(** [AppendResult]. *)
Definition AppendResult (r src : SqlResult) : SqlResult :=
  if (r_RowsAffected src =? 0) && bool_decide (elems (r_Rows src) = []) && bool_decide (length (elems (r_Fields src)) = 0%nat) then r
  else
    {| r_Fields := match r_Fields r with None => r_Fields src | f => f end;
       r_RowsAffected := uint64 (r_RowsAffected r + r_RowsAffected src);
       r_InsertID := if r_InsertID src =? 0 then r_InsertID r else r_InsertID src;
       r_Rows := append_all (r_Rows r) (elems (r_Rows src));
       r_SessionStateChanges := r_SessionStateChanges src;
       r_StatusFlags := r_StatusFlags r;
       r_Info := r_Info r |}.

Inductive IncludedFields := TYPE_AND_NAME | TYPE_ONLY | ALL_FIELDS.

(** [StripMetadata]. *)
Definition StripMetadata (r : SqlResult) (incl : IncludedFields) : SqlResult :=
  match incl, elems (r_Fields r) with
  | ALL_FIELDS, _ | _, [] => r
  | _, fields =>
      set_fields r (Some ((fun f =>
        let g := type_field (f_Type f) in
        match incl with
        | TYPE_AND_NAME =>
            {| f_Name := f_Name f; f_Type := f_Type g; f_Table := f_Table g; f_OrgTable := f_OrgTable g; f_Database := f_Database g;
               f_OrgName := f_OrgName g; f_ColumnLength := f_ColumnLength g; f_Charset := f_Charset g; f_Decimals := f_Decimals g;
               f_Flags := f_Flags g; f_ColumnType := f_ColumnType g |}
        | _ => g
        end) <$> fields))
  end.

(** *** Results between processes *)

(** [querypb.Row] and [querypb.QueryResult]. *)
Record ProtoRow := { p_Lengths : list Z; p_Values : list byte }.

Record QueryResult := {
  q_Fields : option (list Field);
  q_RowsAffected : Z;
  q_InsertId : Z;
  q_Rows : option (list ProtoRow);
  q_Info : list byte;
  q_SessionStateChanges : list byte
}.

(** [RowToProto3]. *)
Definition RowToProto3 (row : list Value) : ProtoRow :=
  {| p_Lengths := (fun c => if value_IsNull c then -1 else zlen (v_val c)) <$> row;
     p_Values := concat ((fun c => if value_IsNull c then [] else v_val c) <$> row) |}.

(** [RowsToProto3]. *)
Definition RowsToProto3 (rows : list (list Value)) : option (list ProtoRow) :=
  match rows with [] => None | _ => Some (RowToProto3 <$> rows) end.

(** The loop of [MakeRowTrusted]. *)
Fixpoint make_row (fields : list Field) (i : Z) (values : list byte) (offset : Z) (lengths : list Z) : outcome (list Value) :=
  match lengths with
  | [] => Ret []
  | l :: lengths =>
      if l <? 0 then
        vs ← make_row fields (i + 1) values offset lengths;
        Ret (NULL :: vs)
      else
        f ← index fields i;
        val ← slice values offset (add64 offset l);
        vs ← make_row fields (i + 1) values (add64 offset l) lengths;
        Ret (MakeTrusted (f_Type f) val :: vs)
  end.

(** [MakeRowTrusted]. *)
Definition MakeRowTrusted (fields : list Field) (row : ProtoRow) : outcome (list Value) :=
  make_row fields 0 (p_Values row) 0 (p_Lengths row).

Fixpoint make_rows (fields : list Field) (rows : list ProtoRow) : outcome (list (list Value)) :=
  match rows with
  | [] => Ret []
  | r :: rows => row ← MakeRowTrusted fields r; rest ← make_rows fields rows; Ret (row :: rest)
  end.

(** [proto3ToRows]; no rows are an empty slice and not nil. *)
Definition proto3ToRows (fields : list Field) (rows : option (list ProtoRow)) : outcome (option (list (list Value))) :=
  rows ← make_rows fields (elems rows); Ret (Some rows).

(** [ResultToProto3], [CustomProto3ToResult] and [Proto3ToResult]. *)
Definition ResultToProto3 (qr : SqlResult) : QueryResult :=
  {| q_Fields := r_Fields qr; q_RowsAffected := r_RowsAffected qr; q_InsertId := r_InsertID qr;
     q_Rows := RowsToProto3 (elems (r_Rows qr)); q_Info := r_Info qr; q_SessionStateChanges := r_SessionStateChanges qr |}.

Definition CustomProto3ToResult (fields : list Field) (qr : QueryResult) : outcome SqlResult :=
  rows ← proto3ToRows fields (q_Rows qr);
  Ret {| r_Fields := q_Fields qr; r_RowsAffected := q_RowsAffected qr; r_InsertID := q_InsertId qr; r_Rows := rows;
         r_SessionStateChanges := q_SessionStateChanges qr; r_StatusFlags := 0; r_Info := q_Info qr |}.

Definition Proto3ToResult (qr : QueryResult) : outcome SqlResult := CustomProto3ToResult (elems (q_Fields qr)) qr.

(** ** Theorems *)

(** A value that has the type of its column. *)
Definition of_type (f : Field) (v : Value) : Prop := v = NULL \/ (v_typ v = f_Type f /\ f_Type f <> Type_NULL_TYPE).

Lemma MakeTrusted_of_type f v : of_type f v -> value_IsNull v = false -> MakeTrusted (f_Type f) (v_val v) = v.
Proof.
  intros [->|[Ht Hn]] Hnull; [done|]. unfold MakeTrusted. rewrite (proj2 (Z.eqb_neq _ _)) by done. destruct v. cbn in *. by subst.
Qed.

Lemma of_type_null f v : of_type f v -> value_IsNull v = true -> v = NULL.
Proof. intros [->|[Ht Hn]] Hnull; [done|]. unfold value_IsNull in Hnull. zify_tests. congruence. Qed.

Lemma make_row_values fields row : Forall2 of_type fields row -> forall pre values offset q,
  zlen offset + zlen (p_Values (RowToProto3 row)) <= MaxInt64 -> values = offset ++ p_Values (RowToProto3 row) ++ q ->
  make_row (pre ++ fields) (zlen pre) values (zlen offset) (p_Lengths (RowToProto3 row)) = Ret row.
Proof.
  induction 1 as [|f v fields row Hv Hrow IH]; intros pre values offset q Hz Hval; [done|].
  cbn [RowToProto3 p_Lengths p_Values fmap list_fmap concat] in *. rewrite zlen_app in Hz.
  change (pre ++ f :: fields) with (pre ++ [f] ++ fields). rewrite app_assoc.
  destruct (value_IsNull v) eqn:En.
  - cbn [make_row Z.ltb]. change (-1 <? 0) with true. cbv iota.
    replace (zlen pre + 1) with (zlen (pre ++ [f])) by len. rewrite (IH _ _ _ q Hz) by (by rewrite Hval). cbn [mbind outcome_bind].
    by rewrite (of_type_null f v).
  - pose proof (zlen_nonneg (v_val v)) as Hl. pose proof (zlen_nonneg offset). 
    match type of Hz with context [zlen (concat ?x)] => pose proof (zlen_nonneg (concat x)) end.
    cbn [make_row]. rewrite (proj2 (Z.ltb_ge _ _)) by done.
    rewrite (index_at _ pre f fields) by (done || by rewrite <- app_assoc). cbn [mbind outcome_bind].
    rewrite add64_small by (unfold_ints; lia). rewrite <- app_assoc in Hval.
    erewrite (slice_at values offset (v_val v)) by done. cbn [mbind outcome_bind].
    replace (zlen offset + zlen (v_val v)) with (zlen (offset ++ v_val v)) by len.
    replace (zlen pre + 1) with (zlen (pre ++ [f])) by len.
    rewrite (IH _ _ _ q) by (rewrite ?zlen_app; first [lia | by rewrite Hval, <- app_assoc]). cbn [mbind outcome_bind].
    by rewrite (MakeTrusted_of_type f v).
Qed.

(** A result of typed rows. *)
Definition typed_result (r : SqlResult) : Prop :=
  Forall (fun row => Forall2 of_type (elems (r_Fields r)) row /\ zlen (p_Values (RowToProto3 row)) <= MaxInt64) (elems (r_Rows r)).

(** A result whose values have the types of their columns is the same after it has been sent to another process: only the
    status flags are not sent, and no rows are an empty slice. *)
Theorem Proto3_roundtrip (r : SqlResult) : typed_result r ->
  Proto3ToResult (ResultToProto3 r) =
  Ret {| r_Fields := r_Fields r; r_RowsAffected := r_RowsAffected r; r_InsertID := r_InsertID r; r_Rows := Some (elems (r_Rows r));
         r_SessionStateChanges := r_SessionStateChanges r; r_StatusFlags := 0; r_Info := r_Info r |}.
Proof.
  unfold typed_result, Proto3ToResult, CustomProto3ToResult, ResultToProto3, proto3ToRows. cbn [q_Fields q_Rows].
  intros H. enough (make_rows (elems (r_Fields r)) (elems (RowsToProto3 (elems (r_Rows r)))) = Ret (elems (r_Rows r))) as -> by done.
  assert (elems (RowsToProto3 (elems (r_Rows r))) = RowToProto3 <$> elems (r_Rows r)) as -> by (by destruct (elems (r_Rows r))).
  induction H as [|row rows [Hrow Hz] _ IH]; [done|]. cbn [fmap list_fmap make_rows]. unfold MakeRowTrusted.
  rewrite (make_row_values (elems (r_Fields r)) row Hrow [] _ [] []) by (done || by rewrite app_nil_r).
  cbn [mbind outcome_bind]. fold (fmap (M := list) RowToProto3 rows). rewrite IH. done.
Qed.

(** The types that have a type of MySQL of their own. *)
Definition wire_types : list Z :=
  [Type_NULL_TYPE; Type_INT8; Type_UINT8; Type_INT16; Type_UINT16; Type_INT24; Type_UINT24; Type_INT32; Type_UINT32; Type_INT64;
   Type_UINT64; Type_FLOAT32; Type_FLOAT64; Type_TIMESTAMP; Type_DATE; Type_TIME; Type_DATETIME; Type_YEAR; Type_DECIMAL; Type_TEXT;
   Type_BLOB; Type_VARCHAR; Type_VARBINARY; Type_CHAR; Type_BINARY; Type_BIT; Type_ENUM; Type_SET; Type_GEOMETRY; Type_JSON].

(** The types survive the translation to MySQL and back, except that hexadecimal and bit literals come back as binary
    strings, and expressions and tuples as decimals. *)
Theorem TypeToMySQL_back (t : Z) :
  (t ∈ wire_types -> MySQLToType (TypeToMySQL t).1 (TypeToMySQL t).2 = Ok t) /\
  (t ∈ [Type_HEXNUM; Type_HEXVAL; Type_BITNUM] -> MySQLToType (TypeToMySQL t).1 (TypeToMySQL t).2 = Ok Type_VARBINARY) /\
  (t ∈ [Type_EXPRESSION; Type_TUPLE] -> MySQLToType (TypeToMySQL t).1 (TypeToMySQL t).2 = Ok Type_DECIMAL).
Proof. split_and!; intros H; unfold wire_types in H; repeat (apply elem_of_cons in H as [->|H]; [by vm_compute|]); by apply not_elem_of_nil in H. Qed.
