(* ===== verification/Packet.v ===== *)
(** * Packets of the MySQL protocol

    The part of [go/mysql/conn.go] that turns payloads into packets and back: [writePacket] cuts a payload into chunks of at
    most [MaxPacketSize] bytes, each with a header that has its length and a sequence number, and [readPacket] and
    [readEphemeralPacket] put the chunks together again.  The network is a stream of bytes in each direction that
    may end or break at any point. *)

From Equations Require Import Equations.
From S2P Require Import Prelude Intervals GoStd Encoding.

(** ** The connection *)

Definition MaxPacketSize : Z := Z.shiftl 1 24 - 1.
Definition packetHeaderSize : Z := 4.

Inductive ephemeral := ephemeralUnused | ephemeralWrite | ephemeralRead.

(** How the bytes from the peer end: the peer has closed the connection, it was reset, or another error. *)
Inductive read_end := EndEOF | EndReset | EndOther.

Inductive conn_error :=
| IoEOF
| UnexpectedEOF
| ConnectionReset
| OtherReadError
| HeaderFailed (e : conn_error)
| BodyFailed (length : Z) (e : conn_error)
| InvalidSequence (expected got : Z)
| TooManyPackets
| WriteFailed
| WriteEmptyHeaderFailed
| PackingUsed (pos length : Z)
| ServerGone (e : conn_error)
| ServerLost (e : conn_error).

(** The fields of [Conn] that matter here, and the two directions of the network: the bytes of the peer that have not been
    read, how they end, the bytes that have been sent, and the number of writes that succeed before the
    connection breaks, with the number of bytes the broken write still sends. *)
Record Conn := {
  sequence : Z;
  Capabilities : Z;
  StatusFlags : Z;
  enableQueryInfo : bool;
  currentEphemeralPolicy : ephemeral;
  currentEphemeralBuffer : option (list byte);
  input : list byte;
  input_end : read_end;
  output : list byte;
  breaks : option (nat * nat)
}.

Definition set_sequence (z : Z) (c : Conn) : Conn :=
  {| sequence := z; Capabilities := Capabilities c; StatusFlags := StatusFlags c; enableQueryInfo := enableQueryInfo c;
     currentEphemeralPolicy := currentEphemeralPolicy c; currentEphemeralBuffer := currentEphemeralBuffer c;
     input := input c; input_end := input_end c; output := output c; breaks := breaks c |}.

Definition set_ephemeral (p : ephemeral) (b : option (list byte)) (c : Conn) : Conn :=
  {| sequence := sequence c; Capabilities := Capabilities c; StatusFlags := StatusFlags c; enableQueryInfo := enableQueryInfo c;
     currentEphemeralPolicy := p; currentEphemeralBuffer := b;
     input := input c; input_end := input_end c; output := output c; breaks := breaks c |}.

Definition set_input (i : list byte) (c : Conn) : Conn :=
  {| sequence := sequence c; Capabilities := Capabilities c; StatusFlags := StatusFlags c; enableQueryInfo := enableQueryInfo c;
     currentEphemeralPolicy := currentEphemeralPolicy c; currentEphemeralBuffer := currentEphemeralBuffer c;
     input := i; input_end := input_end c; output := output c; breaks := breaks c |}.

Definition set_output (o : list byte) (k : option (nat * nat)) (c : Conn) : Conn :=
  {| sequence := sequence c; Capabilities := Capabilities c; StatusFlags := StatusFlags c; enableQueryInfo := enableQueryInfo c;
     currentEphemeralPolicy := currentEphemeralPolicy c; currentEphemeralBuffer := currentEphemeralBuffer c;
     input := input c; input_end := input_end c; output := o; breaks := k |}.

(** [c.sequence++], a byte. *)
Definition next_sequence (c : Conn) : Conn := set_sequence (wrapU 8 (sequence c + 1)) c.

(** ** Computations on a connection

    They may panic, fail with an error, and change the connection. *)
Definition io (A : Type) : Type := Conn -> outcome (result conn_error A * Conn).

#[export] Instance io_ret : MRet io := fun A a c => Ret (Ok a, c).
#[export] Instance io_bind : MBind io := fun A B k m c =>
  match m c with
  | Ret (Ok a, c) => k a c
  | Ret (Err e, c) => Ret (Err e, c)
  | Panic => Panic
  end.

Definition fail {A} (e : conn_error) : io A := fun c => Ret (Err e, c).
Definition state : io Conn := fun c => Ret (Ok c, c).
Definition update (f : Conn -> Conn) : io unit := fun c => Ret (Ok tt, f c).
Definition pure {A} (o : outcome A) : io A := fun c => match o with Ret a => Ret (Ok a, c) | Panic => Panic end.
Definition panic {A} : io A := fun _ => Panic.

(** An error of [m] with more text. *)
Definition wrapped {A} (f : conn_error -> conn_error) (m : io A) : io A := fun c =>
  match m c with
  | Ret (Err e, c) => Ret (Err (f e), c)
  | r => r
  end.

(** ** Reading *)

(** [io.ReadFull] into a buffer of [n] bytes. *)
Definition ReadFull (n : Z) : io (list byte) := fun c =>
  if n <=? zlen (input c) then Ret (Ok (take (Z.to_nat n) (input c)), set_input (drop (Z.to_nat n) (input c)) c)
  else
    let e := match input_end c with
      | EndEOF => if decide (input c = []) then IoEOF else UnexpectedEOF
      | EndReset => ConnectionReset
      | EndOther => OtherReadError
      end in
    Ret (Err e, set_input [] c).

(** The error [readHeaderFrom] returns for an error of [io.ReadFull]. *)
Definition header_error (e : conn_error) : conn_error :=
  match e with IoEOF | ConnectionReset => IoEOF | e => HeaderFailed e end.

(** [readHeaderFrom]. *)
Definition readHeaderFrom : io Z :=
  header ← wrapped header_error (ReadFull packetHeaderSize);
  b0 ← pure (index header 0);
  b1 ← pure (index header 1);
  b2 ← pure (index header 2);
  b3 ← pure (index header 3);
  c ← state;
  if negb (b2z b3 =? sequence c) then fail (InvalidSequence (sequence c) (b2z b3))
  else
    _ ← update next_sequence;
    mret (Z.lor (Z.lor (b2z b0) (Z.shiftl (b2z b1) 8)) (Z.shiftl (b2z b2) 16)).

(** [readOnePacket]. *)
Definition readOnePacket : io (list byte) :=
  length ← readHeaderFrom;
  if length =? 0 then mret []
  else wrapped (BodyFailed length) (ReadFull length).

Lemma ReadFull_shrinks n c r c' : 0 < n -> ReadFull n c = Ret (Ok r, c') -> (length (input c') < length (input c))%nat.
Proof.
  unfold ReadFull. destruct (Z.leb_spec n (zlen (input c))); [|discriminate]. intros Hn [= <- <-]. cbn [input set_input].
  rewrite length_drop. unfold zlen in *. lia.
Qed.

Lemma io_bind_inv {A B} (m : io A) (k : A -> io B) c b c' : (m ≫= k) c = Ret (Ok b, c') ->
  exists a c1, m c = Ret (Ok a, c1) /\ k a c1 = Ret (Ok b, c').
Proof.
  unfold mbind, io_bind. destruct (m c) as [[[a|e] c1]|]; try discriminate. intros H. by exists a, c1.
Qed.

Lemma wrapped_inv {A} f (m : io A) c a c' : wrapped f m c = Ret (Ok a, c') -> m c = Ret (Ok a, c').
Proof. unfold wrapped. by destruct (m c) as [[[]]|]. Qed.

Lemma pure_inv {A} (o : outcome A) c a c' : pure o c = Ret (Ok a, c') -> o = Ret a /\ c' = c.
Proof. unfold pure. destruct o; [|discriminate]. by intros [= <- <-]. Qed.

Lemma readHeaderFrom_shrinks c n c' : readHeaderFrom c = Ret (Ok n, c') -> (length (input c') < length (input c))%nat.
Proof.
  unfold readHeaderFrom. intros H. apply io_bind_inv in H as (hdr & c1 & H1%wrapped_inv & H).
  apply ReadFull_shrinks in H1; [|done]. enough (input c' = input c1) as -> by done.
  do 4 (apply io_bind_inv in H as (? & ? & [_ ->]%pure_inv & H)).
  apply io_bind_inv in H as (? & ? & [= <- <-] & H). destruct (negb _); [discriminate|].
  apply io_bind_inv in H as (? & ? & [= <- <-] & [= <- <-]). done.
Qed.

Lemma readOnePacket_shrinks c d c' : readOnePacket c = Ret (Ok d, c') -> (length (input c') < length (input c))%nat.
Proof.
  unfold readOnePacket. intros (n & c1 & H1 & H)%io_bind_inv. apply readHeaderFrom_shrinks in H1.
  case_match; [cbv [mret io_ret] in H; by simplify_eq|]. apply wrapped_inv in H. unfold ReadFull in H.
  case_match; [|discriminate]. simplify_eq. cbn [input set_input]. rewrite length_drop. lia.
Qed.

(** The loop that reads the packets after one of [MaxPacketSize] bytes; each of them takes bytes from the network. *)
Equations? read_rest (data : list byte) (c : Conn) : outcome (result conn_error (list byte) * Conn)
  by wf (length (input c)) lt :=
  read_rest data c with inspect (readOnePacket c) => {
    | exist _ Panic _ => Panic;
    | exist _ (Ret (Err e, c1)) _ => Ret (Err e, c1);
    | exist _ (Ret (Ok next, c1)) _ with decide (next = []) => {
      | left _ => Ret (Ok data, c1);
      | right _ with decide (zlen next < MaxPacketSize) => {
        | left _ => Ret (Ok (data ++ next), c1);
        | right _ => read_rest (data ++ next) c1 } } }.
Proof. by eapply readOnePacket_shrinks. Qed.

(** [readPacket]. *)
Definition readPacket : io (list byte) :=
  data ← readOnePacket;
  if zlen data <? MaxPacketSize then mret data else read_rest data.

(** [ReadPacket]. *)
Definition ReadPacket : io (list byte) := wrapped ServerLost readPacket.

(** [readEphemeralPacketDirect] and [readEphemeralPacket]; a packet below [MaxPacketSize] is in a buffer of the pool. *)
Definition ephemeral_packet (long : Z -> io (list byte)) : io (list byte) :=
  c ← state;
  match currentEphemeralPolicy c with
  | ephemeralUnused =>
      length ← readHeaderFrom;
      _ ← update (fun c => set_ephemeral ephemeralRead (currentEphemeralBuffer c) c);
      if length =? 0 then mret []
      else if length <? MaxPacketSize then
        _ ← update (set_ephemeral ephemeralRead (Some []));
        data ← wrapped (BodyFailed length) (ReadFull length);
        _ ← update (set_ephemeral ephemeralRead (Some data));
        mret data
      else long length
  | _ => panic
  end.

Definition readEphemeralPacket : io (list byte) :=
  ephemeral_packet (fun length => data ← wrapped (BodyFailed length) (ReadFull length); read_rest data).

Definition readEphemeralPacketDirect : io (list byte) := ephemeral_packet (fun _ => fail TooManyPackets).

(** [recycleReadPacket]. *)
Definition recycleReadPacket : io unit :=
  c ← state;
  match currentEphemeralPolicy c with
  | ephemeralRead => update (set_ephemeral ephemeralUnused None)
  | _ => panic
  end.

(** ** Writing *)

(** [w.Write(p)]. *)
Definition Write (e : conn_error) (p : list byte) : io unit := fun c =>
  match breaks c with
  | None => Ret (Ok tt, set_output (output c ++ p) None c)
  | Some (S n, k) => Ret (Ok tt, set_output (output c ++ p) (Some (n, k)) c)
  | Some (O, k) => Ret (Err e, set_output (output c ++ take k p) (Some (O, k)) c)
  end.

(** The header of a chunk. *)
Definition chunk_header (length seq : Z) : list byte :=
  [z2b length; z2b (Z.shiftr length 8); z2b (Z.shiftr length 16); z2b seq].

(** [copy(data[i:i+len(src)], src)]. *)
Definition overwrite (data : list byte) (i : Z) (src : list byte) : outcome (list byte) :=
  _ ← slice data i (i + zlen src);
  '(data, _) ← copy_at data i src; Ret data.

(** One round of the loop of [writePacket] up to [c.sequence++]: the first four bytes are saved, the header is put over them and
    the chunk written, and they are restored. *)
Definition write_chunk (data : list byte) (index toBeSent : Z) : io (list byte) :=
  header ← pure (slice data index (index + packetHeaderSize));
  c ← state;
  data ← pure (store data index (z2b toBeSent));
  data ← pure (store data (index + 1) (z2b (Z.shiftr toBeSent 8)));
  data ← pure (store data (index + 2) (z2b (Z.shiftr toBeSent 16)));
  data ← pure (store data (index + 3) (z2b (sequence c)));
  chunk ← pure (slice data index (index + toBeSent + packetHeaderSize));
  _ ← Write WriteFailed chunk;
  data ← pure (overwrite data index header);
  _ ← update next_sequence;
  mret data.

(** The empty packet after the last chunk, when that has [MaxPacketSize] bytes. *)
Definition write_empty (toBeSent : Z) : io unit :=
  if toBeSent =? MaxPacketSize then
    c ← state;
    _ ← Write WriteEmptyHeaderFailed [z2b 0; z2b 0; z2b 0; z2b (sequence c)];
    update next_sequence
  else mret tt.

Definition chunk_size (dataLength : Z) : Z := if MaxPacketSize <? dataLength then MaxPacketSize else dataLength.

(** The loop of [writePacket]; a round that is not the last one sends [MaxPacketSize] bytes. *)
Equations? write_loop (data : list byte) (index dataLength : Z) (c : Conn)
  : outcome (result conn_error (list byte) * Conn) by wf (Z.to_nat dataLength) lt :=
  write_loop data index dataLength c with write_chunk data index (chunk_size dataLength) c => {
    | Panic => Panic;
    | Ret (Err e, c1) => Ret (Err e, c1);
    | Ret (Ok data1, c1) with decide (dataLength - chunk_size dataLength = 0) => {
      | left _ => (_ ← write_empty (chunk_size dataLength); mret data1) c1;
      | right _ => write_loop data1 (index + chunk_size dataLength) (dataLength - chunk_size dataLength) c1 } }.
Proof.
  unfold chunk_size in *. assert (MaxPacketSize = 2 ^ 24 - 1) as E by done. rewrite E in *.
  destruct (Z.ltb_spec (2 ^ 24 - 1) dataLength); lia.
Qed.

(** [writePacket]; it gives the buffer back as it is when it returns. *)
Definition writePacket (data : list byte) : io (list byte) := write_loop data 0 (zlen data - packetHeaderSize).

Section Pool.
(** What a buffer of the pool contains from its last use. *)
Context (stale : Z -> list byte).

(** [bufPool.Get]. *)
Definition bufPool_Get (size : Z) : list byte := resize (Z.to_nat size) (z2b 0) (stale size).

(** [startEphemeralPacketWithHeader]. *)
Definition startEphemeralPacketWithHeader (length : Z) : io (list byte * Z) :=
  c ← state;
  match currentEphemeralPolicy c with
  | ephemeralUnused =>
      let buf := bufPool_Get (length + packetHeaderSize) in
      _ ← update (set_ephemeral ephemeralWrite (Some buf));
      mret (buf, packetHeaderSize)
  | _ => panic
  end.
End Pool.

(** The bytes written to the slice [startEphemeralPacketWithHeader] returned are in the buffer of the connection. *)
Definition filled (data : list byte) : io unit := update (set_ephemeral ephemeralWrite (Some data)).

(** [recycleWritePacket]. *)
Definition recycleWritePacket : io unit :=
  c ← state;
  match currentEphemeralPolicy c with
  | ephemeralWrite => update (set_ephemeral ephemeralUnused None)
  | _ => panic
  end.

(** [writeEphemeralPacket]; the buffer is recycled also when the write fails. *)
Definition writeEphemeralPacket : io unit := fun c =>
  match currentEphemeralPolicy c, currentEphemeralBuffer c with
  | ephemeralWrite, Some buf =>
      match writePacket buf c with
      | Ret (r, c) =>
          match recycleWritePacket c with
          | Ret (_, c) => Ret (match r with Ok _ => Ok tt | Err e => Err e end, c)
          | Panic => Panic
          end
      | Panic => Panic
      end
  | _, _ => Panic
  end.

(** ** Frames

    The chunks of a payload: [framed s p b s'] says that [b] is [p] in chunks, the first of them with the sequence
    number [s], and that [s'] is the next number. *)
Inductive framed : Z -> list byte -> list byte -> Z -> Prop :=
| framed_last s p : zlen p < MaxPacketSize -> framed s p (chunk_header (zlen p) s ++ p) (wrapU 8 (s + 1))
| framed_more s p q b s' : zlen p = MaxPacketSize -> framed (wrapU 8 (s + 1)) q b s' ->
    framed s (p ++ q) (chunk_header MaxPacketSize s ++ p ++ b) s'.

Definition is_sequence (s : Z) : Prop := 0 <= s < 256.

Lemma MaxPacketSize_eq : MaxPacketSize = 2 ^ 24 - 1.
Proof. done. Qed.

Lemma header_length n : 0 <= n <= MaxPacketSize ->
  Z.lor (Z.lor (b2z (z2b n)) (Z.shiftl (b2z (z2b (Z.shiftr n 8))) 8)) (Z.shiftl (b2z (z2b (Z.shiftr n 16))) 16) = n.
Proof.
  intros Hn. rewrite MaxPacketSize_eq in Hn.
  pose proof (binary.of_le_le_bytes 3 n) as H. cbn [binary.le_bytes binary.of_le] in H.
  rewrite Z.mod_small in H by lia. rewrite Z.shiftr_shiftr in H by lia. rewrite <- H at 4.
  change (Z.shiftl 0 8) with 0. rewrite Z.lor_0_r, Z.shiftl_lor, Z.shiftl_shiftl, Z.lor_assoc by lia. done.
Qed.

Lemma ReadFull_app c p q : input c = p ++ q -> ReadFull (zlen p) c = Ret (Ok p, set_input q c).
Proof.
  intros Hi. unfold ReadFull. rewrite Hi, (proj2 (Z.leb_le _ _)) by (pose proof (zlen_nonneg q); len).
  unfold zlen. by rewrite Nat2Z.id, take_app_length, drop_app_length.
Qed.

(** The state after a chunk has been read. *)
Definition after_chunk (q : list byte) (c : Conn) : Conn := next_sequence (set_input q c).

Lemma io_bind_ok {A B} (m : io A) (k : A -> io B) c a c1 : m c = Ret (Ok a, c1) -> (m ≫= k) c = k a c1.
Proof. unfold mbind, io_bind. by intros ->. Qed.

Lemma wrapped_ok {A} f (m : io A) c a c1 : m c = Ret (Ok a, c1) -> wrapped f m c = Ret (Ok a, c1).
Proof. unfold wrapped. by intros ->. Qed.

Lemma pure_ok {A} (o : outcome A) a c : o = Ret a -> pure o c = Ret (Ok a, c).
Proof. by intros ->. Qed.

(** One step of a computation that succeeds. *)
Ltac step := erewrite io_bind_ok; [|first [reflexivity | apply pure_ok; reflexivity]]; cbv beta.
Tactic Notation "step" "by" tactic(t) := erewrite io_bind_ok; [|solve [t]]; cbv beta.

Lemma readHeaderFrom_chunk c n q : 0 <= n <= MaxPacketSize -> is_sequence (sequence c) ->
  input c = chunk_header n (sequence c) ++ q -> readHeaderFrom c = Ret (Ok n, after_chunk q c).
Proof.
  intros Hn Hs Hi. unfold readHeaderFrom. step by (apply wrapped_ok; apply (ReadFull_app c (chunk_header n (sequence c)) q Hi)).
  do 5 step. rewrite b2z_z2b, Z.mod_small by done. cbn [sequence set_input]. rewrite Z.eqb_refl. cbn [negb].
  step. by rewrite header_length.
Qed.

Lemma readOnePacket_chunk c p q : zlen p <= MaxPacketSize -> is_sequence (sequence c) ->
  input c = chunk_header (zlen p) (sequence c) ++ p ++ q -> readOnePacket c = Ret (Ok p, after_chunk q c).
Proof.
  intros Hp Hs Hi. pose proof (zlen_nonneg p). unfold readOnePacket. step by (by apply readHeaderFrom_chunk).
  destruct (Z.eqb_spec (zlen p) 0) as [E|E].
  - destruct p; [done|]. rewrite zlen_cons in E. pose proof (zlen_nonneg p). lia.
  - apply wrapped_ok. by rewrite (ReadFull_app _ p q).
Qed.

Lemma is_sequence_next s : is_sequence (wrapU 8 (s + 1)).
Proof. apply Z.mod_pos_bound. lia. Qed.

(** The connection after a packet has been read. *)
Definition after_packet (q : list byte) (s : Z) (c : Conn) : Conn := set_sequence s (set_input q c).

Lemma read_rest_eq data c : read_rest data c =
  match readOnePacket c with
  | Panic => Panic
  | Ret (Err e, c1) => Ret (Err e, c1)
  | Ret (Ok next, c1) =>
      if decide (next = []) then Ret (Ok data, c1)
      else if decide (zlen next < MaxPacketSize) then Ret (Ok (data ++ next), c1) else read_rest (data ++ next) c1
  end.
Proof.
  simp read_rest.
  enough (forall r : {b | readOnePacket c = b}, read_rest_unfold_clause_1 data c r =
    match proj1_sig r with
    | Panic => Panic
    | Ret (Err e, c1) => Ret (Err e, c1)
    | Ret (Ok next, c1) =>
        if decide (next = []) then Ret (Ok data, c1)
        else if decide (zlen next < MaxPacketSize) then Ret (Ok (data ++ next), c1) else read_rest (data ++ next) c1
    end) as H by exact (H (inspect _)).
  intros [[[[next|e] c1]|] E]; try done. cbn. destruct (decide (next = [])); [done|]. cbn. by destruct (decide _).
Qed.

Lemma read_rest_framed s p b s' : framed s p b s' -> forall data c q,
  is_sequence s -> sequence c = s -> input c = b ++ q -> read_rest data c = Ret (Ok (data ++ p), after_packet q s' c).
Proof.
  induction 1 as [s p Hp|s p q b s' Hp Hf IH]; intros data c q' Hs Hc Hi; subst s; rewrite read_rest_eq.
  - rewrite <- app_assoc in Hi. rewrite (readOnePacket_chunk c p q') by (done || lia).
    destruct (decide (p = [])) as [->|]; [by rewrite app_nil_r|]. by rewrite decide_True.
  - rewrite <- Hp, <- !app_assoc in Hi. rewrite (readOnePacket_chunk c p (b ++ q')) by (done || lia).
    rewrite decide_False by (intros ->; by rewrite MaxPacketSize_eq in Hp). rewrite decide_False by lia.
    rewrite (IH (data ++ p) _ q'); [by rewrite app_assoc|apply is_sequence_next|done..].
Qed.

(** A packet is read as its payload, and no further. *)
Lemma readPacket_framed s p b s' c q : framed s p b s' -> is_sequence s -> sequence c = s -> input c = b ++ q ->
  readPacket c = Ret (Ok p, after_packet q s' c).
Proof.
  intros Hf Hs Hc Hi. unfold readPacket. destruct Hf as [s p Hp|s p q1 b s' Hp Hf]; subst s.
  - rewrite <- app_assoc in Hi. step by (apply (readOnePacket_chunk c p q); [lia|done..]).
    by rewrite (proj2 (Z.ltb_lt _ _)).
  - rewrite <- Hp, <- !app_assoc in Hi. step by (apply (readOnePacket_chunk c p (b ++ q)); [lia|done..]).
    rewrite (proj2 (Z.ltb_ge _ _)) by lia. by rewrite (read_rest_framed _ _ _ _ Hf p _ q) by (apply is_sequence_next || done).
Qed.

(** [readEphemeralPacket] reads the same payload, and has a buffer of the pool if the payload is small. *)
Lemma readEphemeralPacket_framed s p b s' c q : framed s p b s' -> is_sequence s -> sequence c = s -> input c = b ++ q ->
  currentEphemeralPolicy c = ephemeralUnused ->
  exists buf, readEphemeralPacket c = Ret (Ok p, set_ephemeral ephemeralRead buf (after_packet q s' c)).
Proof.
  intros Hf Hs Hc Hi Hu. unfold readEphemeralPacket, ephemeral_packet. step. rewrite Hu.
  destruct Hf as [s p Hp|s p q1 b s' Hp Hf]; subst s; pose proof (zlen_nonneg p) as H0.
  - rewrite <- app_assoc in Hi. step by (apply (readHeaderFrom_chunk c (zlen p) (p ++ q)); [lia|done..]). step.
    destruct (Z.eqb_spec (zlen p) 0) as [E|E].
    { destruct p; [by eexists|]. rewrite zlen_cons in E. pose proof (zlen_nonneg p). lia. }
    rewrite (proj2 (Z.ltb_lt _ _)) by done. step. step by (apply wrapped_ok; by apply (ReadFull_app _ p q)). step. by eexists.
  - rewrite <- Hp, <- !app_assoc in Hi. step by (apply (readHeaderFrom_chunk c (zlen p) (p ++ b ++ q)); [lia|done..]). step.
    rewrite Hp. cbn [Z.eqb]. rewrite (proj2 (Z.eqb_neq MaxPacketSize 0)), Z.ltb_irrefl by done. rewrite <- Hp.
    step by (apply wrapped_ok; by apply (ReadFull_app _ p (b ++ q))). eexists.
    rewrite (read_rest_framed _ _ _ _ Hf p _ q); [|apply is_sequence_next|done..]. done.
Qed.

(** *** Writing frames *)

(** What a computation that writes has done: it has sent [b], or, if the connection broke, a prefix of [b] and then
    failed. *)
Definition sends {A} (m : io A) (c : Conn) (b : list byte) (s : Z) (a : A) : Prop :=
  exists r b' k s', m c = Ret (r, set_sequence s' (set_output (output c ++ b') k c)) /\ b' `prefix_of` b /\
    (breaks c = None -> k = None) /\
    match r with Ok x => x = a /\ b' = b /\ s' = s | Err e => (e = WriteFailed \/ e = WriteEmptyHeaderFailed) /\ breaks c <> None end.

Lemma Conn_eta c : set_sequence (sequence c) (set_output (output c ++ []) (breaks c) c) = c.
Proof. rewrite app_nil_r. by destruct c. Qed.

Lemma sends_ret {A} (a : A) c : sends (mret a) c [] (sequence c) a.
Proof. exists (Ok a), [], (breaks c), (sequence c). split_and!; try done. by rewrite Conn_eta. Qed.

Lemma sends_Write e p c : e = WriteFailed \/ e = WriteEmptyHeaderFailed -> sends (Write e p) c p (sequence c) tt.
Proof.
  intros He. unfold sends, Write. destruct (breaks c) as [[[|n] k]|] eqn:Eb.
  - exists (Err e), (take k p), (Some (O, k)), (sequence c). split_and!; [by destruct c|by apply prefix_take|done..].
  - exists (Ok tt), p, (Some (n, k)), (sequence c). by destruct c.
  - exists (Ok tt), p, None, (sequence c). by destruct c.
Qed.

(** The second of two writes starts where the first has got to. *)
Lemma sends_bind {A B} (m : io A) (k : A -> io B) c b1 s1 a b2 s2 x :
  sends m c b1 s1 a ->
  (forall br, (breaks c = None -> br = None) -> sends (k a) (set_sequence s1 (set_output (output c ++ b1) br c)) b2 s2 x) ->
  sends (m ≫= k) c (b1 ++ b2) s2 x.
Proof.
  intros (r & b' & br & s' & Hm & Hpre & Hbr & Hr) Hk. destruct r as [y|e].
  - destruct Hr as (-> & -> & ->). destruct (Hk br Hbr) as (r & b'' & br' & s'' & Hm' & Hpre' & Hbr' & Hr').
    exists r, (b1 ++ b''), br', s''. rewrite (io_bind_ok _ _ _ _ _ Hm), Hm'. split_and!.
    + by rewrite app_assoc.
    + by apply prefix_app.
    + cbn in Hbr'. tauto.
    + destruct r as [z|e]; [|split; [tauto|cbn in Hr'; intros Hn; by destruct Hr' as [_ []]; apply Hbr]].
      destruct Hr' as (-> & -> & ->). done.
  - exists (Err e), b', br, s'. unfold mbind, io_bind. rewrite Hm. split_and!; try done.
    all: first [by apply prefix_app_r | apply Hr].
Qed.

Lemma sends_step {A B} (m : io A) (k : A -> io B) c a b s x : m c = Ret (Ok a, c) -> sends (k a) c b s x -> sends (m ≫= k) c b s x.
Proof. intros Hm Hk. unfold sends. by rewrite (io_bind_ok _ _ _ _ _ Hm). Qed.

Lemma sends_bind_last {A B} (m : io A) (k : A -> io B) c b s1 a s2 x :
  sends m c b s1 a ->
  (forall br, (breaks c = None -> br = None) -> sends (k a) (set_sequence s1 (set_output (output c ++ b) br c)) [] s2 x) ->
  sends (m ≫= k) c b s2 x.
Proof. intros Hm Hk. rewrite <- (app_nil_r b). by eapply sends_bind. Qed.

Lemma sends_next {A} (a : A) c : sends (_ ← update next_sequence; mret a) c [] (wrapU 8 (sequence c + 1)) a.
Proof. exists (Ok a), [], (breaks c), (wrapU 8 (sequence c + 1)). by rewrite app_nil_r. Qed.

Lemma sends_update c : sends (update next_sequence) c [] (wrapU 8 (sequence c + 1)) tt.
Proof. exists (Ok tt), [], (breaks c), (wrapU 8 (sequence c + 1)). by rewrite app_nil_r. Qed.

Lemma overwrite_here p old src q : length old = length src -> overwrite (p ++ old ++ q) (zlen p) src = Ret (p ++ src ++ q).
Proof.
  intros Hl. unfold overwrite. rewrite (slice_at _ p old q) by (done || (unfold zlen; lia)). cbn [mbind outcome_bind].
  by rewrite copy_at_here.
Qed.

Lemma store_in {A} (s p : list A) x q i y r : s = p ++ x :: q -> zlen p = i -> r = p ++ y :: q -> store s i y = Ret r.
Proof. intros -> <- ->. apply store_app_here. Qed.

(** A chunk is the header and the part of the payload; the buffer is as before. *)
Lemma sends_chunk pre h body rest c : zlen h = 4 ->
  sends (write_chunk (pre ++ h ++ body ++ rest) (zlen pre) (zlen body)) c
    (chunk_header (zlen body) (sequence c) ++ body) (wrapU 8 (sequence c + 1)) (pre ++ h ++ body ++ rest).
Proof.
  intros Hh. destruct h as [|h0 [|h1 [|h2 [|h3 [|]]]]]; try (exfalso; revert Hh; unfold zlen; cbn [length]; lia).
  unfold write_chunk. change packetHeaderSize with 4.
  eapply sends_step; [apply pure_ok; by apply (slice_at _ pre [h0; h1; h2; h3] (body ++ rest))|]. eapply sends_step; [done|].
  set (n := zlen body). set (t := body ++ rest).
  eapply sends_step; [apply pure_ok; by apply (store_in _ pre h0 (h1 :: h2 :: h3 :: t))|].
  eapply sends_step; [apply pure_ok; apply (store_in _ (pre ++ [z2b n]) h1 (h2 :: h3 :: t)); [by rewrite <- app_assoc|len|done]|].
  eapply sends_step; [apply pure_ok; apply (store_in _ (pre ++ [z2b n; z2b (Z.shiftr n 8)]) h2 (h3 :: t)); [by rewrite <- !app_assoc|len|done]|].
  eapply sends_step; [apply pure_ok;
    apply (store_in _ (pre ++ [z2b n; z2b (Z.shiftr n 8); z2b (Z.shiftr n 16)]) h3 t _ _ (pre ++ chunk_header n (sequence c) ++ body ++ rest));
    [by rewrite <- !app_assoc|len|by rewrite <- app_assoc]|].
  eapply sends_step; [apply pure_ok; apply (slice_at _ pre (chunk_header n (sequence c) ++ body) rest); [by rewrite <- !app_assoc|done|]|].
  { rewrite zlen_app. change (zlen (chunk_header n (sequence c))) with 4. unfold n. lia. }
  eapply sends_bind_last; [apply sends_Write; by left|]. intros br _.
  eapply sends_step; [apply pure_ok; by apply (overwrite_here pre (chunk_header n (sequence c)) [h0; h1; h2; h3] (body ++ rest))|].
  match goal with |- sends _ ?c' _ _ _ => exact (sends_next _ c') end.
Qed.

Lemma write_loop_eq data index dataLength c : write_loop data index dataLength c =
  (data1 ← write_chunk data index (chunk_size dataLength);
   if decide (dataLength - chunk_size dataLength = 0) then _ ← write_empty (chunk_size dataLength); mret data1
   else write_loop data1 (index + chunk_size dataLength) (dataLength - chunk_size dataLength)) c.
Proof.
  simp write_loop. unfold mbind at 1. unfold io_bind. destruct (write_chunk data index (chunk_size dataLength) c) as [[[d|e] c1]|]; try done.
  cbn. by destruct (decide _).
Qed.

Lemma sends_write_loop data index dataLength c b s x :
  sends (data1 ← write_chunk data index (chunk_size dataLength);
    if decide (dataLength - chunk_size dataLength = 0) then _ ← write_empty (chunk_size dataLength); mret data1
    else write_loop data1 (index + chunk_size dataLength) (dataLength - chunk_size dataLength)) c b s x ->
  sends (write_loop data index dataLength) c b s x.
Proof. unfold sends. by rewrite write_loop_eq. Qed.

Lemma framed_nil s b s' : framed s [] b s' -> b = chunk_header 0 s /\ s' = wrapU 8 (s + 1).
Proof.
  intros H. remember [] as p eqn:Ep. destruct H as [s p _|s p q b s' Hp _]; [by subst|].
  apply app_nil in Ep as [-> _]. by rewrite MaxPacketSize_eq in Hp.
Qed.

Lemma framed_small s p b s' : framed s p b s' -> zlen p < MaxPacketSize -> b = chunk_header (zlen p) s ++ p.
Proof. destruct 1 as [|s p q b s' Hp]; [done|]. rewrite zlen_app. pose proof (zlen_nonneg q). lia. Qed.

(** The empty packet after a full last chunk. *)
Lemma sends_empty c : sends (write_empty MaxPacketSize) c (chunk_header 0 (sequence c)) (wrapU 8 (sequence c + 1)) tt.
Proof.
  unfold write_empty. rewrite Z.eqb_refl. eapply sends_step; [done|]. eapply sends_bind_last; [apply sends_Write; by right|].
  intros br _. match goal with |- sends _ ?c' _ _ _ => exact (sends_update c') end.
Qed.

Ltac sends_ret := match goal with |- sends _ ?c' _ _ _ => exact (sends_ret _ c') end.

(** A full chunk in the middle of the buffer: the four bytes before the next one are part of what has been sent. *)
Lemma next_window (pre h p q : list byte) : zlen h = 4 -> 4 <= zlen p ->
  exists D h', pre ++ h ++ p ++ q = (pre ++ D) ++ h' ++ q /\ zlen D = zlen p /\ zlen h' = 4.
Proof.
  intros Hh Hp. exists (take (length p) (h ++ p)), (drop (length p) (h ++ p)).
  unfold zlen in *. rewrite length_take, length_drop, length_app. split; [|lia].
  by rewrite <- (app_assoc pre), (app_assoc (take _ _)), take_drop, <- app_assoc.
Qed.

(** The loop sends the frames of what is left of the payload. *)
Lemma sends_loop s p b s' : framed s p b s' -> forall pre h c, sequence c = s -> zlen h = 4 ->
  sends (write_loop (pre ++ h ++ p) (zlen pre) (zlen p)) c b s' (pre ++ h ++ p).
Proof.
  induction 1 as [s p Hp|s p q b s' Hp Hf IH]; intros pre h c Hc Hh; subst s; apply sends_write_loop.
  - assert (chunk_size (zlen p) = zlen p) as -> by (unfold chunk_size; destruct (Z.ltb_spec MaxPacketSize (zlen p)); lia).
    pose proof (sends_chunk pre h p [] c Hh) as Hchunk. rewrite app_nil_r in Hchunk.
    eapply sends_bind_last; [exact Hchunk|]. intros br _. rewrite decide_True by lia. unfold write_empty.
    rewrite (proj2 (Z.eqb_neq (zlen p) MaxPacketSize)) by lia. eapply sends_step; [done|]. sends_ret.
  - pose proof (zlen_nonneg q) as Hq. assert (zlen (p ++ q) = MaxPacketSize + zlen q) as Hpq by len. rewrite Hpq.
    assert (chunk_size (MaxPacketSize + zlen q) = MaxPacketSize) as ->
      by (unfold chunk_size; destruct (Z.ltb_spec MaxPacketSize (MaxPacketSize + zlen q)); lia).
    pose proof (sends_chunk pre h p q c Hh) as Hchunk. rewrite Hp in Hchunk. rewrite (app_assoc _ p b).
    eapply sends_bind; [exact Hchunk|]. intros br _. replace (MaxPacketSize + zlen q - MaxPacketSize) with (zlen q) by lia.
    destruct (decide (zlen q = 0)) as [Hq0|Hq0].
    + destruct q; [|rewrite zlen_cons in Hq0; pose proof (zlen_nonneg q); lia]. apply framed_nil in Hf as [-> ->].
      eapply sends_bind_last; [match goal with |- sends _ ?c' _ _ _ => exact (sends_empty c') end|]. intros br' _. sends_ret.
    + destruct (next_window pre h p q Hh) as (D & h' & Hdata & HD & Hh'); [rewrite Hp, MaxPacketSize_eq; lia|].
      rewrite Hdata. replace (zlen pre + MaxPacketSize) with (zlen (pre ++ D)) by len. by apply IH.
Qed.

Lemma framed_total s p : exists b s', framed s p b s'.
Proof.
  remember (length p) as n eqn:En. revert s p En. induction (lt_wf n) as [n _ IH]. intros s p ->.
  destruct (Z.lt_ge_cases (zlen p) MaxPacketSize) as [Hp|Hp]; [by do 2 eexists; apply framed_last|].
  assert (0 < MaxPacketSize) as Hm by done. rewrite <- (take_drop (Z.to_nat MaxPacketSize) p).
  destruct (IH (length (drop (Z.to_nat MaxPacketSize) p))) with (s := wrapU 8 (s + 1)) (p := drop (Z.to_nat MaxPacketSize) p) as (b & s' & Hf).
  - rewrite length_drop. unfold zlen in Hp. lia.
  - done.
  - do 2 eexists. apply framed_more; [|exact Hf]. unfold zlen in *. rewrite length_take. lia.
Qed.

Lemma sends_unbroken {A} (m : io A) c b s a : breaks c = None -> sends m c b s a ->
  m c = Ret (Ok a, set_sequence s (set_output (output c ++ b) None c)).
Proof. intros Hb (r & b' & k & s' & Hm & _ & Hk & Hr). rewrite Hm, Hk by done. destruct r; [by destruct Hr as (-> & -> & ->)|tauto]. Qed.

Lemma writePacket_sends h p c : zlen h = 4 ->
  exists b s, framed (sequence c) p b s /\ sends (writePacket (h ++ p)) c b s (h ++ p).
Proof.
  intros Hh. destruct (framed_total (sequence c) p) as (b & s & Hf). exists b, s. split; [done|].
  unfold writePacket. replace (zlen (h ++ p) - packetHeaderSize) with (zlen p) by (change packetHeaderSize with 4; len).
  by apply (sends_loop _ _ _ _ Hf []).
Qed.

(** C15: a payload that is written is read back.  Whatever its length, the peer that reads the bytes [writePacket] sends with
    the same sequence number gets the payload from [readPacket] and from [readEphemeralPacket], no byte of what follows it
    is used up, both ends have the same next sequence number, and the buffer of the writer is as it was. *)
Theorem Packet_roundtrip (h p : list byte) (c : Conn) : zlen h = 4 -> breaks c = None -> is_sequence (sequence c) ->
  exists b c', writePacket (h ++ p) c = Ret (Ok (h ++ p), c') /\ output c' = output c ++ b /\
    forall r q, sequence r = sequence c -> input r = b ++ q ->
      (exists r', readPacket r = Ret (Ok p, r') /\ input r' = q /\ sequence r' = sequence c') /\
      (currentEphemeralPolicy r = ephemeralUnused ->
       exists r', readEphemeralPacket r = Ret (Ok p, r') /\ input r' = q /\ sequence r' = sequence c').
Proof.
  intros Hh Hb Hs. destruct (writePacket_sends h p c Hh) as (b & s & Hf & Hw). apply sends_unbroken in Hw; [|done].
  exists b, (set_sequence s (set_output (output c ++ b) None c)). split_and!; [done..|]. intros r q Hr Hi. split.
  - exists (after_packet q s r). split; [|done]. by eapply readPacket_framed.
  - intros Hu. destruct (readEphemeralPacket_framed _ _ _ _ r q Hf Hs Hr Hi Hu) as (buf & He). by eexists.
Qed.

Definition new_conn : Conn :=
  {| sequence := 0; Capabilities := 0; StatusFlags := 2; enableQueryInfo := false; currentEphemeralPolicy := ephemeralUnused;
     currentEphemeralBuffer := None; input := []; input_end := EndEOF; output := []; breaks := None |}.

Example Packet_roundtrip_witness :
  exists b c', writePacket (bs "headhello") new_conn = Ret (Ok (bs "headhello"), c') /\ output c' = b /\
    exists r', readPacket (set_input (b ++ bs "next") new_conn) = Ret (Ok (bs "hello"), r') /\ input r' = bs "next".
Proof.
  destruct (Packet_roundtrip (bs "head") (bs "hello") new_conn) as (b & c' & Hw & Ho & Hr); [done|done|by vm_compute|].
  exists b, c'. split; [exact Hw|]. split; [exact Ho|].
  destruct (Hr (set_input (b ++ bs "next") new_conn) (bs "next")) as [(r' & Hp & Hi & _) _]; [done|done|].
  exists r'. split; [exact Hp|exact Hi].
Defined.

(** *** Packets that are cut off *)

(** A proper prefix. *)
Definition cut (b' b : list byte) : Prop := b' `prefix_of` b /\ b' <> b.

Lemma cut_app b' x y : cut b' (x ++ y) -> cut b' x \/ exists z, b' = x ++ z /\ cut z y.
Proof.
  intros [Hp Hn]. destruct (prefix_weak_total b' x (x ++ y)) as [H|[z ->]]; [done|by apply prefix_app_r|..].
  - destruct (decide (b' = x)) as [->|]; [|by left]. right. exists []. rewrite app_nil_r. split; [done|]. split; [apply prefix_nil|].
    intros <-. by rewrite app_nil_r in Hn.
  - right. exists z. split; [done|]. split; [by eapply prefix_app_inv|]. congruence.
Qed.

Lemma cut_shorter b' b : cut b' b -> zlen b' < zlen b.
Proof.
  intros [[k ->] Hn]. rewrite zlen_app. destruct k as [|x k]; [by rewrite app_nil_r in Hn|]. rewrite zlen_cons. pose proof (zlen_nonneg k). lia.
Qed.

Lemma ReadFull_short n c : zlen (input c) < n -> exists e, ReadFull n c = Ret (Err e, set_input [] c).
Proof. intros Hn. unfold ReadFull. rewrite (proj2 (Z.leb_gt _ _)) by lia. by eexists. Qed.

Lemma io_bind_err {A B} (m : io A) (k : A -> io B) c e c1 : m c = Ret (Err e, c1) -> (m ≫= k) c = Ret (Err e, c1).
Proof. unfold mbind, io_bind. by intros ->. Qed.

(** The reader fails on a cut packet. *)
Lemma readOnePacket_cut c p : zlen p <= MaxPacketSize -> is_sequence (sequence c) ->
  cut (input c) (chunk_header (zlen p) (sequence c) ++ p) -> exists e c', readOnePacket c = Ret (Err e, c').
Proof.
  intros Hp Hs [Hc|(z & Hi & Hc)]%cut_app; apply cut_shorter in Hc; pose proof (zlen_nonneg p); unfold readOnePacket.
  - change (zlen (chunk_header _ _)) with 4 in Hc. destruct (ReadFull_short packetHeaderSize c Hc) as [e He].
    do 2 eexists. apply io_bind_err. unfold readHeaderFrom. apply io_bind_err. unfold wrapped. by rewrite He.
  - step by (apply (readHeaderFrom_chunk c (zlen p) z); [lia|done..]). pose proof (zlen_nonneg z).
    rewrite (proj2 (Z.eqb_neq _ _)) by lia. destruct (ReadFull_short (zlen p) (after_chunk z c) Hc) as [e He].
    do 2 eexists. unfold wrapped. by rewrite He.
Qed.

Lemma read_rest_cut s p b s' : framed s p b s' -> forall data c, is_sequence s -> sequence c = s -> cut (input c) b ->
  exists e c', read_rest data c = Ret (Err e, c').
Proof.
  induction 1 as [s p Hp|s p q b s' Hp Hf IH]; intros data c Hs Hc Hcut; subst s; rewrite read_rest_eq.
  - destruct (readOnePacket_cut c p ltac:(lia) Hs Hcut) as (e & c' & ->). by do 2 eexists.
  - rewrite <- Hp, app_assoc in Hcut. apply cut_app in Hcut as [Hcut|(z & Hi & Hcut)].
    + destruct (readOnePacket_cut c p ltac:(lia) Hs Hcut) as (e & c' & ->). by do 2 eexists.
    + rewrite <- app_assoc in Hi. rewrite (readOnePacket_chunk c p z) by (done || lia).
      rewrite decide_False by (intros ->; by rewrite MaxPacketSize_eq in Hp). rewrite decide_False by lia.
      by apply IH; [apply is_sequence_next|..].
Qed.

Lemma readPacket_cut s p b s' c : framed s p b s' -> is_sequence s -> sequence c = s -> cut (input c) b ->
  exists e c', readPacket c = Ret (Err e, c').
Proof.
  intros Hf Hs Hc Hcut. unfold readPacket. destruct Hf as [s p Hp|s p q b s' Hp Hf]; subst s.
  - destruct (readOnePacket_cut c p ltac:(lia) Hs Hcut) as (e & c' & He). do 2 eexists. by apply io_bind_err.
  - rewrite <- Hp, app_assoc in Hcut. apply cut_app in Hcut as [Hcut|(z & Hi & Hcut)].
    + destruct (readOnePacket_cut c p ltac:(lia) Hs Hcut) as (e & c' & He). do 2 eexists. by apply io_bind_err.
    + rewrite <- app_assoc in Hi. step by (apply (readOnePacket_chunk c p z); [lia|done..]).
      rewrite (proj2 (Z.ltb_ge _ _)) by lia. by apply (read_rest_cut _ _ _ _ Hf); [apply is_sequence_next|..].
Qed.

(** C16: a packet that is cut off is never taken for a packet.  When the connection breaks while a payload is
    written, [writePacket] fails after it has sent a part of the frames; and a peer that reads a packet of which it has only a
    part gets an error, whatever the part is. *)
Theorem Packet_cut (h p : list byte) (c : Conn) : zlen h = 4 -> is_sequence (sequence c) ->
  exists b, (exists s, framed (sequence c) p b s) /\
    (exists res c' b', writePacket (h ++ p) c = Ret (res, c') /\ output c' = output c ++ b' /\ b' `prefix_of` b /\
      (b' <> b -> exists e, res = Err e)) /\
    (forall r, sequence r = sequence c -> cut (input r) b -> exists e r', readPacket r = Ret (Err e, r')).
Proof.
  intros Hh Hs. destruct (writePacket_sends h p c Hh) as (b & s & Hf & (res & b' & k & s' & Hw & Hpre & _ & Hr)).
  exists b. split_and!; [by eexists| |].
  - do 3 eexists. split; [exact Hw|]. split; [done|]. split; [done|]. intros Hne. destruct res; [by destruct Hr as (_ & -> & _)|by eexists].
  - intros r Hr' Hcut. by eapply readPacket_cut.
Qed.

(** A packet of five bytes of which seven have been sent. *)
Example Packet_cut_witness : exists e r',
  readPacket (set_input (take 7 (chunk_header 5 0 ++ bs "hello")) new_conn) = Ret (Err e, r').
Proof.
  destruct (Packet_cut (bs "head") (bs "hello") new_conn) as (b & (s & Hf) & _ & Hr); [done|by vm_compute|].
  apply Hr; [done|]. rewrite (framed_small _ _ _ _ Hf) by done.
  split; [apply prefix_take|]. intros H. apply (f_equal length) in H. by vm_compute in H.
Defined.
