(* ===== verification/OkPacket.v ===== *)
(** * Generic packets of the MySQL protocol

    The OK, EOF and error packets of [go/mysql/conn.go]: the functions that write them into a buffer of the pool and the
    ones that parse them, with the session state an OK packet may carry.  A buffer of the pool keeps what it contained
    before, so that a writer has to fill all of it. *)

From S2P Require Import Prelude Intervals GoStd Encoding Packet.

(** ** Packets in a buffer of the pool *)

Definition ComQuit : Z := 0x01.
Definition OKPacket : Z := 0x00.
Definition EOFHeader : Z := 0xfe.
Definition ErrHeader : Z := 0xff.
Definition CapabilityClientSessionTrack : Z := Z.shiftl 1 23.
Definition CapabilityClientDeprecateEOF : Z := Z.shiftl 1 24.
Definition ServerSessionStateChanged : Z := 0x4000.
Definition SessionTrackGtids : Z := 0x03.
Definition SSUnknownSQLState : list byte := bs "HY000".
Definition CRUnknownError : Z := 2000.
Definition ERUnknownError : Z := 1105.

Definition has_flag (flags flag : Z) : bool := Z.land flags flag =? flag.

Inductive packet_error :=
| InvalidEOFStatusFlags
| InvalidOKAffectedRows
| InvalidOKLastInsertID
| InvalidOKStatusFlags
| InvalidOKWarnings
| InvalidOKSessionLength (sscType : byte)
| InvalidOKGtidsType
| InvalidOKGtids.

(** [SQLError]. *)
Record SQLError := { Num : Z; State : list byte; Message : list byte }.

(** [NewSQLError]. *)
Definition NewSQLError (number : Z) (sqlState message : list byte) : SQLError :=
  {| Num := number; State := if decide (sqlState = []) then SSUnknownSQLState else sqlState; Message := message |}.

(** [PacketOK]. *)
Record PacketOK := {
  affectedRows : Z;
  lastInsertID : Z;
  statusFlags : Z;
  warnings : Z;
  info : list byte;
  sessionStateData : list byte
}.

Section Pool.
Context (stale : Z -> list byte).

(** A packet of [length] bytes that [fill] writes at the position it is given. *)
Definition write_ephemeral (length : Z) (fill : list byte -> Z -> outcome (list byte * Z)) : io unit :=
  '(data, pos) ← startEphemeralPacketWithHeader stale length;
  '(data, _) ← pure (fill data pos);
  _ ← filled data;
  writeEphemeralPacket.

(** [writeComQuit]. *)
Definition writeComQuit : io unit :=
  _ ← update (set_sequence 0);
  wrapped ServerGone (write_ephemeral 1 (fun data pos => data ← store data pos (z2b ComQuit); Ret (data, pos))).

(** [writeEOFPacket]. *)
Definition writeEOFPacket (flags warnings : Z) : io unit :=
  write_ephemeral 5 (fun data pos =>
    '(data, pos) ← writeByte data pos (z2b EOFHeader);
    '(data, pos) ← writeUint16 data pos warnings;
    writeUint16 data pos flags).

(** [writeErrorPacket], of a message that is already formatted. *)
Definition writeErrorPacket (errorCode : Z) (sqlState errorMessage : list byte) : io unit :=
  write_ephemeral (1 + 2 + 1 + 5 + zlen errorMessage) (fun data pos =>
    '(data, pos) ← writeByte data pos (z2b ErrHeader);
    '(data, pos) ← writeUint16 data pos errorCode;
    '(data, pos) ← writeByte data pos (z2b 35);
    let sqlState := if decide (sqlState = []) then SSUnknownSQLState else sqlState in
    if negb (zlen sqlState =? 5) then Panic
    else
      '(data, pos) ← writeEOFString data pos sqlState;
      writeEOFString data pos errorMessage).

(** [writeErrorPacketFromError]: of a [SQLError], or of the text of another error. *)
Definition writeErrorPacketFromError (err : SQLError + list byte) : io unit :=
  match err with
  | inl se => writeErrorPacket (uint16 (Num se)) (State se) (Message se)
  | inr text => writeErrorPacket ERUnknownError SSUnknownSQLState (bs "unknown error: " ++ text)
  end.

(** ** OK packets *)

(** [getLenEncInt] and [getLenEncString]. *)
Definition getLenEncInt (i : Z) : list byte :=
  if i <? 251 then [z2b i]
  else if i <? 2 ^ 16 then [z2b 0xfc; z2b i; byte_at i 8]
  else if i <? 2 ^ 24 then [z2b 0xfd; z2b i; byte_at i 8; byte_at i 16]
  else [z2b 0xfe; z2b i; byte_at i 8; byte_at i 16; byte_at i 24; byte_at i 32; byte_at i 40; byte_at i 48; byte_at i 56].

Definition getLenEncString (value : list byte) : list byte := getLenEncInt (uint64 (zlen value)) ++ value.

(** The session state: the GTIDs, with their encoding, in an entry of the list of changes. *)
Definition gtid_data (sessionStateData : list byte) : list byte :=
  let gtidData := getLenEncString sessionStateData in
  let gtidData := z2b 0 :: gtidData in
  let gtidData := getLenEncString gtidData in
  let gtidData := z2b 3 :: gtidData in
  getLenEncInt (uint64 (zlen gtidData)) ++ gtidData.

(** The writes of [writeOKPacketWithHeader]. *)
Definition fill_ok (sessionTrack : bool) (p : PacketOK) (headerType : byte) (data : coder) : outcome coder :=
  data ← coder_writeByte data headerType;
  data ← coder_writeLenEncInt data (affectedRows p);
  data ← coder_writeLenEncInt data (lastInsertID p);
  data ← coder_writeUint16 data (statusFlags p);
  data ← coder_writeUint16 data (warnings p);
  if sessionTrack then
    data ← coder_writeLenEncString data (info p);
    if has_flag (statusFlags p) ServerSessionStateChanged then coder_writeEOFString data (gtid_data (sessionStateData p))
    else Ret data
  else coder_writeEOFString data (info p).

(** The length [writeOKPacketWithHeader] computes. *)
Definition ok_length (sessionTrack : bool) (p : PacketOK) : Z :=
  1 + lenEncIntSize (affectedRows p) + lenEncIntSize (lastInsertID p) + 4 +
  (if sessionTrack then
     lenEncStringSize (info p) +
     (if has_flag (statusFlags p) ServerSessionStateChanged then zlen (gtid_data (sessionStateData p)) else 0)
   else zlen (info p)).

(** [writeOKPacketWithHeader], [writeOKPacket] and [writeOKPacketWithEOFHeader]. *)
Definition writeOKPacketWithHeader (p : PacketOK) (headerType : byte) : io unit :=
  c ← state;
  let sessionTrack := has_flag (Capabilities c) CapabilityClientSessionTrack in
  write_ephemeral (ok_length sessionTrack p) (fun data pos =>
    d ← fill_ok sessionTrack p headerType {| c_data := data; c_pos := pos |};
    Ret (c_data d, c_pos d)).

Definition writeOKPacket (p : PacketOK) : io unit := writeOKPacketWithHeader p (z2b OKPacket).
Definition writeOKPacketWithEOFHeader (p : PacketOK) : io unit := writeOKPacketWithHeader p (z2b EOFHeader).
End Pool.

(** ** Parsing *)

(** [isEOFPacket], [isErrorPacket]. *)
Definition isEOFPacket (c : Conn) (data : list byte) : outcome bool :=
  b ← index data 0;
  if negb (b2z b =? EOFHeader) then Ret false
  else if Z.land (Capabilities c) CapabilityClientDeprecateEOF =? 0 then Ret (zlen data <? 9)
  else Ret (zlen data <? MaxPacketSize).

Definition isErrorPacket (data : list byte) : outcome bool := b ← index data 0; Ret (b2z b =? ErrHeader).

(** [parseEOFPacket]: the warnings and the status flags. *)
Definition parseEOFPacket (data : list byte) : outcome (result packet_error (Z * Z)) :=
  '(warnings, _, _) ← readUint16 data 1;
  '(statusFlags, _, ok) ← readUint16 data 3;
  if negb ok then Ret (Err InvalidEOFStatusFlags) else Ret (Ok (warnings, statusFlags)).

(** [ParseErrorPacket]. *)
Definition ParseErrorPacket (data : list byte) : outcome SQLError :=
  '(code, pos, ok) ← readUint16 data 1;
  if negb ok then Ret (NewSQLError CRUnknownError SSUnknownSQLState (bs "invalid error packet code"))
  else
    let pos := add64 pos 1 in
    '(sqlState, pos, ok) ← readBytes data pos 5;
    if negb ok then Ret (NewSQLError CRUnknownError SSUnknownSQLState (bs "invalid error packet sqlState"))
    else
      msg ← slice_from data pos;
      Ret (NewSQLError code sqlState msg).

(** The loop of [parseOKPacket] over the changes of the session state; [None] when the fuel is used up. *)
Fixpoint session_loop (fuel : nat) (d : coder) (gtids : list byte) : option (outcome (result packet_error (list byte))) :=
  match fuel with
  | O => None
  | S fuel =>
      match coder_readByte d with
      | Panic => Some Panic
      | Ret (_, false, _) => Some (Ret (Ok gtids))
      | Ret (sscType, true, d) =>
          match coder_readLenEncInt d with
          | Panic => Some Panic
          | Ret (_, false, _) => Some (Ret (Err (InvalidOKSessionLength sscType)))
          | Ret (sessionLen, true, d) =>
              if negb (b2z sscType =? SessionTrackGtids) then
                session_loop fuel {| c_data := c_data d; c_pos := add64 (c_pos d) (int64 sessionLen) |} gtids
              else
                match coder_readByte d with
                | Panic => Some Panic
                | Ret (_, false, _) => Some (Ret (Err InvalidOKGtidsType))
                | Ret (_, true, d) =>
                    match coder_readLenEncString d with
                    | Panic => Some Panic
                    | Ret (_, false, _) => Some (Ret (Err InvalidOKGtids))
                    | Ret (gtids, true, d) => session_loop fuel d gtids
                    end
                end
          end
      end
  end.

(** The fields before the session state. *)
Definition parse_ok_fields (enableQueryInfo : bool) (d : coder) : outcome (result packet_error (PacketOK * coder)) :=
  '(affectedRows, ok, d) ← coder_readLenEncInt d;
  if negb ok then Ret (Err InvalidOKAffectedRows)
  else
    '(lastInsertID, ok, d) ← coder_readLenEncInt d;
    if negb ok then Ret (Err InvalidOKLastInsertID)
    else
      '(statusFlags, ok, d) ← coder_readUint16 d;
      if negb ok then Ret (Err InvalidOKStatusFlags)
      else
        '(warnings, ok, d) ← coder_readUint16 d;
        if negb ok then Ret (Err InvalidOKWarnings)
        else
          '(info, _, d) ← coder_readLenEncInfo d;
          Ret (Ok ({| affectedRows := affectedRows; lastInsertID := lastInsertID; statusFlags := statusFlags; warnings := warnings;
                      info := if enableQueryInfo then info else []; sessionStateData := [] |}, d)).

Definition with_session (p : PacketOK) (gtids : list byte) : PacketOK :=
  {| affectedRows := affectedRows p; lastInsertID := lastInsertID p; statusFlags := statusFlags p; warnings := warnings p;
     info := info p; sessionStateData := gtids |}.

(** [parseOKPacket]. *)
Definition parseOKPacket (fuel : nat) (c : Conn) (data : list byte) : option (outcome (result packet_error PacketOK)) :=
  match parse_ok_fields (enableQueryInfo c) {| c_data := data; c_pos := 1 |} with
  | Panic => Some Panic
  | Ret (Err e) => Some (Ret (Err e))
  | Ret (Ok (p, d)) =>
      if has_flag (Capabilities c) CapabilityClientSessionTrack && has_flag (statusFlags p) ServerSessionStateChanged then
        match coder_readLenEncInt d with
        | Panic => Some Panic
        | Ret (length, ok, d) =>
            if negb ok || (length =? 0) then Some (Ret (Ok p))
            else
              match session_loop fuel d [] with
              | None => None
              | Some Panic => Some Panic
              | Some (Ret (Err e)) => Some (Ret (Err e))
              | Some (Ret (Ok gtids)) => Some (Ret (Ok (with_session p gtids)))
              end
        end
      else Some (Ret (Ok p))
  end.

(** ** Filling a buffer

    [w] puts [out] at the cursor, whatever is there, and moves the cursor behind it. *)
Definition fills (w : list byte -> Z -> outcome (list byte * Z)) (out : list byte) : Prop :=
  forall p old rest, length old = length out -> zlen p + zlen out + zlen rest <= MaxInt64 ->
  w (p ++ old ++ rest) (zlen p) = Ret (p ++ out ++ rest, zlen p + zlen out).

Create HintDb fills.

Lemma fills_bind w1 w2 o1 o2 : fills w1 o1 -> fills w2 o2 ->
  fills (fun data pos => '(data, pos) ← w1 data pos; w2 data pos) (o1 ++ o2).
Proof.
  intros H1 H2 p old rest Hl Hz. rewrite length_app in Hl. rewrite zlen_app in *.
  rewrite <- (take_drop (length o1) old), <- (app_assoc (take _ _)).
  rewrite H1 by (rewrite ?length_take, ?zlen_app; unfold zlen in *; rewrite ?length_drop; lia). cbn [mbind outcome_bind].
  rewrite (app_assoc p), <- zlen_app, H2 by (rewrite ?length_drop, ?zlen_app; lia).
  rewrite zlen_app, <- !app_assoc. do 2 f_equal. lia.
Qed.

Lemma fills_nil : fills (fun data pos => Ret (data, pos)) [].
Proof. intros p old rest Hl _. destruct old; [|done]. rewrite zlen_nil, Z.add_0_r. done. Qed.

Lemma fills_seq n out : length out = n ->
  fills (fun data pos => data ← store_seq data pos 0 out; Ret (data, add64 pos (Z.of_nat n))) out.
Proof.
  intros <- p old rest Hl Hz. pose proof (zlen_nonneg p). pose proof (zlen_nonneg rest).
  rewrite store_seq_here by (done || lia). cbn [mbind outcome_bind]. fold (zlen out). by rewrite add64_pos by (lia || apply zlen_nonneg).
Qed.

Lemma fills_byte b : fills (fun data pos => writeByte data pos b) [b].
Proof.
  intros p [|x [|]] rest Hl Hz; try done. unfold writeByte. cbn [app]. rewrite store_app_here. cbn [mbind outcome_bind].
  pose proof (zlen_nonneg p). pose proof (zlen_nonneg rest). by rewrite add64_pos by len.
Qed.

Lemma fills_uint16 v : fills (fun data pos => writeUint16 data pos v) (binary.le_bytes 2 v).
Proof. destruct (le_bytes_shifts v) as (E & _). rewrite E. by apply (fills_seq 2). Qed.

Lemma fills_uint32 v : fills (fun data pos => writeUint32 data pos v) (binary.le_bytes 4 v).
Proof. destruct (le_bytes_shifts v) as (_ & _ & E & _). rewrite E. by apply (fills_seq 4). Qed.

Lemma fills_uint64 v : fills (fun data pos => writeUint64 data pos v) (binary.le_bytes 8 v).
Proof. destruct (le_bytes_shifts v) as (_ & _ & _ & E). rewrite E. by apply (fills_seq 8). Qed.

Lemma fills_lenenc i : fills (fun data pos => writeLenEncInt data pos i) (lenenc i).
Proof.
  intros p old rest Hl Hz. rewrite writeLenEncInt_here, zlen_lenenc; [done| |].
  - rewrite <- zlen_lenenc. unfold zlen. lia.
  - unfold buffer_ok. rewrite !zlen_app. unfold zlen in *. lia.
Qed.

Lemma fills_string value : fills (fun data pos => writeEOFString data pos value) value.
Proof.
  intros p old rest Hl Hz. unfold writeEOFString. rewrite copy_at_here by done. cbn [mbind outcome_bind].
  pose proof (zlen_nonneg p). pose proof (zlen_nonneg value). pose proof (zlen_nonneg rest). by rewrite add64_pos by lia.
Qed.

Lemma fills_lenenc_string value : zlen value < 2 ^ 62 ->
  fills (fun data pos => writeLenEncString data pos value) (lenenc (zlen value) ++ value).
Proof.
  intros Hv. unfold writeLenEncString. rewrite uint64_id by (pose proof (zlen_nonneg value); unfold_ints; lia).
  apply (fills_bind (fun data pos => writeLenEncInt data pos (zlen value)) (fun data pos => writeEOFString data pos value));
    [apply fills_lenenc|apply fills_string].
Qed.

#[export] Hint Resolve fills_nil fills_byte fills_uint16 fills_uint32 fills_uint64 fills_lenenc fills_string fills_lenenc_string : fills.

(** One write and the writes after it. *)
Ltac fill := match goal with
  | |- fills (fun data pos => mbind (M := outcome) _ _) (?o1 ++ ?o2) => eapply (fills_bind _ _ o1 o2); [solve [auto with fills]|]
  | |- fills _ _ => solve [auto with fills]
  end.

(** ** Sending a packet *)

(** A connection that is not in the middle of reading or writing a packet. *)
Definition idle (c : Conn) : Prop := currentEphemeralPolicy c = ephemeralUnused /\ currentEphemeralBuffer c = None.

Lemma length_bufPool_Get stale n : 0 <= n -> zlen (bufPool_Get stale n) = n.
Proof. intros Hn. unfold bufPool_Get, zlen. rewrite length_resize. lia. Qed.

Lemma write_ephemeral_sends stale length fill out c : idle c -> fills fill out -> zlen out = length -> length + 4 <= MaxInt64 ->
  exists b s, framed (sequence c) out b s /\ sends (write_ephemeral stale length fill) c b s tt.
Proof.
  intros [Hp Hb] Hfill Hlen Hmax. pose proof (zlen_nonneg out).
  set (buf := bufPool_Get stale (length + 4)). assert (zlen buf = length + 4) as Hbuf by (apply length_bufPool_Get; lia).
  rewrite <- (take_drop 4 buf) in Hbuf. set (h := take 4 buf) in *. set (old := drop 4 buf) in *.
  assert (zlen h = 4) as Hh by (unfold h, old, zlen in *; rewrite length_app, length_take, length_drop in *; lia).
  set (c1 := set_ephemeral ephemeralWrite (Some (h ++ out)) c).
  destruct (writePacket_sends h out c1 Hh) as (b & s & Hf & (r & b' & k & s' & Hw & Hpre & Hk & Hr)). exists b, s. split; [done|].
  exists (match r with Ok _ => Ok tt | Err e => Err e end), b', k, s'. split_and!; [|done|done|by destruct r; [destruct Hr|]].
  unfold write_ephemeral, startEphemeralPacketWithHeader.
  erewrite io_bind_ok; [|step; rewrite Hp; step; reflexivity]. cbv beta iota. change packetHeaderSize with 4. fold buf.
  assert (fill buf 4 = Ret (h ++ out, 4 + zlen out)) as Hfilled.
  { rewrite <- (take_drop 4 buf). fold h old. rewrite <- (app_nil_r old), <- Hh, Hfill; [by rewrite app_nil_r| |rewrite zlen_nil; lia].
    rewrite zlen_app in Hbuf. unfold zlen in *. lia. }
  erewrite io_bind_ok; [|by apply pure_ok]. cbv beta iota.
  erewrite io_bind_ok; [|reflexivity]. cbv beta. unfold writeEphemeralPacket. cbn [currentEphemeralPolicy currentEphemeralBuffer set_ephemeral].
  change (set_ephemeral ephemeralWrite (Some (h ++ out)) (set_ephemeral ephemeralWrite (Some buf) c)) with c1.
  rewrite Hw. unfold recycleWritePacket. erewrite io_bind_ok by reflexivity. cbn. do 2 f_equal. unfold idle in *. by destruct c; cbn in *; subst.
Qed.

(** ** OK packets *)

Definition cfills (f : coder -> outcome coder) (out : list byte) : Prop :=
  fills (fun data pos => d ← f {| c_data := data; c_pos := pos |}; Ret (c_data d, c_pos d)) out.

Lemma cfills_write {A} (w : list byte -> Z -> A -> outcome (list byte * Z)) v out :
  fills (fun data pos => w data pos v) out -> cfills (fun d => coder_write w d v) out.
Proof. intros Hw p old rest Hl Hz. unfold coder_write. cbn [c_data c_pos]. by rewrite Hw. Qed.

Lemma cfills_ret : cfills (fun d => Ret d) [].
Proof. apply fills_nil. Qed.

Lemma cfills_bind f g o1 o2 : cfills f o1 -> cfills g o2 -> cfills (fun d => d ← f d; g d) (o1 ++ o2).
Proof.
  intros Hf Hg p old rest Hl Hz. pose proof (fills_bind _ _ _ _ Hf Hg p old rest Hl Hz) as H.
  cbn [c_data c_pos] in *. destruct (f _) as [d|]; cbn [mbind outcome_bind] in *; [|done]. by destruct d.
Qed.

Lemma cfills_if (b : bool) f g o1 o2 : cfills f o1 -> cfills g o2 ->
  cfills (fun d => if b then f d else g d) (if b then o1 else o2).
Proof. by destruct b. Qed.

Lemma getLenEncInt_lenenc i : getLenEncInt i = lenenc i.
Proof.
  unfold getLenEncInt, lenenc. destruct (le_bytes_shifts i) as (-> & -> & _ & ->). done.
Qed.

Lemma getLenEncString_lenenc s : zlen s < 2 ^ 62 -> getLenEncString s = lenenc (zlen s) ++ s.
Proof.
  intros Hs. unfold getLenEncString. rewrite getLenEncInt_lenenc, uint64_id; [done|]. pose proof (zlen_nonneg s). unfold_ints. lia.
Qed.

(** The payload of an OK packet. *)
Definition session_part (p : PacketOK) : list byte :=
  if has_flag (statusFlags p) ServerSessionStateChanged then gtid_data (sessionStateData p) else [].

Definition ok_payload (sessionTrack : bool) (p : PacketOK) (headerType : byte) : list byte :=
  [headerType] ++ lenenc (affectedRows p) ++ lenenc (lastInsertID p) ++ binary.le_bytes 2 (statusFlags p) ++
  binary.le_bytes 2 (warnings p) ++
  (if sessionTrack then (lenenc (zlen (info p)) ++ info p) ++ session_part p else info p).

Definition is_uint16 (z : Z) : Prop := 0 <= z < 2 ^ 16.

(** The values of the fields. *)
Definition ok_fields (p : PacketOK) : Prop :=
  is_uint64 (affectedRows p) /\ is_uint64 (lastInsertID p) /\ is_uint16 (statusFlags p) /\ is_uint16 (warnings p) /\
  zlen (info p) < 2 ^ 61 /\ zlen (sessionStateData p) < 2 ^ 61.

Lemma fill_ok_payload sessionTrack p headerType : ok_fields p ->
  cfills (fill_ok sessionTrack p headerType) (ok_payload sessionTrack p headerType).
Proof.
  intros (_ & _ & _ & _ & Hi & _). unfold fill_ok, ok_payload.
  repeat (eapply (cfills_bind (fun d => coder_write _ d _)); [apply cfills_write; auto with fills|]).
  apply cfills_if; [|apply cfills_write; auto with fills].
  eapply (cfills_bind (fun d => coder_write _ d _)); [apply cfills_write, fills_lenenc_string; lia|].
  apply cfills_if; [apply cfills_write; auto with fills|apply cfills_ret].
Qed.

Lemma zlen_ok_payload sessionTrack p headerType : ok_fields p -> zlen (ok_payload sessionTrack p headerType) = ok_length sessionTrack p.
Proof.
  intros (_ & _ & _ & _ & Hi & _). pose proof (zlen_nonneg (info p)). unfold ok_payload, ok_length, session_part, lenEncStringSize.
  rewrite uint64_id, add64_pos by (unfold_ints; try lia; pose proof (lenEncIntSize_range (zlen (info p))); lia).
  rewrite !zlen_app, !zlen_lenenc, !zlen_le_bytes. change (zlen [headerType]) with 1.
  destruct sessionTrack; [|lia]. rewrite !zlen_app, zlen_lenenc. by case_match; rewrite ?zlen_nil; lia.
Qed.

(** *** Reading at a position *)
Section Reads.
Context (D p q : list byte) (pos : Z).
Hypothesis (Hpos : zlen p = pos) (HD : buffer_ok D).

Lemma read_int_at i : D = p ++ lenenc i ++ q -> is_uint64 i ->
  coder_readLenEncInt {| c_data := D; c_pos := pos |} = Ret (i, true, {| c_data := D; c_pos := pos + zlen (lenenc i) |}).
Proof using Hpos HD.
  intros E Hi. unfold coder_readLenEncInt, coder_read. cbn [c_data c_pos]. rewrite E, <- Hpos, readLenEncInt_here by (done || by rewrite <- E).
  by rewrite zlen_lenenc.
Qed.

Lemma read_uint16_at v : D = p ++ binary.le_bytes 2 v ++ q -> is_uint16 v ->
  coder_readUint16 {| c_data := D; c_pos := pos |} = Ret (v, true, {| c_data := D; c_pos := pos + 2 |}).
Proof using Hpos HD.
  intros E Hv. unfold coder_readUint16, coder_read, readUint16. cbn [c_data c_pos].
  rewrite E, <- Hpos, readUintN_here by (done || (by rewrite <- E) || by rewrite zlen_le_bytes). cbn [mbind outcome_bind].
  by rewrite binary.of_le_le_bytes, Z.mod_small.
Qed.

Lemma read_byte_at b : D = p ++ b :: q ->
  coder_readByte {| c_data := D; c_pos := pos |} = Ret (b, true, {| c_data := D; c_pos := pos + 1 |}).
Proof using Hpos HD.
  intros E. unfold coder_readByte, coder_read, readByte. cbn [c_data c_pos].
  assert (zlen D = pos + (1 + zlen q)) as Hl by (rewrite E; len). pose proof (zlen_nonneg q). pose proof (zlen_nonneg p).
  unfold buffer_ok in HD. rewrite (proj2 (Z.leb_gt _ _)) by lia. rewrite (index_at D p b q) by done. cbn [mbind outcome_bind].
  by rewrite add64_pos by lia.
Qed.

Lemma read_string_at s : D = p ++ lenenc (zlen s) ++ s ++ q ->
  readLenEncString D pos = Ret (s, pos + zlen (lenenc (zlen s) ++ s), true).
Proof using Hpos HD.
  intros E. assert (is_uint64 (zlen s)) as Hs.
  { unfold buffer_ok in HD. rewrite E, !zlen_app in HD. pose proof (zlen_nonneg s). pose proof (zlen_nonneg p).
    pose proof (zlen_nonneg q). pose proof (zlen_nonneg (lenenc (zlen s))). unfold_ints. lia. }
  rewrite E in HD. rewrite E, <- Hpos, readLenEncString_cases by done. unfold classify. pose proof (zlen_nonneg q).
  rewrite (proj2 (Z.leb_le _ _)) by len. unfold zlen at 1. rewrite Nat2Z.id, take_app_length, zlen_app, zlen_lenenc.
  do 3 f_equal. lia.
Qed.
End Reads.

(** The end of the packet. *)
Lemma read_byte_end D pos : zlen D = pos -> coder_readByte {| c_data := D; c_pos := pos |} = Ret (z2b 0, false, {| c_data := D; c_pos := 0 |}).
Proof. intros <-. unfold coder_readByte, coder_read, readByte. cbn [c_data c_pos]. by rewrite (proj2 (Z.leb_le _ _)) by lia. Qed.

(** The parts of the session state. *)
Definition gtid_entry (s : list byte) : list byte := z2b 0 :: lenenc (zlen s) ++ s.
Definition gtid_change (s : list byte) : list byte := z2b 3 :: lenenc (zlen (gtid_entry s)) ++ gtid_entry s.

Lemma gtid_data_eq s : zlen s < 2 ^ 61 -> gtid_data s = lenenc (zlen (gtid_change s)) ++ gtid_change s.
Proof.
  intros Hs. unfold gtid_data. pose proof (zlen_nonneg s). rewrite (getLenEncString_lenenc s) by lia.
  change (z2b 0 :: lenenc (zlen s) ++ s) with (gtid_entry s).
  assert (zlen (gtid_entry s) < 2 ^ 61 + 11) as He
    by (unfold gtid_entry; rewrite zlen_cons, zlen_app, zlen_lenenc; pose proof (lenEncIntSize_range (zlen s)); lia).
  rewrite (getLenEncString_lenenc (gtid_entry s)) by lia. change (z2b 3 :: lenenc (zlen (gtid_entry s)) ++ gtid_entry s) with (gtid_change s).
  rewrite getLenEncInt_lenenc, uint64_id; [done|]. unfold gtid_change. rewrite zlen_cons, zlen_app, zlen_lenenc.
  pose proof (lenEncIntSize_range (zlen (gtid_entry s))). pose proof (zlen_nonneg (gtid_entry s)). unfold_ints. lia.
Qed.

(** The loop reads the GTIDs of the change at the end of the packet. *)
Lemma session_loop_gtids fuel D p s old : D = p ++ gtid_change s -> buffer_ok D -> (2 <= fuel)%nat ->
  session_loop fuel {| c_data := D; c_pos := zlen p |} old = Some (Ret (Ok s)).
Proof.
  intros E HD Hf. destruct fuel as [|[|fuel]]; try lia. unfold gtid_change, gtid_entry in E.
  set (n := zlen (z2b 0 :: lenenc (zlen s) ++ s)) in *.
  assert (is_uint64 n) as Hn.
  { unfold buffer_ok in HD. rewrite E, zlen_app, zlen_cons, zlen_app in HD. fold n in HD. pose proof (zlen_nonneg p).
    pose proof (zlen_nonneg (lenenc n)). pose proof (zlen_nonneg (z2b 0 :: lenenc (zlen s) ++ s)). fold n in H1. unfold_ints. lia. }
  cbn [session_loop]. rewrite (read_byte_at D p (lenenc n ++ z2b 0 :: lenenc (zlen s) ++ s) (zlen p) eq_refl HD (z2b 3) E).
  rewrite (read_int_at D (p ++ [z2b 3]) (z2b 0 :: lenenc (zlen s) ++ s) (zlen p + 1)) with (i := n) by (done || len || by rewrite E, <- app_assoc).
  change (negb (b2z (z2b 3) =? SessionTrackGtids)) with false. cbv iota.
  rewrite (read_byte_at D (p ++ z2b 3 :: lenenc n) (lenenc (zlen s) ++ s)) with (b := z2b 0) by (done || len || by rewrite E, <- app_assoc).
  unfold coder_readLenEncString, coder_read. cbn [c_data c_pos].
  rewrite (read_string_at D (p ++ z2b 3 :: lenenc n ++ [z2b 0]) []) with (s := s); [|len|done|rewrite E, app_nil_r; by rewrite <- !app_assoc; cbn [app]; rewrite <- app_assoc].
  cbn [mbind outcome_bind]. rewrite read_byte_end; [done|]. rewrite E. len.
Qed.

(** What the parser makes of the fields. *)
Definition parsed (queryInfo : bool) (p : PacketOK) (info : list byte) : PacketOK :=
  {| affectedRows := affectedRows p; lastInsertID := lastInsertID p; statusFlags := statusFlags p; warnings := warnings p;
     info := if queryInfo then info else []; sessionStateData := [] |}.

(** The fields before the info; [t] is the rest of the packet. *)
Lemma parse_ok_start queryInfo p headerType t D : ok_fields p -> buffer_ok D ->
  D = [headerType] ++ lenenc (affectedRows p) ++ lenenc (lastInsertID p) ++ binary.le_bytes 2 (statusFlags p) ++ binary.le_bytes 2 (warnings p) ++ t ->
  parse_ok_fields queryInfo {| c_data := D; c_pos := 1 |} =
  ('(info, _, d) ← coder_readLenEncInfo {| c_data := D; c_pos := zlen D - zlen t |}; Ret (Ok (parsed queryInfo p info, d))).
Proof.
  intros (Ha & Hl & Hs & Hw & _) HD E. unfold parse_ok_fields. set (a := lenenc (affectedRows p)) in *. set (l := lenenc (lastInsertID p)) in *.
  set (f := binary.le_bytes 2 (statusFlags p)) in *. set (w := binary.le_bytes 2 (warnings p)) in *.
  assert (zlen f = 2 /\ zlen w = 2) as [Hf2 Hw2] by (unfold f, w; by rewrite !zlen_le_bytes).
  rewrite (read_int_at D [headerType] (l ++ f ++ w ++ t) 1 eq_refl HD (affectedRows p)) by done. cbn [mbind outcome_bind negb]. fold a.
  rewrite (read_int_at D ([headerType] ++ a) (f ++ w ++ t)) with (i := lastInsertID p); [|len|done|by rewrite E, <- app_assoc|done].
  cbn [mbind outcome_bind negb]. fold l.
  rewrite (read_uint16_at D ([headerType] ++ a ++ l) (w ++ t)) with (v := statusFlags p); [|len|done|by rewrite E, <- !app_assoc|done].
  cbn [mbind outcome_bind negb].
  rewrite (read_uint16_at D ([headerType] ++ a ++ l ++ f) t) with (v := warnings p); [|len|done|by rewrite E, <- !app_assoc|done].
  cbn [mbind outcome_bind negb]. replace (zlen D - zlen t) with (1 + zlen a + zlen l + 2 + 2) by (rewrite E; len). done.
Qed.

Lemma parse_ok_payload fuel c p headerType : ok_fields p -> buffer_ok (ok_payload true p headerType) ->
  has_flag (Capabilities c) CapabilityClientSessionTrack = true -> (2 <= fuel)%nat ->
  parseOKPacket fuel c (ok_payload true p headerType) =
  Some (Ret (Ok (with_session (parsed (enableQueryInfo c) p (info p))
    (if has_flag (statusFlags p) ServerSessionStateChanged then sessionStateData p else [])))).
Proof.
  intros Hp HD Hc Hf. pose proof Hp as (_ & _ & _ & _ & _ & Hss). unfold parseOKPacket, ok_payload in *. rewrite Hc.
  set (D := [headerType] ++ _) in *. rewrite (parse_ok_start _ p headerType _ D Hp HD eq_refl).
  set (x := [headerType] ++ lenenc (affectedRows p) ++ lenenc (lastInsertID p) ++ binary.le_bytes 2 (statusFlags p) ++ binary.le_bytes 2 (warnings p)).
  set (y := lenenc (zlen (info p)) ++ info p).
  assert (D = x ++ y ++ session_part p) as E by (unfold D, x, y; by rewrite <- !app_assoc).
  assert (zlen D - zlen (y ++ session_part p) = zlen x) as -> by (rewrite E; len).
  unfold coder_readLenEncInfo. cbn [c_data c_pos].
  rewrite (read_string_at D x (session_part p) (zlen x)) with (s := info p); [|done|done|rewrite E; unfold y; by rewrite <- !app_assoc].
  cbn [mbind outcome_bind]. fold y. cbn [statusFlags parsed andb]. unfold session_part in E.
  destruct (has_flag (statusFlags p) ServerSessionStateChanged); [|done].
  rewrite gtid_data_eq in E by done. set (n := zlen (gtid_change (sessionStateData p))) in *.
  assert (0 < n) as Hn by (unfold n, gtid_change; rewrite zlen_cons; pose proof (zlen_nonneg (lenenc (zlen (gtid_entry (sessionStateData p))) ++ gtid_entry (sessionStateData p))); lia).
  assert (is_uint64 n) as Hu.
  { unfold buffer_ok in HD. rewrite E, !zlen_app in HD. fold n in HD. pose proof (zlen_nonneg x). pose proof (zlen_nonneg y).
    pose proof (zlen_nonneg (lenenc n)). unfold_ints. lia. }
  rewrite (read_int_at D (x ++ y) (gtid_change (sessionStateData p))) with (i := n); [|len|done|rewrite E; by rewrite <- !app_assoc|done].
  rewrite (proj2 (Z.eqb_neq n 0)) by lia. cbn [negb orb].
  replace (zlen x + zlen y + zlen (lenenc n)) with (zlen (x ++ y ++ lenenc n)) by len.
  rewrite (session_loop_gtids fuel D (x ++ y ++ lenenc n) (sessionStateData p)); [done| |done|done].
  rewrite E. by rewrite <- !app_assoc.
Qed.

Lemma writeOKPacket_sends stale p headerType c : idle c -> ok_fields p ->
  let track := has_flag (Capabilities c) CapabilityClientSessionTrack in
  ok_length track p + 4 <= MaxInt64 ->
  exists b s, framed (sequence c) (ok_payload track p headerType) b s /\ sends (writeOKPacketWithHeader stale p headerType) c b s tt.
Proof.
  intros Hi Hp track Hl.
  destruct (write_ephemeral_sends stale (ok_length track p)
    (fun data pos => d ← fill_ok track p headerType {| c_data := data; c_pos := pos |}; Ret (c_data d, c_pos d))
    (ok_payload track p headerType) c Hi) as (b & s & Hf & Hs); [by apply fill_ok_payload|by apply zlen_ok_payload|done|].
  exists b, s. split; [done|]. unfold writeOKPacketWithHeader. eapply sends_step; [reflexivity|]. exact Hs.
Qed.

(** C17: an OK packet carries the result of a statement.  What a server writes for it, with the header of an OK or of an EOF
    packet, is read and parsed by a client as the same counts, flags, warnings and info, and, when the flags tell that the session
    state has changed, as the same GTIDs; the info only when the client asks for it.  The content the buffers of the pool
    had before does not matter. *)
Theorem OK_roundtrip (stale : Z -> list byte) (p : PacketOK) (headerType : byte) (c : Conn) :
  idle c -> breaks c = None -> is_sequence (sequence c) -> ok_fields p -> ok_length true p + 4 <= MaxInt64 ->
  has_flag (Capabilities c) CapabilityClientSessionTrack = true ->
  exists b c', writeOKPacketWithHeader stale p headerType c = Ret (Ok tt, c') /\ output c' = output c ++ b /\ idle c' /\
    forall r q, sequence r = sequence c -> input r = b ++ q -> has_flag (Capabilities r) CapabilityClientSessionTrack = true ->
    exists data r', readPacket r = Ret (Ok data, r') /\ input r' = q /\ sequence r' = sequence c' /\
      forall fuel, (2 <= fuel)%nat ->
      parseOKPacket fuel r' data =
      Some (Ret (Ok {| affectedRows := affectedRows p; lastInsertID := lastInsertID p; statusFlags := statusFlags p;
        warnings := warnings p; info := if enableQueryInfo r then info p else [];
        sessionStateData := if has_flag (statusFlags p) ServerSessionStateChanged then sessionStateData p else [] |})).
Proof.
  intros Hi Hb Hs Hp Hl Ht. destruct (writeOKPacket_sends stale p headerType c Hi Hp) as (b & s & Hf & Hw); [by rewrite Ht|].
  rewrite Ht in Hf. apply sends_unbroken in Hw; [|done]. exists b, (set_sequence s (set_output (output c ++ b) None c)).
  split_and!; [done|done|done|]. intros r q Hr Hin Hcap. exists (ok_payload true p headerType), (after_packet q s r).
  split; [by eapply readPacket_framed|]. split; [done|]. split; [done|]. intros fuel Hfuel.
  rewrite parse_ok_payload; [done|done| |done|done]. unfold buffer_ok. rewrite zlen_ok_payload by done. lia.
Qed.

Definition sample_ok : PacketOK :=
  {| affectedRows := 300; lastInsertID := 2 ^ 33; statusFlags := 0x4002; warnings := 1; info := bs "Rows matched: 1";
     sessionStateData := bs "df74afe2-d9b4-11ed-b2c8-f8b7ac3813b5:1-4" |}.

Definition session_conn : Conn :=
  {| sequence := 1; Capabilities := CapabilityClientSessionTrack; StatusFlags := 2; enableQueryInfo := true; currentEphemeralPolicy := ephemeralUnused;
     currentEphemeralBuffer := None; input := []; input_end := EndEOF; output := []; breaks := None |}.

Example OK_roundtrip_witness :
  exists b c', writeOKPacketWithHeader (fun _ => bs "stale") sample_ok (z2b OKPacket) session_conn = Ret (Ok tt, c') /\ output c' = b /\
    exists data r', readPacket (set_input b session_conn) = Ret (Ok data, r') /\
      parseOKPacket 2 r' data = Some (Ret (Ok sample_ok)).
Proof.
  destruct (OK_roundtrip (fun _ => bs "stale") sample_ok (z2b OKPacket) session_conn) as (b & c' & Hw & Ho & _ & Hr);
    [by split|done|by vm_compute|by vm_compute|by vm_compute|done|].
  exists b, c'. split; [exact Hw|]. split; [exact Ho|].
  destruct (Hr (set_input b session_conn) []) as (data & r' & Hp & _ & _ & Hparse); [done|by rewrite app_nil_r|done|].
  exists data, r'. split; [exact Hp|]. rewrite Hparse by done. done.
Defined.

(** *** Without session tracking *)

(** Without session tracking the writer puts the info at the end of the packet without its length, and the parser
    takes its first byte for the length: an info whose first byte is larger than the length of the rest is lost. *)
Theorem OK_info_lost (fuel : nat) (c : Conn) (p : PacketOK) (headerType b : byte) (rest : list byte) :
  ok_fields p -> info p = b :: rest -> zlen rest < b2z b <= 250 ->
  has_flag (Capabilities c) CapabilityClientSessionTrack = false -> ok_length false p + 250 <= MaxInt64 ->
  parseOKPacket fuel c (ok_payload false p headerType) = Some (Ret (Ok (parsed (enableQueryInfo c) p []))).
Proof.
  intros Hp Hi Hb Hc Hl. assert (buffer_ok (ok_payload false p headerType)) as HD by (unfold buffer_ok; rewrite zlen_ok_payload by done; lia).
  assert (zlen (ok_payload false p headerType) + 250 <= MaxInt64) as Hroom by (by rewrite zlen_ok_payload).
  unfold parseOKPacket, ok_payload in *. rewrite Hc. set (D := [headerType] ++ _) in *.
  rewrite (parse_ok_start _ p headerType _ D Hp HD eq_refl).
  set (x := [headerType] ++ lenenc (affectedRows p) ++ lenenc (lastInsertID p) ++ binary.le_bytes 2 (statusFlags p) ++ binary.le_bytes 2 (warnings p)).
  assert (D = x ++ lenenc (b2z b) ++ rest) as E.
  { unfold D, x, lenenc. rewrite (proj2 (Z.ltb_lt (b2z b) 251)), z2b_b2z, Hi, <- !app_assoc by lia. done. }
  assert (zlen (info p) = 1 + zlen rest) as Hz by (rewrite Hi; apply zlen_cons).
  assert (zlen (lenenc (b2z b)) = 1) as Hone by (unfold lenenc; by rewrite (proj2 (Z.ltb_lt (b2z b) 251)) by lia).
  replace (zlen D - zlen (info p)) with (zlen x) by (rewrite E; len). unfold coder_readLenEncInfo. cbn [c_data c_pos].
  pose proof (b2z_range b). pose proof (zlen_nonneg x). pose proof (zlen_nonneg rest).
  rewrite E in HD |- *. rewrite readLenEncString_cases; [|unfold_ints; lia|done]. unfold classify.
  rewrite (proj2 (Z.leb_gt _ _)), (proj2 (Z.leb_le _ _)); [done| |lia].
  rewrite E, !zlen_app in Hroom. rewrite zlen_lenenc in Hone, Hroom. unfold_ints. lia.
Qed.

Definition plain_conn : Conn :=
  {| sequence := 0; Capabilities := 0; StatusFlags := 2; enableQueryInfo := true; currentEphemeralPolicy := ephemeralUnused;
     currentEphemeralBuffer := None; input := []; input_end := EndEOF; output := []; breaks := None |}.

Example OK_info_lost_witness :
  let p := {| affectedRows := 1; lastInsertID := 0; statusFlags := 2; warnings := 0; info := bs "Rows matched: 1"; sessionStateData := [] |} in
  parseOKPacket 0 plain_conn (ok_payload false p (z2b OKPacket)) = Some (Ret (Ok (parsed true p []))).
Proof.
  intros p. apply (OK_info_lost 0 plain_conn p (z2b OKPacket) (z2b 82) (bs "ows matched: 1")); try done; by vm_compute.
Defined.

(** *** Session states that never end *)

(** A change of another type whose length takes the cursor back to its start. *)
Definition endless_change : list byte := z2b 0 :: lenenc (2 ^ 64 - 10).

Definition endless_packet : list byte :=
  [z2b OKPacket] ++ lenenc 0 ++ lenenc 0 ++ binary.le_bytes 2 ServerSessionStateChanged ++ binary.le_bytes 2 0 ++ lenenc 0 ++
  lenenc (zlen endless_change) ++ endless_change.

(** The parser of OK packets may never return.  In a packet with session state, the length of a change is added to the cursor
    as a signed number; with a length of [2 ^ 64 - 10] the cursor is back at the change when it has been read. *)
Theorem OK_parse_diverges (c : Conn) : has_flag (Capabilities c) CapabilityClientSessionTrack = true ->
  forall fuel, parseOKPacket fuel c endless_packet = None.
Proof.
  intros Hc fuel. unfold parseOKPacket.
  assert (forall f old, session_loop f {| c_data := endless_packet; c_pos := 9 |} old = None) as Hloop.
  { induction f as [|f IH]; intros old; [done|]. exact (IH old). }
  assert (parse_ok_fields (enableQueryInfo c) {| c_data := endless_packet; c_pos := 1 |} =
    Ret (Ok ({| affectedRows := 0; lastInsertID := 0; statusFlags := ServerSessionStateChanged; warnings := 0;
      info := if enableQueryInfo c then [] else []; sessionStateData := [] |}, {| c_data := endless_packet; c_pos := 8 |}))) as -> by (by vm_compute).
  rewrite Hc. cbn [statusFlags andb].
  assert (coder_readLenEncInt {| c_data := endless_packet; c_pos := 8 |} = Ret (10, true, {| c_data := endless_packet; c_pos := 9 |})) as -> by (by vm_compute).
  change (has_flag ServerSessionStateChanged ServerSessionStateChanged) with true. cbn [negb orb Z.eqb]. by rewrite Hloop.
Qed.

Example OK_parse_diverges_witness : parseOKPacket 1000 session_conn endless_packet = None.
Proof. apply (OK_parse_diverges session_conn). done. Defined.

(** ** Error packets *)

Definition error_payload (code : Z) (sqlState message : list byte) : list byte :=
  [z2b ErrHeader] ++ binary.le_bytes 2 code ++ [z2b 35] ++ sqlState ++ message.

Lemma fills_error code sqlState message : zlen sqlState = 5 ->
  fills (fun data pos =>
    '(data, pos) ← writeByte data pos (z2b ErrHeader);
    '(data, pos) ← writeUint16 data pos code;
    '(data, pos) ← writeByte data pos (z2b 35);
    let sqlState := if decide (sqlState = []) then SSUnknownSQLState else sqlState in
    if negb (zlen sqlState =? 5) then Panic
    else
      '(data, pos) ← writeEOFString data pos sqlState;
      writeEOFString data pos message) (error_payload code sqlState message).
Proof.
  intros Hs. rewrite decide_False by (by intros ->). cbv zeta. rewrite Hs, Z.eqb_refl. cbn [negb]. unfold error_payload.
  do 4 fill. fill.
Qed.

(** An error that fits the packet: a code of 16 bits, a SQL state of five characters. *)
Definition error_fits (se : SQLError) : Prop := is_uint16 (Num se) /\ zlen (State se) = 5 /\ zlen (Message se) < 2 ^ 62.

Definition sql_error_payload (se : SQLError) : list byte := error_payload (Num se) (State se) (Message se).

Lemma zlen_sql_error_payload se : error_fits se -> zlen (sql_error_payload se) = 9 + zlen (Message se).
Proof. intros (_ & Hs & _). unfold sql_error_payload, error_payload. len. Qed.

Lemma writeErrorPacketFromError_sends stale se c : idle c -> breaks c = None -> error_fits se ->
  exists b s, framed (sequence c) (sql_error_payload se) b s /\
    writeErrorPacketFromError stale (inl se) c = Ret (Ok tt, set_sequence s (set_output (output c ++ b) None c)).
Proof.
  intros Hi Hb He. pose proof (zlen_sql_error_payload se He) as Hl. destruct He as (Hn & Hst & Hm).
  unfold writeErrorPacketFromError. assert (uint16 (Num se) = Num se) as -> by (by apply Z.mod_small). pose proof (zlen_nonneg (Message se)).
  destruct (write_ephemeral_sends stale (1 + 2 + 1 + 5 + zlen (Message se)) _ (sql_error_payload se) c Hi (fills_error (Num se) _ _ Hst)) as (b & s & Hf & Hw);
    [lia|unfold_ints; lia|].
  apply sends_unbroken in Hw; [|done]. by exists b, s.
Qed.

Lemma ParseErrorPacket_payload se : error_fits se -> ParseErrorPacket (sql_error_payload se) = Ret se.
Proof.
  intros He. pose proof (zlen_sql_error_payload se He) as Hl. destruct He as (Hn & Hst & Hm). set (data := sql_error_payload se) in *.
  pose proof (zlen_nonneg (Message se)).
  assert (buffer_ok data) as Hbuf by (unfold buffer_ok; unfold_ints; lia). unfold ParseErrorPacket, readUint16.
  pose proof (readUintN_here 2 [z2b ErrHeader] (binary.le_bytes 2 (Num se)) ([z2b 35] ++ State se ++ Message se)) as H2.
  change ([z2b ErrHeader] ++ binary.le_bytes 2 (Num se) ++ [z2b 35] ++ State se ++ Message se) with data in H2.
  change (zlen [z2b ErrHeader]) with 1 in H2. rewrite H2 by done. clear H2. cbn [mbind outcome_bind negb].
  rewrite binary.of_le_le_bytes, Z.mod_small by done. change (add64 (1 + 2) 1) with 4. unfold readBytes. change (sub64 (add64 4 5) 1) with 8.
  change (add64 4 5) with 9. rewrite (proj2 (Z.leb_gt _ _)) by lia.
  rewrite (slice_at data ([z2b ErrHeader] ++ binary.le_bytes 2 (Num se) ++ [z2b 35]) (State se) (Message se)) by (done || len).
  cbn [mbind outcome_bind negb].
  rewrite (slice_from_at data ([z2b ErrHeader] ++ binary.le_bytes 2 (Num se) ++ [z2b 35] ++ State se)) with (q := Message se)
    by (len || (unfold data, sql_error_payload, error_payload; by rewrite <- !app_assoc)).
  cbn [mbind outcome_bind]. unfold NewSQLError. rewrite decide_False by (intros E; by rewrite E in Hst). by destruct se.
Qed.

(** A SQL error reaches the client.  What a server writes for an error with a code of 16 bits and a SQL state of five
    characters is read by the client, recognised as an error packet, and parsed as the same code, state and message. *)
Theorem Error_roundtrip (stale : Z -> list byte) (se : SQLError) (c : Conn) :
  idle c -> breaks c = None -> is_sequence (sequence c) ->
  is_uint16 (Num se) -> zlen (State se) = 5 -> zlen (Message se) < 2 ^ 62 ->
  exists b c', writeErrorPacketFromError stale (inl se) c = Ret (Ok tt, c') /\ output c' = output c ++ b /\ idle c' /\
    forall r q, sequence r = sequence c -> input r = b ++ q ->
    exists data r', readPacket r = Ret (Ok data, r') /\ input r' = q /\ isErrorPacket data = Ret true /\ ParseErrorPacket data = Ret se.
Proof.
  intros Hi Hb Hs Hn Hst Hm. assert (error_fits se) as He by (by split_and!).
  destruct (writeErrorPacketFromError_sends stale se c Hi Hb He) as (b & s & Hf & Hw).
  exists b, (set_sequence s (set_output (output c ++ b) None c)). split_and!; [done..|].
  intros r q Hr Hin. exists (sql_error_payload se), (after_packet q s r). split; [by eapply readPacket_framed|]. split; [done|]. split; [done|].
  by apply ParseErrorPacket_payload.
Qed.

Example Error_roundtrip_witness :
  let se := {| Num := 1062; State := bs "23000"; Message := bs "Duplicate entry" |} in
  exists b c', writeErrorPacketFromError (fun _ => bs "stale") (inl se) new_conn = Ret (Ok tt, c') /\ output c' = b /\
    exists data r', readPacket (set_input b new_conn) = Ret (Ok data, r') /\ ParseErrorPacket data = Ret se.
Proof.
  intros se. destruct (Error_roundtrip (fun _ => bs "stale") se new_conn) as (b & c' & Hw & Ho & _ & Hr);
    [by split|reflexivity|by vm_compute|by vm_compute|reflexivity|by vm_compute|].
  exists b, c'. split; [exact Hw|]. split; [exact Ho|].
  destruct (Hr (set_input b new_conn) []) as (data & r' & Hp & _ & _ & Hparse); [done|by rewrite app_nil_r|].
  exists data, r'. split; [exact Hp|exact Hparse].
Defined.
