(* ===== verification/ResultSet.v ===== *)
(** * Results of queries in the MySQL protocol

    The text protocol of [go/mysql/query.go] and the functions of [conn.go] that drive it: a server sends the
    number of columns, a packet per column, a packet per row and an end, which are the results its handler streams; a client
    reads them into a result, up to a number of rows.  The theorems put the two together: what the handler has
    returned is what the client gets, and a client that has enough rows is still in step with the server. *)

From S2P Require Import Prelude Intervals GoStd Encoding SqlTypes Packet OkPacket.

(** ** Server *)

Definition ServerMoreResultsExists : Z := 0x0008.
Definition NullValue : Z := 0xfb.
Definition NUM_FLAG : Z := 32768.
Definition ComQuery : Z := 0x03.

Section Pool.
Context (stale : Z -> list byte).

(** [sendColumnCount]. *)
Definition sendColumnCount (count : Z) : io unit :=
  write_ephemeral stale (lenEncIntSize count) (fun data pos => writeLenEncInt data pos count).

Definition column_length (f : Field) : Z :=
  4 + lenEncStringSize (f_Database f) + lenEncStringSize (f_Table f) + lenEncStringSize (f_OrgTable f) +
  lenEncStringSize (f_Name f) + lenEncStringSize (f_OrgName f) + 1 + 2 + 4 + 1 + 2 + 1 + 2.

(** The type and the flags [writeColumnDefinition] sends. *)
Definition column_type (f : Field) : Z * Z :=
  let '(typ, flags) := TypeToMySQL (f_Type f) in
  (typ, if f_Flags f =? 0 then flags else f_Flags f).

(** The writes of [writeColumnDefinition]. *)
Definition fill_column (f : Field) (data : list byte) (pos : Z) : outcome (list byte * Z) :=
  let '(typ, flags) := column_type f in
  '(data, pos) ← writeLenEncString data pos (bs "def");
  '(data, pos) ← writeLenEncString data pos (f_Database f);
  '(data, pos) ← writeLenEncString data pos (f_Table f);
  '(data, pos) ← writeLenEncString data pos (f_OrgTable f);
  '(data, pos) ← writeLenEncString data pos (f_Name f);
  '(data, pos) ← writeLenEncString data pos (f_OrgName f);
  '(data, pos) ← writeByte data pos (z2b 0x0c);
  '(data, pos) ← writeUint16 data pos (uint16 (f_Charset f));
  '(data, pos) ← writeUint32 data pos (f_ColumnLength f);
  '(data, pos) ← writeByte data pos (z2b typ);
  '(data, pos) ← writeUint16 data pos (uint16 flags);
  '(data, pos) ← writeByte data pos (z2b (f_Decimals f));
  writeUint16 data pos 0.

(** [writeColumnDefinition]. *)
Definition writeColumnDefinition (f : Field) : io unit :=
  '(data, pos) ← startEphemeralPacketWithHeader stale (column_length f);
  '(data, pos) ← pure (fill_column f data pos);
  _ ← filled data;
  if negb (pos =? zlen data) then fail (PackingUsed pos (zlen data))
  else writeEphemeralPacket.

(** [writeRow]. *)
Fixpoint row_length (row : list Value) : Z :=
  match row with
  | [] => 0
  | v :: row => (if value_IsNull v then 1 else lenEncIntSize (uint64 (zlen (v_val v))) + zlen (v_val v)) + row_length row
  end.

Fixpoint fill_row (row : list Value) (data : list byte) (pos : Z) : outcome (list byte * Z) :=
  match row with
  | [] => Ret (data, pos)
  | v :: row =>
      '(data, pos) ← (if value_IsNull v then writeByte data pos (z2b NullValue)
                      else
                        '(data, pos) ← writeLenEncInt data pos (uint64 (zlen (v_val v)));
                        '(data, n) ← copy_at data pos (v_val v);
                        Ret (data, add64 pos n));
      fill_row row data pos
  end.

Definition writeRow (row : list Value) : io unit := write_ephemeral stale (row_length row) (fill_row row).

Fixpoint writeColumnDefinitions (fields : list Field) : io unit :=
  match fields with
  | [] => mret tt
  | f :: fields => _ ← writeColumnDefinition f; writeColumnDefinitions fields
  end.

(** [writeFields]. *)
Definition writeFields (r : SqlResult) : io unit :=
  _ ← sendColumnCount (uint64 (Z.of_nat (length (elems (r_Fields r)))));
  _ ← writeColumnDefinitions (elems (r_Fields r));
  c ← state;
  if Z.land (Capabilities c) CapabilityClientDeprecateEOF =? 0 then writeEOFPacket stale (StatusFlags c) 0 else mret tt.

Fixpoint writeRowList (rows : list (list Value)) : io unit :=
  match rows with
  | [] => mret tt
  | row :: rows => _ ← writeRow row; writeRowList rows
  end.

(** [writeRows]. *)
Definition writeRows (r : SqlResult) : io unit := writeRowList (elems (r_Rows r)).

Definition with_more (more : bool) (flags : Z) : Z := if more then Z.lor flags ServerMoreResultsExists else flags.

(** [writeEndResult]. *)
Definition writeEndResult (more : bool) (affectedRows lastInsertID warnings : Z) (qrInfo : list byte) : io unit :=
  c ← state;
  let flags := with_more more (StatusFlags c) in
  if Z.land (Capabilities c) CapabilityClientDeprecateEOF =? 0 then writeEOFPacket stale flags warnings
  else
    writeOKPacketWithEOFHeader stale
      {| affectedRows := affectedRows; lastInsertID := lastInsertID; statusFlags := flags; warnings := warnings;
         info := qrInfo; sessionStateData := [] |}.

(** *** Executing a query

    A handler calls back with a list of results and then returns an error or none; it stops when the callback fails, and returns
    its error. *)

(** The variables of [execQuery] the callback changes. *)
Record callback_vars := { callbackCalled : bool; sendFinished : bool; qrInfo : list byte }.

Inductive execResult := execSuccess | execErr | connErr.

(** An error of a handler: the end of the results, a [SQLError], or another error with its text. *)
Inductive handler_error := HandlerEOF | HandlerError (e : SQLError + list byte).

Section Exec.
Context (WarningCount : Z) (more : bool).

Definition after_callback (v : callback_vars) (qr : SqlResult) : callback_vars :=
  {| callbackCalled := true;
     sendFinished := sendFinished v || (negb (callbackCalled v) && bool_decide (length (elems (r_Fields qr)) = 0%nat));
     qrInfo := z2b 32 :: r_Info qr |}.

(** The callback of [execQuery]. *)
Definition callback (v : callback_vars) (qr : SqlResult) : io unit :=
  c ← state;
  if sendFinished v then fail IoEOF
  else if negb (callbackCalled v) then
    if decide (length (elems (r_Fields qr)) = 0%nat) then
      writeOKPacket stale
        {| affectedRows := r_RowsAffected qr; lastInsertID := r_InsertID qr; statusFlags := with_more more (StatusFlags c);
           warnings := WarningCount; info := r_Info qr; sessionStateData := r_SessionStateChanges qr |}
    else
      _ ← writeFields qr;
      writeRows qr
  else writeRows qr.

(** The calls of the handler. *)
Fixpoint stream (v : callback_vars) (results : list SqlResult) : io callback_vars :=
  match results with
  | [] => mret v
  | qr :: results => _ ← callback v qr; stream (after_callback v qr) results
  end.

(** The error of a query that ends without a result. *)
Definition unexpected_end : SQLError :=
  {| Num := ERUnknownError; State := SSUnknownSQLState; Message := bs "unexpected: query ended without no results and no error" |}.

(** [execQuery]; when the callback fails, it has been called. *)
Definition execQuery (results : list SqlResult) (err : option handler_error) (c : Conn) : outcome (execResult * Conn) :=
  match stream {| callbackCalled := false; sendFinished := false; qrInfo := [] |} results c with
  | Panic => Panic
  | Ret (Err _, c) => Ret (connErr, c)
  | Ret (Ok v, c) =>
      if negb (callbackCalled v) then
        let e := match err with None | Some HandlerEOF => inl unexpected_end | Some (HandlerError e) => e end in
        match writeErrorPacketFromError stale e c with
        | Panic => Panic
        | Ret (Err _, c) => Ret (connErr, c)
        | Ret (Ok _, c) => Ret (execErr, c)
        end
      else
        match err with
        | Some _ => Ret (connErr, c)
        | None =>
            if sendFinished v then Ret (execSuccess, c)
            else
              match writeEndResult more 0 0 WarningCount (qrInfo v) c with
              | Panic => Panic
              | Ret (Err _, c) => Ret (connErr, c)
              | Ret (Ok _, c) => Ret (execSuccess, c)
              end
        end
  end.
End Exec.

(** [WriteComQuery]. *)
Definition WriteComQuery (query : list byte) : io unit :=
  _ ← update (set_sequence 0);
  wrapped ServerGone (write_ephemeral stale (zlen query + 1) (fun data pos =>
    data ← store data pos (z2b ComQuery);
    let pos := add64 pos 1 in
    '(data, n) ← copy_at data pos query;
    Ret (data, add64 pos n))).

(** [parseComQuery]. *)
Definition parseComQuery (data : list byte) : outcome (list byte) := slice_from data 1.

Definition CapabilityClientMultiStatements : Z := Z.shiftl 1 16.

(** [errEmptyStatement]. *)
Definition errEmptyStatement : SQLError := {| Num := 1065; State := bs "42000"; Message := bs "Query was empty" |}.

(** [writeErrorPacketFromErrorAndLog]. *)
Definition writeErrorPacketFromErrorAndLog (e : SQLError + list byte) (c : Conn) : outcome (bool * Conn) :=
  match writeErrorPacketFromError stale e c with
  | Panic => Panic
  | Ret (Ok _, c) => Ret (true, c)
  | Ret (Err _, c) => Ret (false, c)
  end.

(** How a handler answers a statement: the results it calls back with, the error it returns, and its number of warnings. *)
Record answer := { a_results : list SqlResult; a_err : option handler_error; a_warnings : Z }.

Section Handle.
(** The function that splits a text into statements, and the handler. *)
Context (split : list byte -> result (SQLError + list byte) (list (list byte))) (handler : list byte -> answer).

(** The loop of [handleComQuery] over the statements. *)
Fixpoint handle_queries (queries : list (list byte)) (c : Conn) : outcome (bool * Conn) :=
  match queries with
  | [] => Ret (true, c)
  | sql :: queries =>
      let a := handler sql in
      match execQuery (a_warnings a) (negb (bool_decide (queries = []))) (a_results a) (a_err a) c with
      | Panic => Panic
      | Ret (execSuccess, c) => handle_queries queries c
      | Ret (execErr, c) => Ret (true, c)
      | Ret (connErr, c) => Ret (false, c)
      end
  end.

(** [handleComQuery], of a packet that has been read; whether the connection goes on. *)
Definition handleComQuery (data : list byte) (c : Conn) : outcome (bool * Conn) :=
  match (query ← pure (parseComQuery data); _ ← recycleReadPacket; mret query) c with
  | Panic => Panic
  | Ret (Err _, c) => Ret (false, c)
  | Ret (Ok query, c) =>
      let queries :=
        if negb (Z.land (Capabilities c) CapabilityClientMultiStatements =? 0) then split query else Ok [query] in
      match queries with
      | Err e => writeErrorPacketFromErrorAndLog e c
      | Ok [] => writeErrorPacketFromErrorAndLog (inl errEmptyStatement) c
      | Ok queries => handle_queries queries c
      end
  end.
End Handle.
End Pool.

(** ** Client *)

(** What is wrong with a packet, with the number of the column. *)
Inductive malformed :=
| ColCatalog (index : Z) | ColSchema (index : Z) | ColTable (index : Z) | ColOrgTable (index : Z) | ColName (index : Z)
| ColOrgName (index : Z) | ColCharset (index : Z) | ColLength (index : Z) | ColType (index : Z) | ColFlags (index : Z)
| ColMySQLType (t flags index : Z) | ColDecimals (index : Z)
| DecodingString | EmptyResponse | NoColumnNumber | ExtraData.

Inductive query_error :=
| QueryNotSent (e : conn_error)
| QueryServerLost (e : conn_error)
| MalformedPacket (m : malformed)
| QueryFailed (e : SQLError)
| BadPacket (e : packet_error)
| NotImplemented
| UnexpectedPacket (data : list byte)
| RowCountExceeded (maxrows : Z).

Definition malformed_packet {A} (m : malformed) : outcome (result query_error A) := Ret (Err (MalformedPacket m)).

(** [if !ok { return ... }] after a read. *)
Definition read_or {A B} (r : outcome (A * Z * bool)) (m : malformed) (k : A -> Z -> outcome (result query_error B))
    : outcome (result query_error B) :=
  '(a, pos, ok) ← r;
  if negb ok then malformed_packet m else k a pos.

Definition skip_or {B} (r : outcome (Z * bool)) (m : malformed) (k : Z -> outcome (result query_error B))
    : outcome (result query_error B) :=
  '(pos, ok) ← r;
  if negb ok then malformed_packet m else k pos.

(** The flags of the field, [NUM_FLAG] added to those of a number; none without a length and a character set. *)
Definition field_flags (columnLength charset t flags : Z) : Z :=
  if negb (columnLength =? 0) || negb (charset =? 0) then (if IsNum t then Z.lor flags NUM_FLAG else flags) else 0.

(** [readColumnDefinition], of the packet. *)
Definition parse_column (index : Z) (colDef : list byte) : outcome (result query_error Field) :=
  skip_or (skipLenEncString colDef 0) (ColCatalog index) (fun pos =>
  read_or (readLenEncString colDef pos) (ColSchema index) (fun database pos =>
  read_or (readLenEncString colDef pos) (ColTable index) (fun table pos =>
  read_or (readLenEncString colDef pos) (ColOrgTable index) (fun orgTable pos =>
  read_or (readLenEncString colDef pos) (ColName index) (fun name pos =>
  read_or (readLenEncString colDef pos) (ColOrgName index) (fun orgName pos =>
  let pos := add64 pos 1 in
  read_or (readUint16 colDef pos) (ColCharset index) (fun characterSet pos =>
  read_or (readUint32 colDef pos) (ColLength index) (fun columnLength pos =>
  read_or (readByte colDef pos) (ColType index) (fun t pos =>
  read_or (readUint16 colDef pos) (ColFlags index) (fun flags pos =>
  match MySQLToType (b2z t) flags with
  | Err _ => malformed_packet (ColMySQLType (b2z t) flags index)
  | Ok typ =>
      read_or (readByte colDef pos) (ColDecimals index) (fun decimals _ =>
      Ret (Ok {| f_Name := name; f_Type := typ; f_Table := table; f_OrgTable := orgTable; f_Database := database;
        f_OrgName := orgName; f_ColumnLength := columnLength; f_Charset := characterSet; f_Decimals := b2z decimals;
        f_Flags := field_flags columnLength characterSet (b2z t) flags; f_ColumnType := [] |}))
  end)))))))))).

(** [readColumnDefinitionType], of the packet. *)
Definition parse_column_type (index : Z) (colDef : list byte) : outcome (result query_error Field) :=
  skip_or (skipLenEncString colDef 0) (ColCatalog index) (fun pos =>
  skip_or (skipLenEncString colDef pos) (ColSchema index) (fun pos =>
  skip_or (skipLenEncString colDef pos) (ColTable index) (fun pos =>
  skip_or (skipLenEncString colDef pos) (ColOrgTable index) (fun pos =>
  skip_or (skipLenEncString colDef pos) (ColName index) (fun pos =>
  skip_or (skipLenEncString colDef pos) (ColOrgName index) (fun pos =>
  let pos := add64 pos 1 in
  read_or (readUint16 colDef pos) (ColCharset index) (fun _ pos =>
  read_or (readUint32 colDef pos) (ColLength index) (fun _ pos =>
  read_or (readByte colDef pos) (ColType index) (fun t pos =>
  read_or (readUint16 colDef pos) (ColFlags index) (fun flags _ =>
  match MySQLToType (b2z t) flags with
  | Err _ => malformed_packet (ColMySQLType (b2z t) flags index)
  | Ok typ => Ret (Ok (type_field typ))
  end)))))))))).

(** [parseRow], with [readLenEncStringAsBytesCopy]. *)
Fixpoint parse_row (fields : list Field) (data : list byte) (pos : Z) : outcome (result query_error (list Value)) :=
  match fields with
  | [] => Ret (Ok [])
  | f :: fields =>
      b ← index data pos;
      if b2z b =? NullValue then
        vs ←? parse_row fields data (add64 pos 1);
        Ret (Ok (NULL :: vs))
      else
        read_or (readLenEncStringAsBytesCopy data pos) DecodingString (fun s pos =>
          vs ←? parse_row fields data pos;
          Ret (Ok (MakeTrusted (f_Type f) s :: vs)))
  end.

Definition parseRow (data : list byte) (fields : list Field) : outcome (result query_error (list Value)) := parse_row fields data 0.

(** *** Reading packets

    The functions that loop over packets or over the session state of one have fuel, and give [None] when it is used up. *)
Definition query_io (A : Type) : Type := Conn -> option (outcome (result query_error A * Conn)).

#[export] Instance query_ret : MRet query_io := fun A a c => Some (Ret (Ok a, c)).
#[export] Instance query_bind : MBind query_io := fun A B k m c =>
  match m c with
  | Some (Ret (Ok a, c)) => k a c
  | Some (Ret (Err e, c)) => Some (Ret (Err e, c))
  | Some Panic => Some Panic
  | None => None
  end.

Definition query_fail {A} (e : query_error) : query_io A := fun c => Some (Ret (Err e, c)).
Definition query_panic {A} : query_io A := fun _ => Some Panic.

(** A packet is read, [body] makes something of it, and the packet is recycled. *)
Definition with_packet {A} (body : Conn -> list byte -> option (outcome (result query_error A))) : query_io A := fun c =>
  match readEphemeralPacket c with
  | Panic => Some Panic
  | Ret (Err e, c) => Some (Ret (Err (QueryServerLost e), c))
  | Ret (Ok data, c) =>
      match body c data with
      | None => None
      | Some Panic => Some Panic
      | Some (Ret r) => match recycleReadPacket c with Panic => Some Panic | Ret (_, c) => Some (Ret (r, c)) end
      end
  end.

Section Fuel.
Context (fuel : nat).

(** [parseOKPacket] and [ParseErrorPacket], as functions that return an error of a query. *)
Definition parsed_ok {A} (c : Conn) (data : list byte) (k : PacketOK -> outcome (result query_error A))
    : option (outcome (result query_error A)) :=
  match parseOKPacket fuel c data with
  | None => None
  | Some Panic => Some Panic
  | Some (Ret (Err e)) => Some (Ret (Err (BadPacket e)))
  | Some (Ret (Ok p)) => Some (k p)
  end.

Definition error_packet {A} (data : list byte) : outcome (result query_error A) := e ← ParseErrorPacket data; Ret (Err (QueryFailed e)).

(** [readComQueryResponse], of the packet. *)
Definition query_response (c : Conn) (data : list byte) : option (outcome (result query_error (Z * PacketOK))) :=
  match data with
  | [] => Some (malformed_packet EmptyResponse)
  | b :: _ =>
      if b2z b =? OKPacket then parsed_ok c data (fun p => Ret (Ok (0, p)))
      else if b2z b =? ErrHeader then Some (error_packet data)
      else if b2z b =? 0xfb then Some (Ret (Err NotImplemented))
      else Some (
        '(n, pos, ok) ← readLenEncInt data 0;
        if negb ok then malformed_packet NoColumnNumber
        else if negb (pos =? zlen data) then malformed_packet ExtraData
        else Ret (Ok (int64 n, {| affectedRows := 0; lastInsertID := 0; statusFlags := 0; warnings := 0; info := []; sessionStateData := [] |})))
  end.

Definition readComQueryResponse : query_io (Z * PacketOK) := with_packet query_response.

(** The loop over the columns. *)
Fixpoint read_columns (wantfields : bool) (index : Z) (n : nat) : query_io (list Field) :=
  match n with
  | O => mret []
  | S n =>
      f ← with_packet (fun _ data => Some (if wantfields then parse_column index data else parse_column_type index data));
      fs ← read_columns wantfields (index + 1) n;
      mret (f :: fs)
  end.

(** The EOF packet after the columns. *)
Definition fields_end (c : Conn) (data : list byte) : option (outcome (result query_error unit)) :=
  Some (
    eof ← isEOFPacket c data;
    if eof : bool then Ret (Ok tt)
    else
      err ← isErrorPacket data;
      if err : bool then error_packet data else Ret (Err (UnexpectedPacket data))).

(** What a packet in the loop over the rows is: the end, a row too many, or a row. *)
Inductive row_packet := RowsEnd (result : SqlResult) (more : bool) (warnings : Z) | RowTooMany | OneRow (row : list Value).

Definition more_results (flags : Z) : bool := negb (Z.land flags ServerMoreResultsExists =? 0).

(** One round of the loop of [ReadQueryResult]; [fields] are the fields and [rows] the rows so far. *)
Definition row_packet_of (maxrows : Z) (wantfields : bool) (fields : list Field) (rows : option (list (list Value))) (c : Conn)
    (data : list byte) : option (outcome (result query_error row_packet)) :=
  match isEOFPacket c data with
  | Panic => Some Panic
  | Ret true =>
      let result flags info session :=
        {| r_Fields := if wantfields then Some fields else None; r_RowsAffected := 0; r_InsertID := 0; r_Rows := rows;
           r_SessionStateChanges := session; r_StatusFlags := flags; r_Info := info |} in
      if Z.land (Capabilities c) CapabilityClientDeprecateEOF =? 0 then
        Some (match parseEOFPacket data with
              | Panic => Panic
              | Ret (Err e) => Ret (Err (BadPacket e))
              | Ret (Ok (warnings, flags)) => Ret (Ok (RowsEnd (result flags [] []) (more_results flags) warnings))
              end)
      else
        parsed_ok c data (fun p =>
          Ret (Ok (RowsEnd (result (statusFlags p) (info p) (sessionStateData p)) (more_results (statusFlags p)) (warnings p))))
  | Ret false =>
      Some (
        err ← isErrorPacket data;
        if err : bool then error_packet data
        else if Z.of_nat (length (elems rows)) =? maxrows then Ret (Ok RowTooMany)
        else row ←? parseRow data fields; Ret (Ok (OneRow row)))
  end.
End Fuel.

(** [drainResults]. *)
Fixpoint drainResults (fuel : nat) : query_io unit :=
  match fuel with
  | O => fun _ => None
  | S fuel =>
      eof ← with_packet (fun c data => Some (
        eof ← isEOFPacket c data;
        if eof : bool then Ret (Ok true)
        else
          err ← isErrorPacket data;
          if err : bool then error_packet data else Ret (Ok false)));
      if eof : bool then mret tt else drainResults fuel
  end.

(** The loop over the rows. *)
Fixpoint read_rows (fuel : nat) (maxrows : Z) (wantfields : bool) (fields : list Field) (rows : option (list (list Value)))
    : query_io (SqlResult * bool * Z) :=
  match fuel with
  | O => fun _ => None
  | S fuel' =>
      p ← with_packet (row_packet_of fuel maxrows wantfields fields rows);
      match p with
      | RowsEnd result more warnings => mret (result, more, warnings)
      | RowTooMany => _ ← drainResults fuel'; query_fail (RowCountExceeded maxrows)
      | OneRow row => read_rows fuel' maxrows wantfields fields (append_one rows row)
      end
  end.

(** [ReadQueryResult]: the result, whether there are more, and the number of warnings. *)
Definition ReadQueryResult (fuel : nat) (maxrows : Z) (wantfields : bool) : query_io (SqlResult * bool * Z) :=
  '(colNumber, packetOk) ← readComQueryResponse fuel;
  if colNumber =? 0 then
    mret ({| r_Fields := None; r_RowsAffected := affectedRows packetOk; r_InsertID := lastInsertID packetOk; r_Rows := None;
             r_SessionStateChanges := sessionStateData packetOk; r_StatusFlags := statusFlags packetOk; r_Info := info packetOk |},
          more_results (statusFlags packetOk), warnings packetOk)
  else if colNumber <? 0 then query_panic
  else
    fields ← read_columns wantfields 0 (Z.to_nat colNumber);
    _ ← (fun c => if Z.land (Capabilities c) CapabilityClientDeprecateEOF =? 0 then with_packet fields_end c else Some (Ret (Ok tt, c)));
    read_rows fuel maxrows wantfields fields None.

(** [ExecuteFetchMulti]. *)
Definition ExecuteFetchMulti (stale : Z -> list byte) (fuel : nat) (query : list byte) (maxrows : Z) (wantfields : bool)
    : query_io (SqlResult * bool) := fun c =>
  match WriteComQuery stale query c with
  | Panic => Some Panic
  | Ret (Err e, c) => Some (Ret (Err (QueryNotSent e), c))
  | Ret (Ok _, c) => ('(res, more, _) ← ReadQueryResult fuel maxrows wantfields; mret (res, more)) c
  end.

(** ** Packets one after the other *)

(** The packets [ps], the first of them with the sequence number [s]. *)
Inductive framed_all : Z -> list (list byte) -> list byte -> Z -> Prop :=
| framed_all_nil s : framed_all s [] [] s
| framed_all_cons s p b s1 ps b' s2 : framed s p b s1 -> framed_all s1 ps b' s2 -> framed_all s (p :: ps) (b ++ b') s2.

Lemma framed_det s p b1 s1 : framed s p b1 s1 -> forall b2 s2, framed s p b2 s2 -> b1 = b2 /\ s1 = s2.
Proof.
  induction 1 as [s p Hp|s p q b s' Hp Hf IH]; intros b2 s2 H2.
  - inversion H2 as [|s0 p' q' b' s'' Hp' Hf']; subst; [done|]. rewrite zlen_app in Hp. pose proof (zlen_nonneg q'). lia.
  - remember (p ++ q) as pq eqn:E. destruct H2 as [s p' Hp'|s p' q' b' s'' Hp' Hf']; subst.
    + rewrite zlen_app in Hp'. pose proof (zlen_nonneg q). lia.
    + symmetry in E. apply app_inj_1 in E as [-> ->]; [|unfold zlen in *; lia]. by destruct (IH _ _ Hf') as [-> ->].
Qed.

Lemma framed_all_app s ps1 ps2 b s2 : framed_all s (ps1 ++ ps2) b s2 ->
  exists b1 s1 b2, framed_all s ps1 b1 s1 /\ framed_all s1 ps2 b2 s2 /\ b = b1 ++ b2.
Proof.
  revert s b. induction ps1 as [|p ps1 IH]; intros s b H; [by exists [], s, b; split; [constructor|]|].
  inversion H as [|? ? b0 s0 ? b' ? Hp Hps]; subst. destruct (IH _ _ Hps) as (b1 & s1 & b2 & H1 & H2 & ->).
  exists (b0 ++ b1), s1, b2. split_and!; [by econstructor|done|by rewrite app_assoc].
Qed.

Lemma framed_all_total s ps : exists b s', framed_all s ps b s'.
Proof.
  revert s. induction ps as [|p ps IH]; intros s; [do 2 eexists; constructor|].
  destruct (framed_total s p) as (b & s1 & Hf). destruct (IH s1) as (b' & s2 & H). do 2 eexists. by econstructor.
Qed.

Lemma framed_sequence s p b s' : framed s p b s' -> is_sequence s'.
Proof. induction 1; [apply is_sequence_next|done]. Qed.

Lemma framed_all_sequence s ps b s' : framed_all s ps b s' -> is_sequence s -> is_sequence s'.
Proof. induction 1 as [|s p b s1 ps b' s2 Hp _ IH]; [done|]. intros _. apply IH. by eapply framed_sequence. Qed.

(** A computation that sends the packets [ps]. *)
Definition delivers {A} (m : io A) (c : Conn) (ps : list (list byte)) (a : A) : Prop :=
  forall b s, framed_all (sequence c) ps b s -> sends m c b s a.

Lemma delivers_one {A} (m : io A) c p a : (exists b s, framed (sequence c) p b s /\ sends m c b s a) -> delivers m c [p] a.
Proof.
  intros (b & s & Hf & Hs) b' s' H. inversion H as [|? ? ? ? ? ? ? Hp Hnil]; subst. inversion Hnil; subst.
  destruct (framed_det _ _ _ _ Hf _ _ Hp) as [-> ->]. by rewrite app_nil_r.
Qed.

Lemma delivers_ret {A} (a : A) c : delivers (mret a) c [] a.
Proof. intros b s H. inversion H; subst. apply sends_ret. Qed.

(** The connection after something has been sent. *)
Definition sent_from (c c' : Conn) : Prop := exists s o br, c' = set_sequence s (set_output o br c).

Lemma delivers_bind {A B} (m : io A) (k : A -> io B) c ps1 ps2 a x : delivers m c ps1 a ->
  (forall c', sent_from c c' -> delivers (k a) c' ps2 x) -> delivers (m ≫= k) c (ps1 ++ ps2) x.
Proof.
  intros Hm Hk b s H. apply framed_all_app in H as (b1 & s1 & b2 & H1 & H2 & ->). eapply sends_bind; [by apply Hm|].
  intros br Hbr. apply Hk; [by do 3 eexists|]. done.
Qed.

Lemma delivers_step {A B} (m : io A) (k : A -> io B) c a ps x : m c = Ret (Ok a, c) -> delivers (k a) c ps x -> delivers (m ≫= k) c ps x.
Proof. intros Hm Hk b s H. eapply sends_step; [done|]. by apply Hk. Qed.

Lemma write_ephemeral_delivers stale n fill out c : idle c -> fills fill out -> zlen out = n -> n + 4 <= MaxInt64 ->
  delivers (write_ephemeral stale n fill) c [out] tt.
Proof. intros. apply delivers_one. by apply write_ephemeral_sends. Qed.

Lemma sent_idle c c' : sent_from c c' -> idle c -> idle c'.
Proof. by intros (s & o & br & ->). Qed.

Lemma sent_capabilities c c' : sent_from c c' -> Capabilities c' = Capabilities c /\ StatusFlags c' = StatusFlags c.
Proof. by intros (s & o & br & ->). Qed.

Lemma sent_trans c c1 c2 : sent_from c c1 -> sent_from c1 c2 -> sent_from c c2.
Proof. intros (s & o & br & ->) (s' & o' & br' & ->). by exists s', o', br'. Qed.

(** ** What a server sends *)

Definition lenenc_string (s : list byte) : list byte := lenenc (zlen s) ++ s.

Definition column_payload (f : Field) : list byte :=
  lenenc_string (bs "def") ++ lenenc_string (f_Database f) ++ lenenc_string (f_Table f) ++ lenenc_string (f_OrgTable f) ++
  lenenc_string (f_Name f) ++ lenenc_string (f_OrgName f) ++ [z2b 0x0c] ++ binary.le_bytes 2 (uint16 (f_Charset f)) ++
  binary.le_bytes 4 (f_ColumnLength f) ++ [z2b (column_type f).1] ++ binary.le_bytes 2 (uint16 (column_type f).2) ++
  [z2b (f_Decimals f)] ++ binary.le_bytes 2 0.

Definition value_payload (v : Value) : list byte := if value_IsNull v then [z2b NullValue] else lenenc_string (v_val v).

Definition row_payload (row : list Value) : list byte := concat (value_payload <$> row).

Definition eof_payload (flags warnings : Z) : list byte := [z2b EOFHeader] ++ binary.le_bytes 2 warnings ++ binary.le_bytes 2 flags.

(** Strings that are not too long for a packet. *)
Definition short_string (s : list byte) : Prop := zlen s < 2 ^ 59.

Definition short_field (f : Field) : Prop :=
  short_string (f_Database f) /\ short_string (f_Table f) /\ short_string (f_OrgTable f) /\ short_string (f_Name f) /\ short_string (f_OrgName f).

Lemma lenEncStringSize_short s : short_string s -> lenEncStringSize s = zlen (lenenc_string s).
Proof.
  intros Hs. unfold lenEncStringSize, lenenc_string, short_string in *. pose proof (zlen_nonneg s).
  pose proof (lenEncIntSize_range (zlen s)). rewrite uint64_id, add64_pos by (unfold_ints; lia). by rewrite zlen_app, zlen_lenenc.
Qed.

Lemma fills_short s : short_string s -> fills (fun data pos => writeLenEncString data pos s) (lenenc_string s).
Proof. intros Hs. apply fills_lenenc_string. unfold short_string in Hs. lia. Qed.

#[local] Hint Resolve fills_short : fills.

Lemma zlen_lenenc_string s : short_string s -> 1 <= zlen (lenenc_string s) <= 2 ^ 59 + 9.
Proof.
  intros Hs. unfold lenenc_string, short_string in *. rewrite zlen_app, zlen_lenenc. pose proof (zlen_nonneg s).
  pose proof (lenEncIntSize_range (zlen s)). lia.
Qed.

Lemma fill_column_payload f : short_field f -> fills (fill_column f) (column_payload f).
Proof.
  intros (H1 & H2 & H3 & H4 & H5). unfold fill_column, column_payload. destruct (column_type f) as [typ flags]. cbn [fst snd].
  assert (short_string (bs "def")) as H0 by done. repeat fill.
Qed.

Lemma zlen_column_payload f : short_field f -> zlen (column_payload f) = column_length f.
Proof.
  intros (H1 & H2 & H3 & H4 & H5). unfold column_payload, column_length. rewrite !lenEncStringSize_short by done.
  rewrite !zlen_app, !zlen_le_bytes. change (zlen (lenenc_string (bs "def"))) with 4. rewrite !zlen_cons, !zlen_nil. lia.
Qed.

(** A packet whose writer checks that it has filled it. *)
Lemma writeColumnDefinition_delivers stale f c : idle c -> short_field f -> delivers (writeColumnDefinition stale f) c [column_payload f] tt.
Proof.
  intros Hi Hf. pose proof Hf as (H1 & H2 & H3 & H4 & H5). apply zlen_lenenc_string in H1, H2, H3, H4, H5.
  assert (0 <= column_length f /\ column_length f + 4 <= MaxInt64) as [Hn Hl]
    by (unfold column_length; rewrite !lenEncStringSize_short by apply Hf; unfold_ints; lia).
  pose proof (write_ephemeral_delivers stale _ _ _ c Hi (fill_column_payload f Hf) (zlen_column_payload f Hf) Hl) as H.
  intros b s Hb. destruct (H b s Hb) as (r & b' & k & s' & Hw & Hrest). exists r, b', k, s'. split; [|done]. rewrite <- Hw.
  unfold writeColumnDefinition, write_ephemeral, startEphemeralPacketWithHeader. destruct Hi as [Hp _].
  do 2 (erewrite io_bind_ok; [|step; rewrite Hp; step; reflexivity]). cbv beta iota. change packetHeaderSize with 4.
  set (buf := bufPool_Get stale (column_length f + 4)). assert (zlen buf = column_length f + 4) as Hbuf by (apply length_bufPool_Get; lia).
  assert (fill_column f buf 4 = Ret (take 4 buf ++ column_payload f, zlen buf)) as Hfill.
  { rewrite <- (take_drop 4 buf) at 1. assert (zlen (take 4 buf) = 4) as H4' by (unfold zlen in *; rewrite length_take; lia).
    rewrite <- (app_nil_r (drop 4 buf)), <- H4' at 1.
    rewrite (fill_column_payload f Hf), app_nil_r, zlen_column_payload, H4', Hbuf by (done || (rewrite zlen_nil, H4', zlen_column_payload by done; lia) ||
      (pose proof (zlen_column_payload f Hf); unfold zlen in *; rewrite length_drop; lia)). do 2 f_equal. lia. }
  do 2 (erewrite io_bind_ok; [|by apply pure_ok]). cbv beta iota. do 2 (erewrite io_bind_ok; [|reflexivity]). cbv beta.
  assert (zlen (take 4 buf ++ column_payload f) = zlen buf) as ->
    by (rewrite zlen_app, zlen_column_payload by done; unfold zlen in *; rewrite length_take; lia).
  by rewrite Z.eqb_refl.
Qed.

Lemma writeColumnDefinitions_delivers stale fields c : idle c -> Forall short_field fields ->
  delivers (writeColumnDefinitions stale fields) c (column_payload <$> fields) tt.
Proof.
  intros Hi H. revert c Hi. induction H as [|f fields Hf _ IH]; intros c Hi; [apply delivers_ret|].
  apply (delivers_bind _ _ _ [_] _ tt); [by apply writeColumnDefinition_delivers|]. intros c' Hc. apply IH. by eapply sent_idle.
Qed.

(** Rows that are not too long for a packet. *)
Definition short_row (row : list Value) : Prop := Forall (fun v => zlen (v_val v) < 2 ^ 62) row /\ zlen (row_payload row) + 4 <= MaxInt64.

Lemma fill_row_payload row : Forall (fun v => zlen (v_val v) < 2 ^ 62) row -> fills (fill_row row) (row_payload row).
Proof.
  induction 1 as [|v row Hv _ IH]; [apply fills_nil|]. cbn [fill_row]. unfold row_payload. cbn [fmap list_fmap concat].
  apply (fills_bind (fun data pos => if value_IsNull v then writeByte data pos (z2b NullValue)
                      else '(data, pos) ← writeLenEncInt data pos (uint64 (zlen (v_val v)));
                        '(data, n) ← copy_at data pos (v_val v); Ret (data, add64 pos n))); [|exact IH].
  unfold value_payload. destruct (value_IsNull v); [apply fills_byte|]. apply (fills_lenenc_string (v_val v) Hv).
Qed.

Lemma zlen_row_payload row : Forall (fun v => zlen (v_val v) < 2 ^ 62) row -> zlen (row_payload row) = row_length row.
Proof.
  induction 1 as [|v row Hv _ IH]; [done|]. unfold row_payload in *. cbn [fmap list_fmap concat row_length]. rewrite zlen_app, IH. f_equal.
  unfold value_payload, lenenc_string. case_match; [done|]. rewrite zlen_app, zlen_lenenc, uint64_id; [done|].
  pose proof (zlen_nonneg (v_val v)). unfold_ints. lia.
Qed.

Lemma writeRowList_delivers stale rows c : idle c -> Forall short_row rows ->
  delivers (writeRowList stale rows) c (row_payload <$> rows) tt.
Proof.
  intros Hi H. revert c Hi. induction H as [|row rows [Hv Hl] _ IH]; intros c Hi; [apply delivers_ret|].
  apply (delivers_bind _ _ _ [_] _ tt).
  - apply write_ephemeral_delivers; [done|by apply fill_row_payload|by apply zlen_row_payload|by rewrite <- zlen_row_payload].
  - intros c' Hc. apply IH. by eapply sent_idle.
Qed.

Lemma writeEOFPacket_delivers stale flags warnings c : idle c -> delivers (writeEOFPacket stale flags warnings) c [eof_payload flags warnings] tt.
Proof.
  intros Hi. apply write_ephemeral_delivers; [done| |by unfold eof_payload; rewrite !zlen_app, !zlen_le_bytes|done].
  unfold eof_payload. repeat fill.
Qed.

Definition deprecates_eof (c : Conn) : bool := negb (Z.land (Capabilities c) CapabilityClientDeprecateEOF =? 0).

(** The packets before the rows. *)
Definition header_packets (eof : bool) (flags : Z) (fields : list Field) : list (list byte) :=
  lenenc (Z.of_nat (length fields)) :: (column_payload <$> fields) ++ (if eof then [eof_payload flags 0] else []).

Lemma writeFields_delivers stale r c : idle c -> Forall short_field (elems (r_Fields r)) -> Z.of_nat (length (elems (r_Fields r))) < 2 ^ 62 ->
  delivers (writeFields stale r) c (header_packets (negb (deprecates_eof c)) (StatusFlags c) (elems (r_Fields r))) tt.
Proof.
  intros Hi Hf Hn. unfold writeFields, header_packets. apply (delivers_bind _ _ _ [_] _ tt).
  - rewrite uint64_id by (unfold_ints; lia). pose proof (lenEncIntSize_range (Z.of_nat (length (elems (r_Fields r))))).
    apply write_ephemeral_delivers; [done|apply fills_lenenc|by rewrite zlen_lenenc|unfold_ints; lia].
  - intros c1 Hc1. pose proof (sent_idle _ _ Hc1 Hi). apply (delivers_bind _ _ _ _ _ tt); [by apply writeColumnDefinitions_delivers|].
    intros c2 Hc2. eapply delivers_step; [done|]. destruct (sent_capabilities _ _ (sent_trans _ _ _ Hc1 Hc2)) as [-> ->].
    unfold deprecates_eof. rewrite negb_involutive. case_match; [|apply delivers_ret]. apply writeEOFPacket_delivers. by eapply sent_idle.
Qed.

(** *** The results of a handler *)

Definition all_rows (results : list SqlResult) : list (list Value) := concat ((fun r => elems (r_Rows r)) <$> results).

(** The info of the last result, with the space [execQuery] puts before it. *)
Definition last_info (results : list SqlResult) : list byte := match last results with None => [] | Some r => z2b 32 :: r_Info r end.

(** What ends the rows. *)
Definition end_ok (flags warnings : Z) (info : list byte) : PacketOK :=
  {| affectedRows := 0; lastInsertID := 0; statusFlags := flags; warnings := warnings; info := info; sessionStateData := [] |}.

Definition session_track (c : Conn) : bool := has_flag (Capabilities c) CapabilityClientSessionTrack.

Definition end_payload (c : Conn) (more : bool) (warnings : Z) (info : list byte) : list byte :=
  let flags := with_more more (StatusFlags c) in
  if deprecates_eof c then ok_payload (session_track c) (end_ok flags warnings info) (z2b EOFHeader) else eof_payload flags warnings.

(** The packets of a result set. *)
Definition result_packets (c : Conn) (more : bool) (warnings : Z) (fields : list Field) (rows : list (list Value)) (info : list byte)
    : list (list byte) :=
  header_packets (negb (deprecates_eof c)) (StatusFlags c) fields ++ (row_payload <$> rows) ++ [end_payload c more warnings info].

Lemma stream_delivers stale w more results v c : idle c -> Forall short_row (all_rows results) ->
  callbackCalled v = true -> sendFinished v = false ->
  delivers (stream stale w more v results) c (row_payload <$> all_rows results)
    {| callbackCalled := true; sendFinished := false; qrInfo := match last results with None => qrInfo v | Some r => z2b 32 :: r_Info r end |}.
Proof.
  revert v c. induction results as [|r results IH]; intros v c Hi H Hc Hs.
  - destruct v; cbn in *; subst. apply delivers_ret.
  - cbn [stream]. unfold all_rows in *. cbn [fmap list_fmap concat] in *. rewrite fmap_app. apply Forall_app in H as [H1 H2].
    apply (delivers_bind _ _ _ _ _ tt).
    + unfold callback. eapply delivers_step; [done|]. rewrite Hs, Hc. by apply writeRowList_delivers.
    + intros c' Hc'. pose proof (IH (after_callback v r) c' (sent_idle _ _ Hc' Hi) H2) as H. unfold after_callback in H at 1 2. cbn in H.
      rewrite Hs, Hc in H. specialize (H eq_refl eq_refl). rewrite last_cons. by destruct (last results).
Qed.

(** What makes the results of a handler fit: the first has fields, and the packets are not too long. *)
Definition short_results (fields : list Field) (results : list SqlResult) : Prop :=
  fields <> [] /\ Forall short_field fields /\ Z.of_nat (length fields) < 2 ^ 62 /\
  (exists r rest, results = r :: rest /\ elems (r_Fields r) = fields) /\ Forall short_row (all_rows results).

Lemma end_delivers stale w more info c : idle c -> is_uint16 (with_more more (StatusFlags c)) -> is_uint16 w -> short_string info ->
  delivers (writeEndResult stale more 0 0 w info) c [end_payload c more w info] tt.
Proof.
  intros Hi Hf Hw Hz. unfold writeEndResult, end_payload, deprecates_eof. eapply delivers_step; [done|]. cbv beta.
  case_match; cbn [negb]; [by apply writeEOFPacket_delivers|]. apply delivers_one. apply writeOKPacket_sends; [done| |].
  - unfold ok_fields. cbn [affectedRows lastInsertID statusFlags warnings OkPacket.info sessionStateData]. split_and!; try done; rewrite ?zlen_nil; unfold short_string in *; lia.
  - unfold ok_length. cbn [affectedRows lastInsertID statusFlags warnings OkPacket.info sessionStateData].
    rewrite lenEncStringSize_short by done. pose proof (zlen_lenenc_string _ Hz). unfold short_string in Hz.
    change (lenEncIntSize 0) with 1. change (zlen (gtid_data [])) with 5. unfold_ints. repeat case_match; lia.
Qed.

Lemma execQuery_delivers stale w more fields results c : idle c -> breaks c = None ->
  is_uint16 (with_more more (StatusFlags c)) -> is_uint16 w -> short_string (last_info results) -> short_results fields results ->
  forall b s, framed_all (sequence c) (result_packets c more w fields (all_rows results) (last_info results)) b s ->
  execQuery stale w more results None c = Ret (execSuccess, set_sequence s (set_output (output c ++ b) None c)).
Proof.
  intros Hi Hb Hfl Hw Hinfo (Hne & Hf & Hn & (r & rest & -> & Hr) & Hrows) b s H. unfold result_packets in H.
  rewrite app_assoc in H. apply framed_all_app in H as (b1 & s1 & b2 & H1 & H2 & ->).
  set (v0 := {| callbackCalled := false; sendFinished := false; qrInfo := [] |}).
  assert (delivers (stream stale w more v0 (r :: rest)) c (header_packets (negb (deprecates_eof c)) (StatusFlags c) fields ++
    (row_payload <$> all_rows (r :: rest))) {| callbackCalled := true; sendFinished := false; qrInfo := last_info (r :: rest) |}) as Hs.
  { cbn [stream]. unfold all_rows in *. cbn [fmap list_fmap concat] in *. rewrite fmap_app, (app_assoc (header_packets _ _ _)).
    apply Forall_app in Hrows as [Hr1 Hr2]. apply (delivers_bind _ _ _ _ _ tt).
    - unfold callback. eapply delivers_step; [done|]. cbn [sendFinished callbackCalled v0 negb]. rewrite Hr.
      rewrite decide_False by (by destruct fields). subst fields. apply (delivers_bind _ _ _ _ _ tt); [by apply writeFields_delivers|].
      intros c' Hc'. apply writeRowList_delivers; [by eapply sent_idle|done].
    - intros c' Hc'. unfold last_info. rewrite last_cons.
      pose proof (stream_delivers stale w more rest (after_callback v0 r) c' (sent_idle _ _ Hc' Hi) Hr2 eq_refl) as Hd. 
      unfold after_callback in Hd at 1. cbn in Hd. rewrite Hr, bool_decide_eq_false_2 in Hd by (by destruct fields).
      specialize (Hd eq_refl). by destruct (last rest). }
  specialize (Hs _ _ H1). apply sends_unbroken in Hs; [|done]. unfold execQuery. fold v0. rewrite Hs. cbn [callbackCalled sendFinished negb qrInfo].
  set (c1 := set_sequence s1 (set_output (output c ++ b1) None c)) in *.
  assert (delivers (writeEndResult stale more 0 0 w (last_info (r :: rest))) c1 [end_payload c1 more w (last_info (r :: rest))] tt) as He
    by (by apply end_delivers).
  specialize (He _ _ H2). apply sends_unbroken in He; [|done]. rewrite He. by rewrite (app_assoc (output c)).
Qed.

(** ** What a client reads *)

(** A reader gets [v] from [out], wherever it is. *)
Definition reads {A} (rd : list byte -> Z -> outcome (A * Z * bool)) (out : list byte) (v : A) : Prop :=
  forall p q, buffer_ok (p ++ out ++ q) -> rd (p ++ out ++ q) (zlen p) = Ret (v, zlen (p ++ out), true).

Create HintDb reads.

Lemma reads_string s : reads readLenEncString (lenenc_string s) s.
Proof.
  intros p q H. unfold lenenc_string in *. rewrite (read_string_at _ p q (zlen p) eq_refl H s) by (by rewrite <- app_assoc). by rewrite !zlen_app.
Qed.

Lemma reads_uint n v : 0 < Z.of_nat n -> 0 <= v < 256 ^ Z.of_nat n -> reads (readUintN (Z.of_nat n)) (binary.le_bytes n v) v.
Proof.
  intros Hn Hv p q H. rewrite readUintN_here by (done || lia || by rewrite zlen_le_bytes).
  by rewrite binary.of_le_le_bytes, Z.mod_small, zlen_app, zlen_le_bytes by done.
Qed.

Lemma reads_uint16 v : is_uint16 v -> reads readUint16 (binary.le_bytes 2 v) v.
Proof. intros Hv. by apply (reads_uint 2). Qed.

Lemma reads_uint32 v : 0 <= v < 2 ^ 32 -> reads readUint32 (binary.le_bytes 4 v) v.
Proof. intros Hv. by apply (reads_uint 4). Qed.

Lemma reads_byte b : reads readByte [b] b.
Proof.
  intros p q H. pose proof (read_byte_at _ p q (zlen p) eq_refl H b eq_refl) as E. unfold coder_readByte, coder_read in E.
  cbn [c_data c_pos] in E. destruct (readByte (p ++ [b] ++ q) (zlen p)) as [[[x i] ok]|]; cbn [mbind outcome_bind] in E; [|done].
  injection E as -> -> ->. by rewrite zlen_app.
Qed.

#[local] Hint Resolve reads_string reads_uint16 reads_uint32 reads_byte : reads.

Lemma skip_string s p q : buffer_ok (p ++ lenenc_string s ++ q) -> skipLenEncString (p ++ lenenc_string s ++ q) (zlen p) = Ret (zlen (p ++ lenenc_string s), true).
Proof.
  intros H. unfold lenenc_string in *. rewrite <- app_assoc in *. assert (is_uint64 (zlen s)) as Hs.
  { unfold buffer_ok in H. rewrite !zlen_app in H. pose proof (zlen_nonneg s). pose proof (zlen_nonneg p).
    pose proof (zlen_nonneg q). pose proof (zlen_nonneg (lenenc (zlen s))). unfold_ints. lia. }
  rewrite skipLenEncString_cases by done. unfold classify. pose proof (zlen_nonneg q). rewrite (proj2 (Z.leb_le _ _)) by len.
  do 2 f_equal. rewrite !zlen_app, zlen_lenenc. lia.
Qed.

Lemma read_or_step {A B} rd out (v : A) D p q m (k : A -> Z -> outcome (result query_error B)) :
  buffer_ok D -> D = p ++ out ++ q -> reads rd out v -> read_or (rd D (zlen p)) m k = k v (zlen (p ++ out)).
Proof. intros HD -> Hr. unfold read_or. by rewrite Hr. Qed.

Lemma skip_or_step {B} s D p q m (k : Z -> outcome (result query_error B)) :
  buffer_ok D -> D = p ++ lenenc_string s ++ q -> skip_or (skipLenEncString D (zlen p)) m k = k (zlen (p ++ lenenc_string s)).
Proof. intros HD ->. unfold skip_or. by rewrite skip_string. Qed.

(** One read of a packet whose parts are listed by [E]. *)
Ltac read_part E := first
  [ erewrite read_or_step; [|done|exact E|solve [eauto with reads]]
  | erewrite skip_or_step; [|done|exact E] ]; rewrite app_assoc in E; cbv beta zeta.

(** The first byte of the fixed part is skipped. *)
Lemma skip_byte D p b q : buffer_ok D -> D = p ++ [b] ++ q -> add64 (zlen p) 1 = zlen (p ++ [b]).
Proof.
  intros HD ->. unfold buffer_ok in HD. rewrite !zlen_app in HD. pose proof (zlen_nonneg p). pose proof (zlen_nonneg q).
  change (zlen [b]) with 1 in HD. rewrite add64_pos by lia. by rewrite zlen_app.
Qed.

(** What a client makes of a field. *)
Definition received (wantfields : bool) (f : Field) : Field :=
  if wantfields then
    {| f_Name := f_Name f; f_Type := f_Type f; f_Table := f_Table f; f_OrgTable := f_OrgTable f; f_Database := f_Database f;
       f_OrgName := f_OrgName f; f_ColumnLength := f_ColumnLength f; f_Charset := f_Charset f; f_Decimals := f_Decimals f;
       f_Flags := field_flags (f_ColumnLength f) (f_Charset f) (column_type f).1 (column_type f).2; f_ColumnType := [] |}
  else type_field (f_Type f).

(** A field whose numbers fit, and whose flags agree with its type. *)
Definition field_ok (f : Field) : Prop :=
  short_field f /\ is_uint16 (f_Charset f) /\ 0 <= f_ColumnLength f < 2 ^ 32 /\ 0 <= f_Decimals f < 256 /\
  is_uint16 (column_type f).2 /\ MySQLToType (column_type f).1 (column_type f).2 = Ok (f_Type f).

Lemma uint16_id v : is_uint16 v -> uint16 v = v.
Proof. intros Hv. by apply Z.mod_small. Qed.

Lemma column_type_range f : 0 <= (column_type f).1 < 256.
Proof.
  unfold column_type, TypeToMySQL. assert (map_Forall (fun _ p => 0 <= p.1 < 256) typeToMySQL) as H by (apply (bool_decide_unpack _); by vm_compute).
  destruct (typeToMySQL !! f_Type f) as [[t fl]|] eqn:E; cbn; [exact (H _ _ E)|lia].
Qed.

Lemma column_buffer f : short_field f -> buffer_ok (column_payload f).
Proof.
  intros Hf. unfold buffer_ok. rewrite zlen_column_payload by done. pose proof Hf as (H1 & H2 & H3 & H4 & H5).
  apply zlen_lenenc_string in H1, H2, H3, H4, H5. unfold column_length. rewrite !lenEncStringSize_short by apply Hf. unfold_ints. lia.
Qed.

Lemma parse_column_payload (wantfields : bool) index f : field_ok f ->
  (if wantfields then parse_column index (column_payload f) else parse_column_type index (column_payload f)) = Ret (Ok (received wantfields f)).
Proof.
  intros (Hs & Hcs & Hcl & Hd & Hfl & Hty). pose proof (column_buffer f Hs) as HD. pose proof (column_type_range f) as Ht.
  remember (column_payload f) as D eqn:E. unfold column_payload in E. rewrite !uint16_id in E by done.
  change (lenenc_string (bs "def") ++ ?x) with ([] ++ lenenc_string (bs "def") ++ x) in E.
  destruct wantfields; [unfold parse_column|unfold parse_column_type]; change 0 with (zlen (A := byte) []) at 1;
    do 6 read_part E; rewrite (skip_byte _ _ _ _ HD E); rewrite app_assoc in E; do 4 read_part E;
    rewrite b2z_z2b, Z.mod_small by done; rewrite Hty; [|done].
  read_part E. by rewrite b2z_z2b, Z.mod_small by done.
Qed.

(** *** Rows *)

(** The first byte of a length: below 251 or one of the three prefixes, the last of them only for a very long string. *)
Lemma lenenc_head i : 0 <= i -> exists b t, lenenc i = b :: t /\
  (b2z b < 251 \/ b2z b = 252 \/ b2z b = 253 \/ (b2z b = EOFHeader /\ 2 ^ 24 <= i)).
Proof.
  intros Hi. unfold lenenc. destruct (Z.ltb_spec i 251); [|destruct (Z.ltb_spec i (2 ^ 16)); [|destruct (Z.ltb_spec i (2 ^ 24))]].
  - exists (z2b i), []. split; [done|]. left. rewrite b2z_z2b, Z.mod_small by lia. lia.
  - exists (z2b 252), (binary.le_bytes 2 i). split; [done|]. right. by left.
  - exists (z2b 253), (binary.le_bytes 3 i). split; [done|]. right. right. by left.
  - exists (z2b 254), (binary.le_bytes 8 i). split; [done|]. right. right. right. by split.
Qed.

Lemma reads_copy s : reads readLenEncStringAsBytesCopy (lenenc_string s) s.
Proof.
  intros p q H. rewrite <- (reads_string s p q H). unfold lenenc_string in *. rewrite <- app_assoc in *.
  apply readLenEncStringAsBytesCopy_cases; [|done]. unfold buffer_ok in H. rewrite !zlen_app in H.
  pose proof (zlen_nonneg s). pose proof (zlen_nonneg p). pose proof (zlen_nonneg q). pose proof (zlen_nonneg (lenenc (zlen s))). unfold_ints. lia.
Qed.

Lemma parse_row_payload fields row : Forall2 of_type fields row -> forall D p q, buffer_ok D -> D = p ++ row_payload row ++ q ->
  parse_row fields D (zlen p) = Ret (Ok row).
Proof.
  induction 1 as [|f v fields row Hv _ IH]; intros D p q HD E; [done|]. unfold row_payload in E. cbn [fmap list_fmap concat] in E.
  fold (row_payload row) in E. rewrite <- (app_assoc (value_payload v)) in E. cbn [parse_row]. unfold value_payload in E.
  destruct (value_IsNull v) eqn:En.
  - rewrite (index_at D p (z2b NullValue) (row_payload row ++ q)) by (done || by rewrite E). cbn [mbind outcome_bind].
    change (b2z (z2b NullValue) =? NullValue) with true. cbv iota. rewrite (skip_byte _ _ _ _ HD E). rewrite app_assoc in E.
    rewrite (IH D _ q HD E). cbn [tbind]. by rewrite (of_type_null f v).
  - destruct (lenenc_head (zlen (v_val v)) (zlen_nonneg _)) as (b & t & Eb & Hb).
    rewrite (index_at D p b (t ++ v_val v ++ row_payload row ++ q)) by (done || by rewrite E; unfold lenenc_string; rewrite Eb, <- app_assoc).
    cbn [mbind outcome_bind]. rewrite (proj2 (Z.eqb_neq _ _)) by (unfold NullValue, EOFHeader in *; lia).
    erewrite read_or_step; [|done|exact E|apply reads_copy]. rewrite app_assoc in E. rewrite (IH D _ q HD E). cbn [tbind].
    by rewrite (MakeTrusted_of_type f v).
Qed.

(** A row is not taken for the end or for an error. *)
Lemma row_not_special c row : row <> [] -> isEOFPacket c (row_payload row) = Ret false /\ isErrorPacket (row_payload row) = Ret false.
Proof.
  intros Hne. destruct row as [|v row]; [done|]. unfold row_payload. cbn [fmap list_fmap concat]. fold (row_payload row).
  unfold isEOFPacket, isErrorPacket, value_payload. destruct (value_IsNull v).
  - rewrite (index_at _ [] (z2b NullValue) (row_payload row)) by done. done.
  - pose proof (zlen_nonneg (v_val v)) as H0. destruct (lenenc_head (zlen (v_val v)) H0) as (b & t & Eb & Hb). unfold lenenc_string.
    rewrite (index_at _ [] b (t ++ v_val v ++ row_payload row)) by (done || by rewrite Eb, <- !app_assoc). cbn [mbind outcome_bind].
    pose proof (zlen_nonneg (row_payload row)) as H1. pose proof (lenEncIntSize_range (zlen (v_val v))) as H2.
    split; [|by rewrite (proj2 (Z.eqb_neq _ _)) by (unfold ErrHeader, EOFHeader in *; lia)].
    destruct (Z.eqb_spec (b2z b) EOFHeader) as [He|]; [|done]. cbn [negb]. assert (2 ^ 24 <= zlen (v_val v)) by (unfold EOFHeader in *; lia).
    rewrite !zlen_app, zlen_lenenc, !(proj2 (Z.ltb_ge _ _)) by (rewrite ?MaxPacketSize_eq; lia). by case_match.
Qed.

(** *** The end of the rows *)

(** The info a client gets.  The server puts a space before it; without session tracking it sends no length, and the client takes
    the space for one. *)
Definition received_info (c : Conn) (wantinfo : bool) (info : list byte) : list byte :=
  if deprecates_eof c && wantinfo then
    if session_track c then z2b 32 :: info else if zlen info <? 32 then [] else take 32 info
  else [].

Lemma parse_untracked fuel c p headerType : ok_fields p -> ok_length false p + 32 <= MaxInt64 ->
  session_track c = false -> forall t, info p = z2b 32 :: t ->
  parseOKPacket fuel c (ok_payload false p headerType) =
  Some (Ret (Ok (parsed (enableQueryInfo c) p (if zlen t <? 32 then [] else take 32 t)))).
Proof.
  intros Hp Hl Hc t Hi. assert (buffer_ok (ok_payload false p headerType)) as HD by (unfold buffer_ok; rewrite zlen_ok_payload by done; lia).
  assert (zlen (ok_payload false p headerType) + 32 <= MaxInt64) as Hroom by (by rewrite zlen_ok_payload).
  unfold parseOKPacket, ok_payload in *. unfold session_track in Hc. rewrite Hc. set (D := [headerType] ++ _) in *.
  rewrite (parse_ok_start _ p headerType _ D Hp HD eq_refl).
  set (x := [headerType] ++ lenenc (affectedRows p) ++ lenenc (lastInsertID p) ++ binary.le_bytes 2 (statusFlags p) ++ binary.le_bytes 2 (warnings p)).
  assert (D = x ++ lenenc 32 ++ t) as E by (unfold D, x; rewrite Hi, <- !app_assoc; done).
  replace (zlen D - zlen (info p)) with (zlen x) by (rewrite E, Hi; change (lenenc 32) with [z2b 32]; len).
  unfold coder_readLenEncInfo. cbn [c_data c_pos]. pose proof (zlen_nonneg x). pose proof (zlen_nonneg t).
  rewrite E in HD, Hroom |- *. rewrite readLenEncString_cases; [|unfold_ints; lia|done]. unfold classify. change (lenEncIntSize 32) with 1.
  destruct (Z.ltb_spec (zlen t) 32) as [Ht|Ht].
  - rewrite (proj2 (Z.leb_gt _ _)), (proj2 (Z.leb_le _ _)); [done| |lia]. rewrite !zlen_app in Hroom. change (zlen (lenenc 32)) with 1 in Hroom. unfold_ints. lia.
  - by rewrite (proj2 (Z.leb_le _ _)) by lia.
Qed.

(** The end of the rows, as it is read. *)
Definition end_result (wantfields : bool) (fields : list Field) (rows : option (list (list Value))) (flags : Z) (info : list byte) : SqlResult :=
  {| r_Fields := if wantfields then Some fields else None; r_RowsAffected := 0; r_InsertID := 0; r_Rows := rows;
     r_SessionStateChanges := []; r_StatusFlags := flags; r_Info := info |}.

(** The ends agree on how rows end and on session tracking. *)
Definition agree (c r : Conn) : Prop := deprecates_eof r = deprecates_eof c /\ session_track r = session_track c.

Section End.
Context (c r : Conn) (more : bool) (w : Z) (info : list byte).
Hypothesis (Hagree : agree c r) (Hfl : is_uint16 (with_more more (StatusFlags c))) (Hw : is_uint16 w) (Hinfo : zlen info < 2 ^ 16).

Let flags : Z := with_more more (StatusFlags c).
Let p : PacketOK := end_ok flags w (z2b 32 :: info).

Lemma end_fields : ok_fields p /\ ok_length (session_track c) p < 2 ^ 17.
Proof using Hfl Hw Hinfo.
  pose proof (zlen_nonneg info) as H0. split.
  - unfold ok_fields, p, end_ok. cbn. split_and!; try done; rewrite ?zlen_cons, ?zlen_nil; lia.
  - unfold ok_length, p, end_ok. cbn [affectedRows lastInsertID statusFlags warnings OkPacket.info sessionStateData].
    rewrite lenEncStringSize_short by (unfold short_string; rewrite zlen_cons; lia). unfold lenenc_string. rewrite zlen_app, zlen_lenenc, zlen_cons.
    pose proof (lenEncIntSize_range (1 + zlen info)). change (lenEncIntSize 0) with 1. change (zlen (gtid_data [])) with 5.
    repeat case_match; lia.
Qed.

Lemma end_is_eof : isEOFPacket r (end_payload c more w (z2b 32 :: info)) = Ret true.
Proof using Hagree Hfl Hw Hinfo.
  destruct Hagree as [Hd _]. destruct end_fields as [Hp Hl]. unfold isEOFPacket, end_payload. fold flags. fold p. rewrite <- Hd.
  unfold deprecates_eof. destruct (Z.eqb_spec (Z.land (Capabilities r) CapabilityClientDeprecateEOF) 0) as [E|E]; cbn [negb].
  - rewrite (index_at _ [] (z2b EOFHeader) (binary.le_bytes 2 w ++ binary.le_bytes 2 flags)) by done. cbn [mbind outcome_bind].
    change (b2z (z2b EOFHeader) =? EOFHeader) with true. cbn [negb]. unfold eof_payload. by rewrite !zlen_app, !zlen_le_bytes.
  - rewrite (index_at _ [] (z2b EOFHeader) (drop 1 (ok_payload (session_track c) p (z2b EOFHeader)))) by done. cbn [mbind outcome_bind].
    change (b2z (z2b EOFHeader) =? EOFHeader) with true. cbn [negb].
    by rewrite zlen_ok_payload, (proj2 (Z.ltb_lt _ _)) by (done || rewrite MaxPacketSize_eq; lia).
Qed.

Lemma end_eof_parsed : parseEOFPacket (eof_payload flags w) = Ret (Ok (w, flags)).
Proof using Hfl Hw.
  unfold parseEOFPacket. assert (buffer_ok (eof_payload flags w)) as HD by (unfold buffer_ok, eof_payload; by rewrite !zlen_app, !zlen_le_bytes).
  pose proof (reads_uint16 w Hw [z2b EOFHeader] (binary.le_bytes 2 flags) HD) as H1.
  change (zlen [z2b EOFHeader]) with 1 in H1. fold (eof_payload flags w) in H1. rewrite H1. cbn [mbind outcome_bind].
  assert (eof_payload flags w = ([z2b EOFHeader] ++ binary.le_bytes 2 w) ++ binary.le_bytes 2 flags ++ []) as Ee
    by (unfold eof_payload; by rewrite app_nil_r, <- app_assoc).
  rewrite Ee in HD. pose proof (reads_uint16 flags Hfl _ [] HD) as H2. rewrite <- Ee in H2.
  rewrite zlen_app, zlen_le_bytes in H2. change (zlen [z2b EOFHeader] + Z.of_nat 2) with 3 in H2. by rewrite H2.
Qed.

Lemma end_packet_read fuel maxrows wantfields fields rows : (2 <= fuel)%nat ->
  row_packet_of fuel maxrows wantfields fields rows r (end_payload c more w (z2b 32 :: info)) =
  Some (Ret (Ok (RowsEnd (end_result wantfields fields rows flags (received_info c (enableQueryInfo r) info)) (more_results flags) w))).
Proof using Hagree Hfl Hw Hinfo.
  intros Hfuel. pose proof end_is_eof as He. destruct Hagree as [Hd Ht]. destruct end_fields as [Hp Hl]. unfold row_packet_of. rewrite He.
  unfold end_payload, received_info. fold flags. rewrite <- Hd. unfold deprecates_eof.
  destruct (Z.eqb_spec (Z.land (Capabilities r) CapabilityClientDeprecateEOF) 0) as [E|E]; cbn [negb andb]; [by rewrite end_eof_parsed|].
  fold p. unfold parsed_ok. rewrite <- Ht in *. destruct (session_track r) eqn:Hs.
  - rewrite parse_ok_payload; [|done|unfold buffer_ok; rewrite zlen_ok_payload by done; unfold_ints; lia|done|done].
    unfold end_result, p. cbn. by destruct (has_flag flags ServerSessionStateChanged), (enableQueryInfo r).
  - rewrite (parse_untracked fuel r p (z2b EOFHeader) Hp) with (t := info); [|unfold_ints; lia|done|done].
    unfold end_result, p. cbn. by destruct (enableQueryInfo r).
Qed.
End End.

(** *** Reading the packets *)

Lemma query_bind_ok {A B} (m : query_io A) (k : A -> query_io B) c a c1 : m c = Some (Ret (Ok a, c1)) -> (m ≫= k) c = k a c1.
Proof. unfold mbind, query_bind. by intros ->. Qed.

(** The client is between two packets and in step with the peer. *)
Definition ready (r : Conn) : Prop := idle r /\ is_sequence (sequence r).

Lemma ready_after q s r : ready r -> is_sequence s -> ready (after_packet q s r).
Proof. by intros [Hi _]. Qed.

Lemma with_packet_framed {A} (body : Conn -> list byte -> option (outcome (result query_error A))) r p b s q res :
  ready r -> framed (sequence r) p b s -> input r = b ++ q ->
  (forall buf, body (set_ephemeral ephemeralRead buf (after_packet q s r)) p = Some (Ret res)) ->
  with_packet body r = Some (Ret (res, after_packet q s r)).
Proof.
  intros [[Hu Hb] Hs] Hf Hi Hbody. destruct (readEphemeralPacket_framed _ _ _ _ r q Hf Hs eq_refl Hi Hu) as (buf & Hr).
  unfold with_packet. rewrite Hr, Hbody. unfold recycleReadPacket. erewrite io_bind_ok by reflexivity. cbn.
  do 4 f_equal. by destruct r; cbn in *; subst.
Qed.

Lemma read_columns_framed wantfields fields : Forall field_ok fields -> forall index r b s q,
  ready r -> framed_all (sequence r) (column_payload <$> fields) b s -> input r = b ++ q ->
  read_columns wantfields index (length fields) r = Some (Ret (Ok (received wantfields <$> fields), after_packet q s r)).
Proof.
  induction 1 as [|f fields Hf _ IH]; intros index r b s q Hr Hb Hi; inversion Hb as [|s0 p b1 s1 ps b2 s2 H1 H2]; subst.
  - cbn. do 4 f_equal. destruct r; cbn in *; by subst.
  - rewrite <- app_assoc in Hi. cbn [length read_columns]. erewrite query_bind_ok; [|apply (with_packet_framed _ _ _ _ _ (b2 ++ q) (Ok (received wantfields f)) Hr H1 Hi);
      intros buf; f_equal; by apply parse_column_payload].
    cbv beta. erewrite query_bind_ok; [|by apply (IH (index + 1) _ b2 s q); [apply ready_after; [|eapply framed_sequence]|..]]. done.
Qed.

Section Rows.
Context (fields : list Field) (maxrows : Z) (wantfields : bool).

Definition received_fields : list Field := received wantfields <$> fields.

Lemma of_received row : Forall2 of_type fields row -> Forall2 of_type received_fields row.
Proof. intros H. unfold received_fields. rewrite Forall2_fmap_l. eapply Forall2_impl; [exact H|]. by destruct wantfields. Qed.

Definition row_ok (row : list Value) : Prop := fields <> [] /\ Forall2 of_type fields row /\ zlen (row_payload row) < 2 ^ 62.

Lemma row_packet_row fuel rows row r : row_ok row ->
  row_packet_of fuel maxrows wantfields received_fields rows r (row_payload row) =
  Some (Ret (Ok (if Z.of_nat (length (elems rows)) =? maxrows then RowTooMany else OneRow row))).
Proof.
  intros (Hne & Hrow & Hz). destruct (row_not_special r row) as [He Herr].
  { intros ->. apply Forall2_length in Hrow. by destruct fields. }
  unfold row_packet_of. rewrite He, Herr. cbn [mbind outcome_bind]. case_match; [done|]. unfold parseRow.
  assert (buffer_ok (row_payload row)) as HD by (unfold buffer_ok; unfold_ints; lia).
  pose proof (parse_row_payload received_fields row (of_received row Hrow) (row_payload row) [] [] HD) as Hparse.
  rewrite app_nil_r in Hparse. change (zlen (A := byte) []) with 0 in Hparse. by rewrite Hparse.
Qed.

(** The rows are read one after the other. *)
Lemma read_rows_framed new : Forall row_ok new -> forall fuel rows r b s q,
  ready r -> framed_all (sequence r) (row_payload <$> new) b s -> input r = b ++ q ->
  (maxrows < 0 \/ Z.of_nat (length (elems rows) + length new) <= maxrows) -> (length new <= fuel)%nat ->
  read_rows fuel maxrows wantfields received_fields rows r =
  read_rows (fuel - length new) maxrows wantfields received_fields (append_all rows new) (after_packet q s r).
Proof.
  induction 1 as [|row new Hrow _ IH]; intros fuel rows r b s q Hr Hb Hi Hmax Hfuel; inversion Hb as [|s0 p b1 s1 ps b2 s2 H1 H2]; subst.
  - cbn [length]. rewrite Nat.sub_0_r. f_equal; [by destruct rows; cbn; rewrite ?app_nil_r|]. destruct r; cbn in *; by subst.
  - rewrite <- app_assoc in Hi. destruct fuel as [|fuel]; [cbn in Hfuel; lia|]. cbn [length] in *. cbn [read_rows].
    erewrite query_bind_ok; [|apply (with_packet_framed _ _ _ _ _ (b2 ++ q) (Ok (OneRow row)) Hr H1 Hi); intros buf; rewrite row_packet_row by done;
      by rewrite (proj2 (Z.eqb_neq _ _)) by lia].
    cbv beta iota. rewrite (IH fuel _ _ b2 s q); [|by apply ready_after; [|eapply framed_sequence]|done|done| |lia].
    + cbn [Nat.sub]. f_equal. cbn. destruct rows; cbn; by rewrite <- ?app_assoc.
    + cbn [elems append_one]. destruct rows; cbn in *; rewrite ?length_app; cbn [length]; lia.
Qed.

(** The packets after one row too many are read up to the end. *)
Lemma drainResults_framed new : Forall row_ok new -> forall fuel r b s q p,
  ready r -> framed_all (sequence r) ((row_payload <$> new) ++ [p]) b s -> input r = b ++ q -> (length new < fuel)%nat ->
  (forall r', Capabilities r' = Capabilities r -> isEOFPacket r' p = Ret true) ->
  drainResults fuel r = Some (Ret (Ok tt, after_packet q s r)).
Proof.
  induction 1 as [|row new Hrow _ IH]; intros fuel r b s q p Hr Hb Hi Hfuel Hp; (destruct fuel as [|fuel]; [lia|]);
    inversion Hb as [|s0 p0 b1 s1 ps b2 s2 H1 H2]; subst; rewrite <- app_assoc in Hi; cbn [drainResults].
  - inversion H2; subst. erewrite query_bind_ok; [|apply (with_packet_framed _ _ _ _ _ _ (Ok true) Hr H1 Hi); intros buf; by rewrite Hp]. done.
  - destruct (row_not_special r row) as [_ Herr].
    { destruct Hrow as (Hne & Hrow & _). intros ->. apply Forall2_length in Hrow. by destruct fields. }
    erewrite query_bind_ok; [|apply (with_packet_framed _ _ _ _ _ (b2 ++ q) (Ok false) Hr H1 Hi); intros buf;
      rewrite (proj1 (row_not_special _ row ltac:(by destruct Hrow as (Hne & Hrow & _); intros ->; apply Forall2_length in Hrow; destruct fields)));
      cbn [mbind outcome_bind]; by rewrite Herr].
    cbv beta iota. rewrite (IH fuel _ b2 s q p); [done|by apply ready_after; [|eapply framed_sequence]|done|done|cbn in *; lia|done].
Qed.
End Rows.

(** *** The whole result *)

Lemma row_ok_short fields row : row_ok fields row -> short_row row.
Proof.
  intros (_ & Hrow & Hz). split; [|unfold_ints; lia]. revert Hz. unfold row_payload.
  induction Hrow as [|f v fields row Hv _ IH]; [done|]. cbn [fmap list_fmap concat]. rewrite zlen_app. intros Hz.
  pose proof (zlen_nonneg (concat (value_payload <$> row))) as H0. pose proof (zlen_nonneg (value_payload v)) as H1.
  constructor; [|apply IH; lia]. unfold value_payload at 1, lenenc_string in Hz. destruct (value_IsNull v) eqn:En.
  - by rewrite (of_type_null f v Hv En).
  - rewrite zlen_app in Hz. pose proof (zlen_nonneg (lenenc (zlen (v_val v)))). lia.
Qed.

Lemma query_response_count fuel c n : 1 <= n < 2 ^ 62 ->
  query_response fuel c (lenenc n) = Some (Ret (Ok (n,
    {| affectedRows := 0; lastInsertID := 0; statusFlags := 0; warnings := 0; info := []; sessionStateData := [] |}))).
Proof.
  intros Hn. destruct (lenenc_head n ltac:(lia)) as (b & t & Eb & Hb).
  assert (b2z b <> OKPacket) as Hok.
  { intros H. unfold lenenc in Eb. revert Eb. repeat case_match; intros [= <- <-]; try done.
    zify_tests. rewrite b2z_z2b, Z.mod_small in H by lia. unfold OKPacket in H. lia. }
  unfold query_response. rewrite Eb. unfold OKPacket, ErrHeader, EOFHeader in *.
  rewrite !(proj2 (Z.eqb_neq _ _)) by lia. rewrite <- Eb.
  pose proof (readLenEncInt_here [] [] n) as H. rewrite app_nil_r in H. cbn [app] in H. change (zlen (A := byte) []) with 0 in H.
  rewrite H; [|unfold_ints; lia|unfold buffer_ok; rewrite zlen_lenenc; pose proof (lenEncIntSize_range n); unfold_ints; lia].
  cbn [mbind outcome_bind negb]. rewrite Z.add_0_l, <- zlen_lenenc, Z.eqb_refl. cbn [negb]. by rewrite int64_id by (unfold_ints; lia).
Qed.

Lemma agree_after c r q s : agree c r -> agree c (after_packet q s r).
Proof. done. Qed.

(** The packets before the rows. *)
Lemma read_header fields c r fuel maxrows wantfields b s q : fields <> [] -> Forall field_ok fields -> Z.of_nat (length fields) < 2 ^ 62 ->
  agree c r -> ready r -> framed_all (sequence r) (header_packets (negb (deprecates_eof c)) (StatusFlags c) fields) b s -> input r = b ++ q ->
  ReadQueryResult fuel maxrows wantfields r = read_rows fuel maxrows wantfields (received_fields fields wantfields) None (after_packet q s r).
Proof.
  intros Hne Hf Hn [Hd _] Hr Hb Hi. inversion Hb as [|s0 p0 b1 s1 ps b2 s2 H1 H2]; subst.
  apply framed_all_app in H2 as (b3 & s3 & b4 & H3 & H4 & ->). rewrite <- !app_assoc in Hi. unfold ReadQueryResult, readComQueryResponse.
  assert (1 <= Z.of_nat (length fields)) as H0 by (destruct fields; cbn [length] in *; [done|lia]).
  erewrite query_bind_ok; [|eapply (with_packet_framed _ _ _ _ _ (b3 ++ b4 ++ q) _ Hr H1 Hi); intros buf; by apply query_response_count].
  cbv beta iota. rewrite (proj2 (Z.eqb_neq _ _)), (proj2 (Z.ltb_ge _ _)), Nat2Z.id by lia.
  set (r1 := after_packet (b3 ++ b4 ++ q) s1 r). assert (ready r1) as Hr1 by (apply ready_after; [done|by eapply framed_sequence]).
  erewrite query_bind_ok; [|by apply (read_columns_framed wantfields fields Hf 0 r1 b3 s3 (b4 ++ q) Hr1 H3)]. cbv beta.
  set (r2 := after_packet (b4 ++ q) s3 r1). assert (ready r2) as Hr2 by (apply ready_after; [done|by eapply framed_all_sequence; [|apply Hr1]]).
  unfold deprecates_eof in Hd, H4.
  destruct (Z.eqb_spec (Z.land (Capabilities r) CapabilityClientDeprecateEOF) 0) as [E|E]; cbn [negb] in Hd; rewrite <- Hd in H4; cbn [negb] in H4.
  - inversion H4 as [|s5 p5 b5 s6 ps5 b6 s7 H5 H6]; subst. inversion H6; subst. rewrite app_nil_r in *.
    erewrite query_bind_ok; [reflexivity|]. cbv beta. change (Capabilities r2) with (Capabilities r). rewrite E.
    apply (with_packet_framed _ _ _ _ _ q (Ok tt) Hr2 H5); [by cbn; rewrite app_nil_r|]. intros buf. unfold fields_end, isEOFPacket.
    change (Capabilities (set_ephemeral _ _ _)) with (Capabilities r). by rewrite E.
  - inversion H4; subst. erewrite query_bind_ok; [reflexivity|]. cbv beta. change (Capabilities r2) with (Capabilities r).
    by rewrite (proj2 (Z.eqb_neq _ _)).
Qed.

(** The results a handler streams: the first has the fields, all rows have their types, and the info is not long. *)
Definition good_results (fields : list Field) (results : list SqlResult) (info : list byte) : Prop :=
  fields <> [] /\ Forall field_ok fields /\ Z.of_nat (length fields) < 2 ^ 62 /\
  (exists r rest, results = r :: rest /\ elems (r_Fields r) = fields) /\ Forall (row_ok fields) (all_rows results) /\
  (exists r, last results = Some r /\ r_Info r = info) /\ zlen info < 2 ^ 16.

Lemma good_results_short fields results info : good_results fields results info ->
  short_results fields results /\ last_info results = z2b 32 :: info /\ short_string (last_info results).
Proof.
  intros (Hne & Hf & Hn & Hr & Hrows & (l & Hl & <-) & Hi). assert (last_info results = z2b 32 :: r_Info l) as E by (unfold last_info; by rewrite Hl).
  split; [|split; [done|unfold short_string; rewrite E, zlen_cons; lia]].
  split_and!; [done|by eapply Forall_impl; [exact Hf|intros f [? _]]|done|done|].
  eapply Forall_impl; [exact Hrows|]. apply row_ok_short.
Qed.

Lemma more_results_with more flags : Z.land flags ServerMoreResultsExists = 0 -> more_results (with_more more flags) = more.
Proof.
  intros H. unfold more_results, with_more. destruct more; [|by rewrite H].
  by rewrite Z.land_lor_distr_l, H.
Qed.

(** The rows and the end: all the rows, or an error when there are too many. *)
Section ReadRows.
Context (fields : list Field) (rows : list (list Value)) (info : list byte) (c r : Conn) (more : bool) (w : Z).
Context (fuel : nat) (maxrows : Z) (wantfields : bool) (b : list byte) (s : Z) (q : list byte).
Hypothesis (Hrows : Forall (row_ok fields) rows) (Hinfo : zlen info < 2 ^ 16) (Ha : agree c r) (Hr : ready r).
Hypothesis (Hfl : is_uint16 (with_more more (StatusFlags c))) (Hw : is_uint16 w).
Hypothesis Hb : framed_all (sequence r) ((row_payload <$> rows) ++ [end_payload c more w (z2b 32 :: info)]) b s.
Hypothesis (Hin : input r = b ++ q) (Hfuel : (length rows + 2 <= fuel)%nat).

Let rf : list Field := received_fields fields wantfields.
Let flags : Z := with_more more (StatusFlags c).

Lemma read_rows_fit : maxrows < 0 \/ Z.of_nat (length rows) <= maxrows ->
  read_rows fuel maxrows wantfields rf None r =
  Some (Ret (Ok (end_result wantfields rf (append_all None rows) flags (received_info c (enableQueryInfo r) info), more_results flags, w), after_packet q s r)).
Proof using Hrows Hinfo Ha Hr Hfl Hw Hb Hin Hfuel.
  intros Hmax. apply framed_all_app in Hb as (b1 & s1 & b2 & H1 & H2 & ->). rewrite <- app_assoc in Hin. unfold rf.
  rewrite (read_rows_framed fields maxrows wantfields rows Hrows fuel None r b1 s1 (b2 ++ q)); [|done|done|done|cbn; lia|lia].
  destruct (fuel - length rows)%nat as [|fuel'] eqn:Ef; [lia|]. cbn [read_rows].
  inversion H2 as [|s3 p3 b3 s4 ps b4 s5 H3 H4]; subst. inversion H4; subst. rewrite app_nil_r in *.
  assert (ready (after_packet (b3 ++ q) s1 r)) as Hr' by (by apply ready_after; [|eapply framed_all_sequence; [|apply Hr]]).
  erewrite query_bind_ok; [|apply (with_packet_framed _ (after_packet (b3 ++ q) s1 r) _ _ _ q
    (Ok (RowsEnd (end_result wantfields rf (append_all None rows) flags (received_info c (enableQueryInfo r) info)) (more_results flags) w)) Hr' H3 eq_refl);
    intros buf; by rewrite end_packet_read by (done || lia)]. done.
Qed.

Lemma read_rows_exceed : 0 <= maxrows < Z.of_nat (length rows) ->
  read_rows fuel maxrows wantfields rf None r = Some (Ret (Err (RowCountExceeded maxrows), after_packet q s r)).
Proof using Hrows Hinfo Ha Hr Hfl Hw Hb Hin Hfuel.
  intros Hmax. rewrite <- (take_drop (Z.to_nat maxrows) rows) in Hb, Hrows. rewrite fmap_app, <- app_assoc in Hb.
  apply framed_all_app in Hb as (b1 & s1 & b2 & H1 & H2 & ->). rewrite <- app_assoc in Hin. apply Forall_app in Hrows as [Hr1 Hr2].
  assert (length (take (Z.to_nat maxrows) rows) = Z.to_nat maxrows) as Hlen by (rewrite length_take; lia). unfold rf.
  rewrite (read_rows_framed fields maxrows wantfields _ Hr1 fuel None r b1 s1 (b2 ++ q)); [|done|done|done|cbn; lia|lia].
  destruct (drop (Z.to_nat maxrows) rows) as [|row rest] eqn:Ed; [apply (f_equal length) in Ed; rewrite length_drop in Ed; cbn in Ed; lia|].
  assert (length rest < fuel - Z.to_nat maxrows - 1)%nat as Hrest by (apply (f_equal length) in Ed; rewrite length_drop in Ed; cbn in Ed; lia).
  apply Forall_cons in Hr2 as [Hrow Hr2]. rewrite Hlen. destruct (fuel - Z.to_nat maxrows)%nat as [|fuel'] eqn:Ef; [lia|].
  inversion H2 as [|s3 p3 b3 s4 ps b4 s5 H3 H4]; subst. rewrite <- app_assoc. cbn [read_rows].
  assert (ready (after_packet (b3 ++ b4 ++ q) s1 r)) as Hr' by (by apply ready_after; [|eapply framed_all_sequence; [|apply Hr]]).
  erewrite query_bind_ok; [|eapply (with_packet_framed _ _ _ _ _ (b4 ++ q) (Ok RowTooMany) Hr' H3 eq_refl); intros buf;
    rewrite row_packet_row by done; rewrite (proj2 (Z.eqb_eq _ _)); [done|]; destruct (take _ rows); cbn in *; lia].
  cbv beta iota. erewrite query_bind_ok; [|eapply (drainResults_framed fields rest Hr2 fuel' _ b4 s q); [|done|done|lia|]].
  - done.
  - by apply ready_after; [|eapply framed_sequence].
  - intros r' Hcap. apply end_is_eof; try done. unfold agree, deprecates_eof, session_track in *. by rewrite Hcap.
Qed.
End ReadRows.
