(* ===== verification/QueryAnswer.v ===== *)
(** * Queries and their answers

    The two ends of the text protocol put together: [execQuery] and [handleComQuery] of [go/mysql/conn.go] on the side of the server,
    with an arbitrary handler, and [ReadQueryResult] and [ExecuteFetchMulti] of [query.go] on the side of the client.  What the
    handler has returned for each statement of a text is what the client gets. *)

From S2P Require Import Prelude Intervals GoStd Encoding SqlTypes Packet OkPacket ResultSet.

(** ** A statement and its answer *)

(** The packet for a statement without rows. *)
Definition statement_ok (flags w : Z) (qr : SqlResult) : PacketOK :=
  {| affectedRows := r_RowsAffected qr; lastInsertID := r_InsertID qr; statusFlags := flags; warnings := w; info := r_Info qr;
     sessionStateData := r_SessionStateChanges qr |}.

(** What a client gets for it. *)
Definition ok_result (wantinfo : bool) (flags : Z) (qr : SqlResult) : SqlResult :=
  {| r_Fields := None; r_RowsAffected := r_RowsAffected qr; r_InsertID := r_InsertID qr; r_Rows := None;
     r_SessionStateChanges := if has_flag flags ServerSessionStateChanged then r_SessionStateChanges qr else []; r_StatusFlags := flags;
     r_Info := if wantinfo then r_Info qr else [] |}.

(** What a client of the server [c] is to get for an answer: the rows of all results the handler has called back with, or the counts of a
    statement without rows. *)
Inductive expects (c : Conn) (wantinfo wantfields more : bool) : answer -> SqlResult -> Prop :=
| expects_rows fields results info w : good_results fields results info -> is_uint16 w ->
    expects c wantinfo wantfields more {| a_results := results; a_err := None; a_warnings := w |}
      (end_result wantfields (received_fields fields wantfields) (append_all None (all_rows results)) (with_more more (StatusFlags c))
         (received_info c wantinfo info))
| expects_ok qr w : elems (r_Fields qr) = [] -> elems (r_Rows qr) = [] -> session_track c = true -> ok_fields (statement_ok (with_more more (StatusFlags c)) w qr) ->
    ok_length true (statement_ok (with_more more (StatusFlags c)) w qr) + 4 <= MaxInt64 ->
    expects c wantinfo wantfields more {| a_results := [qr]; a_err := None; a_warnings := w |} (ok_result wantinfo (with_more more (StatusFlags c)) qr).

(** The number of rows of an answer. *)
Definition row_count (a : answer) : nat := length (all_rows (a_results a)).

Lemma exec_rows stale fields results info w more c : good_results fields results info -> is_uint16 w -> idle c -> breaks c = None ->
  is_uint16 (with_more more (StatusFlags c)) ->
  exists b s, framed_all (sequence c) (result_packets c more w fields (all_rows results) (z2b 32 :: info)) b s /\
    execQuery stale w more results None c = Ret (execSuccess, set_sequence s (set_output (output c ++ b) None c)).
Proof.
  intros Hg Hw Hi Hb Hfl. destruct (good_results_short _ _ _ Hg) as (Hshort & Hinfo & Hinfo').
  destruct (framed_all_total (sequence c) (result_packets c more w fields (all_rows results) (z2b 32 :: info))) as (b & s & Hf).
  exists b, s. split; [done|]. rewrite <- Hinfo in Hf. by eapply execQuery_delivers.
Qed.

Lemma exec_ok stale qr w more c : elems (r_Fields qr) = [] -> session_track c = true ->
  let p := statement_ok (with_more more (StatusFlags c)) w qr in ok_fields p -> ok_length true p + 4 <= MaxInt64 -> idle c -> breaks c = None ->
  exists b s, framed (sequence c) (ok_payload true p (z2b OKPacket)) b s /\
    execQuery stale w more [qr] None c = Ret (execSuccess, set_sequence s (set_output (output c ++ b) None c)).
Proof.
  intros Hf Ht p Hp Hl Hi Hb. unfold session_track in Ht. destruct (writeOKPacket_sends stale p (z2b OKPacket) c Hi Hp) as (b & s & Hfr & Hs); [by rewrite Ht|].
  rewrite Ht in Hfr. exists b, s. split; [done|]. apply sends_unbroken in Hs; [|done]. unfold execQuery. cbn [stream].
  erewrite io_bind_ok; [|unfold callback; step; cbn [sendFinished callbackCalled negb]; rewrite decide_True by (by rewrite Hf); exact Hs].
  cbn. by rewrite bool_decide_eq_true_2 by (by rewrite Hf).
Qed.

(** A client of the server [c] between two packets, in step with it. *)
Definition client_of (c r : Conn) (wantinfo : bool) : Prop :=
  agree c r /\ enableQueryInfo r = wantinfo /\ idle r /\ sequence r = sequence c.

Lemma read_rows_answer fields results info w more c r wantfields b s q fuel maxrows : good_results fields results info -> is_uint16 w ->
  is_uint16 (with_more more (StatusFlags c)) -> is_sequence (sequence c) -> client_of c r (enableQueryInfo r) ->
  framed_all (sequence c) (result_packets c more w fields (all_rows results) (z2b 32 :: info)) b s -> input r = b ++ q ->
  (length (all_rows results) + 2 <= fuel)%nat ->
  (maxrows < 0 \/ Z.of_nat (length (all_rows results)) <= maxrows ->
    ReadQueryResult fuel maxrows wantfields r = Some (Ret (Ok (end_result wantfields (received_fields fields wantfields) (append_all None (all_rows results))
      (with_more more (StatusFlags c)) (received_info c (enableQueryInfo r) info), more_results (with_more more (StatusFlags c)), w), after_packet q s r))) /\
  (0 <= maxrows < Z.of_nat (length (all_rows results)) ->
    ReadQueryResult fuel maxrows wantfields r = Some (Ret (Err (RowCountExceeded maxrows), after_packet q s r))).
Proof.
  intros Hg Hw Hfl Hs (Ha & _ & Hr & Hseq) Hfr Hin Hfuel. unfold result_packets in Hfr. apply framed_all_app in Hfr as (b1 & s1 & b2 & H1 & H2 & ->).
  assert (is_sequence s1) as Hs1 by (by eapply framed_all_sequence). destruct Hg as (Hne & Hfok & Hn & _ & Hrows & _ & Hinfo).
  rewrite <- app_assoc in Hin. rewrite <- Hseq in Hs, H1.
  rewrite (read_header fields c r fuel maxrows wantfields b1 s1 (b2 ++ q)) by done.
  change (after_packet q s r) with (after_packet q s (after_packet (b2 ++ q) s1 r)). split; intros Hmax.
  - by rewrite (read_rows_fit fields (all_rows results) info c (after_packet (b2 ++ q) s1 r) more w fuel maxrows wantfields b2 s q).
  - by rewrite (read_rows_exceed fields (all_rows results) info c (after_packet (b2 ++ q) s1 r) more w fuel maxrows wantfields b2 s q).
Qed.

Lemma read_ok_answer qr w more c r wantfields b s q fuel maxrows : session_track c = true ->
  let p := statement_ok (with_more more (StatusFlags c)) w qr in ok_fields p -> ok_length true p + 4 <= MaxInt64 ->
  is_sequence (sequence c) -> client_of c r (enableQueryInfo r) ->
  framed (sequence c) (ok_payload true p (z2b OKPacket)) b s -> input r = b ++ q -> (2 <= fuel)%nat ->
  ReadQueryResult fuel maxrows wantfields r =
  Some (Ret (Ok (ok_result (enableQueryInfo r) (with_more more (StatusFlags c)) qr, more_results (with_more more (StatusFlags c)), w), after_packet q s r)).
Proof.
  intros Ht p Hp Hl Hs (Ha & _ & Hr & Hseq) Hfr Hin Hfuel. rewrite <- Hseq in Hs, Hfr. unfold ReadQueryResult, readComQueryResponse.
  erewrite query_bind_ok; [|apply (with_packet_framed _ r (ok_payload true p (z2b OKPacket)) b s q
    (Ok (0, with_session (parsed (enableQueryInfo r) p (info p)) (if has_flag (statusFlags p) ServerSessionStateChanged then sessionStateData p else []))));
    [done|done|done|]]; [done|].
  intros buf. assert (exists l, ok_payload true p (z2b OKPacket) = z2b OKPacket :: l) as [l El] by (by eexists).
  unfold query_response. rewrite El. change (b2z (z2b OKPacket) =? OKPacket) with true. cbv iota. unfold parsed_ok.
  rewrite <- El, parse_ok_payload; [done|done|unfold buffer_ok; rewrite zlen_ok_payload by done; lia| |done].
  destruct Ha as [_ Ha]. unfold session_track in *. cbn. by rewrite Ha.
Qed.

(** A statement is executed and its answer read. *)
Lemma exchange stale c wantinfo wantfields more a res : expects c wantinfo wantfields more a res ->
  idle c -> breaks c = None -> is_uint16 (with_more more (StatusFlags c)) -> is_sequence (sequence c) ->
  exists b s, execQuery stale (a_warnings a) more (a_results a) (a_err a) c = Ret (execSuccess, set_sequence s (set_output (output c ++ b) None c)) /\
    is_sequence s /\
    forall r q fuel maxrows, client_of c r wantinfo -> input r = b ++ q -> (row_count a + 2 <= fuel)%nat ->
    (maxrows < 0 \/ Z.of_nat (row_count a) <= maxrows ->
      ReadQueryResult fuel maxrows wantfields r = Some (Ret (Ok (res, more_results (with_more more (StatusFlags c)), a_warnings a), after_packet q s r))) /\
    (0 <= maxrows < Z.of_nat (row_count a) ->
      ReadQueryResult fuel maxrows wantfields r = Some (Ret (Err (RowCountExceeded maxrows), after_packet q s r))).
Proof.
  intros He Hi Hb Hfl Hs. destruct He as [fields results info w Hg Hw|qr w Hf Hrows Ht Hp Hl].
  - destruct (exec_rows stale fields results info w more c Hg Hw Hi Hb Hfl) as (b & s & Hfr & Hex). exists b, s.
    split; [done|]. split; [by apply (framed_all_sequence _ _ _ _ Hfr)|]. intros r q fuel maxrows Hr Hin Hfuel.
    pose proof Hr as (_ & <- & _). by apply (read_rows_answer fields results info w more c r wantfields b s q fuel maxrows).
  - destruct (exec_ok stale qr w more c Hf Ht Hp Hl Hi Hb) as (b & s & Hfr & Hex). exists b, s. split; [done|].
    split; [by eapply framed_sequence|]. intros r q fuel maxrows Hr Hin Hfuel. pose proof Hr as (_ & <- & _).
    pose proof (read_ok_answer qr w more c r wantfields b s q fuel maxrows Ht Hp Hl Hs Hr Hfr Hin ltac:(lia)) as E.
    split; intros Hmax; [by rewrite E|]. unfold row_count, all_rows in Hmax. cbn in Hmax. rewrite Hrows in Hmax. cbn in Hmax. lia.
Qed.

(** The answer of a statement reaches the client.  Whatever a handler streams, rows in any number of results or the counts of a statement
    without rows, is what [ReadQueryResult] returns, with the number of warnings and whether more results follow; a client that
    allows fewer rows gets an error instead.  In both cases it has read the answer up to its end, so that it is in step
    with the server. *)
Theorem Statement_answered (stale : Z -> list byte) (c : Conn) (wantinfo wantfields more : bool) (a : answer) (res : SqlResult) :
  idle c -> breaks c = None -> is_sequence (sequence c) -> is_uint16 (with_more more (StatusFlags c)) ->
  Z.land (StatusFlags c) ServerMoreResultsExists = 0 -> expects c wantinfo wantfields more a res ->
  exists b c', execQuery stale (a_warnings a) more (a_results a) (a_err a) c = Ret (execSuccess, c') /\ output c' = output c ++ b /\ idle c' /\
    forall r q fuel maxrows, client_of c r wantinfo -> input r = b ++ q -> (row_count a + 2 <= fuel)%nat ->
    exists r', ReadQueryResult fuel maxrows wantfields r =
        Some (Ret (if (maxrows <? 0) || (Z.of_nat (row_count a) <=? maxrows) then Ok (res, more, a_warnings a)
                   else Err (RowCountExceeded maxrows), r')) /\
      input r' = q /\ sequence r' = sequence c' /\ idle r'.
Proof.
  intros Hi Hb Hs Hfl Hm He. destruct (exchange stale c wantinfo wantfields more a res He Hi Hb Hfl Hs) as (b & s & Hex & _ & Hread).
  exists b, (set_sequence s (set_output (output c ++ b) None c)). split_and!; [done|done|done|]. intros r q fuel maxrows Hr Hin Hfuel.
  exists (after_packet q s r). split; [|split_and!; [done|done|apply Hr]]. destruct (Hread r q fuel maxrows Hr Hin Hfuel) as [H1 H2].
  rewrite more_results_with in H1 by done.
  destruct (Z.ltb_spec maxrows 0); [apply H1; by left|]. destruct (Z.leb_spec (Z.of_nat (row_count a)) maxrows); [apply H1; by right|apply H2; lia].
Qed.

(** Two columns, three rows in two results, and a statement without rows. *)
Definition sample_field (name : list byte) (t : Z) : Field :=
  {| f_Name := name; f_Type := t; f_Table := bs "t"; f_OrgTable := bs "t"; f_Database := bs "db"; f_OrgName := name; f_ColumnLength := 11;
     f_Charset := 63; f_Decimals := 0; f_Flags := 0; f_ColumnType := [] |}.

Definition sample_fields : list Field := [sample_field (bs "id") Type_INT64; sample_field (bs "name") Type_VARCHAR].

Definition sample_row (id : list byte) (name : Value) : list Value := [MakeTrusted Type_INT64 id; name].

Definition sample_result (fields : option (list Field)) (rows : list (list Value)) : SqlResult :=
  {| r_Fields := fields; r_RowsAffected := 0; r_InsertID := 0; r_Rows := Some rows; r_SessionStateChanges := []; r_StatusFlags := 0; r_Info := [] |}.

Definition sample_results : list SqlResult :=
  [sample_result (Some sample_fields) [sample_row (bs "1") (MakeTrusted Type_VARCHAR (bs "a"))];
   sample_result None [sample_row (bs "2") NULL; sample_row (bs "3") (MakeTrusted Type_VARCHAR [])]].

Definition sample_insert : SqlResult :=
  {| r_Fields := None; r_RowsAffected := 1; r_InsertID := 7; r_Rows := None; r_SessionStateChanges := bs "uuid:1-5"; r_StatusFlags := 0; r_Info := [] |}.

Lemma sample_good : good_results sample_fields sample_results [].
Proof.
  split_and!; [done| |done|by do 2 eexists| |by eexists|done].
  - repeat constructor; by vm_compute.
  - repeat constructor; try done; by right.
Qed.

Example Statement_answered_witness :
  exists b c', execQuery (fun _ => bs "stale") 0 false sample_results None session_conn = Ret (execSuccess, c') /\ output c' = b /\
    forall maxrows, exists r', ReadQueryResult 5 maxrows false (set_input b session_conn) =
      Some (Ret (if (maxrows <? 0) || (3 <=? maxrows) then
          Ok ({| r_Fields := None; r_RowsAffected := 0; r_InsertID := 0; r_Rows := Some (all_rows sample_results);
                 r_SessionStateChanges := []; r_StatusFlags := 2; r_Info := [] |}, false, 0)
        else Err (RowCountExceeded maxrows), r')) /\ input r' = [].
Proof.
  destruct (Statement_answered (fun _ => bs "stale") session_conn true false false {| a_results := sample_results; a_err := None; a_warnings := 0 |}
    {| r_Fields := None; r_RowsAffected := 0; r_InsertID := 0; r_Rows := Some (all_rows sample_results);
       r_SessionStateChanges := []; r_StatusFlags := 2; r_Info := [] |}) as (b & c' & Hex & Ho & _ & Hread);
    [by split|done|by vm_compute|by vm_compute|done|exact (expects_rows _ _ _ _ sample_fields _ [] 0 sample_good ltac:(by vm_compute))|].
  exists b, c'. split; [exact Hex|]. split; [exact Ho|]. intros maxrows.
  destruct (Hread (set_input b session_conn) [] 5%nat maxrows) as (r' & Hr & Hin & _); [by repeat split|by rewrite app_nil_r|by vm_compute; lia|].
  exists r'. split; [exact Hr|exact Hin].
Defined.

(** ** A statement that fails *)

(** The error that [execQuery] reports for a handler that returns before its first result. *)
Definition reported_error (err : option handler_error) : SQLError :=
  match err with
  | None | Some HandlerEOF => unexpected_end
  | Some (HandlerError (inl se)) => se
  | Some (HandlerError (inr text)) => {| Num := ERUnknownError; State := SSUnknownSQLState; Message := bs "unknown error: " ++ text |}
  end.

Lemma exec_failure stale err w more c : idle c -> breaks c = None -> error_fits (reported_error err) ->
  exists b s, framed (sequence c) (sql_error_payload (reported_error err)) b s /\
    execQuery stale w more [] err c = Ret (execErr, set_sequence s (set_output (output c ++ b) None c)).
Proof.
  intros Hi Hb He. destruct (writeErrorPacketFromError_sends stale _ c Hi Hb He) as (b & s & Hf & Hw). exists b, s. split; [done|].
  unfold execQuery. cbn [stream mret io_ret callbackCalled negb].
  assert (writeErrorPacketFromError stale (match err with None | Some HandlerEOF => inl unexpected_end | Some (HandlerError e) => e end) c =
    writeErrorPacketFromError stale (inl (reported_error err)) c) as -> by (by destruct err as [[|[se|text]]|]).
  by rewrite Hw.
Qed.

Lemma read_failure se c r wantfields b s q fuel maxrows : error_fits se -> is_sequence (sequence c) -> client_of c r (enableQueryInfo r) ->
  framed (sequence c) (sql_error_payload se) b s -> input r = b ++ q ->
  ReadQueryResult fuel maxrows wantfields r = Some (Ret (Err (QueryFailed se), after_packet q s r)).
Proof.
  intros He Hs (_ & _ & Hr & Hseq) Hf Hin. rewrite <- Hseq in Hs, Hf. unfold ReadQueryResult, readComQueryResponse.
  assert (with_packet (query_response fuel) r = Some (Ret (Err (QueryFailed se), after_packet q s r))) as E.
  { apply (with_packet_framed _ r (sql_error_payload se) b s q); [done..|]. intros buf.
    change (query_response fuel (set_ephemeral ephemeralRead buf (after_packet q s r)) (sql_error_payload se))
      with (Some (error_packet (A := Z * PacketOK) (sql_error_payload se))).
    unfold error_packet. by rewrite ParseErrorPacket_payload. }
  unfold mbind, query_bind. by rewrite E.
Qed.

(** ** A text of several statements *)

(** A client that fetches results as long as there are more, as [ExecuteFetchMulti] asks for: the results up to the first error, and that error. *)
Definition fetched : Type := option (outcome (list SqlResult * option query_error * Conn)).

Definition and_then (res : SqlResult) (rest : fetched) : fetched :=
  match rest with
  | Some (Ret (ress, e, c)) => Some (Ret (res :: ress, e, c))
  | _ => rest
  end.

Fixpoint fetch_all (n fuel : nat) (maxrows : Z) (wantfields : bool) (c : Conn) : fetched :=
  match n with
  | O => None
  | S n =>
      match ReadQueryResult fuel maxrows wantfields c with
      | None => None
      | Some Panic => Some Panic
      | Some (Ret (Err e, c)) => Some (Ret ([], Some e, c))
      | Some (Ret (Ok (res, more, _), c)) =>
          if more : bool then and_then res (fetch_all n fuel maxrows wantfields c) else Some (Ret ([res], None, c))
      end
  end.

Definition fetch_statements (stale : Z -> list byte) (n fuel : nat) (query : list byte) (maxrows : Z) (wantfields : bool) (c : Conn) : fetched :=
  match ExecuteFetchMulti stale fuel query maxrows wantfields c with
  | None => None
  | Some Panic => Some Panic
  | Some (Ret (Err e, c)) => Some (Ret ([], Some e, c))
  | Some (Ret (Ok (res, more), c)) =>
      if more : bool then and_then res (fetch_all (pred n) fuel maxrows wantfields c) else Some (Ret ([res], None, c))
  end.

Section Statements.
Context (stale : Z -> list byte) (handler : list byte -> answer) (wantfields : bool).

(** What a client is to get for the statements: the results up to the first that fails, and its error.  All but the last result are followed
    by more, and the statements after the one that fails are not executed. *)
Inductive expects_all (c : Conn) (wantinfo : bool) : list (list byte) -> list SqlResult -> option SQLError -> Prop :=
| expects_last sql res : expects c wantinfo wantfields false (handler sql) res -> expects_all c wantinfo [sql] [res] None
| expects_more sql res sqls ress e : expects c wantinfo wantfields true (handler sql) res -> expects_all c wantinfo sqls ress e ->
    expects_all c wantinfo (sql :: sqls) (res :: ress) e
| expects_failure sql sqls : a_results (handler sql) = [] -> error_fits (reported_error (a_err (handler sql))) ->
    expects_all c wantinfo (sql :: sqls) [] (Some (reported_error (a_err (handler sql)))).

Lemma expects_all_nonempty c wantinfo sqls ress e : expects_all c wantinfo sqls ress e -> (0 < length sqls)%nat.
Proof. destruct 1; cbn; lia. Qed.

Definition rows_within (fuel : nat) (maxrows : Z) (sql : list byte) : Prop :=
  (row_count (handler sql) + 2 <= fuel)%nat /\ (maxrows < 0 \/ Z.of_nat (row_count (handler sql)) <= maxrows).

Lemma with_more_uint16 more flags : is_uint16 flags -> is_uint16 (with_more more flags).
Proof.
  intros Hf. destruct more; [|done]. unfold is_uint16, with_more, ServerMoreResultsExists in *.
  assert (0 <= Z.lor flags 8) as H0 by (apply Z.lor_nonneg; lia). split; [done|].
  destruct (Z.eq_dec (Z.lor flags 8) 0) as [->|]; [done|]. apply Z.log2_lt_pow2; [lia|]. rewrite Z.log2_lor by lia.
  apply Z.max_lub_lt; [|done]. destruct (Z.eq_dec flags 0) as [->|]; [done|]. apply Z.log2_lt_pow2; lia.
Qed.

(** Connections of the same server: the capabilities and the status are the same. *)
Definition same_server (c c' : Conn) : Prop := Capabilities c' = Capabilities c /\ StatusFlags c' = StatusFlags c.

Lemma agree_same c c' r : same_server c c' -> agree c r -> agree c' r.
Proof. intros [Hc _] Ha. unfold agree, deprecates_eof, session_track in *. by rewrite Hc. Qed.

Lemma expects_same c wantinfo more a res c' : same_server c c' -> expects c wantinfo wantfields more a res -> expects c' wantinfo wantfields more a res.
Proof.
  intros [Hc Hf]. destruct 1 as [fields results info w Hg Hw|qr w Hfs Hrows Ht Hp Hl].
  - replace (received_info c wantinfo info) with (received_info c' wantinfo info) by (unfold received_info, deprecates_eof, session_track; by rewrite Hc).
    rewrite <- Hf. by constructor.
  - rewrite <- Hf in *. constructor; try done. unfold session_track in *. by rewrite Hc.
Qed.

Lemma client_after c c' r wantinfo b s : client_of c r wantinfo -> same_server c c' -> sequence c' = s -> client_of c' (after_packet b s r) wantinfo.
Proof. intros (Ha & Hw & Hi & _) Hc <-. split_and!; [by eapply agree_same|done|exact Hi|done]. Qed.

Lemma fetch_failure se c r wantinfo b s q n fuel maxrows : error_fits se -> is_sequence (sequence c) -> client_of c r wantinfo ->
  framed (sequence c) (sql_error_payload se) b s -> input r = b ++ q -> (0 < n)%nat ->
  fetch_all n fuel maxrows wantfields r = Some (Ret ([], Some (QueryFailed se), after_packet q s r)).
Proof.
  intros He Hs Hr Hf Hin Hn. destruct n as [|n]; [lia|]. cbn [fetch_all]. pose proof Hr as (_ & <- & _).
  by rewrite (read_failure se c r wantfields b s q).
Qed.

Lemma handle_queries_answered c wantinfo sqls ress e : expects_all c wantinfo sqls ress e ->
  is_uint16 (StatusFlags c) -> Z.land (StatusFlags c) ServerMoreResultsExists = 0 ->
  forall c', same_server c c' -> idle c' -> breaks c' = None -> is_sequence (sequence c') ->
  exists b s, handle_queries stale handler sqls c' = Ret (true, set_sequence s (set_output (output c' ++ b) None c')) /\
    forall r q n fuel maxrows, client_of c' r wantinfo -> input r = b ++ q -> (length sqls <= n)%nat ->
    Forall (rows_within fuel maxrows) (take (length ress) sqls) ->
    fetch_all n fuel maxrows wantfields r = Some (Ret (ress, QueryFailed <$> e, after_packet q s r)).
Proof.
  intros H Hfl Hm. induction H as [sql res He|sql res sqls ress e He Hall IH|sql sqls Hnil He]; intros c' Hc Hi Hb Hs; pose proof Hc as [_ Hst].
  3:{ destruct (exec_failure stale (a_err (handler sql)) (a_warnings (handler sql)) (negb (bool_decide (sqls = []))) c' Hi Hb He) as (b & s & Hf & Hex).
      exists b, s. cbn [handle_queries]. rewrite Hnil, Hex. split; [done|]. intros r q n fuel maxrows Hr Hin Hn _. cbn [length] in Hn.
      by apply (fetch_failure _ c' r wantinfo b); [..|lia]. }
  all: pose proof (expects_same _ _ _ _ _ _ Hc He) as He';
    (destruct (exchange stale c' wantinfo wantfields _ _ _ He' Hi Hb) as (b & s & Hex & Hs' & Hread); [rewrite Hst; by apply with_more_uint16|done|]);
    rewrite Hst in Hread.
  - exists b, s. cbn [handle_queries]. rewrite bool_decide_eq_true_2 by done. cbn [negb]. rewrite Hex. split; [done|].
    intros r q n fuel maxrows Hr Hin Hn [[Hfuel Hmax] _]%Forall_cons. destruct n as [|n]; [cbn in Hn; lia|]. cbn [fetch_all].
    rewrite (proj1 (Hread r q fuel maxrows Hr Hin Hfuel)) by done. by rewrite more_results_with.
  - set (c1 := set_sequence s (set_output (output c' ++ b) None c')) in *.
    destruct (IH c1) as (b2 & s2 & Hq & Hread2); [done|done|done|done|].
    exists (b ++ b2), s2. cbn [handle_queries]. rewrite bool_decide_eq_false_2 by (intros ->; by apply expects_all_nonempty, Nat.lt_irrefl in Hall).
    cbn [negb]. rewrite Hex. fold c1.
    split; [rewrite Hq; unfold c1; cbn; by rewrite app_assoc|]. intros r q n fuel maxrows Hr Hin Hn [[Hfuel Hmax] Hrest]%Forall_cons.
    destruct n as [|n]; [cbn in Hn; lia|]. cbn [fetch_all]. rewrite <- app_assoc in Hin.
    rewrite (proj1 (Hread r (b2 ++ q) fuel maxrows Hr Hin Hfuel)) by done. rewrite more_results_with by done. cbv iota beta.
    by rewrite (Hread2 (after_packet (b2 ++ q) s r) q n fuel maxrows); [|by apply (client_after c')|done|cbn in Hn; lia|].
Qed.
End Statements.

(** A command byte and the rest of the packet. *)
Lemma fills_command b text : fills (fun data pos => data ← store data pos b; let pos := add64 pos 1 in
  '(data, n) ← copy_at data pos text; Ret (data, add64 pos n)) (b :: text).
Proof.
  intros p old rest Hl Hz. pose proof (fills_bind _ _ [b] text (fills_byte b) (fills_string text) p old rest Hl Hz) as H.
  unfold writeByte, writeEOFString in H. by destruct (store _ _ _).
Qed.

Lemma WriteComQuery_sent stale query k b s : idle k -> breaks k = None -> zlen query + 5 <= MaxInt64 -> framed 0 (z2b ComQuery :: query) b s ->
  WriteComQuery stale query k = Ret (Ok tt, set_sequence s (set_output (output k ++ b) None k)).
Proof.
  intros Hi Hb Hz Hfr.
  destruct (write_ephemeral_sends stale (zlen query + 1) _ _ (set_sequence 0 k) Hi (fills_command (z2b ComQuery) query)) as (b' & s' & Hf & Hs).
  - rewrite zlen_cons. lia.
  - lia.
  - destruct (framed_det _ _ _ _ Hf _ _ Hfr) as [-> ->]. apply sends_unbroken in Hs; [|done]. unfold WriteComQuery. step. apply wrapped_ok. exact Hs.
Qed.

(** The packet of a query is taken apart, and its statements are executed. *)
Lemma handleComQuery_queries stale split handler query sqls c q s buf : idle c ->
  (if Z.land (Capabilities c) CapabilityClientMultiStatements =? 0 then sqls = [query] else split query = Ok sqls) -> sqls <> [] ->
  handleComQuery stale split handler (z2b ComQuery :: query) (set_ephemeral ephemeralRead buf (after_packet q s c)) =
  handle_queries stale handler sqls (after_packet q s c).
Proof.
  intros [Hu Hb] Hsplit Hne. unfold handleComQuery. erewrite io_bind_ok; [|apply pure_ok, (slice_from_at _ [z2b ComQuery] query); done]. cbv beta.
  erewrite io_bind_ok; [|reflexivity]. cbv beta iota. cbv [mret io_ret].
  change (set_ephemeral ephemeralUnused None _) with (set_ephemeral ephemeralUnused None (after_packet q s c)).
  assert (set_ephemeral ephemeralUnused None (after_packet q s c) = after_packet q s c) as -> by (destruct c; cbn in *; by subst).
  change (Capabilities (after_packet q s c)) with (Capabilities c).
  destruct (Z.land (Capabilities c) CapabilityClientMultiStatements =? 0); cbn [negb]; rewrite ?Hsplit; [by subst sqls|]. by destruct sqls.
Qed.

(** The statements are fetched after the query has been sent. *)
Lemma fetch_statements_sent stale n fuel query maxrows wantfields k k1 : WriteComQuery stale query k = Ret (Ok tt, k1) -> (0 < n)%nat ->
  fetch_statements stale n fuel query maxrows wantfields k = fetch_all n fuel maxrows wantfields k1.
Proof.
  intros Hw Hn. destruct n as [|n]; [lia|]. unfold fetch_statements, ExecuteFetchMulti. cbn [fetch_all pred].
  unfold mbind, query_bind. rewrite Hw. by destruct (ReadQueryResult fuel maxrows wantfields k1) as [[[[[[res more] w]|e] k2]|]|].
Qed.

(** A server that waits for a command. *)
Definition waiting (c : Conn) : Prop :=
  idle c /\ breaks c = None /\ sequence c = 0 /\ is_uint16 (StatusFlags c) /\ Z.land (StatusFlags c) ServerMoreResultsExists = 0.

(** C2: a text of statements is answered.  The server reads the text the client has written, and executes its statements in order.
    The handler answers a statement with rows in any number of results, of which the first has the fields, or, when the session is
    tracked, with the counts of a statement without rows, or it returns an error, or nothing, before its first result.  The client, who
    fetches results as long as there are more, gets the result of each statement before the first that fails, all rows of it, and the
    error of that one; the connection goes on, and nothing of the answer is left.  The function that splits the text is arbitrary. *)
Theorem Query_answered (stale : Z -> list byte) (split : list byte -> result (SQLError + list byte) (list (list byte)))
    (handler : list byte -> answer) (wantinfo wantfields : bool) (query : list byte) (sqls : list (list byte)) (ress : list SqlResult) (e : option SQLError) :
  zlen query + 5 <= MaxInt64 ->
  exists request, forall c q, waiting c -> input c = request ++ q ->
  (if Z.land (Capabilities c) CapabilityClientMultiStatements =? 0 then sqls = [query] else split query = Ok sqls) ->
  expects_all handler wantfields c wantinfo sqls ress e ->
  exists data c1 c2 reply, readEphemeralPacket c = Ret (Ok data, c1) /\ handleComQuery stale split handler data c1 = Ret (true, c2) /\
    output c2 = output c ++ reply /\ input c2 = q /\ idle c2 /\
    forall k q' n fuel maxrows, idle k -> breaks k = None -> agree c k -> enableQueryInfo k = wantinfo -> input k = reply ++ q' ->
    (length sqls <= n)%nat -> Forall (rows_within handler fuel maxrows) (take (length ress) sqls) ->
    exists k', fetch_statements stale n fuel query maxrows wantfields k = Some (Ret (ress, QueryFailed <$> e, k')) /\
      output k' = output k ++ request /\ input k' = q' /\ idle k'.
Proof.
  intros Hz. destruct (framed_total 0 (z2b ComQuery :: query)) as (bq & s & Hf). exists bq.
  intros c q (Hic & Hbc & Hsc & Hfl & Hm) Hin Hsplit Hall. assert (is_sequence s) as Hs by (by eapply framed_sequence). pose proof Hic as [Hu Hb0].
  destruct (readEphemeralPacket_framed 0 (z2b ComQuery :: query) bq s c q Hf ltac:(by vm_compute) Hsc Hin Hu) as (buf & Hr).
  set (c1 := after_packet q s c).
  destruct (handle_queries_answered stale handler wantfields c wantinfo sqls ress e Hall Hfl Hm c1) as (b & s2 & Hq & Hread); [done..|].
  exists (z2b ComQuery :: query), (set_ephemeral ephemeralRead buf c1), (set_sequence s2 (set_output (output c1 ++ b) None c1)), b.
  split; [exact Hr|]. split; [|split_and!; [done|done|exact Hic|]].
  - unfold c1. rewrite (handleComQuery_queries stale split handler query sqls) by (done || by intros ->; apply expects_all_nonempty, Nat.lt_irrefl in Hall). exact Hq.
  - intros k q' n fuel maxrows Hik Hbk Ha Hinfo Hink Hn Hrows.
    pose proof (WriteComQuery_sent stale query k bq s Hik Hbk Hz Hf) as Hw. set (k1 := set_sequence s _) in Hw.
    exists (after_packet q' s2 k1). split; [|split_and!; [done|done|exact Hik]].
    rewrite (fetch_statements_sent stale n fuel query maxrows wantfields k k1 Hw) by (apply expects_all_nonempty in Hall; lia).
    apply Hread; [by split_and!|done|done|done].
Qed.

(** A query, an insert, a statement that fails and one that is not executed, in one text. *)
Definition sample_split (text : list byte) : result (SQLError + list byte) (list (list byte)) := Ok (strings.Split (z2b 59) text).

Definition sample_error : SQLError := {| Num := 1062; State := bs "23000"; Message := bs "Duplicate entry" |}.

Definition sample_handler (sql : list byte) : answer :=
  if decide (sql = bs "fail") then {| a_results := []; a_err := Some (HandlerError (inl sample_error)); a_warnings := 0 |}
  else {| a_results := if decide (sql = bs "insert") then [sample_insert] else sample_results; a_err := None; a_warnings := 0 |}.

Definition multi_conn : Conn :=
  {| sequence := 0; Capabilities := Z.lor CapabilityClientSessionTrack (Z.lor CapabilityClientMultiStatements CapabilityClientDeprecateEOF);
     StatusFlags := 0x4002; enableQueryInfo := false; currentEphemeralPolicy := ephemeralUnused;
     currentEphemeralBuffer := None; input := []; input_end := EndEOF; output := []; breaks := None |}.

Definition sample_ress : list SqlResult :=
  [{| r_Fields := Some (received_fields sample_fields true); r_RowsAffected := 0; r_InsertID := 0; r_Rows := Some (all_rows sample_results);
      r_SessionStateChanges := []; r_StatusFlags := 0x400a; r_Info := [] |};
   {| r_Fields := None; r_RowsAffected := 1; r_InsertID := 7; r_Rows := None; r_SessionStateChanges := bs "uuid:1-5"; r_StatusFlags := 0x400a;
      r_Info := [] |}].

Definition sample_sqls : list (list byte) := [bs "select"; bs "insert"; bs "fail"; bs "select"].

Lemma sample_expects i : expects_all sample_handler true (set_input i multi_conn) false sample_sqls sample_ress (Some sample_error).
Proof.
  apply expects_more; [|apply expects_more; [|apply (expects_failure sample_handler true (set_input i multi_conn) false (bs "fail"))]].
  - exact (expects_rows (set_input i multi_conn) false true true sample_fields sample_results [] 0 sample_good ltac:(by vm_compute)).
  - apply (expects_ok (set_input i multi_conn) false true true sample_insert 0); [done|done|done|by vm_compute|by vm_compute].
  - done.
  - by vm_compute.
Qed.

Example Query_answered_witness : exists request data c1 c2 reply,
  readEphemeralPacket (set_input request multi_conn) = Ret (Ok data, c1) /\
  handleComQuery (fun _ => bs "stale") sample_split sample_handler data c1 = Ret (true, c2) /\ output c2 = reply /\
  exists k', fetch_statements (fun _ => bs "stale") 4 5 (bs "select;insert;fail;select") 100 true (set_input reply multi_conn) =
      Some (Ret (sample_ress, Some (QueryFailed sample_error), k')) /\
    output k' = request /\ input k' = [].
Proof.
  destruct (Query_answered (fun _ => bs "stale") sample_split sample_handler false true (bs "select;insert;fail;select") sample_sqls sample_ress
    (Some sample_error)) as (request & H); [by vm_compute|].
  destruct (H (set_input request multi_conn) []) as (data & c1 & c2 & reply & Hr & Hh & Ho & _ & _ & Hk);
    [by repeat split|by rewrite app_nil_r|by vm_compute| |].
  { apply sample_expects. }
  exists request, data, c1, c2, reply. split; [exact Hr|]. split; [exact Hh|]. split; [exact Ho|].
  destruct (Hk (set_input reply multi_conn) [] 4%nat 5%nat 100) as (k' & Hf & Hok & Hik & _);
    [by repeat split|reflexivity|by repeat split|reflexivity|by rewrite app_nil_r|by cbn; lia| |].
  { constructor; [|constructor; [|constructor]]; (split; [vm_compute; lia|right; by vm_compute]). }
  exists k'. split; [exact Hf|]. split; [exact Hok|exact Hik].
Defined.
