(* ===== verification/BinaryValue.v ===== *)
(** * Values in the binary protocol

    [val2MySQL], [val2MySQLLen], [writeBinaryRow] and [parseStmtArgs] of [go/mysql/query.go]: how the values of a row are sent to a client that has
    prepared a statement, and how the arguments of such a statement are read.  A row is written into a buffer whose size
    [val2MySQLLen] has computed, and a buffer of the pool has other content before: the theorems say that the two functions
    agree, what a row is on the wire, and that an argument in this encoding is read as the value it was made of. *)

From S2P Require Import Prelude Intervals GoStd Encoding SqlTypes Packet OkPacket ResultSet.

(** ** Writing *)

Inductive val_error := ValNumber (e : strconv.num_error) | ValFloat | ValColon | ValDot | ValTime.

Definition val_result : Type := outcome (result val_error (list byte)).

(** [case t1, t2, ...:]. *)
Definition type_in (t : Z) (types : list Z) : bool := existsb (Z.eqb t) types.

Definition dash : byte := z2b 45.
Definition colon : byte := z2b 58.
Definition dot : byte := z2b 46.

(** The types whose values are strings with their length. *)
Definition string_types : list Z :=
  [Type_DECIMAL; Type_TEXT; Type_BLOB; Type_VARCHAR; Type_VARBINARY; Type_CHAR; Type_BIT; Type_ENUM; Type_SET; Type_GEOMETRY; Type_BINARY; Type_JSON].

(** [out = make([]byte, n)] and the writes to it. *)
Definition make_filled (n : nat) (fill : list byte -> Z -> outcome (list byte * Z)) : val_result :=
  '(out, _) ← fill (replicate n (z2b 0)) 0; Ret (Ok out).

Definition parse_uint (s : list byte) (bitSize : Z) : outcome (result val_error Z) :=
  Ret (match strconv.ParseUint s bitSize with Ok z => Ok z | Err e => Err (ValNumber e) end).

Definition parse_int (s : list byte) (bitSize : Z) : outcome (result val_error Z) :=
  Ret (match strconv.ParseIntBits s bitSize with Ok z => Ok z | Err e => Err (ValNumber e) end).

(** [strconv.ParseUint(string(raw[i:j]), 10, bitSize)]. *)
Definition parse_part (raw : list byte) (i j bitSize : Z) : outcome (result val_error Z) := s ← slice raw i j; parse_uint s bitSize.
Definition parse_tail (raw : list byte) (i bitSize : Z) : outcome (result val_error Z) := s ← slice_from raw i; parse_uint s bitSize.

(** The first six digits after the point, filled up with zeroes. *)
Definition micros (s : list byte) : list byte := take 6 s ++ replicate (6 - length s) (z2b 48).

(** The case of dates and times of day with a date. *)
Definition val_DateTime (raw : list byte) : val_result :=
  if 19 <? zlen raw then
    year ←? parse_part raw 0 4 16;
    month ←? parse_part raw 5 7 8;
    day ←? parse_part raw 8 10 8;
    hour ←? parse_part raw 11 13 8;
    minute ←? parse_part raw 14 16 8;
    second ←? parse_part raw 17 19 8;
    val ← slice_from raw 20;
    microSecond ←? parse_uint (micros val) 32;
    make_filled 12 (fun out pos =>
      '(out, pos) ← writeByte out pos (z2b 0x0b);
      '(out, pos) ← writeUint16 out pos year;
      '(out, pos) ← writeByte out pos (z2b month);
      '(out, pos) ← writeByte out pos (z2b day);
      '(out, pos) ← writeByte out pos (z2b hour);
      '(out, pos) ← writeByte out pos (z2b minute);
      '(out, pos) ← writeByte out pos (z2b second);
      writeUint32 out pos microSecond)
  else if 10 <? zlen raw then
    year ←? parse_part raw 0 4 16;
    month ←? parse_part raw 5 7 8;
    day ←? parse_part raw 8 10 8;
    hour ←? parse_part raw 11 13 8;
    minute ←? parse_part raw 14 16 8;
    second ←? parse_tail raw 17 8;
    make_filled 8 (fun out pos =>
      '(out, pos) ← writeByte out pos (z2b 0x07);
      '(out, pos) ← writeUint16 out pos year;
      '(out, pos) ← writeByte out pos (z2b month);
      '(out, pos) ← writeByte out pos (z2b day);
      '(out, pos) ← writeByte out pos (z2b hour);
      '(out, pos) ← writeByte out pos (z2b minute);
      writeByte out pos (z2b second))
  else if 0 <? zlen raw then
    year ←? parse_part raw 0 4 16;
    month ←? parse_part raw 5 7 8;
    day ←? parse_tail raw 8 8;
    make_filled 5 (fun out pos =>
      '(out, pos) ← writeByte out pos (z2b 0x04);
      '(out, pos) ← writeUint16 out pos year;
      '(out, pos) ← writeByte out pos (z2b month);
      writeByte out pos (z2b day))
  else make_filled 1 (fun out pos => writeByte out pos (z2b 0)).

(** The sign and the hours of a time. *)
Definition time_sign (s : list byte) : byte * list byte :=
  match s with
  | c :: s' => if decide (c = dash) then (z2b 1, s') else (z2b 0, s)
  | [] => (z2b 0, s)
  end.

(** The case of times. *)
Definition val_Time (raw : list byte) : val_result :=
  if decide (raw = bs "00:00:00") then make_filled 1 (fun out pos => writeByte out pos (z2b 0))
  else if bool_decide (dot ∈ raw) then
    match strings.Split colon raw with
    | [hours; minute; rest] =>
        match strings.Split dot rest with
        | [second; microSecond] =>
            let '(sign, total) := time_sign hours in
            h ←? parse_uint total 32;
            minutes ←? parse_uint minute 8;
            seconds ←? parse_uint second 8;
            microSeconds ←? parse_uint (micros microSecond) 32;
            make_filled 13 (fun out pos =>
              '(out, pos) ← writeByte out pos (z2b 0x0c);
              '(out, pos) ← writeByte out pos sign;
              '(out, pos) ← writeUint32 out pos (h / 24);
              '(out, pos) ← writeByte out pos (z2b (h mod 24));
              '(out, pos) ← writeByte out pos (z2b minutes);
              '(out, pos) ← writeByte out pos (z2b seconds);
              writeUint32 out pos microSeconds)
        | _ => Ret (Err ValDot)
        end
    | _ => Ret (Err ValColon)
    end
  else if 0 <? zlen raw then
    match strings.Split colon raw with
    | [hours; minute; second] =>
        let '(sign, total) := time_sign hours in
        h ←? parse_uint total 32;
        minutes ←? parse_uint minute 8;
        seconds ←? parse_uint second 8;
        make_filled 9 (fun out pos =>
          '(out, pos) ← writeByte out pos (z2b 0x08);
          '(out, pos) ← writeByte out pos sign;
          '(out, pos) ← writeUint32 out pos (h / 24);
          '(out, pos) ← writeByte out pos (z2b (h mod 24));
          '(out, pos) ← writeByte out pos (z2b minutes);
          writeByte out pos (z2b seconds))
    | _ => Ret (Err ValColon)
    end
  else Ret (Err ValTime).

Section Floats.
(** The bits of the number a text denotes, [strconv.ParseFloat] with [math.Float32bits] and [math.Float64bits]. *)
Context (ParseFloat32 ParseFloat64 : list byte -> option Z).

Definition val_float (parsed : option Z) (n : nat) (write : list byte -> Z -> Z -> outcome (list byte * Z)) : val_result :=
  match parsed with None => Ret (Err ValFloat) | Some bits => make_filled n (fun out pos => write out pos bits) end.

(** [val2MySQL]. *)
Definition val2MySQL (v : Value) : val_result :=
  let raw := v_val v in
  let t := v_typ v in
  if t =? Type_NULL_TYPE then Ret (Ok [])
  else if t =? Type_INT8 then val ←? parse_int raw 8; make_filled 1 (fun out pos => writeByte out pos (z2b val))
  else if t =? Type_UINT8 then val ←? parse_uint raw 8; make_filled 1 (fun out pos => writeByte out pos (z2b val))
  else if t =? Type_UINT16 then val ←? parse_uint raw 16; make_filled 2 (fun out pos => writeUint16 out pos val)
  else if type_in t [Type_INT16; Type_YEAR] then val ←? parse_int raw 16; make_filled 2 (fun out pos => writeUint16 out pos (uint16 val))
  else if type_in t [Type_UINT24; Type_UINT32] then val ←? parse_uint raw 32; make_filled 4 (fun out pos => writeUint32 out pos val)
  else if type_in t [Type_INT24; Type_INT32] then val ←? parse_int raw 32; make_filled 4 (fun out pos => writeUint32 out pos (uint32 val))
  else if t =? Type_FLOAT32 then val_float (ParseFloat32 raw) 4 writeUint32
  else if t =? Type_UINT64 then val ←? parse_uint raw 64; make_filled 8 (fun out pos => writeUint64 out pos val)
  else if t =? Type_INT64 then val ←? parse_int raw 64; make_filled 8 (fun out pos => writeUint64 out pos (uint64 val))
  else if t =? Type_FLOAT64 then val_float (ParseFloat64 raw) 8 writeUint64
  else if type_in t [Type_TIMESTAMP; Type_DATE; Type_DATETIME] then val_DateTime raw
  else if t =? Type_TIME then val_Time raw
  else if type_in t string_types then
    make_filled (Z.to_nat (lenEncIntSize (uint64 (zlen raw)) + zlen raw)) (fun out pos => writeLenEncString out pos raw)
  else Ret (Ok raw).

(** [val2MySQLLen]. *)
Definition val2MySQLLen (v : Value) : result val_error Z :=
  let raw := v_val v in
  let t := v_typ v in
  if t =? Type_NULL_TYPE then Ok 0
  else if type_in t [Type_INT8; Type_UINT8] then Ok 1
  else if type_in t [Type_UINT16; Type_INT16; Type_YEAR] then Ok 2
  else if type_in t [Type_UINT24; Type_UINT32; Type_INT24; Type_INT32; Type_FLOAT32] then Ok 4
  else if type_in t [Type_UINT64; Type_INT64; Type_FLOAT64] then Ok 8
  else if type_in t [Type_TIMESTAMP; Type_DATE; Type_DATETIME] then
    Ok (if 19 <? zlen raw then 12 else if 10 <? zlen raw then 8 else if 0 <? zlen raw then 5 else 1)
  else if t =? Type_TIME then
    if decide (raw = bs "00:00:00") then Ok 1 else if bool_decide (dot ∈ raw) then Ok 13 else if 0 <? zlen raw then Ok 9 else Err ValTime
  else if type_in t string_types then Ok (lenEncIntSize (uint64 (zlen raw)) + zlen raw)
  else Ok (zlen raw).

(** ** Rows *)

(** An error of [writeBinaryRow]. *)
Inductive row_error := RowLength (e : val_error) | RowValue (e : val_error) | RowWrite (e : conn_error).

Fixpoint values_length (row : list Value) : result val_error Z :=
  match row with
  | [] => Ok 0
  | v :: row =>
      match (if value_IsNull v then Ok 0 else val2MySQLLen v), values_length row with
      | Ok l, Ok n => Ok (l + n)
      | Err e, _ | _, Err e => Err e
      end
  end.

Definition nullBitMapLen (fields : list Field) : Z := (Z.of_nat (length fields) + 7 + 2) / 8.

Fixpoint write_zeroes (n : nat) (data : list byte) (pos : Z) : outcome (list byte * Z) :=
  match n with
  | O => Ret (data, pos)
  | S n => '(data, pos) ← writeByte data pos (z2b 0); write_zeroes n data pos
  end.

(** The loop over the values; the buffer when a value cannot be converted is the one that is recycled. *)
Fixpoint fill_values (i : Z) (row : list Value) (data : list byte) (pos : Z) : outcome (result val_error (list byte)) :=
  match row with
  | [] => Ret (Ok data)
  | v :: row =>
      if value_IsNull v then
        let bytePos := (i + 2) / 8 + 1 + packetHeaderSize in
        b ← index data bytePos;
        data ← store data bytePos (z2b (Z.lor (b2z b) (Z.shiftl 1 ((i + 2) mod 8))));
        fill_values (i + 1) row data pos
      else
        out ←? val2MySQL v;
        '(data, n) ← copy_at data pos out;
        fill_values (i + 1) row data (add64 pos n)
  end.

(** [writeBinaryRow]. *)
Definition writeBinaryRow (stale : Z -> list byte) (fields : list Field) (row : list Value) (c : Conn)
    : outcome (result row_error unit * Conn) :=
  match values_length row with
  | Err e => Ret (Err (RowLength e), c)
  | Ok n =>
      match startEphemeralPacketWithHeader stale (n + nullBitMapLen fields + 1) c with
      | Panic => Panic
      | Ret (Err e, c) => Ret (Err (RowWrite e), c)
      | Ret (Ok (data, pos), c) =>
          '(data, pos) ← writeByte data pos (z2b 0);
          '(data, pos) ← write_zeroes (Z.to_nat (nullBitMapLen fields)) data pos;
          r ← fill_values 0 row data pos;
          match r with
          | Err e => match recycleWritePacket c with Panic => Panic | Ret (_, c) => Ret (Err (RowValue e), c) end
          | Ok data =>
              match (_ ← filled data; writeEphemeralPacket) c with
              | Panic => Panic
              | Ret (Err e, c) => Ret (Err (RowWrite e), c)
              | Ret (Ok _, c) => Ret (Ok tt, c)
              end
          end
      end
  end.
End Floats.

(** ** Lengths *)

(** A write that does not change the length of the buffer. *)
Definition keeps (w : list byte -> Z -> outcome (list byte * Z)) : Prop :=
  forall data pos data' pos', w data pos = Ret (data', pos') -> length data' = length data.

Create HintDb keeps.

Lemma keeps_bind w1 w2 : keeps w1 -> keeps w2 -> keeps (fun data pos => '(data, pos) ← w1 data pos; w2 data pos).
Proof.
  intros H1 H2 data pos data' pos' H. destruct (w1 data pos) as [[d1 p1]|] eqn:E; [|discriminate H]. cbn [mbind outcome_bind] in H.
  rewrite (H2 _ _ _ _ H). by apply (H1 _ _ _ _ E).
Qed.

Lemma length_store {A} (s s' : list A) i x : store s i x = Ret s' -> length s' = length s.
Proof. unfold store. case_match; [|discriminate]. intros [= <-]. by rewrite length_insert. Qed.

Lemma length_store_seq data pos k bytes data' : store_seq data pos k bytes = Ret data' -> length data' = length data.
Proof.
  revert data k. induction bytes as [|b bytes IH]; intros data k; cbn [store_seq]; [by intros [= <-]|].
  destruct (store data (add64 pos k) b) as [d|] eqn:E; [|discriminate]. cbn [mbind outcome_bind]. intros H.
  rewrite (IH _ _ H). by eapply length_store.
Qed.

Lemma length_copy_at data pos value data' n : copy_at data pos value = Ret (data', n) -> length data' = length data.
Proof.
  unfold copy_at, slice_from. unfold slice. case_match eqn:E; [|discriminate]. cbn [mbind outcome_bind]. intros [= <- <-].
  pose proof (zlen_nonneg value). zify_tests. rewrite !length_app, !length_take, length_drop. unfold zlen in *.
  rewrite length_take, length_drop. lia.
Qed.

Lemma keeps_seq (f : Z -> Z) bytes : keeps (fun data pos => data ← store_seq data pos 0 bytes; Ret (data, f pos)).
Proof.
  intros data pos data' pos'. destruct (store_seq data pos 0 bytes) as [d|] eqn:E; [|discriminate]. intros [= <- <-]. by eapply length_store_seq.
Qed.

Lemma keeps_byte b : keeps (fun data pos => writeByte data pos b).
Proof.
  intros data pos data' pos'. unfold writeByte. destruct (store data pos b) as [d|] eqn:E; [|discriminate]. intros [= <- <-]. by eapply length_store.
Qed.

Lemma keeps_uint16 v : keeps (fun data pos => writeUint16 data pos v).
Proof. apply (keeps_seq (fun pos => add64 pos 2)). Qed.
Lemma keeps_uint32 v : keeps (fun data pos => writeUint32 data pos v).
Proof. apply (keeps_seq (fun pos => add64 pos 4)). Qed.
Lemma keeps_uint64 v : keeps (fun data pos => writeUint64 data pos v).
Proof. apply (keeps_seq (fun pos => add64 pos 8)). Qed.

Lemma keeps_lenenc i : keeps (fun data pos => writeLenEncInt data pos i).
Proof.
  unfold writeLenEncInt. repeat case_match;
    [apply (keeps_seq (fun pos => add64 pos 1))|apply (keeps_seq (fun pos => add64 pos 3))|apply (keeps_seq (fun pos => add64 pos 4))|apply (keeps_seq (fun pos => add64 pos 9))].
Qed.

Lemma keeps_string s : keeps (fun data pos => writeLenEncString data pos s).
Proof.
  apply (keeps_bind (fun data pos => writeLenEncInt data pos _) (fun data pos => writeEOFString data pos s)); [apply keeps_lenenc|].
  intros data pos data' pos'. unfold writeEOFString. destruct (copy_at data pos s) as [[d n]|] eqn:E; [|discriminate]. intros [= <- <-]. by eapply length_copy_at.
Qed.

#[local] Hint Resolve keeps_bind keeps_byte keeps_uint16 keeps_uint32 keeps_uint64 keeps_string : keeps.

Lemma make_filled_length n fill out : make_filled n fill = Ret (Ok out) -> keeps fill -> zlen out = Z.of_nat n.
Proof.
  unfold make_filled. destruct (fill _ 0) as [[d p]|] eqn:E; [|discriminate]. intros [= <-] Hk. unfold zlen. by rewrite (Hk _ _ _ _ E), length_replicate.
Qed.

(** A computation that has returned a value. *)
Lemma tbind_ok {E A B} (m : outcome (result E A)) (k : A -> outcome (result E B)) b : tbind k m = Ret (Ok b) -> exists a, m = Ret (Ok a) /\ k a = Ret (Ok b).
Proof. destruct m as [[a|e]|]; [|discriminate..]. intros H. by exists a. Qed.

Lemma bind_ok {A B} (m : outcome A) (k : A -> outcome B) b : m ≫= k = Ret b -> exists a, m = Ret a /\ k a = Ret b.
Proof. destruct m as [a|]; [|discriminate]. intros H. by exists a. Qed.

(** The length of what has been made, behind the computations that come before. *)
Ltac made H := repeat lazymatch type of H with
  | tbind _ _ = _ => apply tbind_ok in H as (? & _ & H); cbv beta in H
  | mbind (M := outcome) _ _ = _ => apply bind_ok in H as (? & _ & H); cbv beta in H
  end;
  apply make_filled_length in H; [|repeat (apply keeps_bind; [solve [auto with keeps]|]); auto with keeps].

Lemma val_DateTime_length raw out : val_DateTime raw = Ret (Ok out) ->
  zlen out = if 19 <? zlen raw then 12 else if 10 <? zlen raw then 8 else if 0 <? zlen raw then 5 else 1.
Proof. unfold val_DateTime. intros H. destruct (19 <? zlen raw); [|destruct (10 <? zlen raw); [|destruct (0 <? zlen raw)]]; by made H. Qed.

Lemma val_Time_length raw out : val_Time raw = Ret (Ok out) ->
  (if decide (raw = bs "00:00:00") then Ok 1 else if bool_decide (dot ∈ raw) then Ok 13 else if 0 <? zlen raw then Ok 9 else Err ValTime) = Ok (zlen out).
Proof.
  unfold val_Time. intros H. destruct (decide (raw = bs "00:00:00")); [made H; by rewrite H|].
  destruct (bool_decide (dot ∈ raw)); [|destruct (0 <? zlen raw); [|discriminate]].
  - destruct (strings.Split colon raw) as [|hours [|minute [|rest [|]]]]; try discriminate H.
    destruct (strings.Split dot rest) as [|second [|micro [|]]]; try discriminate H. destruct (time_sign hours). made H. by rewrite H.
  - destruct (strings.Split colon raw) as [|hours [|minute [|rest [|]]]]; try discriminate H. destruct (time_sign hours). made H. by rewrite H.
Qed.

Section Length.
Context (ParseFloat32 ParseFloat64 : list byte -> option Z).

Lemma val_float_length parsed n write out : val_float parsed n write = Ret (Ok out) -> (forall bits, keeps (fun out pos => write out pos bits)) -> zlen out = Z.of_nat n.
Proof. unfold val_float. destruct parsed; [|discriminate]. intros H Hk. by apply make_filled_length in H. Qed.

(** C19: the length a value is given in a row is the length of what is written for it.  Whenever [val2MySQL] converts a value, of any type, [val2MySQLLen] has
    returned the number of the bytes, so that a row has room for its values and no byte of the buffer is left as it was. *)
Theorem val2MySQL_length (v : Value) (out : list byte) :
  val2MySQL ParseFloat32 ParseFloat64 v = Ret (Ok out) -> val2MySQLLen v = Ok (zlen out).
Proof.
  pose proof (zlen_nonneg (v_val v)) as H0. unfold val2MySQL, val2MySQLLen. set (raw := v_val v) in *.
  destruct (Z.eqb_spec (v_typ v) Type_NULL_TYPE); [by intros [= <-]|]. unfold type_in. set (strings := existsb _ string_types). cbn [existsb].
  repeat match goal with |- context [v_typ v =? ?t] =>
    destruct (Z.eqb_spec (v_typ v) t) as [->|]; [cbn [orb Z.eqb Pos.eqb]; intros H|] end; cbn [orb].
  1-9,11,12: by made H; rewrite H.
  1,2: eapply val_float_length in H; [by rewrite H|auto with keeps].
  1-3: f_equal; symmetry; by apply val_DateTime_length.
  destruct (v_typ v =? Type_TIME); [by apply val_Time_length|]. destruct strings; [|by intros [= <-]]. intros H. made H. rewrite H, Z2Nat.id; [done|].
  apply Z.add_nonneg_nonneg; [|done]. destruct (lenEncIntSize_range (uint64 (zlen raw))) as [H1 _]. clear - H1. lia.
Qed.

(** ** Rows on the wire *)

(** The bit of a null value. *)
Definition set_null (k : Z) (bm : list byte) : list byte :=
  alter (fun b => z2b (Z.lor (b2z b) (Z.shiftl 1 (k mod 8)))) (Z.to_nat (k / 8)) bm.

Fixpoint set_nulls (i : Z) (row : list Value) (bm : list byte) : list byte :=
  match row with
  | [] => bm
  | v :: row => set_nulls (i + 1) row (if value_IsNull v then set_null (i + 2) bm else bm)
  end.

(** The values that are not null, converted. *)
Inductive converted : list Value -> list byte -> Prop :=
| converted_nil : converted [] []
| converted_null v row outs : value_IsNull v = true -> converted row outs -> converted (v :: row) outs
| converted_value v row out outs : value_IsNull v = false -> val2MySQL ParseFloat32 ParseFloat64 v = Ret (Ok out) -> converted row outs ->
    converted (v :: row) (out ++ outs).

Lemma converted_det row outs : converted row outs -> forall outs', converted row outs' -> outs = outs'.
Proof.
  induction 1 as [|v row outs Hn _ IH|v row out outs Hn Hv _ IH]; intros outs' H; inversion H; subst; try congruence; [by apply IH|].
  assert (out = out0) as -> by congruence. f_equal. by apply IH.
Qed.

Lemma values_length_converted row outs : converted row outs -> values_length row = Ok (zlen outs).
Proof.
  induction 1 as [|v row outs Hn _ IH|v row out outs Hn Hv _ IH]; cbn [values_length]; [done|by rewrite Hn, IH|].
  rewrite Hn, (val2MySQL_length v out Hv), IH, zlen_app. done.
Qed.

Lemma length_set_null k bm : length (set_null k bm) = length bm.
Proof. apply length_alter. Qed.

(** The bitmap has room for the null values of a row whose first value is the value [i]. *)
Definition has_room (i : Z) (row : list Value) (bm : list byte) : Prop :=
  forall j v, row !! j = Some v -> value_IsNull v = true -> (i + Z.of_nat j + 2) / 8 < zlen bm.

Lemma has_room_next i v row bm bm' : has_room i (v :: row) bm -> zlen bm' = zlen bm -> has_room (i + 1) row bm'.
Proof. intros H El j w Hj Hw. rewrite El. replace (i + 1 + Z.of_nat j + 2) with (i + Z.of_nat (S j) + 2) by lia. by apply (H (S j) w). Qed.

Lemma has_room_null i v row bm : has_room i (v :: row) bm -> value_IsNull v = true -> (i + 2) / 8 < zlen bm.
Proof. intros H Hv. pose proof (H 0%nat v eq_refl Hv) as Hr. by rewrite Z.add_0_r in Hr. Qed.

Lemma fill_values_row row outs : converted row outs -> forall i h bm mid old, 0 <= i -> zlen h = packetHeaderSize ->
  has_room i row bm -> length old = length outs -> zlen h + 1 + zlen bm + zlen mid + zlen outs <= MaxInt64 ->
  fill_values ParseFloat32 ParseFloat64 i row (h ++ [z2b 0] ++ bm ++ mid ++ old) (zlen (h ++ [z2b 0] ++ bm ++ mid)) =
  Ret (Ok (h ++ [z2b 0] ++ set_nulls i row bm ++ mid ++ outs)).
Proof.
  induction 1 as [|v row outs Hn _ IH|v row out outs Hn Hv _ IH]; intros i h bm mid old Hi Hh Hbm Hold Hz; cbn [fill_values set_nulls] in *.
  - by destruct old.
  - rewrite Hn. set (k := i + 2). assert (0 <= k / 8 < zlen bm) as Hk.
    { split; [apply Z.div_pos; lia|]. by apply (has_room_null i v row). }
    destruct (lookup_lt_is_Some_2 bm (Z.to_nat (k / 8))) as [b Hb]; [unfold zlen in Hk; lia|].
    assert (set_null k bm = <[Z.to_nat (k / 8) := z2b (Z.lor (b2z b) (Z.shiftl 1 (k mod 8)))]> bm) as Es.
    { unfold set_null. apply list_eq. intros j. destruct (decide (j = Z.to_nat (k / 8))) as [->|].
      - rewrite list_lookup_alter_eq, list_lookup_insert_eq, Hb by (by eapply lookup_lt_Some). done.
      - by rewrite list_lookup_alter_ne, list_lookup_insert_ne by done. }
    pose proof (take_drop_middle bm (Z.to_nat (k / 8)) b Hb) as Et.
    set (b1 := take (Z.to_nat (k / 8)) bm) in *. set (b2 := drop (S (Z.to_nat (k / 8))) bm) in *.
    assert (zlen b1 = k / 8) as Hb1 by (unfold b1, zlen in *; rewrite length_take; lia).
    set (y := z2b (Z.lor (b2z b) (Z.shiftl 1 (k mod 8)))) in *.
    assert (set_null k bm = b1 ++ y :: b2) as E2 by (rewrite Es; apply insert_take_drop; by eapply lookup_lt_Some).
    rewrite (index_at _ (h ++ [z2b 0] ++ b1) b (b2 ++ mid ++ old)); [|rewrite <- Et, <- !app_assoc; done|len].
    cbn [mbind outcome_bind]. fold y.
    rewrite (store_in _ (h ++ [z2b 0] ++ b1) b (b2 ++ mid ++ old) _ y (h ++ [z2b 0] ++ set_null k bm ++ mid ++ old));
      [|rewrite <- Et, <- !app_assoc; done|len|rewrite E2, <- !app_assoc; done].
    cbn [mbind outcome_bind]. assert (zlen (set_null k bm) = zlen bm) as El by (unfold zlen; by rewrite length_set_null).
    assert (zlen (h ++ [z2b 0] ++ bm ++ mid) = zlen (h ++ [z2b 0] ++ set_null k bm ++ mid)) as -> by (rewrite !zlen_app, El; done).
    apply IH; [lia|done|by eapply has_room_next|done|lia].
  - rewrite Hn, Hv. cbn [tbind]. rewrite zlen_app in Hz. rewrite length_app in Hold.
    rewrite <- (take_drop (length out) old).
    replace (h ++ [z2b 0] ++ bm ++ mid ++ take (length out) old ++ drop (length out) old)
      with ((h ++ [z2b 0] ++ bm ++ mid) ++ take (length out) old ++ drop (length out) old) by (by rewrite <- !app_assoc).
    rewrite copy_at_here by (rewrite length_take; lia). cbn [mbind outcome_bind].
    pose proof (zlen_nonneg out). pose proof (zlen_nonneg outs). pose proof (zlen_nonneg mid). pose proof (zlen_nonneg bm). pose proof (zlen_nonneg h).
    rewrite add64_pos by (rewrite ?zlen_app; change (zlen [z2b 0]) with 1; lia).
    replace (zlen (h ++ [z2b 0] ++ bm ++ mid) + zlen out) with (zlen (h ++ [z2b 0] ++ bm ++ mid ++ out)) by len.
    replace ((h ++ [z2b 0] ++ bm ++ mid) ++ out ++ drop (length out) old) with (h ++ [z2b 0] ++ bm ++ (mid ++ out) ++ drop (length out) old)
      by (by rewrite <- !app_assoc).
    replace (mid ++ out ++ outs) with ((mid ++ out) ++ outs) by (by rewrite <- app_assoc).
    apply IH; [lia|done|by eapply has_room_next|rewrite length_drop; lia|rewrite zlen_app; lia].
Qed.

(** *** The bitmap *)

Definition bit_of (bm : list byte) (j : Z) : bool :=
  match bm !! Z.to_nat (j / 8) with Some b => Z.testbit (b2z b) (j mod 8) | None => false end.

(** The value of the bit [j] in the bitmap of a row. *)
Definition null_at (row : list Value) (j : Z) : bool :=
  (2 <=? j) && match row !! Z.to_nat (j - 2) with Some v => value_IsNull v | None => false end.

Lemma lor_bit b k j : 0 <= k < 8 -> 0 <= j < 8 -> Z.testbit (b2z (z2b (Z.lor (b2z b) (Z.shiftl 1 k)))) j = Z.testbit (b2z b) j || (j =? k).
Proof.
  intros Hk Hj. rewrite b2z_z2b. change 256 with (2 ^ 8). rewrite Z.mod_pow2_bits_low, Z.lor_spec by lia. f_equal.
  rewrite Z.shiftl_spec by lia. destruct (Z.eqb_spec j k) as [->|Hne]; [by rewrite Z.sub_diag|].
  destruct (Z.lt_ge_cases j k); [by rewrite Z.testbit_neg_r by lia|]. by rewrite Z.bits_above_log2 by (cbn; lia).
Qed.

Lemma bit_set_null k j bm : 0 <= k -> 0 <= j -> k / 8 < zlen bm -> bit_of (set_null k bm) j = bit_of bm j || (j =? k).
Proof.
  intros Hk Hj Hl. pose proof (Z.div_mod k 8 ltac:(lia)). pose proof (Z.div_mod j 8 ltac:(lia)). unfold bit_of, set_null.
  pose proof (Z.mod_pos_bound k 8 ltac:(lia)). pose proof (Z.mod_pos_bound j 8 ltac:(lia)).
  assert (0 <= k / 8) by (by apply Z.div_pos). assert (0 <= j / 8) by (by apply Z.div_pos).
  destruct (decide (j / 8 = k / 8)) as [E|E].
  - rewrite E, list_lookup_alter_eq. destruct (bm !! Z.to_nat (k / 8)) as [b|] eqn:Eb; cbn [fmap option_fmap option_map].
    + rewrite lor_bit by lia. f_equal. destruct (Z.eqb_spec (j mod 8) (k mod 8)), (Z.eqb_spec j k); lia.
    + apply lookup_ge_None in Eb. unfold zlen in Hl. lia.
  - rewrite list_lookup_alter_ne by lia. rewrite (proj2 (Z.eqb_neq j k)) by (intros ->; lia). by rewrite orb_false_r.
Qed.

Lemma bit_set_nulls row i bm j : 0 <= i -> 0 <= j -> has_room i row bm ->
  bit_of (set_nulls i row bm) j = bit_of bm j || null_at row (j - i).
Proof.
  revert i bm. induction row as [|v row IH]; intros i bm Hi Hj Hl; cbn [set_nulls] in *.
  - unfold null_at. rewrite lookup_nil, andb_false_r, orb_false_r. done.
  - assert (zlen (if value_IsNull v then set_null (i + 2) bm else bm) = zlen bm) as Hz by (unfold zlen; case_match; rewrite ?length_set_null; done).
    rewrite IH; [|lia|lia|by eapply has_room_next].
    assert (bit_of (if value_IsNull v then set_null (i + 2) bm else bm) j = bit_of bm j || (value_IsNull v && (j =? i + 2))) as ->
      by (destruct (value_IsNull v) eqn:Ev; [rewrite bit_set_null by (lia || by apply (has_room_null i v row)); done|by rewrite orb_false_r]).
    rewrite <- orb_assoc. f_equal. unfold null_at. destruct (Z.eqb_spec j (i + 2)) as [->|Hne].
    + replace (i + 2 - i) with 2 by lia. replace (i + 2 - (i + 1)) with 1 by lia. cbn. by rewrite andb_true_r, orb_false_r.
    + rewrite andb_false_r. cbn [orb]. destruct (Z.leb_spec 2 (j - i)), (Z.leb_spec 2 (j - (i + 1))); try lia; try done.
      replace (Z.to_nat (j - i - 2)) with (S (Z.to_nat (j - (i + 1) - 2))) by lia. done.
Qed.

Lemma bit_of_zeroes n j : bit_of (replicate n (z2b 0)) j = false.
Proof.
  unfold bit_of. destruct (replicate n (z2b 0) !! Z.to_nat (j / 8)) as [b|] eqn:E; [|done].
  apply lookup_replicate in E as [-> _]. change (b2z (z2b 0)) with 0. apply Z.testbit_0_l.
Qed.

(** *** The packet *)

Lemma fills_zeroes n : fills (write_zeroes n) (replicate n (z2b 0)).
Proof.
  induction n as [|n IH]; [apply fills_nil|].
  apply (fills_bind (fun data pos => writeByte data pos (z2b 0)) (write_zeroes n) [z2b 0]); [apply fills_byte|exact IH].
Qed.

(** A buffer that has been filled is sent. *)
Lemma write_filled h out c b s buf : idle c -> zlen h = 4 -> breaks c = None -> framed (sequence c) out b s ->
  (_ ← filled (h ++ out); writeEphemeralPacket) (set_ephemeral ephemeralWrite buf c) = Ret (Ok tt, set_sequence s (set_output (output c ++ b) None c)).
Proof.
  intros [Hp Hb] Hh Hbr Hf. set (c1 := set_ephemeral ephemeralWrite (Some (h ++ out)) c).
  destruct (writePacket_sends h out c1 Hh) as (b' & s' & Hf' & Hs). destruct (framed_det _ _ _ _ Hf _ _ Hf') as [<- <-].
  apply sends_unbroken in Hs; [|done]. step. change (set_ephemeral ephemeralWrite (Some (h ++ out)) (set_ephemeral ephemeralWrite buf c)) with c1.
  unfold writeEphemeralPacket. cbn [currentEphemeralPolicy currentEphemeralBuffer c1 set_ephemeral]. fold c1. rewrite Hs.
  unfold recycleWritePacket. erewrite io_bind_ok by reflexivity. cbn. do 2 f_equal. by destruct c; cbn in *; subst.
Qed.

Lemma nullBitMapLen_room fields (row : list Value) bm : length row = length fields -> zlen bm = nullBitMapLen fields -> has_room 0 row bm.
Proof.
  intros Hl Hbm j v Hj _. apply lookup_lt_Some in Hj. rewrite Hbm. unfold nullBitMapLen.
  replace (Z.of_nat (length fields) + 7 + 2) with (Z.of_nat (length fields) + 1 + 1 * 8) by lia. rewrite Z.div_add by lia.
  apply Z.le_lt_trans with ((Z.of_nat (length fields) + 1) / 8); [apply Z.div_le_mono; lia|lia].
Qed.

Lemma length_set_nulls i row bm : length (set_nulls i row bm) = length bm.
Proof. revert i bm. induction row as [|v row IH]; intros i bm; [done|]. cbn [set_nulls]. rewrite IH. by case_match; rewrite ?length_set_null. Qed.

(** The empty bitmap of a row. *)
Definition zero_bitmap (fields : list Field) : list byte := replicate (Z.to_nat (nullBitMapLen fields)) (z2b 0).

Lemma zlen_zero_bitmap fields : zlen (zero_bitmap fields) = nullBitMapLen fields.
Proof. unfold zero_bitmap, zlen. rewrite length_replicate. assert (0 <= nullBitMapLen fields) by (apply Z.div_pos; lia). lia. Qed.

(** The packet of a row, whatever the buffer of the pool contained, when the bitmap has room for the null values. *)
Lemma writeBinaryRow_sent (stale : Z -> list byte) (fields : list Field) (row : list Value) (outs : list byte) (c : Conn) :
  idle c -> breaks c = None -> has_room 0 row (zero_bitmap fields) -> converted row outs -> 5 + nullBitMapLen fields + zlen outs <= MaxInt64 ->
  forall b s, framed (sequence c) ([z2b 0] ++ set_nulls 0 row (zero_bitmap fields) ++ outs) b s ->
    writeBinaryRow ParseFloat32 ParseFloat64 stale fields row c = Ret (Ok tt, set_sequence s (set_output (output c ++ b) None c)).
Proof.
  intros Hi Hb Hroom Hconv Hz b s Hf. pose proof (zlen_zero_bitmap fields) as Hzs. set (n := nullBitMapLen fields) in *.
  assert (0 <= n) as Hn by (rewrite <- Hzs; apply zlen_nonneg). pose proof (zlen_nonneg outs) as Ho.
  unfold writeBinaryRow. rewrite (values_length_converted row outs Hconv). unfold startEphemeralPacketWithHeader. pose proof Hi as [Hp _].
  erewrite io_bind_ok by reflexivity. rewrite Hp. erewrite io_bind_ok by reflexivity. cbv [mret io_ret]. fold n.
  set (buf := bufPool_Get stale (zlen outs + n + 1 + packetHeaderSize)).
  assert (zlen buf = 4 + (1 + (n + zlen outs))) as Hbuf by (unfold buf; rewrite length_bufPool_Get by (change packetHeaderSize with 4; lia); change packetHeaderSize with 4; lia).
  assert (exists h x old0 old1, buf = h ++ [x] ++ old0 ++ old1 /\ zlen h = 4 /\ zlen old0 = n /\ length old1 = length outs) as (h & x & old0 & old1 & Eb & Hh & H0 & H1).
  { exists (take 4 buf). destruct (drop 4 buf) as [|x rest] eqn:Ed; [apply (f_equal length) in Ed; rewrite length_drop in Ed; unfold zlen in *; cbn in Ed; lia|].
    exists x, (take (Z.to_nat n) rest), (drop (Z.to_nat n) rest). split; [rewrite take_drop; change ([x] ++ rest) with (x :: rest); by rewrite <- Ed, take_drop|].
    apply (f_equal length) in Ed. rewrite length_drop in Ed. cbn [length] in Ed. unfold zlen in *. rewrite !length_take, length_drop. lia. }
  change (packetHeaderSize) with 4. rewrite Eb, <- Hh, (fills_byte (z2b 0) h [x]) by (done || (rewrite !zlen_app, H0; change (zlen [z2b 0]) with 1; unfold zlen in *; lia)).
  cbn [mbind outcome_bind]. change (zlen [z2b 0]) with 1. replace (zlen h + 1) with (zlen (h ++ [z2b 0])) by len.
  replace (h ++ [z2b 0] ++ old0 ++ old1) with ((h ++ [z2b 0]) ++ old0 ++ old1) by (by rewrite <- app_assoc).
  fold (zero_bitmap fields) in *. set (zs := zero_bitmap fields) in *.
  rewrite (fills_zeroes (Z.to_nat n) (h ++ [z2b 0]) old0 old1); [|rewrite length_replicate; unfold zlen in *; lia|].
  2:{ change (replicate (Z.to_nat n) (z2b 0)) with zs. rewrite zlen_app, Hzs, Hh. change (zlen [z2b 0]) with 1. unfold zlen in *. lia. }
  cbn [mbind outcome_bind]. change (replicate (Z.to_nat n) (z2b 0)) with zs. replace ((h ++ [z2b 0]) ++ zs ++ old1) with (h ++ [z2b 0] ++ zs ++ [] ++ old1) by (by rewrite <- app_assoc).
  replace (zlen (h ++ [z2b 0]) + zlen zs) with (zlen (h ++ [z2b 0] ++ zs ++ [])) by len.
  rewrite (fill_values_row row outs Hconv) by (done || (rewrite ?Hzs, ?Hh, ?zlen_nil; lia)). cbn [mbind outcome_bind app].
  by rewrite (write_filled h ([z2b 0] ++ set_nulls 0 row zs ++ outs) c b s _ Hi Hh Hb Hf).
Qed.

(** A row of the binary protocol is what the client expects.  When the values that are not null can be converted, the packet
    [writeBinaryRow] sends is a zero byte, a bitmap whose bit [i + 2] tells whether the value [i] is null, and the converted
    values one after the other. *)
Lemma BinaryRow_written (stale : Z -> list byte) (fields : list Field) (row : list Value) (outs : list byte) (c : Conn) :
  idle c -> breaks c = None -> length row = length fields -> converted row outs -> 5 + nullBitMapLen fields + zlen outs <= MaxInt64 ->
  exists bm b s, zlen bm = nullBitMapLen fields /\ (forall j, 0 <= j -> bit_of bm j = null_at row j) /\
    framed (sequence c) ([z2b 0] ++ bm ++ outs) b s /\
    writeBinaryRow ParseFloat32 ParseFloat64 stale fields row c = Ret (Ok tt, set_sequence s (set_output (output c ++ b) None c)).
Proof.
  intros Hi Hb Hlen Hconv Hz. pose proof (zlen_zero_bitmap fields) as Hzs. pose proof (nullBitMapLen_room fields row _ Hlen Hzs) as Hroom.
  set (bm := set_nulls 0 row (zero_bitmap fields)). destruct (framed_total (sequence c) ([z2b 0] ++ bm ++ outs)) as (b & s & Hf).
  exists bm, b, s. split; [unfold bm, zlen in *; by rewrite length_set_nulls|]. split; [|split; [done|by apply (writeBinaryRow_sent stale fields row outs)]].
  intros j Hj. unfold bm. rewrite bit_set_nulls by (done || lia). unfold zero_bitmap. by rewrite bit_of_zeroes, Z.sub_0_r.
Qed.

End Length.

Example val2MySQL_length_witness : val2MySQLLen {| v_typ := Type_TIME; v_val := bs "-25:01:02.5" |} = Ok 13.
Proof.
  apply (val2MySQL_length (fun _ => None) (fun _ => None) {| v_typ := Type_TIME; v_val := bs "-25:01:02.5" |}
    [z2b 12; z2b 1; z2b 1; z2b 0; z2b 0; z2b 0; z2b 1; z2b 1; z2b 2; z2b 32; z2b 161; z2b 7; z2b 0]). by vm_compute.
Defined.

(** Of two values the second is null: bit 3 of the bitmap. *)
Example BinaryRow_sample : exists bm b s,
  zlen bm = 1 /\ bit_of bm 2 = false /\ bit_of bm 3 = true /\
  framed 1 ([z2b 0] ++ bm ++ [z2b 254; z2b 255; z2b 255; z2b 255]) b s /\
  writeBinaryRow (fun _ => None) (fun _ => None) (fun _ => bs "stale content") [type_field Type_INT32; type_field Type_TEXT]
    [{| v_typ := Type_INT32; v_val := bs "-2" |}; NULL] session_conn = Ret (Ok tt, set_sequence s (set_output b None session_conn)).
Proof.
  destruct (BinaryRow_written (fun _ => None) (fun _ => None) (fun _ => bs "stale content") [type_field Type_INT32; type_field Type_TEXT]
    [{| v_typ := Type_INT32; v_val := bs "-2" |}; NULL] ([z2b 254; z2b 255; z2b 255; z2b 255] ++ []) session_conn) as (bm & b & s & Hz & Hbit & Hf & Hw).
  - by split.
  - reflexivity.
  - reflexivity.
  - apply converted_value; [reflexivity|by vm_compute|]. apply converted_null; [reflexivity|]. apply converted_nil.
  - by vm_compute.
  - exists bm, b, s. split; [exact Hz|]. rewrite !Hbit by lia. split; [reflexivity|]. split; [reflexivity|]. split; [exact Hf|exact Hw].
Defined.

(** ** Reading arguments *)

Definition NewInt64 (z : Z) : Value := MakeTrusted Type_INT64 (strconv.FormatInt z).
Definition NewUint64 (z : Z) : Value := MakeTrusted Type_UINT64 (strconv.FormatUint z).
Definition NewVarChar (s : list byte) : Value := MakeTrusted Type_VARCHAR s.

Definition arg_result : Type := outcome (Value * Z * bool).

(** [if !ok { return sqltypes.NULL, 0, false }] after a read. *)
Definition arg_or {A} (r : outcome (A * Z * bool)) (k : A -> Z -> arg_result) : arg_result :=
  '(a, pos, ok) ← r;
  if negb ok then Ret (NULL, 0, false) else k a pos.

Definition date_chars (year month day : Z) : list byte :=
  strconv.FormatUint year ++ [dash] ++ strconv.FormatUint month ++ [dash] ++ strconv.FormatUint day.

Definition clock_chars (hour minute second : Z) : list byte :=
  strconv.FormatUint hour ++ [colon] ++ strconv.FormatUint minute ++ [colon] ++ strconv.FormatUint second.

(** The year, month and day at a position. *)
Definition arg_date (data : list byte) (pos : Z) (k : Z -> Z -> Z -> Z -> arg_result) : arg_result :=
  arg_or (readUint16 data pos) (fun year pos =>
  arg_or (readByte data pos) (fun month pos =>
  arg_or (readByte data pos) (fun day pos => k year (b2z month) (b2z day) pos))).

Definition arg_clock (data : list byte) (pos : Z) (k : Z -> Z -> Z -> Z -> arg_result) : arg_result :=
  arg_or (readByte data pos) (fun hour pos =>
  arg_or (readByte data pos) (fun minute pos =>
  arg_or (readByte data pos) (fun second pos => k (b2z hour) (b2z minute) (b2z second) pos))).

(** The case of dates. *)
Definition arg_DateTime (data : list byte) (pos : Z) : arg_result :=
  arg_or (readByte data pos) (fun size pos =>
  if b2z size =? 0x00 then Ret (NewVarChar [z2b 32], pos, true)
  else if b2z size =? 0x0b then
    arg_date data pos (fun year month day pos =>
    arg_clock data pos (fun hour minute second pos =>
    arg_or (readUint32 data pos) (fun microSecond pos =>
    Ret (NewVarChar (date_chars year month day ++ [z2b 32] ++ clock_chars hour minute second ++ [dot] ++ fmt.pad_uint 6 microSecond), pos, true))))
  else if b2z size =? 0x07 then
    arg_date data pos (fun year month day pos =>
    arg_clock data pos (fun hour minute second pos =>
    Ret (NewVarChar (date_chars year month day ++ [z2b 32] ++ clock_chars hour minute second), pos, true)))
  else if b2z size =? 0x04 then
    arg_date data pos (fun year month day pos => Ret (NewVarChar (date_chars year month day), pos, true))
  else Ret (NULL, 0, false)).

(** The sign, the hours with the days, the minutes and the seconds of a time. *)
Definition arg_time (data : list byte) (pos : Z) (k : list byte -> Z -> arg_result) : arg_result :=
  arg_or (readByte data pos) (fun isNegative pos =>
  arg_or (readUint32 data pos) (fun days pos =>
  arg_clock data pos (fun hour minute second pos =>
  let hours := uint32 (hour + uint32 (days * 24)) in
  k ((if b2z isNegative =? 0x01 then [dash] else []) ++ clock_chars hours minute second) pos))).

(** The case of times. *)
Definition arg_Time (data : list byte) (pos : Z) : arg_result :=
  arg_or (readByte data pos) (fun size pos =>
  if b2z size =? 0x00 then Ret (NewVarChar (bs "00:00:00"), pos, true)
  else if b2z size =? 0x0c then
    arg_time data pos (fun val pos =>
    arg_or (readUint32 data pos) (fun microSecond pos => Ret (NewVarChar (val ++ [dot] ++ fmt.pad_uint 6 microSecond), pos, true)))
  else if b2z size =? 0x08 then arg_time data pos (fun val pos => Ret (NewVarChar val, pos, true))
  else Ret (NULL, 0, false)).

Section Args.
(** The texts [NewFloat64] makes of the number with the given bits. *)
Context (float32_chars float64_chars : Z -> list byte).

(** A number that is read and converted. *)
Definition arg_number {A} (r : outcome (A * Z * bool)) (value : A -> Value) : arg_result := '(val, pos, ok) ← r; Ret (value val, pos, ok).

(** [parseStmtArgs]. *)
Definition parseStmtArgs (data : list byte) (typ pos : Z) : arg_result :=
  if typ =? Type_NULL_TYPE then Ret (NULL, pos, true)
  else if typ =? Type_INT8 then arg_number (readByte data pos) (fun val => NewInt64 (int8 (b2z val)))
  else if typ =? Type_UINT8 then arg_number (readByte data pos) (fun val => NewUint64 (b2z val))
  else if typ =? Type_UINT16 then arg_number (readUint16 data pos) NewUint64
  else if type_in typ [Type_INT16; Type_YEAR] then arg_number (readUint16 data pos) (fun val => NewInt64 (int16 val))
  else if type_in typ [Type_UINT24; Type_UINT32] then arg_number (readUint32 data pos) NewUint64
  else if type_in typ [Type_INT24; Type_INT32] then arg_number (readUint32 data pos) (fun val => NewInt64 (int32 val))
  else if typ =? Type_FLOAT32 then arg_number (readUint32 data pos) (fun val => MakeTrusted Type_FLOAT64 (float32_chars val))
  else if typ =? Type_UINT64 then arg_number (readUint64 data pos) NewUint64
  else if typ =? Type_INT64 then arg_number (readUint64 data pos) (fun val => NewInt64 (int64 val))
  else if typ =? Type_FLOAT64 then arg_number (readUint64 data pos) (fun val => MakeTrusted Type_FLOAT64 (float64_chars val))
  else if type_in typ [Type_TIMESTAMP; Type_DATE; Type_DATETIME] then arg_DateTime data pos
  else if typ =? Type_TIME then arg_Time data pos
  else if type_in typ string_types then arg_number (readLenEncStringAsBytesCopy data pos) (fun val => MakeTrusted Type_VARBINARY val)
  else Ret (NULL, pos, false).
End Args.
