(* ===== verification/BinaryArgs.v ===== *)
(** * Arguments of prepared statements

    What [val2MySQL] makes of a value is read back by [parseStmtArgs] ([go/mysql/query.go]): numbers of every width and sign, strings, dates and times with and
    without a fraction. *)

From S2P Require Import Prelude Intervals GoStd Encoding SqlTypes Packet OkPacket ResultSet BinaryValue.

#[local] Hint Resolve reads_string reads_uint16 reads_uint32 reads_byte reads_copy : reads.

(** ** Texts *)

Definition padded_date (y m d : Z) : list byte := fmt.pad_uint 4 y ++ [dash] ++ fmt.pad_uint 2 m ++ [dash] ++ fmt.pad_uint 2 d.
Definition padded_clock (h m s : Z) : list byte := fmt.pad_uint 2 h ++ [colon] ++ fmt.pad_uint 2 m ++ [colon] ++ fmt.pad_uint 2 s.

Definition signed_types : list (Z * Z) := [(Type_INT8, 8); (Type_INT16, 16); (Type_YEAR, 16); (Type_INT24, 32); (Type_INT32, 32); (Type_INT64, 64)].
Definition unsigned_types : list (Z * Z) := [(Type_UINT8, 8); (Type_UINT16, 16); (Type_UINT24, 32); (Type_UINT32, 32); (Type_UINT64, 64)].

Definition is_date (y m d : Z) : Prop := 0 <= y < 10 ^ 4 /\ 0 <= m < 10 ^ 2 /\ 0 <= d < 10 ^ 2.
Definition is_clock (h m s : Z) : Prop := 0 <= h < 10 ^ 2 /\ 0 <= m < 10 ^ 2 /\ 0 <= s < 10 ^ 2.

Section Argument.
Context (ParseFloat32 ParseFloat64 : list byte -> option Z) (float32_chars float64_chars : Z -> list byte).

(** A value as MySQL writes it, and the value it is read as: numbers are 64 bits wide, strings binary, and dates and times are texts without the
    leading zeroes.  A floating point number travels as its bits; the parameters are the conversions between bits and texts. *)
Inductive argument : Value -> Value -> Prop :=
| argument_int t w z : (t, w) ∈ signed_types -> - 2 ^ (w - 1) <= z < 2 ^ (w - 1) ->
    argument {| v_typ := t; v_val := strconv.FormatInt z |} (NewInt64 z)
| argument_uint t w z : (t, w) ∈ unsigned_types -> 0 <= z < 2 ^ w ->
    argument {| v_typ := t; v_val := strconv.FormatUint z |} (NewUint64 z)
| argument_float32 s bits : ParseFloat32 s = Some bits -> 0 <= bits < 2 ^ 32 ->
    argument {| v_typ := Type_FLOAT32; v_val := s |} (MakeTrusted Type_FLOAT64 (float32_chars bits))
| argument_float64 s bits : ParseFloat64 s = Some bits -> 0 <= bits < 2 ^ 64 ->
    argument {| v_typ := Type_FLOAT64; v_val := s |} (MakeTrusted Type_FLOAT64 (float64_chars bits))
| argument_string t s : t ∈ string_types -> zlen s < 2 ^ 59 -> argument {| v_typ := t; v_val := s |} (MakeTrusted Type_VARBINARY s)
| argument_date t y m d : t ∈ [Type_TIMESTAMP; Type_DATE; Type_DATETIME] -> is_date y m d ->
    argument {| v_typ := t; v_val := padded_date y m d |} (NewVarChar (date_chars y m d))
| argument_datetime t y m d h i s : t ∈ [Type_TIMESTAMP; Type_DATE; Type_DATETIME] -> is_date y m d -> is_clock h i s ->
    argument {| v_typ := t; v_val := padded_date y m d ++ [z2b 32] ++ padded_clock h i s |}
      (NewVarChar (date_chars y m d ++ [z2b 32] ++ clock_chars h i s))
| argument_micros t y m d h i s u : t ∈ [Type_TIMESTAMP; Type_DATE; Type_DATETIME] -> is_date y m d -> is_clock h i s -> 0 <= u < 10 ^ 6 ->
    argument {| v_typ := t; v_val := padded_date y m d ++ [z2b 32] ++ padded_clock h i s ++ [dot] ++ fmt.pad_uint 6 u |}
      (NewVarChar (date_chars y m d ++ [z2b 32] ++ clock_chars h i s ++ [dot] ++ fmt.pad_uint 6 u))
| argument_zero : argument {| v_typ := Type_TIME; v_val := bs "00:00:00" |} (NewVarChar (bs "00:00:00"))
| argument_time (negative : bool) h m s : 0 <= h < 2 ^ 32 -> 0 <= m < 10 ^ 2 -> 0 <= s < 10 ^ 2 -> (negative = true \/ h <> 0 \/ m <> 0 \/ s <> 0) ->
    argument {| v_typ := Type_TIME; v_val := (if negative then [dash] else []) ++ padded_clock h m s |}
      (NewVarChar ((if negative then [dash] else []) ++ clock_chars h m s))
| argument_time_micros (negative : bool) h m s u : 0 <= h < 2 ^ 32 -> 0 <= m < 10 ^ 2 -> 0 <= s < 10 ^ 2 -> 0 <= u < 10 ^ 6 ->
    argument {| v_typ := Type_TIME; v_val := ((if negative then [dash] else []) ++ padded_clock h m s) ++ [dot] ++ fmt.pad_uint 6 u |}
      (NewVarChar (((if negative then [dash] else []) ++ clock_chars h m s) ++ [dot] ++ fmt.pad_uint 6 u)).
End Argument.

Lemma make_filled_ok n fill out : fills fill out -> length out = n -> Z.of_nat n <= MaxInt64 -> make_filled n fill = Ret (Ok out).
Proof.
  intros Hf Hl Hn. unfold make_filled. pose proof (Hf [] (replicate n (z2b 0)) []) as H. rewrite !app_nil_r in H. change (zlen (A := byte) []) with 0 in H.
  cbn [app] in H. rewrite H; [done|by rewrite length_replicate|unfold zlen; lia].
Qed.

(** ** Dates and times on the wire *)

Definition date_wire (y m d : Z) : list byte := binary.le_bytes 2 y ++ [z2b m] ++ [z2b d].
Definition clock_wire (h m s : Z) : list byte := [z2b h] ++ [z2b m] ++ [z2b s].
Definition time_wire (negative : bool) (h m s : Z) : list byte :=
  [z2b (if negative then 1 else 0)] ++ binary.le_bytes 4 (h / 24) ++ clock_wire (h mod 24) m s.

Lemma parse_padded n z w : 0 <= z < 2 ^ w -> 0 <= w <= 64 -> parse_uint (fmt.pad_uint n z) w = Ret (Ok z).
Proof. intros Hz Hw. unfold parse_uint. by rewrite fmt.ParseUint_pad_uint. Qed.

(** The six digits of a fraction are taken as they are. *)
Lemma micros_padded u : 0 <= u < 10 ^ 6 -> micros (fmt.pad_uint 6 u) = fmt.pad_uint 6 u.
Proof.
  intros Hu. pose proof (fmt.length_pad_uint 6 u ltac:(lia) Hu) as Hl. unfold micros. rewrite Hl, take_ge by lia. apply app_nil_r.
Qed.

(** A text of a known length is the list of its characters. *)
Ltac spell l := match goal with H : length l = _ |- _ => repeat (destruct l as [|? l]; try discriminate H); clear H end.

Lemma date_parts Y M D : length Y = 4%nat -> length M = 2%nat -> length D = 2%nat ->
  val_DateTime (Y ++ [dash] ++ M ++ [dash] ++ D) =
    (year ←? parse_uint Y 16; month ←? parse_uint M 8; day ←? parse_uint D 8;
     make_filled 5 (fun out pos =>
      '(out, pos) ← writeByte out pos (z2b 0x04);
      '(out, pos) ← writeUint16 out pos year;
      '(out, pos) ← writeByte out pos (z2b month);
      writeByte out pos (z2b day))).
Proof. intros HY HM HD. spell Y. spell M. spell D. reflexivity. Qed.

Lemma datetime_parts Y M D H I S : length Y = 4%nat -> length M = 2%nat -> length D = 2%nat -> length H = 2%nat -> length I = 2%nat -> length S = 2%nat ->
  val_DateTime ((Y ++ [dash] ++ M ++ [dash] ++ D) ++ [z2b 32] ++ (H ++ [colon] ++ I ++ [colon] ++ S)) =
    (year ←? parse_uint Y 16; month ←? parse_uint M 8; day ←? parse_uint D 8;
     hour ←? parse_uint H 8; minute ←? parse_uint I 8; second ←? parse_uint S 8;
     make_filled 8 (fun out pos =>
      '(out, pos) ← writeByte out pos (z2b 0x07);
      '(out, pos) ← writeUint16 out pos year;
      '(out, pos) ← writeByte out pos (z2b month);
      '(out, pos) ← writeByte out pos (z2b day);
      '(out, pos) ← writeByte out pos (z2b hour);
      '(out, pos) ← writeByte out pos (z2b minute);
      writeByte out pos (z2b second))).
Proof. intros HY HM HD HH HI HS. spell Y. spell M. spell D. spell H. spell I. spell S. reflexivity. Qed.

Lemma datetime_micros_parts Y M D H I S U : length Y = 4%nat -> length M = 2%nat -> length D = 2%nat ->
  length H = 2%nat -> length I = 2%nat -> length S = 2%nat -> length U = 6%nat ->
  val_DateTime ((Y ++ [dash] ++ M ++ [dash] ++ D) ++ [z2b 32] ++ (H ++ [colon] ++ I ++ [colon] ++ S) ++ [dot] ++ U) =
    (year ←? parse_uint Y 16; month ←? parse_uint M 8; day ←? parse_uint D 8;
     hour ←? parse_uint H 8; minute ←? parse_uint I 8; second ←? parse_uint S 8; microSecond ←? parse_uint (micros U) 32;
     make_filled 12 (fun out pos =>
      '(out, pos) ← writeByte out pos (z2b 0x0b);
      '(out, pos) ← writeUint16 out pos year;
      '(out, pos) ← writeByte out pos (z2b month);
      '(out, pos) ← writeByte out pos (z2b day);
      '(out, pos) ← writeByte out pos (z2b hour);
      '(out, pos) ← writeByte out pos (z2b minute);
      '(out, pos) ← writeByte out pos (z2b second);
      writeUint32 out pos microSecond)).
Proof. intros HY HM HD HH HI HS HU. spell Y. spell M. spell D. spell H. spell I. spell S. spell U. reflexivity. Qed.

(** What is written for a date, with a time of day and with a fraction. *)
Lemma val_date y m d : is_date y m d -> val_DateTime (padded_date y m d) = Ret (Ok ([z2b 0x04] ++ date_wire y m d)).
Proof.
  intros (Hy & Hm & Hd). unfold padded_date. rewrite date_parts by (by apply fmt.length_pad_uint; [lia|]).
  rewrite !parse_padded by lia. cbn [tbind mbind outcome_bind]. apply make_filled_ok; [unfold date_wire; repeat fill|done|done].
Qed.

Lemma val_datetime y m d h i s : is_date y m d -> is_clock h i s ->
  val_DateTime (padded_date y m d ++ [z2b 32] ++ padded_clock h i s) = Ret (Ok ([z2b 0x07] ++ date_wire y m d ++ clock_wire h i s)).
Proof.
  intros (Hy & Hm & Hd) (Hh & Hi & Hs). unfold padded_date, padded_clock. rewrite datetime_parts by (by apply fmt.length_pad_uint; [lia|]).
  rewrite !parse_padded by lia. cbn [tbind mbind outcome_bind].
  apply make_filled_ok; [unfold date_wire, clock_wire; rewrite <- !app_assoc; repeat fill|done|done].
Qed.

Lemma val_datetime_micros y m d h i s u : is_date y m d -> is_clock h i s -> 0 <= u < 10 ^ 6 ->
  val_DateTime (padded_date y m d ++ [z2b 32] ++ padded_clock h i s ++ [dot] ++ fmt.pad_uint 6 u) =
    Ret (Ok ([z2b 0x0b] ++ date_wire y m d ++ clock_wire h i s ++ binary.le_bytes 4 u)).
Proof.
  intros (Hy & Hm & Hd) (Hh & Hi & Hs) Hu. unfold padded_date, padded_clock. rewrite datetime_micros_parts by (by apply fmt.length_pad_uint; [lia|]).
  rewrite micros_padded by done. rewrite !parse_padded by lia. cbn [tbind mbind outcome_bind].
  apply make_filled_ok; [unfold date_wire, clock_wire; rewrite <- !app_assoc; repeat fill|done|done].
Qed.

(** *** Times *)

Lemma sign_chars (negative : bool) h : 0 <= h ->
  time_sign ((if negative then [dash] else []) ++ fmt.pad_uint 2 h) = (z2b (if negative then 1 else 0), fmt.pad_uint 2 h).
Proof.
  intros Hh. pose proof (fmt.pad_uint_not_in 2 h dash Hh eq_refl) as Hd. destruct negative; cbn [app time_sign]; [by rewrite decide_True|].
  destruct (fmt.pad_uint 2 h) as [|c l]; [done|]. cbn [time_sign]. rewrite decide_False; [done|]. intros ->. apply Hd. apply elem_of_cons. by left.
Qed.

Lemma hours_not_in (negative : bool) h c : 0 <= h -> c <> dash -> strconv.is_digit c = false -> c ∉ (if negative then [dash] else []) ++ fmt.pad_uint 2 h.
Proof.
  intros Hh Hc Hd Hin. apply elem_of_app in Hin as [Hin|Hin]; [|by apply (fmt.pad_uint_not_in 2 h c Hh Hd)].
  destruct negative; [|by apply elem_of_nil in Hin]. apply elem_of_cons in Hin as [->|Hin]; [done|by apply elem_of_nil in Hin].
Qed.

Lemma split_clock P I S : colon ∉ P -> colon ∉ I -> colon ∉ S -> strings.Split colon (P ++ [colon] ++ I ++ [colon] ++ S) = [P; I; S].
Proof. intros HP HI HS. cbn [app]. by rewrite !strings.Split_app, strings.Split_absent. Qed.

(** A time with all its parts 0 and no sign is the only one written as the empty one. *)
Lemma not_zero_time (negative : bool) h m s : 0 <= h < 2 ^ 32 -> 0 <= m < 10 ^ 2 -> 0 <= s < 10 ^ 2 -> (negative = true \/ h <> 0 \/ m <> 0 \/ s <> 0) ->
  ((if negative then [dash] else []) ++ padded_clock h m s) <> bs "00:00:00".
Proof.
  intros Hh Hm Hs Hnz E. unfold padded_clock in E. rewrite app_assoc in E. apply (f_equal (strings.Split colon)) in E.
  rewrite split_clock in E; [|apply hours_not_in; [lia|done|done]|by apply fmt.pad_uint_not_in; [lia|]..].
  assert (forall z, 0 <= z < 2 ^ 64 -> fmt.pad_uint 2 z = [z2b 48; z2b 48] -> z = 0) as Hzero.
  { intros z Hz Ez. pose proof (fmt.ParseUint_pad_uint 2 z 64 Hz ltac:(lia)) as Hp. rewrite Ez in Hp.
    change (strconv.ParseUint [z2b 48; z2b 48] 64) with (@Ok strconv.num_error Z 0) in Hp. by injection Hp. }
  change (strings.Split colon (bs "00:00:00")) with [[z2b 48; z2b 48]; [z2b 48; z2b 48]; [z2b 48; z2b 48]] in E.
  pose proof (f_equal (fun l => l !! 0%nat) E) as E1. pose proof (f_equal (fun l => l !! 1%nat) E) as E2. pose proof (f_equal (fun l => l !! 2%nat) E) as E3.
  cbn [lookup list_lookup] in E1, E2, E3. apply Some_inj in E1, E2, E3. apply Hzero in E2, E3; [|lia..].
  destruct negative; cbn [app] in E1; [discriminate E1|]. apply Hzero in E1; [|lia]. intuition congruence.
Qed.

Lemma dot_in_clock (negative : bool) h m s : 0 <= h -> 0 <= m -> 0 <= s -> dot ∉ (if negative then [dash] else []) ++ padded_clock h m s.
Proof.
  intros Hh Hm Hs. unfold padded_clock. rewrite app_assoc, !elem_of_app, !elem_of_cons, !elem_of_nil.
  pose proof (hours_not_in negative h dot Hh ltac:(done) eq_refl) as H1. rewrite elem_of_app in H1.
  pose proof (fmt.pad_uint_not_in 2 m dot Hm eq_refl). pose proof (fmt.pad_uint_not_in 2 s dot Hs eq_refl).
  assert (dot <> colon) by done. tauto.
Qed.

Lemma val_time (negative : bool) h m s : 0 <= h < 2 ^ 32 -> 0 <= m < 10 ^ 2 -> 0 <= s < 10 ^ 2 -> (negative = true \/ h <> 0 \/ m <> 0 \/ s <> 0) ->
  val_Time ((if negative then [dash] else []) ++ padded_clock h m s) = Ret (Ok ([z2b 0x08] ++ time_wire negative h m s)).
Proof.
  intros Hh Hm Hs Hnz. unfold val_Time. rewrite decide_False by by apply not_zero_time. rewrite bool_decide_eq_false_2 by (apply dot_in_clock; lia).
  rewrite (proj2 (Z.ltb_lt _ _)).
  2: { unfold padded_clock. rewrite !zlen_app. change (zlen [colon]) with 1. assert (forall l : list byte, 0 <= zlen l) as Hz by apply zlen_nonneg.
       pose proof (Hz (if negative then [dash] else [])). pose proof (Hz (fmt.pad_uint 2 h)). pose proof (Hz (fmt.pad_uint 2 m)). pose proof (Hz (fmt.pad_uint 2 s)). lia. }
  unfold padded_clock. rewrite app_assoc, split_clock; [|apply hours_not_in; [lia|done|done]|by apply fmt.pad_uint_not_in; [lia|]..].
  rewrite sign_chars by lia. rewrite !parse_padded by lia. cbn [tbind mbind outcome_bind].
  apply make_filled_ok; [unfold time_wire, clock_wire; repeat fill|done|done].
Qed.

Lemma val_time_micros (negative : bool) h m s u : 0 <= h < 2 ^ 32 -> 0 <= m < 10 ^ 2 -> 0 <= s < 10 ^ 2 -> 0 <= u < 10 ^ 6 ->
  val_Time (((if negative then [dash] else []) ++ padded_clock h m s) ++ [dot] ++ fmt.pad_uint 6 u) =
    Ret (Ok ([z2b 0x0c] ++ time_wire negative h m s ++ binary.le_bytes 4 u)).
Proof.
  intros Hh Hm Hs Hu. unfold val_Time. set (raw := (_ ++ padded_clock h m s) ++ _).
  assert (dot ∈ raw) as Hdot by (unfold raw; rewrite !elem_of_app; right; left; by apply list_elem_of_singleton).
  rewrite decide_False by (intros E; rewrite E in Hdot; pose proof (bool_decide_eq_true_2 _ Hdot) as Hin; discriminate Hin).
  rewrite bool_decide_eq_true_2 by done. unfold raw, padded_clock.
  replace (_ ++ [dot] ++ fmt.pad_uint 6 u) with
    (((if negative then [dash] else []) ++ fmt.pad_uint 2 h) ++ [colon] ++ fmt.pad_uint 2 m ++ [colon] ++ fmt.pad_uint 2 s ++ [dot] ++ fmt.pad_uint 6 u)
    by (by rewrite <- !app_assoc).
  rewrite split_clock; [|apply hours_not_in; [lia|done|done]|by apply fmt.pad_uint_not_in; [lia|]|].
  2: { rewrite !elem_of_app, list_elem_of_singleton. intros [H|[H|H]]; [|done|]; (apply fmt.pad_uint_not_in in H; [done|lia|done]). }
  change ([dot] ++ fmt.pad_uint 6 u) with (dot :: fmt.pad_uint 6 u). rewrite strings.Split_app, strings.Split_absent by (apply fmt.pad_uint_not_in; [lia|done]).
  rewrite sign_chars by lia. rewrite micros_padded by done. rewrite !parse_padded by lia. cbn [tbind mbind outcome_bind].
  apply make_filled_ok; [unfold time_wire, clock_wire; rewrite <- !app_assoc; repeat fill|done|done].
Qed.

Section Args.
Context (ParseFloat32 ParseFloat64 : list byte -> option Z) (float32_chars float64_chars : Z -> list byte).

Abbreviation val := (val2MySQL ParseFloat32 ParseFloat64).
Abbreviation arg := (parseStmtArgs float32_chars float64_chars).

(** A value that is sent as [out] is read as [v']. *)
Definition travels (v v' : Value) : Prop :=
  exists out, val v = Ret (Ok out) /\
    forall p q, buffer_ok (p ++ out ++ q) -> arg (p ++ out ++ q) (v_typ v) (zlen p) = Ret (v', zlen (p ++ out), true).

(** *** Numbers and strings *)

Lemma number_travels {A} v v' n fill out (rd : list byte -> Z -> outcome (A * Z * bool)) a g : val v = make_filled n fill -> fills fill out -> length out = n ->
  Z.of_nat n <= MaxInt64 -> (forall D pos, arg D (v_typ v) pos = arg_number (rd D pos) g) -> reads rd out a -> g a = v' -> travels v v'.
Proof.
  intros Hv Hf Hl Hn Harg Hr <-. exists out. split; [rewrite Hv; by apply make_filled_ok|]. intros p q HD. rewrite Harg. unfold arg_number. by rewrite Hr.
Qed.

Lemma reads_uint64 v : is_uint64 v -> reads readUint64 (binary.le_bytes 8 v) v.
Proof. intros Hv. apply (reads_uint 8); [done|]. change (256 ^ Z.of_nat 8) with (2 ^ 64). unfold_ints. lia. Qed.

Lemma parse_int_text z w : 1 <= w <= 64 -> - 2 ^ (w - 1) <= z < 2 ^ (w - 1) -> parse_int (strconv.FormatInt z) w = Ret (Ok z).
Proof. intros Hw Hz. unfold parse_int. by rewrite strconv.ParseIntBits_FormatInt. Qed.

Lemma parse_uint_text z w : 0 <= w <= 64 -> 0 <= z < 2 ^ w -> parse_uint (strconv.FormatUint z) w = Ret (Ok z).
Proof. intros Hw Hz. unfold parse_uint. by rewrite strconv.ParseUint_FormatUint. Qed.

Lemma wrapU_range w z : 0 <= w -> 0 <= wrapU w z < 2 ^ w.
Proof. intros Hw. apply Z.mod_pos_bound. by apply Z.pow_pos_nonneg. Qed.

(** One of the cases of numbers: [parsed] is the number of the text, of which [fill] writes [out], and [g] makes a value of the [a] read from it. *)
Lemma parsed_travels {A} v v' parsed (z : Z) n write (rd : list byte -> Z -> outcome (A * Z * bool)) out a g :
  val v = (x ←? parsed; make_filled n (write x)) -> parsed = Ret (Ok z) -> fills (write z) out -> length out = n -> Z.of_nat n <= MaxInt64 ->
  (forall D pos, arg D (v_typ v) pos = arg_number (rd D pos) g) -> reads rd out a -> g a = v' -> travels v v'.
Proof. intros Hv Hp. intros. eapply number_travels; try done. by rewrite Hv, Hp. Qed.

Lemma int_travels t w z : (t, w) ∈ signed_types -> - 2 ^ (w - 1) <= z < 2 ^ (w - 1) -> travels {| v_typ := t; v_val := strconv.FormatInt z |} (NewInt64 z).
Proof.
  intros Ht Hz. assert (1 <= w <= 64) as Hw by (unfold signed_types in Ht; repeat (apply elem_of_cons in Ht as [[= -> ->]|Ht]; [lia|]); by apply not_elem_of_nil in Ht).
  pose proof (parse_int_text z w Hw Hz) as Hp. pose proof (wrapS_mod w z ltac:(lia) Hz) as Hwrap. pose proof (wrapU_range w z ltac:(lia)) as Hu.
  unfold signed_types in Ht. repeat (apply elem_of_cons in Ht as [[= -> ->]|Ht]); [..|by apply not_elem_of_nil in Ht].
  - apply (parsed_travels _ _ (parse_int (strconv.FormatInt z) 8) z 1 (fun x out pos => writeByte out pos (z2b x)) readByte [z2b z] (z2b z)
      (fun val => NewInt64 (int8 (b2z val)))); [done|done|apply fills_byte|done|done|done|apply reads_byte|]. rewrite b2z_z2b. unfold int8. f_equal. exact Hwrap.
  - apply (parsed_travels _ _ (parse_int (strconv.FormatInt z) 16) z 2 (fun x out pos => writeUint16 out pos (uint16 x)) readUint16 (binary.le_bytes 2 (uint16 z)) (uint16 z)
      (fun val => NewInt64 (int16 val))); [done|done|apply fills_uint16|done|done|done|by apply reads_uint16|]. unfold int16. f_equal. exact Hwrap.
  - apply (parsed_travels _ _ (parse_int (strconv.FormatInt z) 16) z 2 (fun x out pos => writeUint16 out pos (uint16 x)) readUint16 (binary.le_bytes 2 (uint16 z)) (uint16 z)
      (fun val => NewInt64 (int16 val))); [done|done|apply fills_uint16|done|done|done|by apply reads_uint16|]. unfold int16. f_equal. exact Hwrap.
  - apply (parsed_travels _ _ (parse_int (strconv.FormatInt z) 32) z 4 (fun x out pos => writeUint32 out pos (uint32 x)) readUint32 (binary.le_bytes 4 (uint32 z)) (uint32 z)
      (fun val => NewInt64 (int32 val))); [done|done|apply fills_uint32|done|done|done|by apply reads_uint32|]. unfold int32. f_equal. exact Hwrap.
  - apply (parsed_travels _ _ (parse_int (strconv.FormatInt z) 32) z 4 (fun x out pos => writeUint32 out pos (uint32 x)) readUint32 (binary.le_bytes 4 (uint32 z)) (uint32 z)
      (fun val => NewInt64 (int32 val))); [done|done|apply fills_uint32|done|done|done|by apply reads_uint32|]. unfold int32. f_equal. exact Hwrap.
  - apply (parsed_travels _ _ (parse_int (strconv.FormatInt z) 64) z 8 (fun x out pos => writeUint64 out pos (uint64 x)) readUint64 (binary.le_bytes 8 (uint64 z)) (uint64 z)
      (fun val => NewInt64 (int64 val))); [done|done|apply fills_uint64|done|done|done|apply reads_uint64; unfold_ints; lia|]. unfold int64. f_equal. exact Hwrap.
Qed.

Lemma uint_travels t w z : (t, w) ∈ unsigned_types -> 0 <= z < 2 ^ w -> travels {| v_typ := t; v_val := strconv.FormatUint z |} (NewUint64 z).
Proof.
  intros Ht Hz. assert (0 <= w <= 64) as Hw by (unfold unsigned_types in Ht; repeat (apply elem_of_cons in Ht as [[= -> ->]|Ht]; [lia|]); by apply not_elem_of_nil in Ht).
  pose proof (parse_uint_text z w Hw Hz) as Hp.
  unfold unsigned_types in Ht. repeat (apply elem_of_cons in Ht as [[= -> ->]|Ht]); [..|by apply not_elem_of_nil in Ht].
  - apply (parsed_travels _ _ (parse_uint (strconv.FormatUint z) 8) z 1 (fun x out pos => writeByte out pos (z2b x)) readByte [z2b z] (z2b z)
      (fun val => NewUint64 (b2z val))); [done|done|apply fills_byte|done|done|done|apply reads_byte|]. rewrite b2z_z2b, Z.mod_small by lia. done.
  - apply (parsed_travels _ _ (parse_uint (strconv.FormatUint z) 16) z 2 (fun x out pos => writeUint16 out pos x) readUint16 (binary.le_bytes 2 z) z
      NewUint64); [done|done|apply fills_uint16|done|done|done|by apply reads_uint16|done].
  - apply (parsed_travels _ _ (parse_uint (strconv.FormatUint z) 32) z 4 (fun x out pos => writeUint32 out pos x) readUint32 (binary.le_bytes 4 z) z
      NewUint64); [done|done|apply fills_uint32|done|done|done|by apply reads_uint32|done].
  - apply (parsed_travels _ _ (parse_uint (strconv.FormatUint z) 32) z 4 (fun x out pos => writeUint32 out pos x) readUint32 (binary.le_bytes 4 z) z
      NewUint64); [done|done|apply fills_uint32|done|done|done|by apply reads_uint32|done].
  - apply (parsed_travels _ _ (parse_uint (strconv.FormatUint z) 64) z 8 (fun x out pos => writeUint64 out pos x) readUint64 (binary.le_bytes 8 z) z
      NewUint64); [done|done|apply fills_uint64|done|done|done|apply reads_uint64; unfold_ints; lia|done].
Qed.

Lemma float32_travels s bits : ParseFloat32 s = Some bits -> 0 <= bits < 2 ^ 32 ->
  travels {| v_typ := Type_FLOAT32; v_val := s |} (MakeTrusted Type_FLOAT64 (float32_chars bits)).
Proof.
  intros Hp Hb. apply (number_travels _ _ 4 (fun out pos => writeUint32 out pos bits) (binary.le_bytes 4 bits) readUint32 bits
    (fun val => MakeTrusted Type_FLOAT64 (float32_chars val))); [|apply fills_uint32|done|done|done|by apply reads_uint32|done].
  change (val_float (ParseFloat32 s) 4 writeUint32 = make_filled 4 (fun out pos => writeUint32 out pos bits)). by rewrite Hp.
Qed.

Lemma float64_travels s bits : ParseFloat64 s = Some bits -> 0 <= bits < 2 ^ 64 ->
  travels {| v_typ := Type_FLOAT64; v_val := s |} (MakeTrusted Type_FLOAT64 (float64_chars bits)).
Proof.
  intros Hp Hb. apply (number_travels _ _ 8 (fun out pos => writeUint64 out pos bits) (binary.le_bytes 8 bits) readUint64 bits
    (fun val => MakeTrusted Type_FLOAT64 (float64_chars val))); [|apply fills_uint64|done|done|done|apply reads_uint64; unfold_ints; lia|done].
  change (val_float (ParseFloat64 s) 8 writeUint64 = make_filled 8 (fun out pos => writeUint64 out pos bits)). by rewrite Hp.
Qed.

Lemma string_travels t s : t ∈ string_types -> zlen s < 2 ^ 59 -> travels {| v_typ := t; v_val := s |} (MakeTrusted Type_VARBINARY s).
Proof.
  intros Ht Hs. set (n := Z.to_nat (lenEncIntSize (uint64 (zlen s)) + zlen s)). pose proof (zlen_nonneg s) as H0.
  assert (val {| v_typ := t; v_val := s |} = make_filled n (fun out pos => writeLenEncString out pos s) /\
    forall D pos, arg D t pos = arg_number (readLenEncStringAsBytesCopy D pos) (fun x => MakeTrusted Type_VARBINARY x)) as [Hv Harg].
  { unfold string_types in Ht. repeat (apply elem_of_cons in Ht as [->|Ht]; [done|]). by apply not_elem_of_nil in Ht. }
  assert (length (lenenc_string s) = n) as Hn.
  { pose proof (lenEncStringSize_short s Hs) as El. unfold lenEncStringSize in El. pose proof (lenEncIntSize_range (uint64 (zlen s))).
    rewrite add64_pos in El by (unfold_ints; lia). unfold n. rewrite El. unfold zlen. lia. }
  eapply (number_travels _ _ n _ (lenenc_string s) readLenEncStringAsBytesCopy s); [exact Hv|by apply fills_short|done| |exact Harg|apply reads_copy|done].
  pose proof (zlen_lenenc_string s Hs) as [_ Hl]. rewrite <- Hn. fold (zlen (lenenc_string s)). unfold_ints. lia.
Qed.

(** *** Dates and times *)

Lemma arg_or_step {A} rd out (v : A) D p q (k : A -> Z -> arg_result) :
  buffer_ok D -> D = p ++ out ++ q -> reads rd out v -> arg_or (rd D (zlen p)) k = k v (zlen (p ++ out)).
Proof. intros HD -> Hr. unfold arg_or. by rewrite Hr. Qed.

Lemma arg_date_step y m d D p q k : is_date y m d -> buffer_ok D -> D = p ++ date_wire y m d ++ q ->
  arg_date D (zlen p) k = k y m d (zlen (p ++ date_wire y m d)).
Proof.
  intros (Hy & Hm & Hd) HD E. unfold date_wire in E. rewrite <- !app_assoc in E. unfold arg_date.
  erewrite arg_or_step; [|done|exact E|apply reads_uint16; unfold is_uint16; lia]. rewrite app_assoc in E. cbv beta.
  erewrite arg_or_step; [|done|exact E|apply reads_byte]. rewrite app_assoc in E. cbv beta.
  erewrite arg_or_step; [|done|exact E|apply reads_byte]. rewrite !b2z_z2b, !Z.mod_small by lia. unfold date_wire. by rewrite !app_assoc.
Qed.

Lemma arg_clock_step h m s D p q k : is_clock h m s -> buffer_ok D -> D = p ++ clock_wire h m s ++ q ->
  arg_clock D (zlen p) k = k h m s (zlen (p ++ clock_wire h m s)).
Proof.
  intros (Hh & Hm & Hs) HD E. unfold clock_wire in E. rewrite <- !app_assoc in E. unfold arg_clock.
  do 3 (erewrite arg_or_step; [|done|exact E|apply reads_byte]; rewrite app_assoc in E; cbv beta).
  rewrite !b2z_z2b, !Z.mod_small by lia. unfold clock_wire. by rewrite !app_assoc.
Qed.

Lemma arg_time_step negative h m s D p q k : 0 <= h < 2 ^ 32 -> 0 <= m < 10 ^ 2 -> 0 <= s < 10 ^ 2 -> buffer_ok D -> D = p ++ time_wire negative h m s ++ q ->
  arg_time D (zlen p) k = k ((if negative then [dash] else []) ++ clock_chars h m s) (zlen (p ++ time_wire negative h m s)).
Proof.
  intros Hh Hm Hs HD E. unfold time_wire in E. rewrite <- !app_assoc in E. unfold arg_time.
  pose proof (Z.div_mod h 24 ltac:(lia)) as Hdiv. pose proof (Z.mod_pos_bound h 24 ltac:(lia)) as Hmod.
  erewrite arg_or_step; [|done|exact E|apply reads_byte]. rewrite app_assoc in E. cbv beta.
  erewrite arg_or_step; [|done|exact E|apply reads_uint32; unfold_ints; lia]. rewrite app_assoc in E. cbv beta.
  assert (is_clock (h mod 24) m s) as Hc by (unfold is_clock; lia). rewrite (arg_clock_step _ _ _ _ _ _ _ Hc HD E). cbv zeta.
  replace (uint32 (h mod 24 + uint32 (h / 24 * 24))) with h.
  - unfold time_wire. rewrite !app_assoc. by destruct negative.
  - unfold uint32, wrapU. rewrite (Z.mod_small (h / 24 * 24)) by lia. rewrite Z.mod_small; lia.
Qed.

Lemma date_arg t : t ∈ [Type_TIMESTAMP; Type_DATE; Type_DATETIME] -> forall raw D pos,
  val {| v_typ := t; v_val := raw |} = val_DateTime raw /\ arg D t pos = arg_DateTime D pos.
Proof. intros Ht raw D pos. repeat (apply elem_of_cons in Ht as [->|Ht]; [done|]). by apply elem_of_nil in Ht. Qed.

(** A date is sent with a byte for its form, and this byte leads to the reads that fit. *)
Lemma date_travels t raw v' size wire : t ∈ [Type_TIMESTAMP; Type_DATE; Type_DATETIME] -> val_DateTime raw = Ret (Ok ([z2b size] ++ wire)) ->
  (forall D p q, buffer_ok D -> D = p ++ [z2b size] ++ wire ++ q -> arg_DateTime D (zlen p) = Ret (v', zlen ((p ++ [z2b size]) ++ wire), true)) ->
  travels {| v_typ := t; v_val := raw |} v'.
Proof.
  intros Ht Hv Ha. exists ([z2b size] ++ wire). split; [by destruct (date_arg t Ht raw [] 0) as [-> _]|]. intros p q HD.
  destruct (date_arg t Ht raw (p ++ ([z2b size] ++ wire) ++ q) (zlen p)) as [_ E]. cbn [v_typ]. rewrite E, (Ha _ p q HD); [by rewrite <- app_assoc|].
  by rewrite <- !app_assoc.
Qed.

Lemma time_travels raw v' size wire : val_Time raw = Ret (Ok ([z2b size] ++ wire)) ->
  (forall D p q, buffer_ok D -> D = p ++ [z2b size] ++ wire ++ q -> arg_Time D (zlen p) = Ret (v', zlen ((p ++ [z2b size]) ++ wire), true)) ->
  travels {| v_typ := Type_TIME; v_val := raw |} v'.
Proof.
  intros Hv Ha. exists ([z2b size] ++ wire). split; [done|]. intros p q HD. change (arg ?D ?t ?pos) with (arg_Time D pos).
  rewrite (Ha _ p q HD); [by rewrite <- app_assoc|by rewrite <- !app_assoc].
Qed.

(** The byte for the form of a date or time is read. *)
Ltac size_read f E := rewrite <- ?app_assoc in E; unfold f;
  erewrite arg_or_step; [|eassumption|exact E|apply reads_byte]; rewrite app_assoc in E; cbv beta;
  rewrite b2z_z2b, Z.mod_small by lia; cbn [Z.eqb Pos.eqb].

(** What [val2MySQL] writes for an argument is read by [parseStmtArgs] at any place of a packet as the same value, and the bytes
    it was written to are used up. *)
Lemma argument_travels (v v' : Value) : argument ParseFloat32 ParseFloat64 float32_chars float64_chars v v' -> travels v v'.
Proof.
  intros H; destruct H as [| |s bits Hp Hb|s bits Hp Hb| |t y m d Ht Hd|t y m d h i s Ht Hd Hc|t y m d h i s u Ht Hd Hc Hu| |neg h m s Hh Hm Hs Hnz|neg h m s u Hh Hm Hs Hu];
    [by eapply int_travels|by eapply uint_travels|by apply (float32_travels s bits)|by apply (float64_travels s bits)|by apply string_travels|..].
  - apply (date_travels t _ _ 0x04 (date_wire y m d) Ht (val_date y m d Hd)). intros D p q HD E. size_read arg_DateTime E.
    by rewrite (arg_date_step _ _ _ _ _ _ _ Hd HD E).
  - apply (date_travels t _ _ 0x07 (date_wire y m d ++ clock_wire h i s) Ht (val_datetime y m d h i s Hd Hc)). intros D p q HD E. size_read arg_DateTime E.
    rewrite (arg_date_step _ _ _ _ _ _ _ Hd HD E). rewrite app_assoc in E. rewrite (arg_clock_step _ _ _ _ _ _ _ Hc HD E). by rewrite !app_assoc.
  - apply (date_travels t _ _ 0x0b (date_wire y m d ++ clock_wire h i s ++ binary.le_bytes 4 u) Ht (val_datetime_micros y m d h i s u Hd Hc Hu)).
    intros D p q HD E. size_read arg_DateTime E.
    rewrite (arg_date_step _ _ _ _ _ _ _ Hd HD E). rewrite app_assoc in E. rewrite (arg_clock_step _ _ _ _ _ _ _ Hc HD E). rewrite app_assoc in E.
    erewrite arg_or_step; [|done|exact E|apply reads_uint32; lia]. by rewrite !app_assoc.
  - apply (time_travels _ _ 0x00 []); [done|]. intros D p q HD E. size_read arg_Time E. by rewrite app_nil_r.
  - apply (time_travels _ _ 0x08 (time_wire neg h m s) (val_time neg h m s Hh Hm Hs Hnz)). intros D p q HD E. size_read arg_Time E.
    by rewrite (arg_time_step _ _ _ _ _ _ _ _ Hh Hm Hs HD E).
  - apply (time_travels _ _ 0x0c (time_wire neg h m s ++ binary.le_bytes 4 u) (val_time_micros neg h m s u Hh Hm Hs Hu)). intros D p q HD E.
    size_read arg_Time E. rewrite (arg_time_step _ _ _ _ _ _ _ _ Hh Hm Hs HD E). rewrite app_assoc in E.
    erewrite arg_or_step; [|done|exact E|apply reads_uint32; lia]. by rewrite !app_assoc.
Qed.
End Args.
