(* ===== verification/Prepared.v ===== *)
(** * Prepared statements

    The commands of [go/mysql/conn.go] for prepared statements, with the functions of [query.go] that parse and answer
    them: a client prepares a statement, sends long arguments in pieces, executes it with its arguments in the binary
    protocol, resets and closes it.  The statements of a connection are kept in a map; the handler, the parser of SQL
    and the texts of floating point numbers are parameters. *)

From S2P Require Import Prelude Intervals GoStd Encoding SqlTypes Packet OkPacket ResultSet BinaryValue BinaryArgs.

Definition CRCommandsOutOfSync : Z := 2014.
Definition CRMalformedPacket : Z := 2027.
Definition ERUnknownComError : Z := 1047.
Definition ERServerShutdown : Z := 1053.
Definition SSNetError : list byte := bs "08S01".
Definition ComPrepare : Z := 0x16.
Definition ComStmtExecute : Z := 0x17.
Definition ComStmtSendLongData : Z := 0x18.
Definition ComStmtClose : Z := 0x19.
Definition ComStmtReset : Z := 0x1a.

(** ** State *)

Record BindVariable := { bv_Type : Z; bv_Value : list byte }.

Definition ValueBindVariable (v : Value) : BindVariable := {| bv_Type := v_typ v; bv_Value := v_val v |}.
Definition BytesBindVariable (v : list byte) : BindVariable := {| bv_Type := Type_VARBINARY; bv_Value := v |}.

(** A map of bind variables; its entries are pointers, which may be nil. *)
Abbreviation bind_map := (gmap (list byte) (option BindVariable)).

(** [PrepareData]; [BindVars] may be nil. *)
Record PrepareData := {
  ParamsType : list Z;
  ColumnNames : list (list byte);
  PrepareStmt : list byte;
  BindVars : option bind_map;
  StatementID : Z;
  ParamsCount : Z
}.

Definition set_ParamsType (types : list Z) (p : PrepareData) : PrepareData :=
  {| ParamsType := types; ColumnNames := ColumnNames p; PrepareStmt := PrepareStmt p; BindVars := BindVars p;
     StatementID := StatementID p; ParamsCount := ParamsCount p |}.

Definition set_ColumnNames (names : list (list byte)) (p : PrepareData) : PrepareData :=
  {| ParamsType := ParamsType p; ColumnNames := names; PrepareStmt := PrepareStmt p; BindVars := BindVars p;
     StatementID := StatementID p; ParamsCount := ParamsCount p |}.

Definition set_BindVars (vars : option bind_map) (p : PrepareData) : PrepareData :=
  {| ParamsType := ParamsType p; ColumnNames := ColumnNames p; PrepareStmt := PrepareStmt p; BindVars := vars;
     StatementID := StatementID p; ParamsCount := ParamsCount p |}.

(** A connection of the server with its statements. *)
Record Session := {
  s_conn : Conn;
  s_ConnectionID : Z;
  s_StatementID : Z;
  s_PrepareData : gmap Z PrepareData
}.

Definition set_conn (c : Conn) (s : Session) : Session :=
  {| s_conn := c; s_ConnectionID := s_ConnectionID s; s_StatementID := s_StatementID s; s_PrepareData := s_PrepareData s |}.

Definition set_prepared (pd : gmap Z PrepareData) (s : Session) : Session :=
  {| s_conn := s_conn s; s_ConnectionID := s_ConnectionID s; s_StatementID := s_StatementID s; s_PrepareData := pd |}.

Definition set_StatementID (id : Z) (s : Session) : Session :=
  {| s_conn := s_conn s; s_ConnectionID := s_ConnectionID s; s_StatementID := id; s_PrepareData := s_PrepareData s |}.

(** *** Computations on a session *)

Definition cmd (A : Type) : Type := Session -> outcome (A * Session).

#[export] Instance cmd_ret : MRet cmd := fun A a s => Ret (a, s).
#[export] Instance cmd_bind : MBind cmd := fun A B k m s => match m s with Panic => Panic | Ret (a, s) => k a s end.

Definition session : cmd Session := fun s => Ret (s, s).
Definition modify (f : Session -> Session) : cmd unit := fun s => Ret (tt, f s).
Definition crash {A} : cmd A := fun _ => Panic.
Definition calc {A} (o : outcome A) : cmd A := fun s => match o with Panic => Panic | Ret a => Ret (a, s) end.

(** A function that works on the connection. *)
Definition on_conn {A} (m : Conn -> outcome (A * Conn)) : cmd A := fun s =>
  match m (s_conn s) with Panic => Panic | Ret (a, c) => Ret (a, set_conn c s) end.

(** [if err := ...; err != nil { return false }]. *)
Definition written {A} (m : io A) : cmd bool := r ← on_conn m; mret (match r with Ok _ => true | Err _ => false end).

Definition recycled : cmd unit := _ ← on_conn recycleReadPacket; mret tt.

(** ** Parsing *)

(** [fmt.Sprintf(%v)] of a slice of bytes. *)
Definition bytes_text (data : list byte) : list byte :=
  bs "[" ++ strings.Join (z2b 32) ((fun b => strconv.FormatUint (b2z b)) <$> data) ++ bs "]".

(** The name of the parameter [i]. *)
Definition parameterID (i : Z) : list byte := bs "v" ++ strconv.FormatUint (i + 1).

Definition malformed_stmt (message : list byte) : SQLError := NewSQLError CRMalformedPacket SSUnknownSQLState message.

(** [parseComStmtSendLongData]. *)
Definition parseComStmtSendLongData (data : list byte) : outcome (Z * Z * list byte * bool) :=
  '(statementID, pos, ok) ← readUint32 data 1;
  if negb ok then Ret (0, 0, [], false)
  else
    '(paramID, pos, ok) ← readUint16 data pos;
    if negb ok then Ret (0, 0, [], false)
    else chunk ← slice_from data pos; Ret (statementID, paramID, chunk, true).

(** [parseComStmtClose] and [parseComStmtReset]. *)
Definition parseComStmtClose (data : list byte) : outcome (Z * bool) := '(val, _, ok) ← readUint32 data 1; Ret (val, ok).
Definition parseComStmtReset (data : list byte) : outcome (Z * bool) := '(val, _, ok) ← readUint32 data 1; Ret (val, ok).

(** [parseComPrepare]. *)
Definition parseComPrepare (data : list byte) : outcome (list byte) := slice_from data 1.

(** A loop over the parameters of a statement, which it changes also when it fails. *)
Abbreviation stmt_result A := (outcome (PrepareData * result SQLError A)).

Definition stmt_fail {A} (p : PrepareData) (message : list byte) : stmt_result A := Ret (p, Err (malformed_stmt message)).

(** The types of the parameters, from [i] on. *)
Fixpoint read_types (n : nat) (i : Z) (payload : list byte) (pos : Z) (p : PrepareData) : stmt_result Z :=
  match n with
  | O => Ret (p, Ok pos)
  | S n =>
      '(mysqlType, pos, ok) ← readByte payload pos;
      if negb ok then stmt_fail p (bs "reading parameter type failed")
      else
        '(flags, pos, ok) ← readByte payload pos;
        if negb ok then stmt_fail p (bs "reading parameter flags failed")
        else
          match MySQLToType (b2z mysqlType) (b2z flags) with
          | Err t =>
              stmt_fail p (bs "MySQLToType(" ++ strconv.FormatUint (b2z mysqlType) ++ bs "," ++ strconv.FormatUint (b2z flags) ++
                bs ") failed: unsupported type: " ++ strconv.FormatInt t)
          | Ok valType =>
              types ← store (ParamsType p) i valType;
              read_types n (i + 1) payload pos (set_ParamsType types p)
          end
  end.

(** [m[k] = v], which panics for a nil map. *)
Definition assign (m : option bind_map) (k : list byte) (v : option BindVariable) : outcome bind_map :=
  match m with None => Panic | Some m => Ret (<[k := v]> m) end.

Definition bound (p : PrepareData) (k : list byte) : option (option BindVariable) :=
  match BindVars p with None => None | Some m => m !! k end.

Section Floats.
(** The bits of the number a text denotes, and the texts of numbers given by their bits. *)
Context (ParseFloat32 ParseFloat64 : list byte -> option Z) (float32_chars float64_chars : Z -> list byte).

(** The values of the parameters from [i] on, but for those that have been sent before. *)
Fixpoint read_args (n : nat) (i : Z) (payload bitMap : list byte) (pos : Z) (p : PrepareData) : stmt_result Z :=
  match n with
  | O => Ret (p, Ok pos)
  | S n =>
      match bound p (parameterID i) with
      | Some (Some _) => read_args n (i + 1) payload bitMap pos p
      | _ =>
          b ← index bitMap (i / 8);
          typ ← index (ParamsType p) i;
          '(val, pos, ok) ←
            (if 0 <? Z.land (b2z b) (Z.shiftl 1 (i mod 8)) then parseStmtArgs float32_chars float64_chars [] Type_NULL_TYPE pos
             else parseStmtArgs float32_chars float64_chars payload typ pos);
          if negb ok then stmt_fail p (bs "decoding parameter value failed: " ++ strconv.FormatInt typ)
          else
            vars ← assign (BindVars p) (parameterID i) (Some (ValueBindVariable val));
            read_args n (i + 1) payload bitMap pos (set_BindVars (Some vars) p)
      end
  end.

(** [parseComStmtExecute] from the cursor type on: it returns the cursor type. *)
Definition execute_args (payload : list byte) (pos : Z) (p : PrepareData) : stmt_result byte :=
  '(cursorType, pos, ok) ← readByte payload pos;
  if negb ok then stmt_fail p (bs "reading cursor type flags failed")
  else
    '(iterCount, pos, ok) ← readUint32 payload pos;
    if negb ok then stmt_fail p (bs "reading iteration count failed")
    else if negb (iterCount =? 1) then stmt_fail p (bs "iteration count is not equal to 1")
    else
      '(bitMap, pos, ok) ←
        (if 0 <? ParamsCount p then readBytes payload pos (uint16 (ParamsCount p + 7) / 8) else Ret ([], pos, true));
      if negb ok then stmt_fail p (bs "reading NULL-bitmap failed")
      else
        '(newParamsBoundFlag, pos, ok) ← readByte payload pos;
        '(p, r) ←
          (if ok && (b2z newParamsBoundFlag =? 0x01) then read_types (Z.to_nat (ParamsCount p)) 0 payload pos p
           else Ret (p, Ok pos));
        match r with
        | Err e => Ret (p, Err e)
        | Ok pos =>
            '(p, r) ← read_args (length (ParamsType p)) 0 payload bitMap pos p;
            Ret (p, match r with Err e => Err e | Ok _ => Ok cursorType end)
        end.

(** [parseComStmtExecute]: the statement and the cursor type, or an error; the statement is 0 unless it was found. *)
Definition parseComStmtExecute (pd : gmap Z PrepareData) (data : list byte)
    : outcome (gmap Z PrepareData * (Z * byte * option SQLError)) :=
  payload ← slice_from data 1;
  '(stmtID, pos, ok) ← readUint32 payload 0;
  if negb ok then Ret (pd, (0, z2b 0, Some (malformed_stmt (bs "reading statement ID failed"))))
  else
    match pd !! stmtID with
    | None =>
        Ret (pd, (0, z2b 0, Some (NewSQLError CRCommandsOutOfSync SSUnknownSQLState (bs "statement ID is not found from record"))))
    | Some p =>
        '(p, r) ← execute_args payload pos p;
        Ret (<[stmtID := p]> pd, match r with Ok cursorType => (stmtID, cursorType, None) | Err e => (stmtID, z2b 0, Some e) end)
    end.

(** ** Answering *)

Section Pool.
Context (stale : Z -> list byte).

(** [writeErrorAndLog]. *)
Definition writeErrorAndLog (errorCode : Z) (sqlState message : list byte) : cmd bool := written (writeErrorPacket stale errorCode sqlState message).

Definition report (e : SQLError + list byte) : cmd bool := on_conn (writeErrorPacketFromErrorAndLog stale e).

(** An OK packet with the status only. *)
Definition status_ok (flags : Z) : PacketOK :=
  {| affectedRows := 0; lastInsertID := 0; statusFlags := flags; warnings := 0; info := []; sessionStateData := [] |}.

(** [handleComStmtReset]; a statement that is not found is a nil pointer. *)
Definition handleComStmtReset (data : list byte) : cmd bool :=
  '(stmtID, ok) ← calc (parseComStmtReset data);
  _ ← recycled;
  sent ← (if negb ok then writeErrorAndLog ERUnknownComError SSNetError (bs "error handling packet: " ++ bytes_text data) else mret true);
  if negb sent then mret false
  else
    s ← session;
    let prepare := s_PrepareData s !! stmtID in
    sent ← (if bool_decide (prepare = None) then
              writeErrorAndLog CRCommandsOutOfSync SSNetError (bs "commands were executed in an improper order: " ++ bytes_text data)
            else mret true);
    if negb sent then mret false
    else
      match prepare with
      | None => crash
      | Some p =>
          let vars := match BindVars p with None => None | Some m => Some ((fun _ => None) <$> m) end in
          _ ← modify (set_prepared (<[stmtID := set_BindVars vars p]> (s_PrepareData s)));
          written (writeOKPacket stale (status_ok (StatusFlags (s_conn s))))
      end.

(** [handleComStmtSendLongData]. *)
Definition handleComStmtSendLongData (data : list byte) : cmd bool :=
  '(stmtID, paramID, chunk, ok) ← calc (parseComStmtSendLongData data);
  _ ← recycled;
  s ← session;
  let client := strconv.FormatUint (s_ConnectionID s) in
  if negb ok then
    report (inr (bs "error parsing statement send long data from client " ++ client ++ bs ", returning error: " ++ bytes_text data))
  else
    match s_PrepareData s !! stmtID with
    | None =>
        report (inr (bs "got wrong statement id from client " ++ client ++ bs ", statement ID(" ++ strconv.FormatUint stmtID ++
          bs ") is not found from record"))
    | Some p =>
        match BindVars p with
        | Some vars =>
            if (ParamsCount p =? 0) || (ParamsCount p <=? paramID) then
              report (inr (bs "invalid parameter Number from client " ++ client ++ bs ", statement: " ++ PrepareStmt p))
            else
              let key := parameterID paramID in
              let update v := modify (set_prepared (<[stmtID := set_BindVars (Some (<[key := Some v]> vars)) p]> (s_PrepareData s))) in
              match vars !! key with
              | Some None => crash
              | Some (Some v) => _ ← update {| bv_Type := bv_Type v; bv_Value := bv_Value v ++ chunk |}; mret true
              | None => _ ← update (BytesBindVariable chunk); mret true
              end
        | None => report (inr (bs "invalid parameter Number from client " ++ client ++ bs ", statement: " ++ PrepareStmt p))
        end
    end.

(** The case of [ComStmtClose] in [handleNextCommand]. *)
Definition handleComStmtClose (data : list byte) : cmd bool :=
  '(stmtID, ok) ← calc (parseComStmtClose data);
  _ ← recycled;
  _ ← (if ok : bool then modify (fun s => set_prepared (delete stmtID (s_PrepareData s)) s) else mret tt);
  mret true.

(** *** Executing *)

(** Writing rows, with its errors. *)
Definition row_io (A : Type) : Type := Conn -> outcome (result row_error A * Conn).

#[export] Instance row_ret : MRet row_io := fun A a c => Ret (Ok a, c).
#[export] Instance row_bind : MBind row_io := fun A B k m c =>
  match m c with
  | Ret (Ok a, c) => k a c
  | Ret (Err e, c) => Ret (Err e, c)
  | Panic => Panic
  end.

Definition row_lift {A} (m : io A) : row_io A := fun c =>
  match m c with
  | Ret (Ok a, c) => Ret (Ok a, c)
  | Ret (Err e, c) => Ret (Err (RowWrite e), c)
  | Panic => Panic
  end.

Fixpoint writeBinaryRowList (fields : list Field) (rows : list (list Value)) : row_io unit :=
  match rows with
  | [] => mret tt
  | row :: rows => _ ← writeBinaryRow ParseFloat32 ParseFloat64 stale fields row; writeBinaryRowList fields rows
  end.

(** [writeBinaryRows]. *)
Definition writeBinaryRows (r : SqlResult) : row_io unit := writeBinaryRowList (elems (r_Fields r)) (elems (r_Rows r)).

(** The callback of [handleComStmtExecute]; [callbackCalled] is its [fieldSent]. *)
Definition binary_callback (v : callback_vars) (qr : SqlResult) : row_io unit :=
  c ← row_lift state;
  if sendFinished v then row_lift (fail IoEOF)
  else if negb (callbackCalled v) then
    if decide (length (elems (r_Fields qr)) = 0%nat) then
      row_lift (writeOKPacket stale
        {| affectedRows := r_RowsAffected qr; lastInsertID := r_InsertID qr; statusFlags := StatusFlags c;
           warnings := 0; info := r_Info qr; sessionStateData := r_SessionStateChanges qr |})
    else
      _ ← row_lift (writeFields stale qr);
      writeBinaryRows qr
  else writeBinaryRows qr.

Fixpoint binary_stream (v : callback_vars) (results : list SqlResult) : row_io callback_vars :=
  match results with
  | [] => mret v
  | qr :: results => _ ← binary_callback v qr; binary_stream (after_callback v qr) results
  end.

(** [handleComStmtExecute] after the arguments have been parsed: what the handler answers is sent. *)
Definition execute_answer (a : answer) (c : Conn) : outcome (bool * Conn) :=
  match binary_stream {| callbackCalled := false; sendFinished := false; qrInfo := [] |} (a_results a) c with
  | Panic => Panic
  | Ret (Err _, c) => Ret (false, c)
  | Ret (Ok v, c) =>
      if negb (callbackCalled v) then
        writeErrorPacketFromErrorAndLog stale
          (match a_err a with None | Some HandlerEOF => inl unexpected_end | Some (HandlerError e) => e end) c
      else
        match a_err a with
        | Some _ => Ret (false, c)
        | None =>
            if sendFinished v then Ret (true, c)
            else
              match writeEndResult stale false 0 0 (a_warnings a) (qrInfo v) c with
              | Panic => Panic
              | Ret (Err _, c) => Ret (false, c)
              | Ret (Ok _, c) => Ret (true, c)
              end
        end
  end.

(** How the handler and the parser of SQL answer: [h_parse] returns the names of the arguments of a statement in the order of
    the walk over its tree. *)
Record Handler := {
  h_split : list byte -> result (SQLError + list byte) (list (list byte));
  h_query : list byte -> answer;
  h_parse : list byte -> result (SQLError + list byte) (list (list byte));
  h_prepare : list byte -> bind_map -> result (SQLError + list byte) (list Field);
  h_execute : PrepareData -> answer
}.

Context (handler : Handler).

(** [handleComStmtExecute]; at its end the statement has no arguments again. *)
Definition handleComStmtExecute (data : list byte) : cmd bool :=
  s ← session;
  '(pd, (stmtID, _, err)) ← calc (parseComStmtExecute (s_PrepareData s) data);
  _ ← modify (set_prepared pd);
  _ ← recycled;
  kontinue ←
    (match err with
     | Some e => report (inl e)
     | None => match pd !! stmtID with None => crash | Some prepare => on_conn (execute_answer (h_execute handler prepare)) end
     end);
  _ ←
    (if stmtID =? 0 then mret tt
     else
       s ← session;
       match s_PrepareData s !! stmtID with
       | None => crash
       | Some p => modify (set_prepared (<[stmtID := set_BindVars (Some ∅) p]> (s_PrepareData s)))
       end);
  mret kontinue.

(** *** Preparing *)

(** [strings.Replace(name, old, new, -1)] of a quoted question mark by a bare one. *)
Fixpoint replace_marks (name : list byte) : list byte :=
  match name with
  | a :: ((b :: (c :: rest) as l1) as l) =>
      if decide (a = z2b 39 /\ b = z2b 63 /\ c = z2b 39) then z2b 63 :: replace_marks rest else a :: replace_marks l
  | _ => name
  end.

Definition set_name (name : list byte) (f : Field) : Field :=
  {| f_Name := name; f_Type := f_Type f; f_Table := f_Table f; f_OrgTable := f_OrgTable f; f_Database := f_Database f;
     f_OrgName := f_OrgName f; f_ColumnLength := f_ColumnLength f; f_Charset := f_Charset f; f_Decimals := f_Decimals f;
     f_Flags := f_Flags f; f_ColumnType := f_ColumnType f |}.

(** The definition of a parameter. *)
Definition param_field : Field :=
  {| f_Name := bs "?"; f_Type := Type_VARBINARY; f_Table := []; f_OrgTable := []; f_Database := []; f_OrgName := [];
     f_ColumnLength := 0; f_Charset := 63; f_Decimals := 0; f_Flags := 0; f_ColumnType := [] |}.

(** The EOF packet after definitions. *)
Definition definitions_end : io unit :=
  c ← state;
  if Z.land (Capabilities c) CapabilityClientDeprecateEOF =? 0 then writeEOFPacket stale (StatusFlags c) 0 else mret tt.

(** The first packet of the answer. *)
Definition write_prepare_ok (stmtID numCols numParams : Z) : io unit :=
  write_ephemeral stale 12 (fun data pos =>
    '(data, pos) ← writeByte data pos (z2b OKPacket);
    '(data, pos) ← writeUint32 data pos stmtID;
    '(data, pos) ← writeUint16 data pos numCols;
    '(data, pos) ← writeUint16 data pos numParams;
    '(data, pos) ← writeByte data pos (z2b 0);
    writeUint16 data pos 0).

(** The loop over the columns, which keeps their names in the statement [id]. *)
Fixpoint write_columns (id i : Z) (fld : list Field) : cmd (result conn_error unit) :=
  match fld with
  | [] => mret (Ok tt)
  | field :: fld =>
      let field := set_name (replace_marks (f_Name field)) field in
      s ← session;
      match s_PrepareData s !! id with
      | None => crash
      | Some p =>
          names ← calc (store (ColumnNames p) i (f_Name field));
          _ ← modify (set_prepared (<[id := set_ColumnNames names p]> (s_PrepareData s)));
          r ← on_conn (writeColumnDefinition stale field);
          match r with Err e => mret (Err e) | Ok _ => write_columns id (i + 1) fld end
      end
  end.

(** The packets of [writePrepare] before the columns. *)
Definition write_params (p : PrepareData) (columnCount : Z) : io unit :=
  _ ← write_prepare_ok (StatementID p) (uint16 columnCount) (ParamsCount p);
  if 0 <? ParamsCount p then
    _ ← writeColumnDefinitions stale (replicate (Z.to_nat (ParamsCount p)) param_field);
    definitions_end
  else mret tt.

(** [writePrepare], of the statement [id]. *)
Definition writePrepare (fld : list Field) (id : Z) : cmd (result conn_error unit) :=
  s ← session;
  match s_PrepareData s !! id with
  | None => crash
  | Some p =>
      let columnCount := Z.of_nat (length fld) in
      let p := if 0 <? columnCount then set_ColumnNames (replicate (length fld) []) p else p in
      _ ← modify (set_prepared (<[id := p]> (s_PrepareData s)));
      r ← on_conn (write_params p columnCount);
      match r with
      | Err e => mret (Err e)
      | Ok _ =>
          r ← write_columns id 0 fld;
          match r with
          | Err e => mret (Err e)
          | Ok _ => if 0 <? columnCount then on_conn definitions_end else mret (Ok tt)
          end
      end
  end.

(** The parameters the walk has counted. *)
Definition is_param (name : list byte) : bool := match name with c :: _ => bool_decide (c = z2b 118) | [] => false end.
Definition count_params (names : list (list byte)) : Z := uint16 (Z.of_nat (length (filter (fun n => is_param n = true) names))).

(** The bind variables given to the handler. *)
Definition empty_vars (paramsCount : Z) : bind_map :=
  list_to_map ((fun i => (parameterID (Z.of_nat i), Some {| bv_Type := Type_NULL_TYPE; bv_Value := [] |})) <$> seq 0 (Z.to_nat paramsCount)).

Definition new_prepare (id : Z) (query : list byte) (paramsCount : Z) : PrepareData :=
  if 0 <? paramsCount then
    {| ParamsType := replicate (Z.to_nat paramsCount) Type_NULL_TYPE; ColumnNames := []; PrepareStmt := query; BindVars := Some ∅; StatementID := id;
       ParamsCount := paramsCount |}
  else {| ParamsType := []; ColumnNames := []; PrepareStmt := query; BindVars := None; StatementID := id; ParamsCount := 0 |}.

(** [handleComPrepare] of a text that is one statement. *)
Definition prepare_statement (query stmt : list byte) : cmd bool :=
  _ ← modify (fun s => set_StatementID (uint32 (s_StatementID s + 1)) s);
  let parsed := h_parse handler query in
  sent ← (match parsed with Err e => report e | Ok _ => mret true end);
  if negb sent then mret false
  else
    let paramsCount := count_params (match parsed with Ok names => names | Err _ => [] end) in
    s ← session;
    let id := s_StatementID s in
    _ ← modify (set_prepared (<[id := new_prepare id stmt paramsCount]> (s_PrepareData s)));
    match h_prepare handler stmt (empty_vars paramsCount) with
    | Err e => report e
    | Ok fld => r ← writePrepare fld id; mret (match r with Ok _ => true | Err _ => false end)
    end.

(** [handleComPrepare]; for a text of several statements there is no error to report but the report of one is sent. *)
Definition handleComPrepare (data : list byte) : cmd bool :=
  query ← calc (parseComPrepare data);
  _ ← recycled;
  s ← session;
  if negb (Z.land (Capabilities (s_conn s)) CapabilityClientMultiStatements =? 0) then
    match h_split handler query with
    | Err e => report e
    | Ok [stmt] => prepare_statement query stmt
    | Ok _ => report (inr (bs "<nil>"))
    end
  else prepare_statement query query.
End Pool.
End Floats.

(** ** Well-formed statements *)

Definition prepare_wf (p : PrepareData) : Prop :=
  0 <= ParamsCount p < 2 ^ 16 /\ zlen (ParamsType p) = ParamsCount p /\ (BindVars p = None -> ParamsCount p = 0).

Definition statements_wf (pd : gmap Z PrepareData) : Prop :=
  map_Forall (fun id p => prepare_wf p /\ StatementID p = id) pd.

Lemma parameterID_inj i j : 0 <= i < 2 ^ 63 -> 0 <= j < 2 ^ 63 -> parameterID i = parameterID j -> i = j.
Proof.
  unfold parameterID. intros Hi Hj [= E]%(inj (app (bs "v"))). pose proof (strconv.ParseUint_FormatUint (i + 1) 64 ltac:(lia) ltac:(lia)) as H1.
  rewrite E, strconv.ParseUint_FormatUint in H1 by lia. injection H1. lia.
Qed.

(** ** Arguments *)

(** A parameter of an execution: null, a value and the value it arrives as, or sent before in pieces. *)
Inductive param := NullParam | SentParam (v v' : Value) | LongParam.

Definition is_null_param (pr : param) : bool := match pr with NullParam => true | _ => false end.

(** The types of the parameters as they are sent. *)
Definition code_bytes (codes : list (byte * byte)) : list byte := concat ((fun c => [c.1; c.2]) <$> codes).

(** The variables after the parameters from [i] on. *)
Fixpoint bind_all (i : Z) (params : list param) (vars : bind_map) : bind_map :=
  match params with
  | [] => vars
  | pr :: params =>
      bind_all (i + 1) params
        (match pr with
         | NullParam => <[parameterID i := Some (ValueBindVariable NULL)]> vars
         | SentParam _ v' => <[parameterID i := Some (ValueBindVariable v')]> vars
         | LongParam => vars
         end)
  end.

(** Whether a parameter can be passed for a variable of the type [t], of which [old] is known. *)
Definition param_fits (old : option (option BindVariable)) (t : Z) (pr : param) : Prop :=
  match pr with
  | NullParam => forall v, old <> Some (Some v)
  | SentParam v _ => (forall v, old <> Some (Some v)) /\ v_typ v = t
  | LongParam => exists v, old = Some (Some v)
  end.

Lemma read_types_ok codes types : Forall2 (fun c t => MySQLToType (b2z c.1) (b2z c.2) = Ok t) codes types -> forall D pre q p found old,
  buffer_ok D -> D = pre ++ code_bytes codes ++ q -> ParamsType p = found ++ old -> length old = length types ->
  read_types (length codes) (zlen found) D (zlen pre) p = Ret (set_ParamsType (found ++ types) p, Ok (zlen (pre ++ code_bytes codes))).
Proof.
  induction 1 as [|[c f] t codes types Ht _ IH]; intros D pre q p found old HD E Ep Hl; cbn [length read_types].
  - destruct old; [|done]. change (code_bytes []) with (@nil byte). rewrite !app_nil_r in *. rewrite <- Ep. by destruct p.
  - destruct old as [|o old]; [done|]. injection Hl as Hl. unfold code_bytes in *. cbn [fmap list_fmap concat fst snd] in *. fold (code_bytes codes) in *.
    change ([c; f] ++ code_bytes codes) with ([c] ++ [f] ++ code_bytes codes) in *. rewrite <- !app_assoc in E.
    pose proof (reads_byte c pre ([f] ++ code_bytes codes ++ q)) as H1. rewrite <- E in H1. rewrite H1 by done. cbn [mbind outcome_bind negb].
    rewrite app_assoc in E. pose proof (reads_byte f (pre ++ [c]) (code_bytes codes ++ q)) as H2. rewrite <- E in H2. rewrite H2 by done. cbn [mbind outcome_bind negb].
    rewrite Ht. rewrite (store_in _ found o old _ t (found ++ t :: old)) by done. cbn [mbind outcome_bind].
    rewrite app_assoc in E. replace (zlen found + 1) with (zlen (found ++ [t])) by (by rewrite zlen_app).
    rewrite (IH D _ q _ (found ++ [t]) old); [|done|exact E|by rewrite <- app_assoc|done]. rewrite <- !app_assoc. done.
Qed.

Lemma land_bit b k : 0 <= k < 8 -> (0 <? Z.land (b2z b) (Z.shiftl 1 k)) = Z.testbit (b2z b) k.
Proof.
  intros Hk. assert (Z.land (b2z b) (Z.shiftl 1 k) = if Z.testbit (b2z b) k then 2 ^ k else 0) as ->.
  { rewrite Z.shiftl_1_l. apply Z.bits_inj'. intros n Hn. rewrite Z.land_spec, Z.pow2_bits_eqb by lia.
    destruct (Z.testbit (b2z b) k) eqn:E; [rewrite Z.pow2_bits_eqb by lia|rewrite Z.bits_0];
      (destruct (Z.eqb_spec k n) as [<-|]; [by rewrite E|by rewrite andb_false_r]). }
  destruct (Z.testbit (b2z b) k); [|done]. apply Z.ltb_lt. apply Z.pow_pos_nonneg; lia.
Qed.

Section Execute.
Context (ParseFloat32 ParseFloat64 : list byte -> option Z) (float32_chars float64_chars : Z -> list byte).

(** What a parameter puts into the packet. *)
Definition param_wire (pr : param) (out : list byte) : Prop :=
  match pr with
  | SentParam v v' => argument ParseFloat32 ParseFloat64 float32_chars float64_chars v v' /\ val2MySQL ParseFloat32 ParseFloat64 v = Ret (Ok out)
  | NullParam | LongParam => out = []
  end.

(** The parameters [i], [i + 1], ... fit the variables, the types and the bitmap. *)
Definition params_fit (i : Z) (params : list param) (vars : bind_map) (types : list Z) (bm : list byte) : Prop :=
  forall j pr, params !! j = Some pr -> exists t, types !! (Z.to_nat i + j)%nat = Some t /\ param_fits (vars !! parameterID (i + Z.of_nat j)) t pr /\
    bit_of bm (i + Z.of_nat j) = is_null_param pr /\ (i + Z.of_nat j) / 8 < zlen bm.

Lemma params_fit_next i pr params vars vars' types bm : 0 <= i -> i + Z.of_nat (length (pr :: params)) < 2 ^ 63 -> params_fit i (pr :: params) vars types bm ->
  (forall k, k <> parameterID i -> vars' !! k = vars !! k) -> params_fit (i + 1) params vars' types bm.
Proof.
  intros Hi Hlen H Hv j pr' Hj. pose proof (lookup_lt_Some _ _ _ Hj) as Hjl. destruct (H (S j) pr' Hj) as (t & Ht & Hp & Hb & Hl). exists t.
  replace (Z.to_nat (i + 1) + j)%nat with (Z.to_nat i + S j)%nat by lia. replace (i + 1 + Z.of_nat j) with (i + Z.of_nat (S j)) by lia. cbn [length] in Hlen.
  rewrite Hv by (intros E; apply parameterID_inj in E; lia). done.
Qed.

(** A parameter that has not been sent before. *)
Lemma read_args_step n i D bm pos p vars t : BindVars p = Some vars -> (forall v, vars !! parameterID i <> Some (Some v)) ->
  ParamsType p !! Z.to_nat i = Some t -> 0 <= i -> i / 8 < zlen bm ->
  read_args float32_chars float64_chars (S n) i D bm pos p =
    ('(val, pos, ok) ← (if bit_of bm i then Ret (NULL, pos, true) else parseStmtArgs float32_chars float64_chars D t pos);
     if negb ok then stmt_fail p (bs "decoding parameter value failed: " ++ strconv.FormatInt t)
     else read_args float32_chars float64_chars n (i + 1) D bm pos (set_BindVars (Some (<[parameterID i := Some (ValueBindVariable val)]> vars)) p)).
Proof.
  intros Hp Hold Ht Hi Hin. assert (0 <= i / 8) as H8 by (by apply Z.div_pos).
  destruct (lookup_lt_is_Some_2 bm (Z.to_nat (i / 8))) as [b Hb]; [unfold zlen in Hin; lia|].
  assert (index bm (i / 8) = Ret b) as Hbi by (unfold index; rewrite (proj2 (Z.leb_le _ _)), (proj2 (Z.ltb_lt _ _)), Hb by lia; done).
  assert (index (ParamsType p) i = Ret t) as Hti.
  { unfold index. pose proof (lookup_lt_Some _ _ _ Ht). unfold zlen. rewrite (proj2 (Z.leb_le _ _)), (proj2 (Z.ltb_lt _ _)), Ht by lia. done. }
  cbn [read_args]. unfold bound. rewrite Hp.
  destruct (vars !! parameterID i) as [[v|]|] eqn:Ev; [by destruct (Hold v)|..]; rewrite Hbi, Hti; cbn [mbind outcome_bind];
    rewrite land_bit by (apply Z.mod_pos_bound; lia); unfold bit_of; rewrite Hb; by destruct (Z.testbit (b2z b) (i mod 8)).
Qed.

Lemma read_args_ok params outs : Forall2 param_wire params outs -> forall i D pre q bm p vars, BindVars p = Some vars -> buffer_ok D ->
  D = pre ++ concat outs ++ q -> 0 <= i -> i + Z.of_nat (length params) < 2 ^ 63 -> params_fit i params vars (ParamsType p) bm ->
  read_args float32_chars float64_chars (length params) i D bm (zlen pre) p =
    Ret (set_BindVars (Some (bind_all i params vars)) p, Ok (zlen (pre ++ concat outs))).
Proof.
  induction 1 as [|pr out params outs Hw _ IH]; intros i D pre q bm p vars Hp HD E Hi Hlen Hfit; cbn [length bind_all concat].
  - cbn [read_args]. rewrite app_nil_r, <- Hp. by destruct p.
  - destruct (Hfit 0%nat pr eq_refl) as (t & Ht & Hfits & Hbit & Hin). rewrite Z.add_0_r in *. rewrite Nat.add_0_r in Ht.
    cbn [concat] in E. rewrite <- app_assoc in E. assert (i + 1 + Z.of_nat (length params) < 2 ^ 63) as Hl' by (cbn [length] in Hlen; lia).
    assert (forall w, params_fit (i + 1) params (<[parameterID i := w]> vars) (ParamsType p) bm) as Hnext.
    { intros w. eapply params_fit_next; [done| |exact Hfit|]; [done|]. intros k Hk. by rewrite lookup_insert_ne. }
    destruct pr as [|v v'|]; cbn in Hw.
    + subst out. rewrite (read_args_step _ _ _ _ _ _ vars t), Hbit by done. cbn [is_null_param mbind outcome_bind negb app].
      by rewrite (IH (i + 1) D pre q bm _ (<[parameterID i := Some (ValueBindVariable NULL)]> vars)) by (done || lia).
    + destruct Hfits as [Hnv <-], Hw as [Harg Hv]. destruct (argument_travels ParseFloat32 ParseFloat64 float32_chars float64_chars v v' Harg) as (o & Ho & Hr).
      rewrite Hv in Ho. injection Ho as <-. specialize (Hr pre (concat outs ++ q)). rewrite <- E in Hr.
      rewrite (read_args_step _ _ _ _ _ _ vars (v_typ v)), Hbit by done. cbn [is_null_param]. rewrite Hr by done. cbn [mbind outcome_bind negb].
      rewrite app_assoc in E |- *. by rewrite (IH (i + 1) D (pre ++ out) q bm _ (<[parameterID i := Some (ValueBindVariable v')]> vars)) by (done || lia).
    + destruct Hfits as [v Hv]. subst out. cbn [read_args app]. unfold bound. rewrite Hp, Hv. rewrite (IH (i + 1) D pre q bm p vars); try done; [lia|].
      by eapply params_fit_next.
Qed.

(** *** A whole packet *)

Lemma read_here {A} (rd : list byte -> Z -> outcome (A * Z * bool)) out v D pre q : reads rd out v -> buffer_ok D -> D = pre ++ out ++ q ->
  rd D (zlen pre) = Ret (v, zlen (pre ++ out), true).
Proof. intros Hr HD ->. by apply Hr. Qed.

Lemma reads_bytes out n : 0 < n -> zlen out = n -> reads (fun D pos => readBytes D pos n) out out.
Proof.
  intros Hn <- pre q HD. unfold readBytes, buffer_ok in *. rewrite !zlen_app in *. pose proof (zlen_nonneg pre). pose proof (zlen_nonneg q).
  rewrite add64_pos by lia. assert (sub64 (zlen pre + zlen out) 1 = zlen pre + zlen out - 1) as -> by (apply int64_id; unfold_ints; lia).
  rewrite (proj2 (Z.leb_gt _ _)) by lia. by rewrite (slice_at _ pre out q).
Qed.

(** The packet of a statement with parameters, after the command. *)
Definition execute_payload (id : Z) (cursor : byte) (bm : list byte) (codes : list (byte * byte)) (outs : list (list byte)) : list byte :=
  binary.le_bytes 4 id ++ [cursor] ++ binary.le_bytes 4 1 ++ bm ++ [z2b 1] ++ code_bytes codes ++ concat outs.

Lemma zlen_bitmap n : 0 <= n <= 65528 -> uint16 (n + 7) / 8 = (n + 7) / 8.
Proof. intros Hn. unfold uint16, wrapU. by rewrite Z.mod_small by lia. Qed.

(** The parts of such a packet for the statement [p]: the parameters with their types and the bitmap of the null ones. *)
Definition well_sent (p : PrepareData) (params : list param) (bm : list byte) (codes : list (byte * byte)) (types : list Z) (outs : list (list byte))
    (vars : bind_map) : Prop :=
  BindVars p = Some vars /\ 0 < ParamsCount p <= 65528 /\ Z.of_nat (length params) = ParamsCount p /\ zlen bm = (ParamsCount p + 7) / 8 /\
  Forall2 (fun c t => MySQLToType (b2z c.1) (b2z c.2) = Ok t) codes types /\ length types = length params /\
  Forall2 param_wire params outs /\ params_fit 0 params vars types bm.

(** The statement with its arguments. *)
Definition with_args (p : PrepareData) (params : list param) (types : list Z) (vars : bind_map) : PrepareData :=
  set_BindVars (Some (bind_all 0 params vars)) (set_ParamsType types p).

Lemma execute_args_ok id cursor p params bm codes types outs vars : prepare_wf p -> well_sent p params bm codes types outs vars ->
  buffer_ok (execute_payload id cursor bm codes outs) ->
  execute_args float32_chars float64_chars (execute_payload id cursor bm codes outs) 4 p = Ret (with_args p params types vars, Ok cursor).
Proof.
  intros (Hpc & Hpt & _) (Hv & Hn & Hlen & Hbm & Hcodes & Htl & Hw & Hfit) HD. set (D := execute_payload _ _ _ _ _) in *.
  assert (D = binary.le_bytes 4 id ++ [cursor] ++ binary.le_bytes 4 1 ++ bm ++ [z2b 1] ++ code_bytes codes ++ concat outs ++ []) as E
    by (by rewrite app_nil_r). unfold execute_args. change 4 with (zlen (binary.le_bytes 4 id)) at 1.
  rewrite (read_here _ _ _ D _ _ (reads_byte cursor) HD E). cbn [mbind outcome_bind negb]. rewrite app_assoc in E.
  rewrite (read_here _ _ _ D _ _ (reads_uint32 1 ltac:(lia)) HD E). cbn [mbind outcome_bind negb Z.eqb Pos.eqb]. rewrite app_assoc in E.
  rewrite (proj2 (Z.ltb_lt _ _)), zlen_bitmap by lia.
  assert (0 < (ParamsCount p + 7) / 8) as H8 by (apply Z.div_str_pos; lia).
  rewrite (read_here _ _ _ D _ _ (reads_bytes bm _ H8 Hbm) HD E). cbn [mbind outcome_bind negb]. rewrite app_assoc in E.
  rewrite (read_here _ _ _ D _ _ (reads_byte (z2b 1)) HD E). cbn [mbind outcome_bind andb]. change (b2z (z2b 1) =? 1) with true. cbv iota.
  rewrite app_assoc in E. pose proof (Forall2_length _ _ _ Hcodes) as Hcl.
  replace (Z.to_nat (ParamsCount p)) with (length codes) by lia.
  pose proof (read_types_ok codes types Hcodes D _ _ p [] (ParamsType p) HD E eq_refl ltac:(unfold zlen in Hpt; lia)) as Ht.
  change (zlen (A := Z) []) with 0 in Ht. rewrite Ht. cbn [mbind outcome_bind app].
  rewrite app_assoc in E. cbn [set_ParamsType ParamsType]. rewrite Htl.
  rewrite (read_args_ok params outs Hw 0 D _ _ bm _ vars) by (done || lia). done.
Qed.

Lemma parse_execute id cursor pd p params bm codes types outs vars : 0 <= id < 2 ^ 32 -> pd !! id = Some p -> prepare_wf p ->
  well_sent p params bm codes types outs vars -> buffer_ok (execute_payload id cursor bm codes outs) -> forall b,
  parseComStmtExecute float32_chars float64_chars pd (b :: execute_payload id cursor bm codes outs) =
    Ret (<[id := with_args p params types vars]> pd, (id, cursor, None)).
Proof.
  intros Hid Hp Hwf Hs HD b. unfold parseComStmtExecute. set (D := execute_payload id cursor bm codes outs) in *.
  rewrite (slice_from_at (b :: D) [b] D) by done. cbn [mbind outcome_bind].
  pose proof (read_here _ _ _ D [] _ (reads_uint32 id Hid) HD eq_refl) as Hr. change (zlen (A := byte) []) with 0 in Hr.
  change (zlen ([] ++ binary.le_bytes 4 id)) with 4 in Hr. rewrite Hr. cbn [mbind outcome_bind negb]. rewrite Hp. unfold D. by rewrite (execute_args_ok id cursor p params bm codes types outs vars).
Qed.

(** The variable of a parameter after the execution has been parsed. *)
Definition arrives (old : option (option BindVariable)) (pr : param) : option (option BindVariable) :=
  match pr with
  | NullParam => Some (Some (ValueBindVariable NULL))
  | SentParam _ v' => Some (Some (ValueBindVariable v'))
  | LongParam => old
  end.

Lemma bind_all_other params i vars k : (forall j, (j < length params)%nat -> k <> parameterID (i + Z.of_nat j)) -> bind_all i params vars !! k = vars !! k.
Proof.
  revert i vars. induction params as [|pr params IH]; intros i vars Hk; [done|]. cbn [bind_all].
  assert (k <> parameterID i) as Hi by (pose proof (Hk 0%nat ltac:(cbn; lia)) as H; by rewrite Z.add_0_r in H).
  rewrite IH by (intros j Hj; pose proof (Hk (S j) ltac:(cbn; lia)) as H; replace (i + 1 + Z.of_nat j) with (i + Z.of_nat (S j)) by lia; done).
  destruct pr; rewrite ?lookup_insert_ne by done; done.
Qed.

Lemma bind_all_lookup params i vars j pr : 0 <= i -> i + Z.of_nat (length params) < 2 ^ 63 -> params !! j = Some pr ->
  bind_all i params vars !! parameterID (i + Z.of_nat j) = arrives (vars !! parameterID (i + Z.of_nat j)) pr.
Proof.
  revert i vars j. induction params as [|pr' params IH]; intros i vars j Hi Hl Hj; [done|]. cbn [bind_all length] in *.
  destruct j as [|j].
  - injection Hj as ->. rewrite Z.add_0_r, bind_all_other by (intros j Hj E; apply parameterID_inj in E; lia).
    by destruct pr; rewrite ?lookup_insert_eq.
  - cbn in Hj. pose proof (lookup_lt_Some _ _ _ Hj). replace (i + Z.of_nat (S j)) with (i + 1 + Z.of_nat j) by lia. rewrite IH by (done || lia).
    assert (parameterID i <> parameterID (i + 1 + Z.of_nat j)) by (intros E; apply parameterID_inj in E; lia).
    by destruct pr'; rewrite ?lookup_insert_ne by done.
Qed.

(** ** Answers *)

(** A computation that sends the packets [ps] over a connection that does not break. *)
Definition transmits {E A} (m : Conn -> outcome (result E A * Conn)) (c : Conn) (ps : list (list byte)) (a : A) : Prop :=
  exists b s, framed_all (sequence c) ps b s /\ m c = Ret (Ok a, set_sequence s (set_output (output c ++ b) None c)).

(** Sent over a connection that is still whole. *)
Definition whole (c c' : Conn) : Prop := exists b s, c' = set_sequence s (set_output (output c ++ b) None c).

Lemma whole_ok c c' : whole c c' -> idle c -> idle c' /\ breaks c' = None /\ Capabilities c' = Capabilities c /\ StatusFlags c' = StatusFlags c.
Proof. intros (b & s & ->) Hi. by repeat split; apply Hi. Qed.

Lemma framed_all_join s ps1 b1 s1 ps2 b2 s2 : framed_all s ps1 b1 s1 -> framed_all s1 ps2 b2 s2 -> framed_all s (ps1 ++ ps2) (b1 ++ b2) s2.
Proof. induction 1 as [|s p b s' ps b' s'' Hp _ IH]; intros H2; [done|]. rewrite <- app_assoc. econstructor; [exact Hp|]. by apply IH. Qed.

Lemma transmits_bind {A B} (m : row_io A) (k : A -> row_io B) c ps1 ps2 a x : transmits m c ps1 a ->
  (forall c', whole c c' -> transmits (k a) c' ps2 x) -> transmits (m ≫= k) c (ps1 ++ ps2) x.
Proof.
  intros (b1 & s1 & H1 & Hm) Hk. destruct (Hk (set_sequence s1 (set_output (output c ++ b1) None c))) as (b2 & s2 & H2 & Hx); [by do 2 eexists|].
  exists (b1 ++ b2), s2. split; [by eapply framed_all_join|]. unfold mbind, row_bind. rewrite Hm, Hx. cbn. by rewrite app_assoc.
Qed.

Lemma transmits_lift {A} (m : io A) c ps a : delivers m c ps a -> breaks c = None -> transmits (row_lift m) c ps a.
Proof.
  intros Hd Hb. destruct (framed_all_total (sequence c) ps) as (b & s & Hf). exists b, s. split; [done|]. specialize (Hd b s Hf).
  apply sends_unbroken in Hd; [|done]. unfold row_lift. by rewrite Hd.
Qed.

Lemma transmits_ret {A} (a : A) c : breaks c = None -> transmits (mret (M := row_io) a) c [] a.
Proof.
  intros Hb. exists [], (sequence c). split; [constructor|]. cbv [mret row_ret]. rewrite <- Hb. by rewrite Conn_eta.
Qed.

(** The packet of a row. *)
Definition binary_row (columns : nat) (row : list Value) (packet : list byte) : Prop :=
  exists bm outs, converted ParseFloat32 ParseFloat64 row outs /\ zlen bm = (Z.of_nat columns + 7 + 2) / 8 /\
    (forall j, 0 <= j -> bit_of bm j = null_at row j) /\ packet = [z2b 0] ++ bm ++ outs.

(** A row that can be sent. *)
Definition row_sendable (columns : nat) (row : list Value) : Prop :=
  length row = columns /\ exists outs, converted ParseFloat32 ParseFloat64 row outs /\ 5 + (Z.of_nat columns + 7 + 2) / 8 + zlen outs <= MaxInt64.

Section Answers.
Context (stale : Z -> list byte).

Lemma rows_transmitted fields rows c : idle c -> breaks c = None -> Forall (row_sendable (length fields)) rows ->
  exists ps, Forall2 (binary_row (length fields)) rows ps /\ transmits (writeBinaryRowList ParseFloat32 ParseFloat64 stale fields rows) c ps tt.
Proof.
  intros Hi Hb H. revert c Hi Hb. induction H as [|row rows (Hl & outs & Hc & Hz) _ IH]; intros c Hi Hb; [by exists []; split; [|apply transmits_ret]|].
  destruct (BinaryRow_written ParseFloat32 ParseFloat64 stale fields row outs c Hi Hb Hl Hc Hz) as (bm & b & s & Hbm & Hbit & Hf & Hw).
  set (c1 := set_sequence s (set_output (output c ++ b) None c)) in *. destruct (IH c1 Hi eq_refl) as (ps & Hps & b2 & s2 & Hf2 & Hw2).
  exists (([z2b 0] ++ bm ++ outs) :: ps). split; [constructor; [by exists bm, outs|done]|]. exists (b ++ b2), s2. split; [by econstructor|].
  cbn [writeBinaryRowList]. unfold mbind, row_bind. rewrite Hw, Hw2. cbn. by rewrite app_assoc.
Qed.

(** All results have [columns] fields, and their rows can be sent. *)
Definition results_sendable (columns : nat) (results : list SqlResult) : Prop :=
  Forall (fun r => length (elems (r_Fields r)) = columns /\ Forall (row_sendable columns) (elems (r_Rows r))) results.

Lemma stream_transmitted columns results v c : idle c -> breaks c = None -> results_sendable columns results ->
  callbackCalled v = true -> sendFinished v = false ->
  exists ps, Forall2 (binary_row columns) (all_rows results) ps /\
    transmits (binary_stream ParseFloat32 ParseFloat64 stale v results) c ps
      {| callbackCalled := true; sendFinished := false; qrInfo := match last results with None => qrInfo v | Some r => z2b 32 :: r_Info r end |}.
Proof.
  intros Hi Hb H. revert v c Hi Hb. induction H as [|r results (Hl & Hr) _ IH]; intros v c Hi Hb Hc Hs.
  - exists []. split; [constructor|]. destruct v; cbn in *; subst. by apply transmits_ret.
  - rewrite <- Hl in Hr. destruct (rows_transmitted (elems (r_Fields r)) (elems (r_Rows r)) c Hi Hb Hr) as (ps1 & H1 & b1 & s1 & Hf1 & Hw1). rewrite Hl in H1.
    set (c1 := set_sequence s1 (set_output (output c ++ b1) None c)) in *.
    destruct (IH (after_callback v r) c1 Hi eq_refl eq_refl) as (ps2 & H2 & b2 & s2 & Hf2 & Hw2); [unfold after_callback; cbn; by rewrite Hs, Hc|].
    exists (ps1 ++ ps2). split; [unfold all_rows; cbn [fmap list_fmap concat]; by apply Forall2_app|].
    exists (b1 ++ b2), s2. split; [by eapply framed_all_join|]. cbn [binary_stream]. unfold binary_callback at 1. rewrite Hs, Hc. cbn [negb].
    unfold mbind, row_bind. cbn [row_lift state]. unfold writeBinaryRows. rewrite Hw1, Hw2. rewrite last_cons. cbn. rewrite app_assoc.
    by destruct (last results).
Qed.

(** The results of a handler that are sent: the first has the fields [fields]. *)
Definition binary_results (fields : list Field) (results : list SqlResult) (info : list byte) : Prop :=
  fields <> [] /\ Forall short_field fields /\ Z.of_nat (length fields) < 2 ^ 62 /\ (exists r rest, results = r :: rest /\ elems (r_Fields r) = fields) /\
  results_sendable (length fields) results /\ last_info results = z2b 32 :: info /\ zlen info < 2 ^ 16.

Lemma execute_answered fields results info w c : idle c -> breaks c = None -> is_uint16 (StatusFlags c) -> is_uint16 w -> binary_results fields results info ->
  exists rows b s, Forall2 (binary_row (length fields)) (all_rows results) rows /\
    framed_all (sequence c) (header_packets (negb (deprecates_eof c)) (StatusFlags c) fields ++ rows ++ [end_payload c false w (z2b 32 :: info)]) b s /\
    execute_answer ParseFloat32 ParseFloat64 stale {| a_results := results; a_err := None; a_warnings := w |} c =
      Ret (true, set_sequence s (set_output (output c ++ b) None c)).
Proof.
  intros Hi Hb Hfl Hw (Hne & Hf & Hn & (r & rest & -> & Hr) & Hrows & Hinfo & Hz). apply Forall_cons in Hrows as [[_ Hr1] Hrest].
  pose proof (writeFields_delivers stale r c Hi) as Hd. rewrite Hr in Hd. destruct (transmits_lift _ _ _ _ (Hd Hf Hn) Hb) as (b0 & s0 & Hf0 & Hw0).
  set (c0 := set_sequence s0 (set_output (output c ++ b0) None c)) in *.
  destruct (rows_transmitted fields (elems (r_Rows r)) c0 Hi eq_refl Hr1) as (ps1 & H1 & b1 & s1 & Hf1 & Hw1).
  set (c1 := set_sequence s1 (set_output (output c0 ++ b1) None c0)) in *. set (v0 := {| callbackCalled := false; sendFinished := false; qrInfo := [] |}).
  destruct (stream_transmitted (length fields) rest (after_callback v0 r) c1 Hi eq_refl Hrest eq_refl) as (ps2 & H2 & b2 & s2 & Hf2 & Hw2).
  { unfold after_callback, v0. cbn. rewrite Hr. by rewrite bool_decide_eq_false_2 by (by destruct fields). }
  set (c2 := set_sequence s2 (set_output (output c1 ++ b2) None c1)) in *.
  assert (delivers (writeEndResult stale false 0 0 w (z2b 32 :: info)) c2 [end_payload c2 false w (z2b 32 :: info)] tt) as He
    by (apply end_delivers; [done|done|done|unfold short_string; rewrite zlen_cons; lia]).
  destruct (framed_all_total s2 [end_payload c2 false w (z2b 32 :: info)]) as (b3 & s3 & Hf3). specialize (He _ _ Hf3). apply sends_unbroken in He; [|done].
  exists (ps1 ++ ps2), (b0 ++ (b1 ++ b2) ++ b3), s3. split; [unfold all_rows; cbn [fmap list_fmap concat]; by apply Forall2_app|]. split.
  - eapply framed_all_join; [exact Hf0|]. eapply framed_all_join; [by eapply framed_all_join|exact Hf3].
  - unfold execute_answer. cbn [a_results a_err a_warnings]. fold v0.
    assert (binary_stream ParseFloat32 ParseFloat64 stale v0 (r :: rest) c = Ret (Ok {| callbackCalled := true; sendFinished := false; qrInfo := z2b 32 :: info |}, c2)) as ->.
    { cbn [binary_stream]. unfold mbind, row_bind at 1. unfold binary_callback at 1. unfold mbind, row_bind at 1. cbn [row_lift state]. cbn [sendFinished callbackCalled v0 negb].
      rewrite decide_False by (rewrite Hr; by destruct fields). unfold mbind, row_bind at 1. rewrite Hw0. unfold writeBinaryRows. rewrite Hr, Hw1, Hw2.
      replace (match last rest with None => qrInfo (after_callback v0 r) | Some r => z2b 32 :: r_Info r end) with (z2b 32 :: info); [done|].
      unfold last_info in Hinfo. rewrite last_cons in Hinfo. by destruct (last rest). }
    cbn [callbackCalled sendFinished negb qrInfo]. rewrite He. unfold c2, c1, c0. cbn. by rewrite !app_assoc.
Qed.
End Answers.

(** *** The command *)

(** A session whose connection has read a packet: [c] is the connection without it. *)
Definition has_read (s : Session) (c : Conn) : Prop := idle c /\ exists buf, s_conn s = set_ephemeral ephemeralRead buf c.

Lemma recycleReadPacket_ok c buf : idle c -> recycleReadPacket (set_ephemeral ephemeralRead buf c) = Ret (Ok tt, c).
Proof.
  intros [Hp Hb]. unfold recycleReadPacket. erewrite io_bind_ok by reflexivity. cbn. do 2 f_equal. destruct c. cbn in *. by subst.
Qed.

Lemma recycled_ok s c : has_read s c -> recycled s = Ret (tt, set_conn c s).
Proof. intros (Hi & buf & E). unfold recycled, mbind, cmd_bind, on_conn. rewrite E. by rewrite recycleReadPacket_ok. Qed.

Lemma has_read_prepared s c pd : has_read s c -> has_read (set_prepared pd s) c.
Proof. done. Qed.

(** C5: a prepared statement is executed with its arguments, and its answer is sent.  The packet of a client holds null values, parameters whose
    value was sent before, and integers, floating point numbers, strings, dates and times in the form of [val2MySQL], under types
    that [MySQLToType] knows, where an unsigned type has the flag of an unsigned column.  The handler gets the statement with each variable
    bound to the value of its parameter.  When it answers without an error and each of its results has the fields, the client is sent
    the definitions of the columns, each row in the binary form, and the end; afterwards the statement has no arguments, and
    the other statements are as before. *)
Theorem Execute_answered (stale : Z -> list byte) (handler : Handler) (s : Session) (c : Conn) (id : Z) (cursor : byte) (p : PrepareData)
    (params : list param) (bm : list byte) (codes : list (byte * byte)) (types : list Z) (outs : list (list byte)) (vars : bind_map)
    (fields : list Field) (results : list SqlResult) (info : list byte) (w : Z) :
  has_read s c -> breaks c = None -> is_uint16 (StatusFlags c) -> is_uint16 w -> 0 < id < 2 ^ 32 -> s_PrepareData s !! id = Some p -> prepare_wf p ->
  well_sent p params bm codes types outs vars -> buffer_ok (execute_payload id cursor bm codes outs) -> binary_results fields results info ->
  let args := bind_all 0 params vars in let executed := set_BindVars (Some args) (set_ParamsType types p) in
  h_execute handler executed = {| a_results := results; a_err := None; a_warnings := w |} ->
  (forall j pr, params !! j = Some pr -> args !! parameterID (Z.of_nat j) = arrives (vars !! parameterID (Z.of_nat j)) pr) /\
  exists rows b sq, Forall2 (binary_row (length fields)) (all_rows results) rows /\
    framed_all (sequence c) (header_packets (negb (deprecates_eof c)) (StatusFlags c) fields ++ rows ++ [end_payload c false w (z2b 32 :: info)]) b sq /\
    handleComStmtExecute ParseFloat32 ParseFloat64 float32_chars float64_chars stale handler
      (z2b ComStmtExecute :: execute_payload id cursor bm codes outs) s =
    Ret (true, set_prepared (<[id := set_BindVars (Some ∅) executed]> (s_PrepareData s))
      (set_conn (set_sequence sq (set_output (output c ++ b) None c)) s)).
Proof.
  intros Hr Hb Hfl Hw Hid Hp Hwf Hs HD Hres args executed Hh. split.
  { intros j pr Hj. pose proof Hs as (_ & Hn & Hl & _). apply (bind_all_lookup params 0 vars j pr); [lia|lia|done]. }
  pose proof Hr as [Hi _]. destruct (execute_answered stale fields results info w c Hi Hb Hfl Hw Hres) as (rows & b & sq & Hrows & Hf & Hex).
  exists rows, b, sq. split; [done|]. split; [done|]. unfold handleComStmtExecute. unfold mbind, cmd_bind, session, calc.
  rewrite (parse_execute id cursor _ p params bm codes types outs vars) by (done || lia). cbv beta iota. unfold modify at 1.
  rewrite (recycled_ok _ c) by (by apply has_read_prepared). rewrite lookup_insert_eq. unfold on_conn. cbn [s_conn set_conn set_prepared].
  unfold with_args. fold args executed. rewrite Hh, Hex. rewrite (proj2 (Z.eqb_neq id 0)) by lia. cbn [s_PrepareData set_conn set_prepared].
  rewrite lookup_insert_eq. unfold modify. cbn. by rewrite insert_insert_eq.
Qed.

(** *** Packets the parser of executions does not expect *)

(** An execution whose packet is cut short is executed with wrong arguments.  When the packet ends before the flag that tells whether types
    follow, its reader returns the position 0 with its failure, which is not looked at, so that the arguments are read from the
    start of the packet: a number is bound to the identifier of the statement. *)
Theorem Execute_cut_binds_id (pd : gmap Z PrepareData) (id : Z) (cursor cmd : byte) (p : PrepareData) :
  0 <= id < 2 ^ 32 -> pd !! id = Some p -> ParamsCount p = 1 -> ParamsType p = [Type_INT32] -> BindVars p = Some ∅ ->
  parseComStmtExecute float32_chars float64_chars pd ([cmd] ++ binary.le_bytes 4 id ++ [cursor] ++ binary.le_bytes 4 1 ++ [z2b 0]) =
    Ret (<[id := set_BindVars (Some {[parameterID 0 := Some (ValueBindVariable (NewInt64 (int32 id)))]}) p]> pd, (id, cursor, None)).
Proof.
  intros Hid Hp Hn Ht Hv. unfold parseComStmtExecute. set (D := binary.le_bytes 4 id ++ [cursor] ++ binary.le_bytes 4 1 ++ [z2b 0]).
  rewrite (slice_from_at ([cmd] ++ D) [cmd] D) by done. cbn [mbind outcome_bind].
  assert (buffer_ok D) as HD by (unfold D, buffer_ok; rewrite !zlen_app, !zlen_le_bytes; by vm_compute).
  assert (D = [] ++ binary.le_bytes 4 id ++ [cursor] ++ binary.le_bytes 4 1 ++ [z2b 0] ++ []) as E by done.
  pose proof (read_here _ _ _ D [] _ (reads_uint32 id Hid) HD E) as Hr. change (zlen (A := byte) []) with 0 in Hr.
  change (zlen ([] ++ binary.le_bytes 4 id)) with 4 in Hr. rewrite Hr. cbn [mbind outcome_bind negb]. rewrite Hp.
  unfold execute_args. rewrite app_assoc in E. pose proof (read_here _ _ _ D _ _ (reads_byte cursor) HD E) as H1.
  change (zlen ([] ++ binary.le_bytes 4 id)) with 4 in H1. rewrite H1. cbn [mbind outcome_bind negb]. rewrite app_assoc in E.
  rewrite (read_here _ _ _ D _ _ (reads_uint32 1 ltac:(lia)) HD E). cbn [mbind outcome_bind negb Z.eqb Pos.eqb]. rewrite app_assoc in E. rewrite Hn.
  change (uint16 (1 + 7) / 8) with 1. cbn [Z.ltb Z.compare].
  rewrite (read_here _ _ _ D _ _ (reads_bytes [z2b 0] 1 ltac:(lia) eq_refl) HD E). cbn [mbind outcome_bind negb].
  assert (readByte D (zlen (((([] ++ binary.le_bytes 4 id) ++ [cursor]) ++ binary.le_bytes 4 1) ++ [z2b 0])) = Ret (z2b 0, 0, false)) as ->.
  { unfold readByte. rewrite (proj2 (Z.leb_le _ _)); [done|]. unfold D. rewrite !zlen_app, !zlen_le_bytes. by vm_compute. }
  cbn [mbind outcome_bind andb]. rewrite Ht. cbn [length]. rewrite (read_args_step 0 0 D [z2b 0] 0 p ∅ Type_INT32); [|done|by intros v; rewrite lookup_empty|by rewrite Ht|done|done].
  change (bit_of [z2b 0] 0) with false. cbv iota. change (parseStmtArgs float32_chars float64_chars D Type_INT32 0) with (arg_number (readUint32 D 0) (fun val => NewInt64 (int32 val))).
  unfold arg_number. rewrite Hr. cbn [mbind outcome_bind negb read_args]. by rewrite insert_empty.
Qed.

(** A statement with more than 65528 parameters cannot be executed.  The length of the bitmap is computed in 16 bits and is 0 for it, and
    the first parameter that was not sent before panics. *)
Theorem Execute_many_params_panics (pd : gmap Z PrepareData) (id : Z) (cursor cmd : byte) (rest : list byte) (p : PrepareData) (vars : bind_map) :
  0 <= id < 2 ^ 32 -> pd !! id = Some p -> prepare_wf p -> 65529 <= ParamsCount p -> BindVars p = Some vars -> vars !! parameterID 0 = None ->
  buffer_ok (binary.le_bytes 4 id ++ [cursor] ++ binary.le_bytes 4 1 ++ [z2b 0] ++ rest) ->
  parseComStmtExecute float32_chars float64_chars pd ([cmd] ++ binary.le_bytes 4 id ++ [cursor] ++ binary.le_bytes 4 1 ++ [z2b 0] ++ rest) = Panic.
Proof.
  intros Hid Hp (Hpc & Hpt & _) Hn Hv H0 HD. unfold parseComStmtExecute. set (D := binary.le_bytes 4 id ++ _) in *.
  rewrite (slice_from_at ([cmd] ++ D) [cmd] D) by done. cbn [mbind outcome_bind].
  assert (D = [] ++ binary.le_bytes 4 id ++ [cursor] ++ binary.le_bytes 4 1 ++ [z2b 0] ++ rest) as E by done.
  pose proof (read_here _ _ _ D [] _ (reads_uint32 id Hid) HD E) as Hr. change (zlen (A := byte) []) with 0 in Hr.
  change (zlen ([] ++ binary.le_bytes 4 id)) with 4 in Hr. rewrite Hr. cbn [mbind outcome_bind negb]. rewrite Hp.
  unfold execute_args. rewrite app_assoc in E. pose proof (read_here _ _ _ D _ _ (reads_byte cursor) HD E) as H1.
  change (zlen ([] ++ binary.le_bytes 4 id)) with 4 in H1. rewrite H1. cbn [mbind outcome_bind negb]. rewrite app_assoc in E.
  rewrite (read_here _ _ _ D _ _ (reads_uint32 1 ltac:(lia)) HD E). cbn [mbind outcome_bind negb Z.eqb Pos.eqb]. rewrite app_assoc in E.
  rewrite (proj2 (Z.ltb_lt _ _)) by lia.
  replace (uint16 (ParamsCount p + 7) / 8) with 0.
  2: { unfold uint16, wrapU. replace (ParamsCount p + 7) with (ParamsCount p - 65529 + 1 * 2 ^ 16) by lia. rewrite Z.mod_add, Z.mod_small by lia.
       symmetry. apply Z.div_small. lia. }
  set (pre := (([] ++ binary.le_bytes 4 id) ++ [cursor]) ++ binary.le_bytes 4 1) in *. unfold readBytes at 1.
  assert (zlen pre = 9) as Hpre by (unfold pre; rewrite !zlen_app, !zlen_le_bytes; done). rewrite Hpre. change (sub64 (add64 9 0) 1) with 8. change (add64 9 0) with 9.
  rewrite (proj2 (Z.leb_gt _ _)) by (rewrite E, !zlen_app; pose proof (zlen_nonneg rest); change (zlen [z2b 0]) with 1; lia).
  rewrite (slice_at D pre [] ([z2b 0] ++ rest)) by (done || lia). cbn [mbind outcome_bind negb]. rewrite <- Hpre at 1.
  rewrite (read_here _ _ _ D _ _ (reads_byte (z2b 0)) HD E). cbn [mbind outcome_bind andb]. change (b2z (z2b 0) =? 1) with false. cbv iota. cbn [mbind outcome_bind].
  destruct (length (ParamsType p)) as [|n] eqn:El; [unfold zlen in Hpt; lia|]. cbn [read_args]. unfold bound. rewrite Hv, H0. done.
Qed.

(** C39: rows that come in a result without fields are malformed.  [writeBinaryRows] takes the number of columns from the fields of the result it is
    given, and a handler that streams, such as the one of [StreamExecute], has the fields in the first result only: the bitmap of the
    rows in the others has one byte, too few for seven columns or more, and the client takes the first bytes of the
    values for the rest of it. *)
Theorem Streamed_rows_malformed (stale : Z -> list byte) (r : SqlResult) (row : list Value) (outs : list byte) (c : Conn) :
  idle c -> breaks c = None -> elems (r_Fields r) = [] -> elems (r_Rows r) = [row] -> (7 <= length row)%nat -> Forall (fun v => value_IsNull v = false) row ->
  converted ParseFloat32 ParseFloat64 row outs -> 6 + zlen outs <= MaxInt64 ->
  transmits (writeBinaryRows ParseFloat32 ParseFloat64 stale r) c [[z2b 0; z2b 0] ++ outs] tt /\
  forall packet, binary_row (length row) row packet -> (length ([z2b 0; z2b 0] ++ outs) < length packet)%nat.
Proof.
  intros Hi Hb Hf Hr Hn Hnn Hc Hz. assert (forall i bm, set_nulls i row bm = bm) as Hnulls.
  { clear - Hnn. induction Hnn as [|v row Hv _ IH]; intros i bm; [done|]. cbn [set_nulls]. by rewrite Hv, IH. }
  split.
  - destruct (framed_total (sequence c) ([z2b 0] ++ set_nulls 0 row (zero_bitmap []) ++ outs)) as (b & s & Hfr).
    assert (has_room 0 row (zero_bitmap [])) as Hroom by (intros j v Hj Hv; rewrite Forall_lookup in Hnn; by rewrite (Hnn j v Hj) in Hv).
    pose proof (writeBinaryRow_sent ParseFloat32 ParseFloat64 stale [] row outs c Hi Hb Hroom Hc ltac:(change (nullBitMapLen []) with 1; lia) b s Hfr) as Hw.
    exists b, s. rewrite Hnulls in Hfr. split; [rewrite <- (app_nil_r b); by econstructor; [|constructor]|].
    unfold writeBinaryRows. rewrite Hf, Hr. cbn [writeBinaryRowList]. unfold mbind, row_bind. by rewrite Hw.
  - intros packet (bm & outs' & Hc' & Hbm & _ & ->). rewrite (converted_det _ _ _ _ Hc _ Hc'). rewrite !length_app. cbn [length].
    assert (2 <= zlen bm) by (rewrite Hbm; apply Z.div_le_lower_bound; lia). unfold zlen in *. lia.
Qed.
End Execute.

(** ** Long data and resets *)

Definition long_data_payload (id paramID : Z) (chunk : list byte) : list byte :=
  [z2b ComStmtSendLongData] ++ binary.le_bytes 4 id ++ binary.le_bytes 2 paramID ++ chunk.

Lemma parse_long_data id paramID chunk : 0 <= id < 2 ^ 32 -> is_uint16 paramID -> buffer_ok (long_data_payload id paramID chunk) ->
  parseComStmtSendLongData (long_data_payload id paramID chunk) = Ret (id, paramID, chunk, true).
Proof.
  intros Hid Hp HD. unfold parseComStmtSendLongData. set (D := long_data_payload id paramID chunk) in *.
  assert (D = [z2b ComStmtSendLongData] ++ binary.le_bytes 4 id ++ binary.le_bytes 2 paramID ++ chunk) as E by done.
  pose proof (read_here _ _ _ D _ _ (reads_uint32 id Hid) HD E) as H1. change (zlen [z2b ComStmtSendLongData]) with 1 in H1. rewrite H1.
  cbn [mbind outcome_bind negb]. rewrite app_assoc in E. rewrite (read_here _ _ _ D _ _ (reads_uint16 paramID Hp) HD E). cbn [mbind outcome_bind negb].
  rewrite app_assoc in E. by rewrite (slice_from_at D _ chunk _ E).
Qed.

Section Long.
Context (stale : Z -> list byte).

(** A piece of a value is appended to what was sent before. *)
Lemma long_data_step s c id paramID chunk p vars : has_read s c -> 0 <= id < 2 ^ 32 -> 0 <= paramID < ParamsCount p -> prepare_wf p ->
  buffer_ok (long_data_payload id paramID chunk) -> s_PrepareData s !! id = Some p -> BindVars p = Some vars ->
  handleComStmtSendLongData stale (long_data_payload id paramID chunk) s =
    match vars !! parameterID paramID with
    | Some None => Panic
    | old =>
        let v := match old with Some (Some v) => {| bv_Type := bv_Type v; bv_Value := bv_Value v ++ chunk |} | _ => BytesBindVariable chunk end in
        Ret (true, set_prepared (<[id := set_BindVars (Some (<[parameterID paramID := Some v]> vars)) p]> (s_PrepareData s)) (set_conn c s))
    end.
Proof.
  intros Hr Hid Hn (Hpc & _) HD Hp Hv. unfold handleComStmtSendLongData, mbind, cmd_bind, calc. rewrite parse_long_data by (done || unfold is_uint16; lia).
  cbv beta iota. rewrite (recycled_ok s c Hr). unfold session. cbn [negb s_PrepareData set_conn]. rewrite Hp, Hv.
  rewrite (proj2 (Z.eqb_neq _ _)), (proj2 (Z.leb_gt _ _)) by lia. cbn [orb]. by destruct (vars !! parameterID paramID) as [[v|]|].
Qed.

Definition reset_payload (id : Z) : list byte := [z2b ComStmtReset] ++ binary.le_bytes 4 id.

Lemma parse_reset id : 0 <= id < 2 ^ 32 -> parseComStmtReset (reset_payload id) = Ret (id, true).
Proof.
  intros Hid. unfold parseComStmtReset.
  assert (buffer_ok (reset_payload id)) as HD by (unfold reset_payload, buffer_ok; rewrite zlen_app, zlen_le_bytes; by vm_compute).
  pose proof (read_here _ _ _ (reset_payload id) [z2b ComStmtReset] [] (reads_uint32 id Hid) HD) as H1. change (zlen [z2b ComStmtReset]) with 1 in H1.
  rewrite H1; [done|]. by rewrite app_nil_r.
Qed.

(** A statement is reset: an OK packet is sent. *)
Lemma reset_step s c id p : has_read s c -> breaks c = None -> is_uint16 (StatusFlags c) -> 0 <= id < 2 ^ 32 -> s_PrepareData s !! id = Some p ->
  exists b sq, handleComStmtReset stale (reset_payload id) s =
    Ret (true, set_conn (set_sequence sq (set_output (output c ++ b) None c))
      (set_prepared (<[id := set_BindVars (match BindVars p with None => None | Some m => Some ((fun _ => None) <$> m) end) p]> (s_PrepareData s)) s)).
Proof.
  intros Hr Hb Hfl Hid Hp. pose proof Hr as [Hi _].
  destruct (writeOKPacket_sends stale (status_ok (StatusFlags c)) (z2b OKPacket) c Hi) as (b & sq & Hf & Hs).
  - unfold ok_fields, status_ok. cbn. split_and!; try done; rewrite ?zlen_nil; lia.
  - unfold ok_length, status_ok. cbn [affectedRows lastInsertID statusFlags warnings info sessionStateData]. by repeat case_match; vm_compute.
  - exists b, sq. apply sends_unbroken in Hs; [|done]. unfold handleComStmtReset, mbind, cmd_bind, calc. rewrite parse_reset by done. cbv beta iota.
    rewrite (recycled_ok s c Hr). cbn [negb]. unfold mret, cmd_ret, session. cbv beta iota zeta. cbn [s_PrepareData set_conn negb]. cbv beta iota zeta. rewrite Hp.
    rewrite bool_decide_eq_false_2 by done. cbn [negb]. unfold modify, written, mbind, cmd_bind, on_conn. cbn [s_conn set_prepared set_conn].
    unfold writeOKPacket. by rewrite Hs.
Qed.
End Long.

(** C40: a parameter that was sent in pieces cannot be sent again after a reset.  The reset leaves nil pointers in the map of the variables, which the
    execution takes for parameters that were not sent, but the next piece of such a parameter dereferences one, and panics. *)
Theorem LongData_after_reset_panics (stale : Z -> list byte) (s : Session) (c : Conn) (id paramID : Z) (chunk1 chunk2 : list byte) (p : PrepareData) (vars : bind_map) :
  has_read s c -> 0 <= id < 2 ^ 32 -> 0 <= paramID < ParamsCount p -> prepare_wf p -> s_PrepareData s !! id = Some p -> BindVars p = Some vars ->
  vars !! parameterID paramID = None -> buffer_ok (long_data_payload id paramID chunk1) -> buffer_ok (long_data_payload id paramID chunk2) ->
  exists s1, handleComStmtSendLongData stale (long_data_payload id paramID chunk1) s = Ret (true, s1) /\
    forall s2 c2, has_read s2 c2 -> breaks c2 = None -> is_uint16 (StatusFlags c2) -> s_PrepareData s2 = s_PrepareData s1 ->
    exists s3, handleComStmtReset stale (reset_payload id) s2 = Ret (true, s3) /\
      forall s4 c4, has_read s4 c4 -> s_PrepareData s4 = s_PrepareData s3 ->
      handleComStmtSendLongData stale (long_data_payload id paramID chunk2) s4 = Panic.
Proof.
  intros Hr Hid Hn Hwf Hp Hv Hnone HD1 HD2. rewrite (long_data_step stale s c id paramID chunk1 p vars) by done. rewrite Hnone. eexists. split; [reflexivity|].
  intros s2 c2 Hr2 Hb2 Hfl2 E2. destruct (reset_step stale s2 c2 id (set_BindVars (Some (<[parameterID paramID := Some (BytesBindVariable chunk1)]> vars)) p))
    as (b & sq & Hreset); [done..|rewrite E2; apply lookup_insert_eq|].
  eexists. split; [exact Hreset|]. intros s4 c4 Hr4 E4. cbn [s_PrepareData set_conn set_prepared BindVars set_BindVars] in E4.
  erewrite (long_data_step stale s4 c4 id paramID chunk2); [|done|done| | |done|rewrite E4; apply lookup_insert_eq|reflexivity]; [|exact Hn|].
  - by rewrite lookup_fmap, lookup_insert_eq.
  - destruct Hwf as (H1 & H2 & _). split; [exact H1|]. split; [exact H2|]. discriminate.
Qed.

(** ** Preparing *)

Definition prepare_ok_payload (id columns params : Z) : list byte :=
  [z2b OKPacket] ++ binary.le_bytes 4 id ++ binary.le_bytes 2 columns ++ binary.le_bytes 2 params ++ [z2b 0] ++ binary.le_bytes 2 0.

(** Definitions and what ends them; nothing for none. *)
Definition definition_packets (c : Conn) (fields : list Field) : list (list byte) :=
  if decide (fields = []) then [] else (column_payload <$> fields) ++ (if deprecates_eof c then [] else [eof_payload (StatusFlags c) 0]).

(** The columns as they are sent. *)
Definition renamed (fld : list Field) : list Field := (fun f => set_name (replace_marks (f_Name f)) f) <$> fld.

Section Prepare.
Context (stale : Z -> list byte).

Lemma definitions_end_delivers c : idle c -> delivers (definitions_end stale) c (if deprecates_eof c then [] else [eof_payload (StatusFlags c) 0]) tt.
Proof.
  intros Hi. unfold definitions_end, deprecates_eof. eapply delivers_step; [done|]. cbv beta. case_match; cbn [negb]; [by apply writeEOFPacket_delivers|apply delivers_ret].
Qed.

Lemma short_param_field : short_field param_field.
Proof. by repeat split. Qed.

Lemma write_params_delivers p columns c : idle c -> 0 <= ParamsCount p ->
  delivers (write_params stale p columns) c
    (prepare_ok_payload (StatementID p) (uint16 columns) (ParamsCount p) :: definition_packets c (replicate (Z.to_nat (ParamsCount p)) param_field)) tt.
Proof.
  intros Hi Hn. unfold write_params. apply (delivers_bind _ _ _ [_] _ tt).
  - apply write_ephemeral_delivers; [done| |by unfold prepare_ok_payload; rewrite !zlen_app, !zlen_le_bytes|done]. unfold prepare_ok_payload. repeat fill.
  - intros c1 Hc1. pose proof (sent_idle _ _ Hc1 Hi) as Hi1. unfold definition_packets. destruct (Z.ltb_spec 0 (ParamsCount p)).
    + rewrite decide_False by (by destruct (Z.to_nat (ParamsCount p)) eqn:E; [lia|]).
      apply (delivers_bind _ _ _ _ _ tt); [apply writeColumnDefinitions_delivers; [done|apply Forall_replicate, short_param_field]|].
      intros c2 Hc2. pose proof (definitions_end_delivers c2 (sent_idle _ _ Hc2 Hi1)) as Hd. unfold deprecates_eof in *.
      destruct (sent_capabilities _ _ (sent_trans _ _ _ Hc1 Hc2)) as [E1 E2]. by rewrite E1, E2 in Hd.
    + replace (ParamsCount p) with 0 by lia. apply delivers_ret.
Qed.

(** A computation on the connection that sends packets. *)
Lemma on_conn_delivers {A} (m : io A) ps a s : delivers m (s_conn s) ps a -> breaks (s_conn s) = None ->
  exists b sq, framed_all (sequence (s_conn s)) ps b sq /\
    on_conn m s = Ret (Ok a, set_conn (set_sequence sq (set_output (output (s_conn s) ++ b) None (s_conn s))) s).
Proof.
  intros Hd Hb. destruct (framed_all_total (sequence (s_conn s)) ps) as (b & sq & Hf). exists b, sq. split; [done|].
  specialize (Hd b sq Hf). apply sends_unbroken in Hd; [|done]. unfold on_conn. by rewrite Hd.
Qed.

Lemma write_columns_ok id fld : Forall short_field (renamed fld) -> forall s p found old, idle (s_conn s) -> breaks (s_conn s) = None ->
  s_PrepareData s !! id = Some p -> ColumnNames p = found ++ old -> length old = length fld ->
  exists b sq, framed_all (sequence (s_conn s)) (column_payload <$> renamed fld) b sq /\
    write_columns stale id (zlen found) fld s =
      Ret (Ok tt, set_prepared (<[id := set_ColumnNames (found ++ (f_Name <$> renamed fld)) p]> (s_PrepareData s))
        (set_conn (set_sequence sq (set_output (output (s_conn s) ++ b) None (s_conn s))) s)).
Proof.
  induction fld as [|f fld IH]; intros Hf s p found old Hi Hb Hp Hnames Hl.
  - destruct old; [|done]. exists [], (sequence (s_conn s)). split; [constructor|]. cbn [write_columns renamed fmap list_fmap]. rewrite <- Hnames.
    assert (set_ColumnNames (ColumnNames p) p = p) as -> by (by destruct p). rewrite insert_id by done. rewrite <- Hb, Conn_eta. by destruct s.
  - destruct old as [|o old]; [done|]. injection Hl as Hl. cbn [renamed fmap list_fmap] in *. apply Forall_cons in Hf as [Hf1 Hf].
    set (f' := set_name (replace_marks (f_Name f)) f) in *. set (p1 := set_ColumnNames (found ++ f_Name f' :: old) p).
    set (s1 := set_prepared (<[id := p1]> (s_PrepareData s)) s).
    destruct (on_conn_delivers (writeColumnDefinition stale f') [column_payload f'] tt s1) as (b1 & sq1 & Hf0 & Hw); [by apply writeColumnDefinition_delivers|done|].
    set (s2 := set_conn _ s1) in Hw.
    destruct (IH Hf s2 p1 (found ++ [f_Name f']) old) as (b2 & sq2 & Hf2 & Hw2); [exact Hi|done|apply lookup_insert_eq|cbn; by rewrite <- app_assoc|done|].
    exists (b1 ++ b2), sq2. split; [exact (framed_all_join _ [column_payload f'] _ _ _ _ _ Hf0 Hf2)|].
    cbn [write_columns]. unfold mbind, cmd_bind, session. cbv beta iota zeta. rewrite Hp. fold f'. unfold calc. rewrite Hnames, (store_in _ found o old _ (f_Name f') (found ++ f_Name f' :: old)) by done.
    unfold modify. cbv beta iota. fold p1. fold s1. rewrite Hw. replace (zlen found + 1) with (zlen (found ++ [f_Name f'])) by (by rewrite zlen_app). rewrite Hw2.
    cbn [s2 s1 s_conn set_conn set_prepared s_PrepareData]. rewrite insert_insert_eq. unfold p1, renamed. cbn. rewrite <- !app_assoc. done.
Qed.

(** The packets that answer a prepared statement. *)
Definition prepare_packets (c : Conn) (id params : Z) (fields : list Field) : list (list byte) :=
  prepare_ok_payload id (uint16 (Z.of_nat (length fields))) params :: definition_packets c (replicate (Z.to_nat params) param_field) ++ definition_packets c fields.

Lemma writePrepare_ok id fld s p : Forall short_field (renamed fld) -> idle (s_conn s) -> breaks (s_conn s) = None -> 0 <= ParamsCount p ->
  s_PrepareData s !! id = Some p -> ColumnNames p = [] ->
  exists b sq, framed_all (sequence (s_conn s)) (prepare_packets (s_conn s) (StatementID p) (ParamsCount p) (renamed fld)) b sq /\
    writePrepare stale fld id s =
      Ret (Ok tt, set_prepared (<[id := set_ColumnNames (f_Name <$> renamed fld) p]> (s_PrepareData s))
        (set_conn (set_sequence sq (set_output (output (s_conn s) ++ b) None (s_conn s))) s)).
Proof.
  intros Hf Hi Hb Hn Hp Hnames. unfold prepare_packets, renamed at 1 2. rewrite length_fmap. fold (renamed fld).
  set (p1 := set_ColumnNames (replicate (length fld) []) p). set (s1 := set_prepared (<[id := p1]> (s_PrepareData s)) s).
  destruct (on_conn_delivers _ _ _ s1 (write_params_delivers p1 (Z.of_nat (length fld)) (s_conn s) Hi Hn) Hb) as (b1 & sq1 & Hf1 & Hw1).
  set (s2 := set_conn _ s1) in Hw1.
  destruct (write_columns_ok id fld Hf s2 p1 [] (replicate (length fld) [])) as (b2 & sq2 & Hf2 & Hw2);
    [exact Hi|done|apply lookup_insert_eq|done|apply length_replicate|]. set (s3 := set_prepared _ _) in Hw2.
  destruct (on_conn_delivers _ _ _ s3 (definitions_end_delivers (s_conn s3) Hi) eq_refl) as (b3 & sq3 & Hf3 & Hw3).
  assert (set_prepared (<[id := set_ColumnNames (replicate (length fld) []) p]> (s_PrepareData s)) s = s1) as Es1 by done.
  unfold writePrepare, mbind, cmd_bind, session. rewrite Hp. cbv beta iota zeta. unfold modify.
  destruct fld as [|f fld].
  - assert (set_prepared (<[id := p]> (s_PrepareData s)) s = s1) as Es.
    { unfold s1. f_equal. f_equal. unfold p1. cbn. destruct p. cbn in *. by subst. }
    cbn [length]. change (0 <? Z.of_nat 0) with false. cbv iota. rewrite Es. assert (p1 = p) as Ep by (unfold p1; cbn; destruct p; cbn in *; by subst). rewrite Ep in Hw1. cbn [length] in Hw1. rewrite Hw1.
    exists b1, sq1. rewrite Ep in Hf1. cbn [length renamed fmap list_fmap] in *. unfold definition_packets at 2. rewrite decide_True by done. rewrite app_nil_r.
    split; [exact Hf1|]. cbn [write_columns]. cbv [mret cmd_ret]. unfold s2, s1. rewrite Ep. cbn. do 4 f_equal. by destruct p; cbn in *; subst.
  - rewrite (proj2 (Z.ltb_lt _ _)) by (cbn; lia). fold p1. fold s1. rewrite Hw1. change (zlen (A := list byte) []) with 0 in Hw2. rewrite Hw2, Hw3.
    exists (b1 ++ b2 ++ b3), sq3. split.
    + unfold definition_packets at 2. rewrite decide_False by done. rewrite app_comm_cons.
      eapply framed_all_join; [exact Hf1|]. eapply framed_all_join; [exact Hf2|exact Hf3].
    + unfold s3, s2, s1, p1, set_prepared, set_conn, set_ColumnNames. cbn. rewrite insert_insert_eq. by rewrite !app_assoc.
Qed.

Lemma count_params_range names : 0 <= count_params names < 2 ^ 16.
Proof. unfold count_params, uint16. apply wrapU_range. lia. Qed.

Lemma new_prepare_wf id stmt n : 0 <= n < 2 ^ 16 -> prepare_wf (new_prepare id stmt n) /\ StatementID (new_prepare id stmt n) = id /\
  ParamsCount (new_prepare id stmt n) = n /\ ColumnNames (new_prepare id stmt n) = [].
Proof.
  intros Hn. unfold new_prepare, prepare_wf. destruct (Z.ltb_spec 0 n); cbn.
  - split_and!; try done; [lia|lia|]. unfold zlen. rewrite length_replicate. lia.
  - replace n with 0 by lia. by split_and!.
Qed.

(** C18: a statement is prepared.  The text of a client is split where the client may send several statements, and the one statement it is has a new
    identifier, with the number of its parameters; the client is sent the identifier and both numbers, the definitions of the
    parameters and of the columns, and the statement is kept under the identifier, without arguments, and with the names of its columns. *)
Theorem Prepare_answered (handler : Handler) (s : Session) (c : Conn) (query stmt : list byte) (names : list (list byte)) (fld : list Field) :
  has_read s c -> breaks c = None ->
  (if Z.land (Capabilities c) CapabilityClientMultiStatements =? 0 then stmt = query else h_split handler query = Ok [stmt]) ->
  h_parse handler query = Ok names -> h_prepare handler stmt (empty_vars (count_params names)) = Ok fld -> Forall short_field (renamed fld) ->
  let id := uint32 (s_StatementID s + 1) in
  exists b sq, framed_all (sequence c) (prepare_packets c id (count_params names) (renamed fld)) b sq /\
    handleComPrepare stale handler (z2b ComPrepare :: query) s =
    Ret (true, set_prepared (<[id := set_ColumnNames (f_Name <$> renamed fld) (new_prepare id stmt (count_params names))]> (s_PrepareData s))
      (set_StatementID id (set_conn (set_sequence sq (set_output (output c ++ b) None c)) s))).
Proof.
  intros Hr Hb Hsplit Hparse Hprep Hf id. pose proof Hr as [Hi _]. pose proof (count_params_range names) as Hn.
  destruct (new_prepare_wf id stmt _ Hn) as (_ & Hid & Hpc & Hcol). set (p := new_prepare id stmt (count_params names)) in *.
  set (s1 := set_prepared (<[id := p]> (s_PrepareData s)) (set_StatementID id (set_conn c s))).
  destruct (writePrepare_ok id fld s1 p Hf Hi Hb ltac:(lia) (lookup_insert_eq _ _ _) Hcol) as (b & sq & Hfr & Hw). rewrite Hid, Hpc in Hfr.
  exists b, sq. split; [exact Hfr|].
  assert (prepare_statement stale handler query stmt (set_conn c s) = Ret (true, set_prepared (<[id := set_ColumnNames (f_Name <$> renamed fld) p]> (s_PrepareData s))
    (set_StatementID id (set_conn (set_sequence sq (set_output (output c ++ b) None c)) s)))) as Hprepare.
  { unfold prepare_statement, mbind, cmd_bind, modify, session. cbv beta iota zeta. rewrite Hparse. cbv [mret cmd_ret]. cbn [negb]. cbv beta iota zeta.
    rewrite Hprep. cbn [s_StatementID set_StatementID set_conn s_PrepareData]. fold id. fold p. fold s1. rewrite Hw. unfold s1. cbn. by rewrite insert_insert_eq. }
  unfold handleComPrepare, mbind, cmd_bind, calc, parseComPrepare. rewrite (slice_from_at _ [z2b ComPrepare] query) by done. rewrite (recycled_ok s c Hr).
  unfold session. cbn [s_conn set_conn]. destruct (Z.land (Capabilities c) CapabilityClientMultiStatements =? 0); cbn [negb].
  - by replace (prepare_statement stale handler query query) with (prepare_statement stale handler query stmt) by (by rewrite Hsplit).
  - by rewrite Hsplit.
Qed.
End Prepare.

(** ** Examples *)

Definition no_float (s : list byte) : option Z := None.
Definition no_chars (bits : Z) : list byte := [].

Definition sample_columns : list Field := [param_field; type_field Type_INT64].

Definition sample_answer : answer :=
  {| a_results := [{| r_Fields := Some sample_columns; r_RowsAffected := 0; r_InsertID := 0;
       r_Rows := Some [[{| v_typ := Type_VARBINARY; v_val := bs "a" |}; {| v_typ := Type_INT64; v_val := bs "-2" |}]; [NULL; NULL]];
       r_SessionStateChanges := []; r_StatusFlags := 0; r_Info := [] |}];
     a_err := None; a_warnings := 0 |}.

Definition sample_handler : Handler :=
  {| h_split := fun query => Ok [query]; h_query := fun _ => sample_answer; h_parse := fun _ => Ok [bs "v1"; bs "v2"; bs "v3"];
     h_prepare := fun _ _ => Ok sample_columns; h_execute := fun _ => sample_answer |}.

(** A statement with three parameters, of which the second was sent in pieces. *)
Definition sample_vars : bind_map := {[ parameterID 1 := Some (BytesBindVariable (bs "long")) ]}.

Definition sample_statement : PrepareData :=
  {| ParamsType := [Type_NULL_TYPE; Type_NULL_TYPE; Type_NULL_TYPE]; ColumnNames := []; PrepareStmt := bs "select ?, ?, ?"; BindVars := Some sample_vars;
     StatementID := 7; ParamsCount := 3 |}.

Definition sample_session : Session :=
  {| s_conn := set_ephemeral ephemeralRead None session_conn; s_ConnectionID := 1; s_StatementID := 7; s_PrepareData := {[ 7 := sample_statement ]} |}.

Lemma sample_read : has_read sample_session session_conn.
Proof. split; [by split|by exists None]. Qed.

Example Prepare_answered_witness :
  exists b sq, framed_all 1 (prepare_packets session_conn 8 3 sample_columns) b sq /\
    handleComPrepare (fun _ => bs "stale") sample_handler (z2b ComPrepare :: bs "select :v1, :v2, :v3") sample_session =
    Ret (true, set_prepared (<[8 := set_ColumnNames [bs "?"; []] (new_prepare 8 (bs "select :v1, :v2, :v3") 3)]> {[ 7 := sample_statement ]})
      (set_StatementID 8 (set_conn (set_sequence sq (set_output b None session_conn)) sample_session))).
Proof.
  exact (Prepare_answered (fun _ => bs "stale") sample_handler sample_session session_conn (bs "select :v1, :v2, :v3") (bs "select :v1, :v2, :v3")
    [bs "v1"; bs "v2"; bs "v3"] sample_columns sample_read eq_refl eq_refl eq_refl eq_refl ltac:(by repeat constructor)).
Defined.

Definition sample_params : list param := [SentParam {| v_typ := Type_INT64; v_val := bs "-5" |} (NewInt64 (-5)); LongParam; NullParam].
Definition sample_codes : list (byte * byte) := [(z2b 8, z2b 0); (z2b 253, z2b 128); (z2b 6, z2b 0)].
Definition sample_types : list Z := [Type_INT64; Type_VARBINARY; Type_NULL_TYPE].
Definition sample_outs : list (list byte) := [binary.le_bytes 8 (2 ^ 64 - 5); []; []].

Lemma sample_sent : well_sent no_float no_float no_chars no_chars sample_statement sample_params [z2b 4] sample_codes sample_types sample_outs sample_vars.
Proof.
  split; [done|]. split; [by vm_compute|]. split; [done|]. split; [done|]. split; [by repeat constructor|]. split; [done|]. split.
  - constructor; [split; [|by vm_compute]|by repeat constructor]. apply (argument_int _ _ _ _ Type_INT64 64 (-5)); [|lia].
    unfold signed_types. rewrite !elem_of_cons. do 5 right. by left.
  - intros [|[|[|j]]] pr Hj; [injection Hj as <-..|done]; eexists; (split; [reflexivity|]); (split; [|by vm_compute]).
    + split; [|done]. by vm_compute.
    + by eexists.
    + by vm_compute.
Qed.

Lemma sample_wf : prepare_wf sample_statement.
Proof. split; [by vm_compute|]. by split. Qed.

Lemma sample_binary : binary_results no_float no_float sample_columns (a_results sample_answer) [].
Proof.
  split; [done|]. split; [by repeat constructor|]. split; [done|]. split; [by do 2 eexists|]. split; [|by split].
  constructor; [|constructor]. split; [done|]. constructor; [|constructor; [|constructor]].
  - split; [done|]. exists (lenenc_string (bs "a") ++ binary.le_bytes 8 (2 ^ 64 - 2) ++ []). split; [|by vm_compute].
    apply converted_value; [done|by vm_compute|]. apply converted_value; [done|by vm_compute|]. apply converted_nil.
  - split; [done|]. exists []. split; [|by vm_compute]. apply converted_null; [done|]. apply converted_null; [done|]. apply converted_nil.
Qed.

Example Execute_answered_witness :
  let args := bind_all 0 sample_params sample_vars in
  args !! parameterID 0 = Some (Some {| bv_Type := Type_INT64; bv_Value := bs "-5" |}) /\
  args !! parameterID 1 = Some (Some (BytesBindVariable (bs "long"))) /\
  args !! parameterID 2 = Some (Some (ValueBindVariable NULL)) /\
  exists rows b sq, Forall2 (binary_row no_float no_float 2) (all_rows (a_results sample_answer)) rows /\
    framed_all 1 (header_packets true 2 sample_columns ++ rows ++ [eof_payload 2 0]) b sq /\
    handleComStmtExecute no_float no_float no_chars no_chars (fun _ => bs "stale") sample_handler
      (z2b ComStmtExecute :: execute_payload 7 (z2b 0) [z2b 4] sample_codes sample_outs) sample_session =
    Ret (true, set_prepared {[ 7 := set_BindVars (Some ∅) (set_ParamsType sample_types sample_statement) ]}
      (set_conn (set_sequence sq (set_output b None session_conn)) sample_session)).
Proof.
  destruct (Execute_answered no_float no_float no_chars no_chars (fun _ => bs "stale") sample_handler sample_session session_conn 7 (z2b 0) sample_statement
    sample_params [z2b 4] sample_codes sample_types sample_outs sample_vars sample_columns (a_results sample_answer) [] 0 sample_read eq_refl ltac:(by vm_compute)
    ltac:(by vm_compute) ltac:(lia) eq_refl sample_wf sample_sent ltac:(by vm_compute) sample_binary eq_refl) as [Hargs Hex].
  split; [exact (Hargs 0%nat _ eq_refl)|]. split; [exact (Hargs 1%nat _ eq_refl)|]. split; [exact (Hargs 2%nat _ eq_refl)|].
  destruct Hex as (rows & b & sq & Hrows & Hf & Hh). exists rows, b, sq. split; [exact Hrows|]. split; [exact Hf|]. exact Hh.
Defined.

Example Execute_cut_binds_id_witness :
  let p := {| ParamsType := [Type_INT32]; ColumnNames := []; PrepareStmt := bs "select ?"; BindVars := Some ∅; StatementID := 7; ParamsCount := 1 |} in
  parseComStmtExecute no_chars no_chars {[ 7 := p ]} ([z2b ComStmtExecute] ++ binary.le_bytes 4 7 ++ [z2b 0] ++ binary.le_bytes 4 1 ++ [z2b 0]) =
    Ret (<[7 := set_BindVars (Some {[ parameterID 0 := Some {| bv_Type := Type_INT64; bv_Value := bs "7" |} ]}) p]> {[ 7 := p ]}, (7, z2b 0, None)).
Proof.
  intros p. exact (Execute_cut_binds_id no_chars no_chars {[ 7 := p ]} 7 (z2b 0) (z2b ComStmtExecute) p ltac:(lia) (lookup_singleton_eq _ _) eq_refl eq_refl eq_refl).
Defined.

Example Execute_many_params_panics_witness :
  let p := new_prepare 7 (bs "select ?, ...") 65530 in
  parseComStmtExecute no_chars no_chars {[ 7 := p ]} ([z2b ComStmtExecute] ++ binary.le_bytes 4 7 ++ [z2b 0] ++ binary.le_bytes 4 1 ++ [z2b 0] ++ []) = Panic.
Proof.
  intros p. exact (Execute_many_params_panics no_chars no_chars {[ 7 := p ]} 7 (z2b 0) (z2b ComStmtExecute) [] p ∅ ltac:(lia) (lookup_singleton_eq _ _)
    (proj1 (new_prepare_wf 7 (bs "select ?, ...") 65530 ltac:(lia))) ltac:(by cbn) eq_refl eq_refl ltac:(by vm_compute)).
Defined.

Example Streamed_rows_malformed_witness :
  let v := {| v_typ := Type_INT8; v_val := bs "1" |} in
  let r := {| r_Fields := None; r_RowsAffected := 0; r_InsertID := 0; r_Rows := Some [replicate 7 v]; r_SessionStateChanges := []; r_StatusFlags := 0; r_Info := [] |} in
  transmits (writeBinaryRows no_float no_float (fun _ => bs "stale") r) session_conn [[z2b 0; z2b 0] ++ replicate 7 (z2b 1)] tt /\
  forall packet, binary_row no_float no_float 7 (replicate 7 v) packet -> (9 < length packet)%nat.
Proof.
  intros v r. assert (converted no_float no_float (replicate 7 v) (replicate 7 (z2b 1))) as Hc.
  { cbn [replicate]. do 7 (apply (converted_value no_float no_float v _ [z2b 1]); [done|by vm_compute|]). apply converted_nil. }
  exact (Streamed_rows_malformed no_float no_float (fun _ => bs "stale") r (replicate 7 v) (replicate 7 (z2b 1)) session_conn ltac:(by split) eq_refl eq_refl eq_refl
    ltac:(by vm_compute) ltac:(by repeat constructor) Hc ltac:(by vm_compute)).
Defined.

Example LongData_after_reset_panics_witness :
  exists s1, handleComStmtSendLongData (fun _ => []) (long_data_payload 7 0 (bs "abc")) sample_session = Ret (true, s1) /\
    exists s3, handleComStmtReset (fun _ => []) (reset_payload 7) (set_conn (set_ephemeral ephemeralRead None session_conn) s1) = Ret (true, s3) /\
      handleComStmtSendLongData (fun _ => []) (long_data_payload 7 0 (bs "def")) (set_conn (set_ephemeral ephemeralRead None session_conn) s3) = Panic.
Proof.
  destruct (LongData_after_reset_panics (fun _ => []) sample_session session_conn 7 0 (bs "abc") (bs "def") sample_statement sample_vars sample_read
    ltac:(lia) ltac:(cbn; lia) sample_wf eq_refl eq_refl eq_refl ltac:(by vm_compute) ltac:(by vm_compute)) as (s1 & H1 & Hreset).
  exists s1. split; [exact H1|].
  destruct (Hreset (set_conn (set_ephemeral ephemeralRead None session_conn) s1) session_conn) as (s3 & H3 & Hpanic);
    [split; [by split|by eexists]|reflexivity|by vm_compute|reflexivity|].
  exists s3. split; [exact H3|]. apply (Hpanic _ session_conn); [split; [by split|by eexists]|reflexivity].
Defined.
