(* ===== verification/Position.v ===== *)
(** * GTIDs, GTID sets and replication positions

    [go/mysql/gtid.go], [gtid_set.go] and [replication_position.go]: the dispatch of the
    [GTID] and [GTIDSet] interfaces to the three flavors, the parser tables, and
    [Position].  The class [Flavor] states what a flavor promises to its callers;
    the theorems on positions are proved against it. *)

From S2P Require Import Prelude Intervals GoStd GtidTypes Gtid56 Gtid56Text Mariadb FilePos.

(** ** The GTID interface *)

Definition GTID_String (gtid : GTID) : list byte :=
  match gtid with
  | Gtid56 g => Mysql56GTID_String g
  | GtidMariadb g => MariadbGTID_String g
  | GtidFilePos g => filePosGTID_String g
  end.

Definition GTID_Flavor (gtid : GTID) : list byte :=
  match gtid with
  | Gtid56 _ => Mysql56FlavorID
  | GtidMariadb _ => MariadbFlavorID
  | GtidFilePos _ => FilePosFlavorID
  end.

Definition GTID_GTIDSet (gtid : GTID) : GTIDSet :=
  match gtid with
  | Gtid56 g => Set56 (Mysql56GTID_GTIDSet g)
  | GtidMariadb g => SetMariadb (MariadbGTID_GTIDSet g)
  | GtidFilePos g => SetFilePos g
  end.

(** [gtidParsers], as the [init] functions of the flavors fill it. *)
Definition gtidParsers (flavor : list byte) : option (list byte -> result gtid_error GTID) :=
  if decide (flavor = Mysql56FlavorID) then Some parseMysql56GTID
  else if decide (flavor = MariadbFlavorID) then
    Some (fun s => g ← parseMariadbGTID s; Ok (GtidMariadb g))
  else if decide (flavor = FilePosFlavorID) then
    Some (fun s => g ← parseFilePosGTID s; Ok (GtidFilePos g))
  else None.

(** [ParseGTID]. *)
Definition ParseGTID (flavor value : list byte) : result gtid_error GTID :=
  match gtidParsers flavor with
  | None => Err (UnknownFlavor flavor)
  | Some parser => parser value
  end.

(** [MustParseGTID]. *)
Definition MustParseGTID (flavor value : list byte) : outcome GTID :=
  match ParseGTID flavor value with Ok gtid => Ret gtid | Err _ => Panic end.

(** [EncodeGTID]. *)
Definition EncodeGTID (gtid : option GTID) : list byte :=
  match gtid with
  | None => []
  | Some gtid => GTID_Flavor gtid ++ slash :: GTID_String gtid
  end.

(** [DecodeGTID]; [strings.SplitN(s, "/", 2)] cuts at the first slash. *)
Definition DecodeGTID (s : list byte) : result gtid_error (option GTID) :=
  if bool_decide (s = []) then Ok None
  else
    let '(p0, p1, two) := strings.Cut slash s in
    if negb two then gtid ← ParseGTID [] s; Ok (Some gtid)
    else gtid ← ParseGTID p0 p1; Ok (Some gtid).

(** [MustDecodeGTID]. *)
Definition MustDecodeGTID (s : list byte) : outcome (option GTID) :=
  match DecodeGTID s with Ok gtid => Ret gtid | Err _ => Panic end.

(** ** The GTIDSet interface *)

Definition GTIDSet_String (set : GTIDSet) : list byte :=
  match set with
  | Set56 s => Mysql56GTIDSet_String s
  | SetMariadb s => MariadbGTIDSet_String s
  | SetFilePos g => filePosGTID_String g
  end.

Definition GTIDSet_Flavor (set : GTIDSet) : list byte :=
  match set with
  | Set56 _ => Mysql56FlavorID
  | SetMariadb _ => MariadbFlavorID
  | SetFilePos _ => FilePosFlavorID
  end.

Definition GTIDSet_ContainsGTID (set : GTIDSet) (gtid : option GTID) : bool :=
  match set with
  | Set56 s => Mysql56_ContainsGTID s gtid
  | SetMariadb s => Mariadb_ContainsGTID s gtid
  | SetFilePos g => FilePos_ContainsGTID g gtid
  end.

Definition GTIDSet_Contains (set : GTIDSet) (other : option GTIDSet) : bool :=
  match set with
  | Set56 s => Mysql56_Contains s other
  | SetMariadb s => Mariadb_Contains s other
  | SetFilePos g => FilePos_Contains g other
  end.

Definition GTIDSet_Equal (set : GTIDSet) (other : option GTIDSet) : bool :=
  match set with
  | Set56 s => Mysql56_Equal s other
  | SetMariadb s => Mariadb_Equal s other
  | SetFilePos g => FilePos_Equal g other
  end.

Definition GTIDSet_AddGTID (set : GTIDSet) (gtid : option GTID) : GTIDSet :=
  match set with
  | Set56 s => Set56 (Mysql56_AddGTID s gtid)
  | SetMariadb s => SetMariadb (Mariadb_AddGTID s gtid)
  | SetFilePos g => SetFilePos (FilePos_AddGTID g gtid)
  end.

Definition GTIDSet_Union (set : GTIDSet) (other : option GTIDSet) : option GTIDSet :=
  match set with
  | Set56 s => Mysql56_Union s other
  | SetMariadb s => Mariadb_Union s other
  | SetFilePos g => Some (SetFilePos (FilePos_Union g other))
  end.

Definition GTIDSet_Intersect (set : GTIDSet) (other : option GTIDSet) : option GTIDSet :=
  match set with
  | Set56 s => Some (Set56 (Mysql56_Intersect s other))
  | SetMariadb s => Mariadb_Intersect s other
  | SetFilePos g => FilePos_Intersect g other
  end.

Definition GTIDSet_Last (set : GTIDSet) : outcome (list byte) :=
  match set with
  | Set56 s => Ret (Mysql56GTIDSet_Last s)
  | SetMariadb s => MariadbGTIDSet_Last s
  | SetFilePos g => Ret (filePosGTID_String g)
  end.

(** [gtidSetParsers], as the [init] functions of the flavors fill it. *)
Definition gtidSetParsers (flavor : list byte) : option (list byte -> result gtid_error GTIDSet) :=
  if decide (flavor = Mysql56FlavorID) then
    Some (fun s => set ← ParseMysql56GTIDSet s; Ok (Set56 set))
  else if decide (flavor = MariadbFlavorID) then
    Some (fun s => set ← parseMariadbGTIDSet s; Ok (SetMariadb set))
  else if decide (flavor = FilePosFlavorID) then
    Some (fun s => g ← ParseFilePosGTIDSet s; Ok (SetFilePos g))
  else None.

(** ** Positions *)

(** [Position]: its [GTIDSet] field; [None] is the zero position. *)
Definition Position : Type := option GTIDSet.

(** [Position.Equal]. *)
Definition Position_Equal (rp other : Position) : bool :=
  match rp with
  | None => match other with None => true | Some _ => false end
  | Some set => GTIDSet_Equal set other
  end.

(** [Position.AtLeast]. *)
Definition AtLeast (rp other : Position) : bool :=
  match other with
  | None => true
  | Some _ => match rp with None => false | Some set => GTIDSet_Contains set other end
  end.

(** [Position.String] and [Position.IsZero]. *)
Definition Position_String (rp : Position) : list byte :=
  match rp with None => bs "<nil>" | Some set => GTIDSet_String set end.

Definition IsZero (rp : Position) : bool :=
  match rp with None => true | Some _ => false end.

(** [AppendGTID]. *)
Definition AppendGTID (rp : Position) (gtid : option GTID) : Position :=
  match gtid with
  | None => rp
  | Some g =>
      match rp with
      | None => Some (GTID_GTIDSet g)
      | Some set => Some (GTIDSet_AddGTID set gtid)
      end
  end.

(** [ParsePosition]. *)
Definition ParsePosition (flavor value : list byte) : result gtid_error Position :=
  match gtidSetParsers flavor with
  | None => Err (UnknownFlavor flavor)
  | Some parser => gtidSet ← parser value; Ok (Some gtidSet)
  end.

(** [MustParsePosition]. *)
Definition MustParsePosition (flavor value : list byte) : outcome Position :=
  match ParsePosition flavor value with Ok rp => Ret rp | Err _ => Panic end.

(** [EncodePosition]. *)
Definition EncodePosition (rp : Position) : list byte :=
  match rp with
  | None => []
  | Some set => GTIDSet_Flavor set ++ slash :: GTIDSet_String set
  end.

(** [DecodePosition]. *)
Definition DecodePosition (s : list byte) : result gtid_error Position :=
  if bool_decide (s = []) then Ok None
  else
    let '(flav, gtid, ok) := strings.Cut slash s in
    if negb ok then ParsePosition [] s else ParsePosition flav gtid.

(** [Position.MatchesFlavor]. *)
Definition MatchesFlavor (rp : Position) (flavor : list byte) : bool :=
  if decide (flavor = Mysql56FlavorID) then
    match rp with Some (Set56 _) => true | _ => false end
  else if decide (flavor = MariadbFlavorID) then
    match rp with Some (SetMariadb _) => true | _ => false end
  else if decide (flavor = FilePosFlavorID) then
    match rp with Some (SetFilePos _) => true | _ => false end
  else false.

(** A method call on a [GTIDSet] interface panics when the interface is nil. *)
Definition call_Contains (set other : Position) : outcome bool :=
  match set with None => Panic | Some set => Ret (GTIDSet_Contains set other) end.

(** [Position.Comparable], with the short-circuit of the disjunction. *)
Definition Comparable (rp other : Position) : outcome bool :=
  b ← call_Contains rp other;
  if b : bool then Ret true else call_Contains other rp.

(** The inner loop of [AllPositionsComparable] for one [positions[i]]. *)
Fixpoint comparable_with (p : Position) (positions : list Position) : outcome bool :=
  match positions with
  | [] => Ret true
  | q :: rest =>
      b ← Comparable p q;
      if b : bool then comparable_with p rest else Ret false
  end.

(** [AllPositionsComparable]. *)
Fixpoint AllPositionsComparable (positions : list Position) : outcome bool :=
  match positions with
  | [] => Ret true
  | p :: rest =>
      b ← comparable_with p rest;
      if b : bool then AllPositionsComparable rest else Ret false
  end.

(** ** What a flavor promises *)

(** [S] is the type of well-formed sets of one flavor: what they denote, and how the
    methods of the interface and the parsers treat them. *)
Class Flavor (S : Type) := {
  flavor_set : S -> GTIDSet;
  flavor_ok : S -> Prop;
  flavor_tx : Type;
  flavor_has : S -> flavor_tx -> Prop;
  flavor_Contains : forall a b, flavor_ok a -> flavor_ok b ->
    GTIDSet_Contains (flavor_set a) (Some (flavor_set b)) = true <->
    forall t, flavor_has b t -> flavor_has a t;
  flavor_Union : forall a b, flavor_ok a -> flavor_ok b ->
    exists c, GTIDSet_Union (flavor_set a) (Some (flavor_set b)) = Some (flavor_set c) /\
    flavor_ok c /\ forall t, flavor_has c t <-> flavor_has a t \/ flavor_has b t;
  flavor_Equal : forall a b, flavor_ok a -> flavor_ok b ->
    GTIDSet_Equal (flavor_set a) (Some (flavor_set b)) = true <-> a = b;
  flavor_Parse : forall a, flavor_ok a ->
    ParsePosition (GTIDSet_Flavor (flavor_set a)) (GTIDSet_String (flavor_set a)) =
    Ok (Some (flavor_set a)) }.

#[export] Program Instance Flavor_Mysql56 : Flavor m56map := {
  flavor_set m := Set56 (Some m);
  flavor_ok m := canonical_set (Some m) /\ valid_members m;
  flavor_tx := SID * Z;
  flavor_has m t := has (Some m) t.1 t.2 }.
Next Obligation.
  intros a b [Ha _] [Hb _]. cbn [GTIDSet_Contains].
  rewrite Contains_correct by auto with go_bounds. split.
  - intros H [sid n]. apply H.
  - intros H sid n. apply (H (sid, n)).
Qed.
Next Obligation.
  intros a b [Ha Hva] [Hb Hvb]. destruct (Union_correct a b Ha Hb) as (c & Hc & Hcan & Hhas).
  exists c. split; [done|]. split; [split; [done|]|].
  - intros sid n Hn. apply Hhas in Hn as [?|?]; [by apply Hva|by apply Hvb].
  - intros [sid n]. apply Hhas.
Qed.
Next Obligation.
  intros a b [Ha _] [Hb _]. apply Equal_eq. intros sid l Hl. by apply (Ha sid l).
Qed.
Next Obligation.
  intros a [Ha Hv]. unfold ParsePosition, gtidSetParsers. cbn [GTIDSet_Flavor GTIDSet_String].
  rewrite decide_True by done. by rewrite Parse_String by auto using canonical_printable.
Qed.

#[export] Program Instance Flavor_Mariadb : Flavor mdbmap := {
  flavor_set m := SetMariadb (Some m);
  flavor_ok := mdb_ok;
  flavor_tx := Z * Z;
  flavor_has m t := mdb_has (Some m) t.1 t.2 }.
Next Obligation.
  intros a b Ha Hb. cbn [GTIDSet_Contains]. rewrite mdb_Contains_correct by done. split.
  - intros H [d n]. apply H.
  - intros H d n. apply (H (d, n)).
Qed.
Next Obligation.
  intros a b Ha Hb. destruct (mdb_Union_correct a b Ha Hb) as (c & Hc & Hok & Hhas).
  exists c. split_and!; [done..|]. intros [d n]. apply Hhas.
Qed.
Next Obligation. intros a b _ _. apply mdb_Equal_eq. Qed.
Next Obligation.
  intros a Ha. unfold ParsePosition, gtidSetParsers. cbn [GTIDSet_Flavor GTIDSet_String].
  rewrite decide_False, decide_True by done. by rewrite mdb_Parse_String.
Qed.

#[export] Program Instance Flavor_FilePos : Flavor filePosGTID := {
  flavor_set g := SetFilePos g;
  flavor_ok g := (colon ∉ file g) /\ is_int64 (pos g);
  flavor_tx := list byte * Z;
  flavor_has := fp_has }.
Next Obligation. intros a b _ _. apply fp_Contains_correct. Qed.
Next Obligation.
  intros a b Ha Hb. exists (FilePos_Union a (Some (SetFilePos b))). split_and!; [done| | |].
  1,2: unfold FilePos_Union; destruct (FilePos_Contains _ _); apply Ha || apply Hb.
  intros t. apply fp_Union_correct.
Qed.
Next Obligation. intros a b _ _. apply bool_decide_eq_true. Qed.
Next Obligation.
  intros a [Hf Hp]. unfold ParsePosition, gtidSetParsers. cbn [GTIDSet_Flavor GTIDSet_String].
  rewrite !decide_False, decide_True by done. unfold ParseFilePosGTIDSet. by rewrite fp_Parse_String.
Qed.

(** ** Positions of one flavor *)

Section Positions.
Context {S : Type} `{Flavor S}.

(** A position of the flavor: the zero position or one with a well-formed set. *)
Definition to_position (p : option S) : Position := flavor_set <$> p.

Definition position_ok (p : option S) : Prop :=
  match p with None => True | Some a => flavor_ok a end.

Definition position_has (p : option S) (t : flavor_tx) : Prop :=
  match p with None => False | Some a => flavor_has a t end.

Lemma AtLeast_None p : AtLeast p None = true.
Proof. done. Qed.

Lemma AtLeast_spec a b :
  flavor_ok a -> flavor_ok b ->
  AtLeast (to_position (Some a)) (to_position (Some b)) = true <->
  forall t, flavor_has b t -> flavor_has a t.
Proof. apply flavor_Contains. Qed.

Lemma AtLeast_refl p : position_ok p -> AtLeast (to_position p) (to_position p) = true.
Proof. destruct p as [a|]; [|done]. intros Ha. by apply AtLeast_spec. Qed.

Lemma AtLeast_trans p q r :
  position_ok p -> position_ok q -> position_ok r ->
  AtLeast (to_position p) (to_position q) = true ->
  AtLeast (to_position q) (to_position r) = true ->
  AtLeast (to_position p) (to_position r) = true.
Proof.
  destruct p as [a|], q as [b|], r as [c|]; try done. intros Ha Hb Hc.
  cbn [position_ok] in *. rewrite !AtLeast_spec by done. auto.
Qed.

Lemma flavor_no_slash (a : S) : slash ∉ GTIDSet_Flavor (flavor_set a).
Proof.
  destruct (flavor_set a); cbn [GTIDSet_Flavor]; refine (bool_decide_unpack _ _); by vm_compute.
Qed.

Lemma Decode_Encode_position p :
  position_ok p -> DecodePosition (EncodePosition (to_position p)) = Ok (to_position p).
Proof.
  destruct p as [a|]; [|done]. intros Ha. unfold DecodePosition. cbn [to_position fmap option_fmap option_map EncodePosition].
  rewrite bool_decide_eq_false_2 by (by destruct (GTIDSet_Flavor _)).
  rewrite strings.Cut_found by apply flavor_no_slash. by apply flavor_Parse.
Qed.

Lemma Comparable_spec a b :
  flavor_ok a -> flavor_ok b ->
  exists r, Comparable (to_position (Some a)) (to_position (Some b)) = Ret r /\
  (r = true <-> (forall t, flavor_has b t -> flavor_has a t) \/
                (forall t, flavor_has a t -> flavor_has b t)).
Proof.
  intros Ha Hb. unfold Comparable. cbn [to_position fmap option_fmap option_map call_Contains mbind outcome_bind].
  pose proof (flavor_Contains a b Ha Hb) as H1. pose proof (flavor_Contains b a Hb Ha) as H2.
  destruct (GTIDSet_Contains (flavor_set a) _); eexists; (split; [reflexivity|]).
  - split; [|done]. intros _. left. by apply H1.
  - rewrite H2. split; [by right|]. intros [X|?]; [|done]. by apply H1 in X.
Qed.

Definition ordered_pair (a b : S) : Prop :=
  (forall t, flavor_has b t -> flavor_has a t) \/ (forall t, flavor_has a t -> flavor_has b t).

Lemma comparable_with_spec a l :
  flavor_ok a -> Forall flavor_ok l ->
  exists r, comparable_with (to_position (Some a)) (to_position ∘ Some <$> l) = Ret r /\
  (r = true <-> Forall (ordered_pair a) l).
Proof.
  intros Ha Hl. induction Hl as [|b l Hb Hl (r & Hr & IH)].
  { exists true. split; [done|]. split; [constructor|done]. }
  destruct (Comparable_spec a b Ha Hb) as (c & Hc & Hiff).
  rewrite fmap_cons. cbn [comparable_with compose]. rewrite Hc. cbn [mbind outcome_bind].
  destruct c.
  - exists r. split; [done|]. rewrite IH, Forall_cons. unfold ordered_pair. tauto.
  - exists false. split; [done|]. rewrite Forall_cons. unfold ordered_pair. rewrite <- Hiff. by split; [|intros []].
Qed.

Lemma AllPositionsComparable_spec l :
  Forall flavor_ok l ->
  exists r, AllPositionsComparable (to_position ∘ Some <$> l) = Ret r /\
  (r = true <-> ForallOrdPairs ordered_pair l).
Proof.
  intros Hl. induction Hl as [|a l Ha Hl (r & Hr & IH)].
  { exists true. split; [done|]. split; [constructor|done]. }
  destruct (comparable_with_spec a l Ha Hl) as (c & Hc & Hiff).
  rewrite fmap_cons. cbn [AllPositionsComparable compose]. rewrite Hc. cbn [mbind outcome_bind].
  destruct c.
  - exists r. split; [done|]. rewrite IH. split.
    + intros ?. constructor; [by apply Hiff|done].
    + by inversion 1.
  - exists false. split; [done|]. split; [done|]. inversion 1; subst. by apply Hiff.
Qed.

Lemma Union_least_upper_bound a b :
  flavor_ok a -> flavor_ok b ->
  exists c : S, flavor_ok c /\
  GTIDSet_Union (flavor_set a) (Some (flavor_set b)) = Some (flavor_set c) /\
  AtLeast (to_position (Some c)) (to_position (Some a)) = true /\
  AtLeast (to_position (Some c)) (to_position (Some b)) = true /\
  forall d : S, flavor_ok d ->
    AtLeast (to_position (Some d)) (to_position (Some a)) = true ->
    AtLeast (to_position (Some d)) (to_position (Some b)) = true ->
    AtLeast (to_position (Some d)) (to_position (Some c)) = true.
Proof.
  intros Ha Hb. destruct (flavor_Union a b Ha Hb) as (c & Hc & Hok & Hh). exists c.
  split_and!; [done|done| | |].
  - apply AtLeast_spec; [done..|]. intros t Ht. apply Hh. by left.
  - apply AtLeast_spec; [done..|]. intros t Ht. apply Hh. by right.
  - intros d Hd. rewrite !AtLeast_spec by done. intros H1 H2 t [?|?]%Hh; auto.
Qed.

(** ** Theorems *)

(** C36: for every flavor, on the zero position and the positions with a well-formed set, [AtLeast] is reflexive and transitive, the zero
    position is below all, and [Union] is a least upper bound for it.  A MySQL 5.6 set is well-formed when its intervals are in order and
    do not touch, none of them is empty, and sequence numbers start at 1; a file position when the name has no colon. *)
Theorem AtLeast_preorder_with_joins (p q r : option S) (a b : S) :
  position_ok p -> position_ok q -> position_ok r -> flavor_ok a -> flavor_ok b ->
  AtLeast (to_position p) None = true /\
  AtLeast (to_position p) (to_position p) = true /\
  (AtLeast (to_position p) (to_position q) = true ->
   AtLeast (to_position q) (to_position r) = true ->
   AtLeast (to_position p) (to_position r) = true) /\
  exists c : S, flavor_ok c /\
  GTIDSet_Union (flavor_set a) (Some (flavor_set b)) = Some (flavor_set c) /\
  AtLeast (to_position (Some c)) (to_position (Some a)) = true /\
  AtLeast (to_position (Some c)) (to_position (Some b)) = true /\
  forall d : S, flavor_ok d ->
    AtLeast (to_position (Some d)) (to_position (Some a)) = true ->
    AtLeast (to_position (Some d)) (to_position (Some b)) = true ->
    AtLeast (to_position (Some d)) (to_position (Some c)) = true.
Proof.
  intros Hp Hq Hr Ha Hb. split_and!; [done|by apply AtLeast_refl|by apply AtLeast_trans|].
  by apply Union_least_upper_bound.
Qed.

(** C37: for every flavor, decoding the encoded text of a position gives the position
    back, the zero position included. *)
Theorem DecodePosition_EncodePosition (p : option S) :
  position_ok p -> DecodePosition (EncodePosition (to_position p)) = Ok (to_position p).
Proof. apply Decode_Encode_position. Qed.

(** For every flavor, [AllPositionsComparable] does not panic on positions with a
    set, and answers whether of any two of them one contains the other. *)
Theorem AllPositionsComparable_pairs (l : list S) :
  Forall flavor_ok l ->
  exists r, AllPositionsComparable (to_position ∘ Some <$> l) = Ret r /\
  (r = true <-> ForallOrdPairs ordered_pair l).
Proof. apply AllPositionsComparable_spec. Qed.

End Positions.

(** The parser keeps intervals that touch apart: what it makes of [1-2:3-4] is at least [1-2] and [3-4], but not their union. *)
Lemma AtLeast_touching_intervals :
  let p := Some (Set56 (Some (one_server sid_a [Interval 1 2; Interval 3 4]))) in
  let a := one_server sid_a [Interval 1 2] in let b := one_server sid_a [Interval 3 4] in
  ParsePosition Mysql56FlavorID (SID_String sid_a ++ bs ":1-2:3-4") = Ok p /\
  AtLeast p (to_position (Some a)) = true /\ AtLeast p (to_position (Some b)) = true /\
  GTIDSet_Union (flavor_set a) (Some (flavor_set b)) = Some (flavor_set (one_server sid_a [Interval 1 4])) /\
  AtLeast p (to_position (Some (one_server sid_a [Interval 1 4]))) = false.
Proof. cbv zeta. split_and!; eval_eq. Qed.

Lemma AtLeast_preorder_with_joins_witness :
  let a := one_server sid_a [Interval 1 5; Interval 10 20] in
  let b := one_server sid_a [Interval 3 12] in
  AtLeast (to_position (Some a)) None = true /\
  AtLeast (to_position (Some a)) (to_position (Some a)) = true /\
  (AtLeast (to_position (Some a)) (to_position (Some b)) = true ->
   AtLeast (to_position (Some b)) (to_position (S := m56map) None) = true ->
   AtLeast (to_position (Some a)) (to_position (S := m56map) None) = true) /\
  exists c : m56map, flavor_ok c /\
  GTIDSet_Union (flavor_set a) (Some (flavor_set b)) = Some (flavor_set c) /\
  AtLeast (to_position (Some c)) (to_position (Some a)) = true /\
  AtLeast (to_position (Some c)) (to_position (Some b)) = true /\
  forall d : m56map, flavor_ok d ->
    AtLeast (to_position (Some d)) (to_position (Some a)) = true ->
    AtLeast (to_position (Some d)) (to_position (Some b)) = true ->
    AtLeast (to_position (Some d)) (to_position (Some c)) = true.
Proof.
  intros a b. apply (AtLeast_preorder_with_joins (Some a) (Some b) None a b);
    [exact sample_ok|exact sample2_ok|exact I|exact sample_ok|exact sample2_ok].
Defined.

Lemma DecodePosition_EncodePosition_witness :
  DecodePosition (EncodePosition (to_position (Some mdb_sample))) =
  Ok (to_position (Some mdb_sample)).
Proof. apply (DecodePosition_EncodePosition (Some mdb_sample)). exact mdb_sample_ok. Defined.

Lemma AllPositionsComparable_pairs_witness :
  exists r, AllPositionsComparable (to_position ∘ Some <$>
    [{| file := bs "binlog.1"; pos := 4 |}; {| file := bs "binlog.2"; pos := 1 |}]) = Ret r /\
  (r = true <-> ForallOrdPairs ordered_pair
    [{| file := bs "binlog.1"; pos := 4 |}; {| file := bs "binlog.2"; pos := 1 |}]).
Proof.
  apply (AllPositionsComparable_pairs
    [{| file := bs "binlog.1"; pos := 4 |}; {| file := bs "binlog.2"; pos := 1 |}]).
  repeat constructor; first [done|refine (bool_decide_unpack _ _); by vm_compute].
Defined.

(** ** Appending and coding GTIDs *)

Definition gtid_ok (g : GTID) : Prop :=
  match g with
  | Gtid56 g => sid_ok (Server g) /\ is_int64 (Sequence g)
  | GtidMariadb g => mdb_gtid_ok g
  | GtidFilePos g => (colon ∉ file g) /\ is_int64 (pos g)
  end.

Lemma gtid_flavor_no_slash g : slash ∉ GTID_Flavor g.
Proof. destruct g; cbn [GTID_Flavor]; refine (bool_decide_unpack _ _); by vm_compute. Qed.

(** For every flavor, decoding the encoded text of a GTID gives the GTID back. *)
Theorem DecodeGTID_EncodeGTID (g : GTID) :
  gtid_ok g -> DecodeGTID (EncodeGTID (Some g)) = Ok (Some g).
Proof.
  intros Hg. unfold DecodeGTID. cbn [EncodeGTID].
  rewrite bool_decide_eq_false_2 by (by destruct (GTID_Flavor g)).
  rewrite strings.Cut_found by apply gtid_flavor_no_slash. cbn [negb].
  unfold ParseGTID, gtidParsers. destruct g as [g|g|g]; cbn [GTID_Flavor GTID_String gtid_ok] in *.
  - rewrite decide_True by done. destruct Hg. by rewrite parse_Mysql56GTID_String.
  - rewrite decide_False, decide_True by done. by rewrite parse_mdb_String.
  - rewrite !decide_False, decide_True by done. destruct Hg. by rewrite fp_Parse_String.
Qed.

Lemma DecodeGTID_EncodeGTID_witness :
  DecodeGTID (EncodeGTID (Some (Gtid56 {| Server := sid_a; Sequence := 7 |}))) =
  Ok (Some (Gtid56 {| Server := sid_a; Sequence := 7 |})).
Proof. apply DecodeGTID_EncodeGTID. split; [done|unfold_ints; simpl; lia]. Defined.
