(* ===== verification/LastSeen.v ===== *)
(** * The gateway's record of the last seen GTIDs

    [go/vt/vtgate/last_seen_gtid.go].  The gateway adds the GTID of every write it
    sees and compresses the set with the sets the tablets report; reads are then
    routed to tablets that contain it.  Every method that changes the record holds
    its mutex, so a run is a sequence of the steps below, in any order.  The record
    refines a plain set of transactions: it never loses one, and compression only
    adds transactions that every tablet reported. *)

From stdpp Require Import relations.
From S2P Require Import Prelude Intervals GoStd GtidTypes Gtid56 Gtid56Text Mariadb FilePos Position.

(** ** The code *)

Inductive last_seen_error :=
| UnsupportedFlavor (flavor : list byte)
| ParseError (e : gtid_error).

(** [LastSeenGtid]; a nil [gtidSet] interface is [None]. *)
Record LastSeenGtid := { flavor : list byte; gtidSet : option GTIDSet }.

#[export] Instance LastSeenGtid_eq_dec : EqDecision LastSeenGtid.
Proof. solve_decision. Defined.

(** [NewLastSeenGtid]. *)
Definition NewLastSeenGtid (fl : list byte) : result last_seen_error LastSeenGtid :=
  if decide (fl = MariadbFlavorID) then Ok {| flavor := fl; gtidSet := Some (SetMariadb (Some ∅)) |}
  else if decide (fl = Mysql56FlavorID) then Ok {| flavor := fl; gtidSet := Some (Set56 (Some ∅)) |}
  else Err (UnsupportedFlavor fl).

(** [AddGtid]: the error returned, if any, and the new record. *)
Definition AddGtid (g : LastSeenGtid) (gtidStr : list byte)
  : outcome (option last_seen_error * LastSeenGtid) :=
  match ParseGTID (flavor g) gtidStr with
  | Err e => Ret (Some (ParseError e), g)
  | Ok parsedGtid =>
      match gtidSet g with
      | None => Panic
      | Some set =>
          Ret (None, {| flavor := flavor g;
                        gtidSet := Some (GTIDSet_AddGTID set (Some parsedGtid)) |})
      end
  end.

(** [MergeGtidSets]; the argument is a pointer to an interface. *)
Definition MergeGtidSets (g : LastSeenGtid) (set : option (option GTIDSet)) : outcome LastSeenGtid :=
  match set with
  | None => Ret g
  | Some set =>
      match gtidSet g, set with
      | Some (Set56 localSet), Some (Set56 other) =>
          remainSets ← Mysql56_TrimGTIDSet localSet (Some (Set56 other));
          Ret {| flavor := flavor g; gtidSet := GTIDSet_Union (Set56 localSet) remainSets |}
      | _, _ => Ret g
      end
  end.

(** [CompressWithGtidSets]'s loop over [sets[1:]]; it dereferences each pointer and
    calls [Intersect] on the set so far. *)
Fixpoint join_sets (joinGtidSet : option GTIDSet) (sets : list (option (option GTIDSet)))
  : outcome (option GTIDSet) :=
  match sets with
  | [] => Ret joinGtidSet
  | set :: rest =>
      match set, joinGtidSet with
      | Some set, Some join => join_sets (GTIDSet_Intersect join set) rest
      | _, _ => Panic
      end
  end.

(** [CompressWithGtidSets]. *)
Definition CompressWithGtidSets (g : LastSeenGtid) (sets : list (option (option GTIDSet)))
  : outcome LastSeenGtid :=
  match sets with
  | [] => Ret g
  | None :: _ => Panic
  | Some set0 :: rest =>
      joinGtidSet ← join_sets set0 rest;
      MergeGtidSets g (Some joinGtidSet)
  end.

(** [GetMaxIntervals]. *)
Definition GetMaxIntervals (g : LastSeenGtid) : Z :=
  match gtidSet g with
  | Some (Set56 localSet) =>
      foldl (fun maxLen '(_, intervals) =>
        if zlen (A := interval) intervals <? maxLen then maxLen else zlen intervals)
        0 (entries localSet)
  | _ => -1
  end.

(** [String] and [Position]. *)
Definition LastSeen_String (g : LastSeenGtid) : outcome (list byte) :=
  match gtidSet g with None => Panic | Some set => Ret (GTIDSet_String set) end.

Definition LastSeen_Position (g : LastSeenGtid) : Position := gtidSet g.

(** ** The record as a set of transactions *)

(** A record of the MySQL 5.6 flavor with a canonical set of valid transactions. *)
Definition record_ok (g : LastSeenGtid) (m : m56map) : Prop :=
  flavor g = Mysql56FlavorID /\ gtidSet g = Some (Set56 (Some m)) /\
  canonical_set (Some m) /\ valid_members m.

Lemma NewLastSeen_ok :
  exists g, NewLastSeenGtid Mysql56FlavorID = Ok g /\ record_ok g ∅.
Proof.
  eexists. split; [reflexivity|]. split_and!; [done..| |].
  - intros sid l. simpl. by rewrite lookup_empty.
  - intros sid n. rewrite has_Some, lookup_empty. simpl. by rewrite mem_nil.
Qed.

(** The text of a transaction a MySQL server reports: sequence numbers start at 1. *)
Definition server_gtid (s : list byte) : Prop :=
  forall gtid, parseMysql56GTID s = Ok (Gtid56 gtid) -> 1 <= Sequence gtid.

(** Transactions and the sets of them the record stands for. *)
Definition tx : Type := SID * Z.
Definition seen (m : m56map) (t : tx) : Prop := has (Some m) t.1 t.2.

(** [t] is not after every transaction of its server in [S]. *)
Definition not_after (S : tx -> Prop) (t : tx) : Prop := exists n, S (t.1, n) /\ t.2 <= n.

(** A healthy tablet's set is nil ([None]) until the tablet has reported a position. *)
Inductive event :=
| EvAdd (gtidStr : list byte)
| EvCompress (tablets : list (option m56map)).

Definition tablet_sets (tablets : list (option m56map)) : list (option (option GTIDSet)) :=
  (fun o : option m56map => Some (option_map (fun m => Set56 (Some m)) o)) <$> tablets.

(** The transactions of a tablet's set. *)
Definition reported (o : option m56map) (t : tx) : Prop := from_option (fun m => seen m t) False o.

Definition run_event (g : LastSeenGtid) (e : event) : outcome LastSeenGtid :=
  match e with
  | EvAdd gtidStr => '(_, g') ← AddGtid g gtidStr; Ret g'
  | EvCompress tablets => CompressWithGtidSets g (tablet_sets tablets)
  end.

Fixpoint run_events (g : LastSeenGtid) (es : list event) : outcome LastSeenGtid :=
  match es with
  | [] => Ret g
  | e :: es => g' ← run_event g e; run_events g' es
  end.

Definition tablet_ok (o : option m56map) : Prop :=
  from_option (fun m => canonical_set (Some m) /\ valid_members m) True o.

Definition event_ok (e : event) : Prop :=
  match e with
  | EvAdd gtidStr => server_gtid gtidStr
  | EvCompress tablets => Forall tablet_ok tablets
  end.

(** [Intersect] is called on the first tablet's set, a nil interface. *)
Definition nil_receiver (e : event) : bool :=
  match e with EvCompress (None :: _ :: _) => true | _ => false end.

(** What an event does to a plain set of transactions. *)
Definition spec_event (e : event) (S : tx -> Prop) (t : tx) : Prop :=
  match e with
  | EvAdd gtidStr =>
      S t \/ parseMysql56GTID gtidStr = Ok (Gtid56 {| Server := t.1; Sequence := t.2 |})
  | EvCompress tablets =>
      S t \/ (tablets <> [] /\ Forall (fun o => reported o t) tablets /\ not_after S t)
  end.

Fixpoint spec_events (es : list event) (S : tx -> Prop) : tx -> Prop :=
  match es with
  | [] => S
  | e :: es => spec_events es (spec_event e S)
  end.

(** ** The record refines the set *)

Lemma AddGtid_refines g m gtidStr :
  record_ok g m -> server_gtid gtidStr ->
  exists g' m', run_event g (EvAdd gtidStr) = Ret g' /\ record_ok g' m' /\
  forall t, seen m' t <-> spec_event (EvAdd gtidStr) (seen m) t.
Proof.
  intros (Hf & Hset & Hc & Hv) Hs. cbn [run_event]. unfold AddGtid, ParseGTID, gtidParsers.
  rewrite Hf, decide_True, Hset by done.
  destruct (parseMysql56GTID gtidStr) as [gtid|e] eqn:E; cbn [mbind outcome_bind].
  2:{ exists g, m. split_and!; [done|done|]. intros t. simpl. rewrite E. split; [by left|].
      intros [?|?]; done. }
  destruct (parseMysql56GTID_ok _ _ E) as (g56 & -> & Hsid & Hint). specialize (Hs _ E).
  destruct (AddGTID_correct (Some m) g56 Hc) as [Hc' Hh]; [unfold_ints; lia|].
  assert (exists m', Mysql56_AddGTID (Some m) (Some (Gtid56 g56)) = Some m') as [m' Hm'].
  { cbn [Mysql56_AddGTID]. case_match; [eauto|]. destruct (foldl _ _ _) as [[] ?]; eauto. }
  cbn [GTIDSet_AddGTID]. rewrite Hm' in *. eexists _, m'. split; [reflexivity|]. split.
  - split_and!; [done..|]. intros sid n. rewrite Hh.
    intros [?|[-> ->]]; [by apply Hv|]. split; [done|lia].
  - intros [sid n]. unfold seen. cbn [fst snd spec_event]. rewrite Hh, E.
    split; (intros [?|Heq]; [by left|right]).
    + destruct Heq as [-> ->]. by destruct g56.
    + by injection Heq as ->.
Qed.

(** Being below the end of the server's last interval is being no later than one of
    its transactions. *)
Lemma below_last_not_after m t :
  canonical_set (Some m) -> below_last (Some m) t.1 t.2 <-> not_after (seen m) t.
Proof.
  intros Hc. pose proof (canonical_get (Some m) t.1 Hc) as Hcan. unfold below_last, not_after, seen, has.
  cbn [fst snd]. revert Hcan. generalize (get (Some m) t.1). intros l Hcan. split.
  - intros (iv & [l' ->]%last_Some & Hn). exists (iend iv). split; [|done].
    apply spaced_snoc in Hcan as (_ & _ & ?). rewrite mem_app, mem_cons. right. left. lia.
  - intros (n & Hmem & Hn). destruct (last l) as [iv|] eqn:El.
    + exists iv. split; [done|]. apply last_Some in El as [l' ->].
      apply spaced_snoc in Hcan as (Hl' & Hu & Hiv). rewrite mem_app, mem_cons, mem_nil in Hmem.
      destruct Hmem as [Hmem|[?|[]]]; [|lia].
      pose proof (spaced_upper 1 _ _ _ ltac:(lia) Hl' Hmem). lia.
    + apply last_None in El as ->. by apply mem_nil in Hmem.
Qed.

Lemma seen_empty t : ~ seen ∅ t.
Proof. unfold seen. rewrite has_Some, lookup_empty. cbn. rewrite mem_nil. tauto. Qed.

Lemma join_sets_correct m tablets :
  canonical_set (Some m) -> Forall tablet_ok tablets ->
  exists r, join_sets (Some (Set56 (Some m))) (tablet_sets tablets) = Ret (Some (Set56 (Some r))) /\
  canonical_set (Some r) /\
  forall t, seen r t <-> seen m t /\ Forall (fun o => reported o t) tablets.
Proof.
  intros Hm Ht. revert m Hm. induction Ht as [|[o|] tablets Ho Ht IH]; intros m Hm.
  { exists m. split_and!; [done..|]. intros t. rewrite Forall_nil. tauto. }
  2:{ destruct (IH ∅) as (r & Hr & Hcr & Hhr); [intros sid l; cbn; by rewrite lookup_empty|].
      exists r. split_and!; [done..|]. intros t. rewrite Hhr, Forall_cons. pose proof (seen_empty t). cbn. tauto. }
  destruct Ho as [Ho _].
  destruct (Intersect_correct m o Hm Ho) as (i & Hi & Hci & Hhi).
  destruct (IH i Hci) as (r & Hr & Hcr & Hhr). exists r.
  split_and!; [|done|].
  - unfold tablet_sets in *. rewrite fmap_cons. cbn [join_sets option_map GTIDSet_Intersect]. by rewrite Hi.
  - intros [sid n]. rewrite Hhr, Forall_cons. cbn [reported from_option]. unfold seen. cbn [fst snd]. rewrite Hhi. tauto.
Qed.

Lemma MergeGtidSets_correct g m o :
  record_ok g m -> canonical_set (Some o) ->
  exists g' m', MergeGtidSets g (Some (Some (Set56 (Some o)))) = Ret g' /\
  gtidSet g' = Some (Set56 (Some m')) /\ flavor g' = flavor g /\ canonical_set (Some m') /\
  forall t, seen m' t <-> seen m t \/ seen o t /\ not_after (seen m) t.
Proof.
  intros (Hf & Hset & Hc & Hv) Ho. unfold MergeGtidSets. rewrite Hset.
  destruct (Trim_correct m o Hc Ho) as (r & -> & Hr & Hhr). cbn [mbind outcome_bind].
  destruct (Union_correct_gen m r Hc) as (m' & Hm' & Hc' & Hh').
  { intros sid l Hl. destruct (Hr sid l Hl). auto. }
  eexists _, m'. split; [reflexivity|]. cbn [GTIDSet_Union gtidSet flavor].
  split_and!; [done..|]. intros t. rewrite <- below_last_not_after by done.
  unfold seen. by rewrite Hh', Hhr.
Qed.

Lemma Compress_refines g m tablets :
  record_ok g m -> event_ok (EvCompress tablets) -> nil_receiver (EvCompress tablets) = false ->
  exists g' m', run_event g (EvCompress tablets) = Ret g' /\ record_ok g' m' /\
  forall t, seen m' t <-> spec_event (EvCompress tablets) (seen m) t.
Proof.
  intros Hok Ht Hnil. cbn [run_event event_ok] in *. destruct Ht as [|[o|] tablets Ho Ht].
  { exists g, m. split_and!; [done..|]. intros t. cbn [spec_event]. tauto. }
  2:{ destruct tablets; [|done]. exists g, m. split_and!; [|done|].
      - cbn. by destruct Hok as (_ & -> & _).
      - intros t. cbn [spec_event]. rewrite Forall_singleton. cbn. tauto. }
  destruct Ho as [Ho Hvo].
  unfold tablet_sets. rewrite fmap_cons. cbn [CompressWithGtidSets option_map].
  destruct (join_sets_correct o tablets Ho Ht) as (r & Hr & Hcr & Hhr).
  unfold tablet_sets in Hr. rewrite Hr. cbn [mbind outcome_bind].
  destruct (MergeGtidSets_correct g m r Hok Hcr) as (g' & m' & -> & Hset & Hfl & Hc' & Hh').
  assert (forall t, seen m' t <-> spec_event (EvCompress (Some o :: tablets)) (seen m) t) as Hspec.
  { intros t. rewrite Hh', Hhr. cbn [spec_event]. rewrite Forall_cons.
    assert (Some o :: tablets <> []) by done. cbn [reported from_option]. tauto. }
  exists g', m'. split_and!; [done| |done]. destruct Hok as (Hf & _ & _ & Hv).
  split_and!; [congruence|done..|]. intros sid n Hn. apply (Hspec (sid, n)) in Hn.
  cbn [spec_event] in Hn. rewrite Forall_cons in Hn.
  destruct Hn as [?|(_ & [? _] & _)]; [by apply Hv|by apply Hvo].
Qed.

Lemma run_event_refines g m e :
  record_ok g m -> event_ok e -> nil_receiver e = false ->
  exists g' m', run_event g e = Ret g' /\ record_ok g' m' /\
  forall t, seen m' t <-> spec_event e (seen m) t.
Proof. destruct e; [intros; by apply AddGtid_refines|apply Compress_refines]. Qed.

Lemma nil_receiver_panics g e : nil_receiver e = true -> run_event g e = Panic.
Proof. by destruct e as [|[|[?|] [|? ?]]]. Qed.

Lemma spec_event_ext e S S' :
  (forall t, S t <-> S' t) -> forall t, spec_event e S t <-> spec_event e S' t.
Proof.
  intros HS t. destruct e as [gtidStr|tablets]; cbn [spec_event].
  - by rewrite HS.
  - unfold not_after. setoid_rewrite HS. done.
Qed.

Lemma spec_events_ext es S S' :
  (forall t, S t <-> S' t) -> forall t, spec_events es S t <-> spec_events es S' t.
Proof.
  revert S S'. induction es as [|e es IH]; intros S S' HS t; [done|].
  apply IH. by apply spec_event_ext.
Qed.

Lemma run_events_refines g m es :
  record_ok g m -> Forall event_ok es -> existsb nil_receiver es = false ->
  exists g' m', run_events g es = Ret g' /\ record_ok g' m' /\
  forall t, seen m' t <-> spec_events es (seen m) t.
Proof.
  intros Hok Hes. revert g m Hok. induction Hes as [|e es He Hes IH]; intros g m Hok Hnil.
  { exists g, m. by split_and!. }
  apply orb_false_iff in Hnil as [Hnil Hnils].
  destruct (run_event_refines g m e Hok He Hnil) as (g1 & m1 & Hr & Hok1 & Hs1).
  destruct (IH g1 m1 Hok1 Hnils) as (g' & m' & Hrun & Hok' & Hs'). exists g', m'.
  cbn [run_events spec_events]. rewrite Hr. cbn [mbind outcome_bind]. split_and!; [done..|].
  intros t. rewrite Hs'. by apply spec_events_ext.
Qed.

Lemma run_events_panics g m es :
  record_ok g m -> Forall event_ok es -> existsb nil_receiver es = true -> run_events g es = Panic.
Proof.
  intros Hok Hes. revert g m Hok. induction Hes as [|e es He Hes IH]; intros g m Hok; [done|].
  cbn [existsb run_events]. destruct (nil_receiver e) eqn:E; [by rewrite nil_receiver_panics|].
  destruct (run_event_refines g m e Hok He E) as (g1 & m1 & -> & Hok1 & _). by apply (IH g1 m1).
Qed.

Lemma spec_event_mono e S t : S t -> spec_event e S t.
Proof. destruct e; by left. Qed.

Lemma spec_events_mono es S t : S t -> spec_events es S t.
Proof.
  revert S. induction es as [|e es IH]; intros S Ht; [done|]. apply IH. by apply spec_event_mono.
Qed.

(** An event can account for [t]: it adds [t], or every tablet of it reported [t]. *)
Definition accounts_for (e : event) (t : tx) : Prop :=
  match e with
  | EvAdd gtidStr => parseMysql56GTID gtidStr = Ok (Gtid56 {| Server := t.1; Sequence := t.2 |})
  | EvCompress tablets => tablets <> [] /\ Forall (fun o => reported o t) tablets
  end.

Lemma spec_events_origin es S t :
  spec_events es S t -> S t \/ Exists (fun e => accounts_for e t) es.
Proof.
  revert S. induction es as [|e es IH]; intros S Ht; [by left|].
  destruct (IH _ Ht) as [He|He]; [|right; by apply Exists_cons_tl].
  destruct e as [s|tablets]; cbn [spec_event] in He.
  - destruct He as [?|?]; [by left|right; by apply Exists_cons_hd].
  - destruct He as [?|(? & ? & _)]; [by left|right; by apply Exists_cons_hd].
Qed.

(** ** Theorems *)

(** C1: from a fresh MySQL 5.6 record, take any sequence of additions of server GTIDs and compressions with tablets' sets, each nil or
    canonical with valid members.  If in one compression the first of several sets is nil, the run panics.  Otherwise it does not, keeps
    the set canonical, and ends with exactly the transactions the same sequence gives on plain sets. *)
Theorem LastSeenGtid_refines (es : list event) :
  Forall event_ok es ->
  exists g0, NewLastSeenGtid Mysql56FlavorID = Ok g0 /\
  if existsb nil_receiver es then run_events g0 es = Panic
  else exists g m, run_events g0 es = Ret g /\ record_ok g m /\
       forall t, seen m t <-> spec_events es (fun _ => False) t.
Proof.
  intros Hes. destruct NewLastSeen_ok as (g0 & Hg0 & Hok). exists g0. split; [done|].
  destruct (existsb nil_receiver es) eqn:E; [by apply (run_events_panics g0 ∅)|].
  destruct (run_events_refines g0 ∅ es Hok Hes E) as (g & m & Hrun & Hok' & Hs).
  exists g, m. split_and!; [done..|]. intros t. rewrite Hs. apply spec_events_ext.
  intros t'. pose proof (seen_empty t'). tauto.
Qed.

(** C27: no sequence of such events that does not panic loses a transaction of the record, and every
    transaction it gains was added by name or was reported by all tablets of one
    compression. *)
Theorem LastSeenGtid_keeps_and_justifies (g : LastSeenGtid) (m : m56map) (es : list event) :
  record_ok g m -> Forall event_ok es -> existsb nil_receiver es = false ->
  exists g' m', run_events g es = Ret g' /\ record_ok g' m' /\
  (forall t, seen m t -> seen m' t) /\
  (forall t, seen m' t -> seen m t \/ Exists (fun e => accounts_for e t) es).
Proof.
  intros Hok Hes Hnil. destruct (run_events_refines g m es Hok Hes Hnil) as (g' & m' & Hrun & Hok' & Hs).
  exists g', m'. split_and!; [done..| |]; intros t; rewrite Hs;
    [apply spec_events_mono|apply spec_events_origin].
Qed.

(** A run with the sets of the comment on [MergeGtidSets]. *)
Definition sample_text : list byte := SID_String sid_a ++ bs ":7".
Definition sample_events : list event :=
  [EvAdd sample_text; EvCompress [Some (one_server sid_a [Interval 1 4; Interval 8 9])]; EvCompress [None]].

Lemma sample_events_ok : Forall event_ok sample_events.
Proof.
  apply Forall_cons. split; [|apply Forall_cons; split; [|by repeat constructor]]; cbn [event_ok].
  - intros gtid H. vm_compute in H. injection H as <-. done.
  - apply Forall_singleton, singleton_ok; try done; simpl; unfold_ints; lia.
Qed.

Lemma LastSeenGtid_refines_witness :
  exists g0, NewLastSeenGtid Mysql56FlavorID = Ok g0 /\
  exists g m, run_events g0 sample_events = Ret g /\ record_ok g m /\
  forall t, seen m t <-> spec_events sample_events (fun _ => False) t.
Proof. apply (LastSeenGtid_refines sample_events). exact sample_events_ok. Defined.

Lemma LastSeenGtid_keeps_witness :
  exists g' m', run_events {| flavor := Mysql56FlavorID; gtidSet :=
      Some (Set56 (Some (one_server sid_a [Interval 1 3; Interval 5 6]))) |} sample_events = Ret g' /\
  record_ok g' m' /\
  (forall t, seen (one_server sid_a [Interval 1 3; Interval 5 6]) t -> seen m' t) /\
  (forall t, seen m' t -> seen (one_server sid_a [Interval 1 3; Interval 5 6]) t \/
     Exists (fun e => accounts_for e t) sample_events).
Proof.
  apply (LastSeenGtid_keeps_and_justifies {| flavor := Mysql56FlavorID; gtidSet :=
      Some (Set56 (Some (one_server sid_a [Interval 1 3; Interval 5 6]))) |}
      (one_server sid_a [Interval 1 3; Interval 5 6]) sample_events); [|exact sample_events_ok|done].
  split; [done|]. split; [done|]. apply singleton_ok; try done; simpl; unfold_ints; lia.
Defined.

(** The example of the comment on [MergeGtidSets]: merging [1-4:8-9] into
    [1-3:5-6] gives [1-6]. *)
Example MergeGtidSets_comment :
  MergeGtidSets {| flavor := Mysql56FlavorID; gtidSet :=
      Some (Set56 (Some (one_server sid_a [Interval 1 3; Interval 5 6]))) |}
    (Some (Some (Set56 (Some (one_server sid_a [Interval 1 4; Interval 8 9]))))) =
  Ret {| flavor := Mysql56FlavorID; gtidSet :=
      Some (Set56 (Some (one_server sid_a [Interval 1 6]))) |}.
Proof. eval_eq. Qed.
