(* ===== verification/Binlog.v ===== *)
(** * Binary log events

    [go/mysql/binlog_event.go], [binlog_event_common.go], [binlog_event_make.go] and the flavors
    [binlog_event_mysql56.go], [binlog_event_mariadb.go] and [binlog_event_filepos.go]: the event header, the
    events that carry GTIDs, queries, log file names and formats, the writer that makes such events,
    and the semi-sync prefix of [replication.go].  The theorems say that every event the writer makes is valid and
    reads back, and what the readers do with events from elsewhere. *)

From Equations Require Import Equations.
From S2P Require Import Prelude Intervals GoStd GtidTypes Gtid56 Gtid56Block Encoding Position.

(** ** Constants, [replication_constants.go] *)

Definition BinlogChecksumAlgOff : Z := 0.
Definition BinlogChecksumAlgCRC32 : Z := 1.
Definition BinlogChecksumAlgUndef : Z := 255.

Definition eQueryEvent : Z := 2.
Definition eStopEvent : Z := 3.
Definition eRotateEvent : Z := 4.
Definition eIntVarEvent : Z := 5.
Definition eRandEvent : Z := 13.
Definition eFormatDescriptionEvent : Z := 15.
Definition eXIDEvent : Z := 16.
Definition eTableMapEvent : Z := 19.
Definition eWriteRowsEventV0 : Z := 20.
Definition eUpdateRowsEventV0 : Z := 21.
Definition eDeleteRowsEventV0 : Z := 22.
Definition eWriteRowsEventV1 : Z := 23.
Definition eUpdateRowsEventV1 : Z := 24.
Definition eDeleteRowsEventV1 : Z := 25.
Definition eHeartbeatEvent : Z := 27.
Definition eWriteRowsEventV2 : Z := 30.
Definition eUpdateRowsEventV2 : Z := 31.
Definition eDeleteRowsEventV2 : Z := 32.
Definition eGTIDEvent : Z := 33.
Definition eAnonymousGTIDEvent : Z := 34.
Definition ePreviousGTIDsEvent : Z := 35.
Definition eCompressedEvent : Z := 40.
Definition eMariaGTIDEvent : Z := 162.
Definition eMariaGTIDListEvent : Z := 163.

Definition QFlags2Code : Z := 0.
Definition QSQLModeCode : Z := 1.
Definition QCatalog : Z := 2.
Definition QAutoIncrement : Z := 3.
Definition QCharsetCode : Z := 4.
Definition QCatalogNZCode : Z := 6.

Definition IntVarLastInsertID : Z := 1.
Definition IntVarInsertID : Z := 2.

Definition FlagLogEventArtificial : Z := 0x20.

(** ** Data *)

(** [BinlogFormat]. *)
Record BinlogFormat := {
  HeaderSizes : list byte;
  ServerVersion : list byte;
  FormatVersion : Z;
  HeaderLength : byte;
  ChecksumAlgorithm : byte
}.

(** [binlogdatapb.Charset] and [Query]; a nil [Charset] is [None]. *)
Record charset := { Client : Z; Conn : Z; CServer : Z }.
Record Query := { Database : list byte; Charset : option charset; SQL : list byte }.

#[export] Instance BinlogFormat_eq_dec : EqDecision BinlogFormat.
Proof. solve_decision. Defined.
#[export] Instance charset_eq_dec : EqDecision charset.
Proof. solve_decision. Defined.
#[export] Instance Query_eq_dec : EqDecision Query.
Proof. solve_decision. Defined.

(** The errors of the readers, one constructor per error return. *)
Inductive binlog_error :=
| UnsupportedFormatVersion (v : Z)
| HeaderTooShort (l : Z)
| QueryPositionOverflow (sqlPos len : Z)
| CatalogOverflow (pos len : Z)
| CatalogNZOverflow (pos len : Z)
| CharsetOverflow (pos len : Z)
| InvalidIntVar (typ : byte)
| UnsupportedChecksum (alg : byte)
| SIDBlockError (e : gtid_error)
| NoPreviousGTIDs
| SemiSyncTooSmall
| SemiSyncNotFound
| ExpectedColumnCount (pos : Z)
| ExpectedMetadataLength (pos : Z)
| UnexpectedMetadataEnd (got expected : Z)
| UnhandledMetadataType (typ : byte)
| UnsupportedBlobMetadata (metadata : Z)
| UnsupportedType (typ : byte)
| UnexpectedEnumSize (n : Z)
| StringifyingJSON.

#[export] Instance binlog_error_eq_dec : EqDecision binlog_error.
Proof. solve_decision. Defined.

(** [BinlogFormat.IsZero]. *)
Definition Format_IsZero (f : BinlogFormat) : bool :=
  (FormatVersion f =? 0) && (b2z (HeaderLength f) =? 0).

(** [BinlogFormat.HeaderSize]; [typ - 1] is a byte. *)
Definition HeaderSize (f : BinlogFormat) (typ : byte) : outcome byte :=
  index (HeaderSizes f) (wrapU 8 (b2z typ - 1)).

(** ** The header, [binlogEvent] *)

(** [binary.LittleEndian.Uint16(data[i:i+2])] and so on. *)
Definition uint_at (n : Z) (data : list byte) (i : Z) : outcome Z :=
  s ← slice data i (i + n); Ret (binary.of_le s).

(** The bytes after the header. *)
Definition after_header (ev : list byte) (f : BinlogFormat) : outcome (list byte) :=
  slice_from ev (b2z (HeaderLength f)).

(** [binlogEvent.dataBytes]. *)
Definition dataBytes (ev : list byte) (f : BinlogFormat) : outcome (list byte) :=
  data ← after_header ev f;
  slice data 0 (zlen data - 4).

Definition ev_Type (ev : list byte) : outcome byte := index ev 4.
Definition ev_Flags (ev : list byte) : outcome Z := uint_at 2 ev 17.
Definition ev_Timestamp (ev : list byte) : outcome Z := uint_at 4 ev 0.
Definition ev_ServerID (ev : list byte) : outcome Z := uint_at 4 ev 5.
Definition ev_Length (ev : list byte) : outcome Z := uint_at 4 ev 9.
Definition ev_NextPosition (ev : list byte) : outcome Z := uint_at 4 ev 13.

(** [binlogEvent.IsValid]. *)
Definition ev_IsValid (ev : list byte) : outcome bool :=
  let bufLen := zlen ev in
  if bufLen <? 19 then Ret false
  else
    evLen ← ev_Length ev;
    Ret (negb ((evLen <? 19) || negb (evLen =? uint32 bufLen))).

(** [ev.Type() == typ]. *)
Definition has_type (typ : Z) (ev : list byte) : outcome bool :=
  t ← ev_Type ev; Ret (b2z t =? typ).

(** The predicates on the type. *)
Definition ev_IsFormatDescription : list byte -> outcome bool := has_type eFormatDescriptionEvent.
Definition ev_IsQuery : list byte -> outcome bool := has_type eQueryEvent.
Definition ev_IsRotate : list byte -> outcome bool := has_type eRotateEvent.
Definition ev_IsXID : list byte -> outcome bool := has_type eXIDEvent.
Definition ev_IsStop : list byte -> outcome bool := has_type eStopEvent.
Definition ev_IsIntVar : list byte -> outcome bool := has_type eIntVarEvent.
Definition ev_IsRand : list byte -> outcome bool := has_type eRandEvent.
Definition ev_IsPreviousGTIDs : list byte -> outcome bool := has_type ePreviousGTIDsEvent.
Definition ev_IsHeartbeat : list byte -> outcome bool := has_type eHeartbeatEvent.
Definition ev_IsTableMap : list byte -> outcome bool := has_type eTableMapEvent.
Definition ev_IsCompressed : list byte -> outcome bool := has_type eCompressedEvent.

Definition has_type2 (typ1 typ2 : Z) (ev : list byte) : outcome bool :=
  t ← ev_Type ev; Ret ((b2z t =? typ1) || (b2z t =? typ2)).

Definition ev_IsWriteRows : list byte -> outcome bool := has_type2 eWriteRowsEventV1 eWriteRowsEventV2.
Definition ev_IsUpdateRows : list byte -> outcome bool := has_type2 eUpdateRowsEventV1 eUpdateRowsEventV2.
Definition ev_IsDeleteRows : list byte -> outcome bool := has_type2 eDeleteRowsEventV1 eDeleteRowsEventV2.

(** ** The event data *)

(** [bytes.TrimRight(s, "\x00")]. *)
Fixpoint trim_zeroes (s : list byte) : list byte :=
  match s with
  | [] => []
  | b :: s' =>
      match trim_zeroes s' with
      | [] => if decide (b = z2b 0) then [] else [b]
      | t => b :: t
      end
  end.

(** [binlogEvent.Format]. *)
Definition ev_Format (ev : list byte) : outcome (result binlog_error BinlogFormat) :=
  data ← slice_from ev 19;
  version ← uint_at 2 data 0;
  if negb (version =? 4) then Ret (Err (UnsupportedFormatVersion version))
  else
    sv ← slice data 2 (2 + 50);
    hl ← index data (2 + 50 + 4);
    if b2z hl <? 19 then Ret (Err (HeaderTooShort (b2z hl)))
    else
      alg ← index data (zlen data - 5);
      sizes ← slice data (2 + 50 + 4 + 1) (zlen data - 5);
      Ret (Ok {| HeaderSizes := sizes; ServerVersion := trim_zeroes sv; FormatVersion := version;
                 HeaderLength := hl; ChecksumAlgorithm := alg |}).

(** The [switch] of [binlogEvent.Query]: how far the variable [code], whose data start at [pos], reaches, and the
    character set after it; [None] leaves the loop. *)
Definition scan_var (vars : list byte) (pos : Z) (code : byte) (cs : option charset)
  : outcome (result binlog_error (option (nat * option charset))) :=
  if (b2z code =? QFlags2Code) || (b2z code =? QAutoIncrement) then Ret (Ok (Some (4%nat, cs)))
  else if b2z code =? QSQLModeCode then Ret (Ok (Some (8%nat, cs)))
  else if b2z code =? QCatalog then
    if zlen vars <? pos + 1 then Ret (Err (CatalogOverflow pos (zlen vars)))
    else n ← index vars pos; Ret (Ok (Some (Z.to_nat (1 + b2z n + 1), cs)))
  else if b2z code =? QCatalogNZCode then
    if zlen vars <? pos + 1 then Ret (Err (CatalogNZOverflow pos (zlen vars)))
    else n ← index vars pos; Ret (Ok (Some (Z.to_nat (1 + b2z n), cs)))
  else if b2z code =? QCharsetCode then
    if zlen vars <? pos + 6 then Ret (Err (CharsetOverflow pos (zlen vars)))
    else
      client ← uint_at 2 vars pos;
      conn ← uint_at 2 vars (pos + 2);
      server ← uint_at 2 vars (pos + 4);
      Ret (Ok (Some (6%nat, Some {| Client := client; Conn := conn; CServer := server |})))
  else Ret (Ok None).

(** The loop of [binlogEvent.Query] over the status variables; the position grows in every
    round. *)
Equations? varsLoop (vars : list byte) (pos : Z) (cs : option charset)
  : outcome (result binlog_error (option charset)) by wf (Z.to_nat (zlen vars - pos)) lt :=
  varsLoop vars pos cs with decide (pos < zlen vars) => {
    | right _ => Ret (Ok cs);
    | left _ with index vars pos => {
      | Panic => Panic;
      | Ret code with scan_var vars (pos + 1) code cs => {
        | Panic => Panic;
        | Ret (Err e) => Ret (Err e);
        | Ret (Ok None) => Ret (Ok cs);
        | Ret (Ok (Some (step, cs'))) => varsLoop vars (pos + 1 + Z.of_nat step) cs' } } }.
Proof. lia. Qed.

(** [binlogEvent.Query]. *)
Definition varsPos : Z := 4 + 4 + 1 + 2 + 2.

Definition ev_Query (ev : list byte) (f : BinlogFormat) : outcome (result binlog_error Query) :=
  data ← after_header ev f;
  dbLen ← index data (4 + 4);
  let dbLen := b2z dbLen in
  varsLen ← uint_at 2 data (4 + 4 + 1 + 2);
  let dbPos := varsPos + varsLen in
  let sqlPos := dbPos + dbLen + 1 in
  if zlen data <? sqlPos then Ret (Err (QueryPositionOverflow sqlPos (zlen data)))
  else
    db ← slice data dbPos (dbPos + dbLen);
    sql ← slice_from data sqlPos;
    vars ← slice data varsPos (varsPos + varsLen);
    cs ←? varsLoop vars 0 None;
    Ret (Ok {| Database := db; Charset := cs; SQL := sql |}).

(** [binlogEvent.IntVar]. *)
Definition ev_IntVar (ev : list byte) (f : BinlogFormat) : outcome (result binlog_error (byte * Z)) :=
  data ← after_header ev f;
  typ ← index data 0;
  if negb (b2z typ =? IntVarLastInsertID) && negb (b2z typ =? IntVarInsertID)
  then Ret (Err (InvalidIntVar typ))
  else value ← uint_at 8 data 1; Ret (Ok (typ, value)).

(** [binlogEvent.Rand]. *)
Definition ev_Rand (ev : list byte) (f : BinlogFormat) : outcome (Z * Z) :=
  data ← after_header ev f;
  seed1 ← uint_at 8 data 0;
  seed2 ← uint_at 8 data 8;
  Ret (seed1, seed2).

(** [binlogEvent.TableID]; the position is a byte, so that [pos + 4] wraps around. *)
Definition ev_TableID (ev : list byte) (f : BinlogFormat) : outcome Z :=
  typ ← ev_Type ev;
  let pos := b2z (HeaderLength f) in
  size ← HeaderSize f typ;
  if b2z size =? 6 then
    s ← slice ev pos (wrapU 8 (pos + 4)); Ret (binary.of_le s)
  else
    b0 ← index ev pos;
    b1 ← index ev (wrapU 8 (pos + 1));
    b2 ← index ev (wrapU 8 (pos + 2));
    b3 ← index ev (wrapU 8 (pos + 3));
    b4 ← index ev (wrapU 8 (pos + 4));
    b5 ← index ev (wrapU 8 (pos + 5));
    Ret (binary.of_le [b0; b1; b2; b3; b4; b5]).

(** [binlogEvent.NextLogFile]. *)
Definition ev_NextLogFile (ev : list byte) (f : BinlogFormat) : outcome (list byte * Z) :=
  data ← dataBytes ev f;
  '(logPos, pos, _) ← readUint64 data 0;
  logFile ← slice_from data pos;
  Ret (logFile, logPos).

(** ** The flavors

    The implementations of the interface [BinlogEvent]: three wrap a buffer, two are made up by
    the [filePos] flavor. *)
Inductive BinlogEvent :=
| mysql56BinlogEvent (buf : list byte) (semiSyncAckRequested : bool)
| mariadbBinlogEvent (buf : list byte) (semiSyncAckRequested : bool)
| filePosBinlogEvent (buf : list byte) (semiSyncAckRequested : bool)
| filePosQueryEvent (query : list byte) (timestamp : Z)
| filePosGTIDEvent (gtid : filePosGTID) (timestamp : Z).

#[export] Instance BinlogEvent_eq_dec : EqDecision BinlogEvent.
Proof. solve_decision. Defined.

(** [mysql56BinlogEvent.GTID]: the GTID, and whether the event is also a [BEGIN]. *)
Definition mysql56_GTID (ev : list byte) (f : BinlogFormat) : outcome (Mysql56GTID * bool) :=
  data ← after_header ev f;
  sid ← slice data 1 (1 + 16);
  gno ← uint_at 8 data (1 + 16);
  Ret ({| Server := sid; Sequence := int64 gno |}, false).

(** [mysql56BinlogEvent.PreviousGTIDs]. *)
Definition mysql56_PreviousGTIDs (ev : list byte) (f : BinlogFormat) : outcome (result binlog_error Position) :=
  data ← after_header ev f;
  Ret (set ← wrap_err SIDBlockError (NewMysql56GTIDSetFromSIDBlock data); Ok (Some (Set56 set))).

(** [mariadbBinlogEvent.GTID]. *)
Definition mariadb_GTID (ev : list byte) (f : BinlogFormat) : outcome (MariadbGTID * bool) :=
  data ← after_header ev f;
  flags2 ← index data (8 + 4);
  seq ← uint_at 8 data 0;
  domain ← uint_at 4 data 8;
  server ← ev_ServerID ev;
  Ret ({| Domain := domain; MServer := server; MSequence := seq |}, Z.land (b2z flags2) 1 =? 0).

(** [StripChecksum] of a buffer: what is left and the checksum, which is nil when there is
    none. *)
Definition strip4 (ev : list byte) : outcome (list byte * option (list byte)) :=
  let length := zlen ev in
  checksum ← slice_from ev (length - 4);
  data ← slice ev 0 (length - 4);
  Ret (data, Some checksum).

Definition no_checksum (f : BinlogFormat) : bool :=
  (b2z (ChecksumAlgorithm f) =? BinlogChecksumAlgOff) || (b2z (ChecksumAlgorithm f) =? BinlogChecksumAlgUndef).

Definition mysql56_StripChecksum (ev : list byte) (f : BinlogFormat)
  : outcome (result binlog_error (list byte * option (list byte))) :=
  if no_checksum f then Ret (Ok (ev, None))
  else if b2z (ChecksumAlgorithm f) =? BinlogChecksumAlgCRC32 then r ← strip4 ev; Ret (Ok r)
  else Ret (Err (UnsupportedChecksum (ChecksumAlgorithm f))).

Definition mariadb_StripChecksum (ev : list byte) (f : BinlogFormat) : outcome (list byte * option (list byte)) :=
  if no_checksum f then Ret (ev, None) else strip4 ev.

(** [filePosBinlogEvent.nextPosition] and [rotate]. *)
Definition filePos_nextPosition (ev : list byte) (f : BinlogFormat) : outcome Z :=
  if b2z (HeaderLength f) <=? 13 then Ret 0 else uint_at 4 ev 13.

Definition filePos_rotate (ev : list byte) (f : BinlogFormat) : outcome (Z * list byte) :=
  data ← after_header ev f;
  pos ← uint_at 8 data 0;
  file ← slice_from data 8;
  Ret (int64 pos, file).

(** The methods of the interface. *)
Definition raw (ev : BinlogEvent) : option (list byte) :=
  match ev with
  | mysql56BinlogEvent buf _ | mariadbBinlogEvent buf _ | filePosBinlogEvent buf _ => Some buf
  | filePosQueryEvent _ _ | filePosGTIDEvent _ _ => None
  end.

(** A method the wrapped buffer answers, and the fake events with a constant. *)
Definition on_raw {A} (m : list byte -> outcome A) (d : A) (ev : BinlogEvent) : outcome A :=
  match raw ev with Some buf => m buf | None => Ret d end.

Definition Bytes (ev : BinlogEvent) : list byte := default [] (raw ev).
Definition IsValid : BinlogEvent -> outcome bool := on_raw ev_IsValid true.
Definition NextPosition : BinlogEvent -> outcome Z := on_raw ev_NextPosition 0.

Definition IsQuery (ev : BinlogEvent) : outcome bool :=
  match ev with filePosQueryEvent _ _ => Ret true | _ => on_raw ev_IsQuery false ev end.

Definition IsGTID (ev : BinlogEvent) : outcome bool :=
  match ev with
  | mysql56BinlogEvent buf _ => has_type eGTIDEvent buf
  | mariadbBinlogEvent buf _ => has_type eMariaGTIDEvent buf
  | filePosGTIDEvent _ _ => Ret true
  | _ => Ret false
  end.

Definition IsSemiSyncAckRequested (ev : BinlogEvent) : bool :=
  match ev with
  | mysql56BinlogEvent _ ack | mariadbBinlogEvent _ ack | filePosBinlogEvent _ ack => ack
  | _ => false
  end.

Definition Timestamp (ev : BinlogEvent) : outcome Z :=
  match ev with
  | filePosQueryEvent _ ts | filePosGTIDEvent _ ts => Ret ts
  | _ => on_raw ev_Timestamp 0 ev
  end.

Definition event_GTID (ev : BinlogEvent) (f : BinlogFormat) : outcome (option GTID * bool) :=
  match ev with
  | mysql56BinlogEvent buf _ => '(g, b) ← mysql56_GTID buf f; Ret (Some (Gtid56 g), b)
  | mariadbBinlogEvent buf _ => '(g, b) ← mariadb_GTID buf f; Ret (Some (GtidMariadb g), b)
  | filePosGTIDEvent g _ => Ret (Some (GtidFilePos g), false)
  | _ => Ret (None, false)
  end.

Definition event_Query (ev : BinlogEvent) (f : BinlogFormat) : outcome (result binlog_error Query) :=
  match ev with
  | filePosQueryEvent query _ => Ret (Ok {| Database := []; Charset := None; SQL := query |})
  | _ => on_raw (fun buf => ev_Query buf f) (Ok {| Database := []; Charset := None; SQL := [] |}) ev
  end.

Definition PreviousGTIDs (ev : BinlogEvent) (f : BinlogFormat) : outcome (result binlog_error Position) :=
  match ev with
  | mysql56BinlogEvent buf _ => mysql56_PreviousGTIDs buf f
  | mariadbBinlogEvent _ _ | filePosBinlogEvent _ _ => Ret (Err NoPreviousGTIDs)
  | _ => Ret (Ok None)
  end.

(** A stripped event has lost its semi-sync flag. *)
Definition StripChecksum (ev : BinlogEvent) (f : BinlogFormat)
  : outcome (result binlog_error (BinlogEvent * option (list byte))) :=
  match ev with
  | mysql56BinlogEvent buf _ =>
      '(data, sum) ←? mysql56_StripChecksum buf f;
      Ret (Ok (match sum with None => ev | Some _ => mysql56BinlogEvent data false end, sum))
  | mariadbBinlogEvent buf _ =>
      '(data, sum) ← mariadb_StripChecksum buf f;
      Ret (Ok (match sum with None => ev | Some _ => mariadbBinlogEvent data false end, sum))
  | filePosBinlogEvent buf _ =>
      '(data, sum) ← mariadb_StripChecksum buf f;
      Ret (Ok (match sum with None => ev | Some _ => filePosBinlogEvent data false end, sum))
  | _ => Ret (Ok (ev, None))
  end.

(** ** Making events, [binlog_event_make.go] *)

(** [FakeBinlogStream]. *)
Record FakeBinlogStream := { StreamServerID : Z; LogPosition : Z; StreamTimestamp : Z }.

Definition NewFakeBinlogStream : FakeBinlogStream :=
  {| StreamServerID := 1; LogPosition := 4; StreamTimestamp := 1407805592 |}.

Definition NewMySQL56BinlogFormat : BinlogFormat := {|
  FormatVersion := 4;
  ServerVersion := bs "5.6.33-0ubuntu0.14.04.1-log";
  HeaderLength := z2b 19;
  ChecksumAlgorithm := z2b BinlogChecksumAlgCRC32;
  HeaderSizes := z2b <$>
    [56; 13; 0; 8; 0; 18; 0; 4; 4; 4;
     4; 18; 0; 0; 92; 0; 4; 26; 8; 0;
     0; 0; 8; 8; 8; 2; 0; 0; 0; 10;
     10; 10; 25; 25; 0]
|}.

Definition NewMariaDBBinlogFormat : BinlogFormat := {|
  FormatVersion := 4;
  ServerVersion := bs "10.0.13-MariaDB-1~precise-log";
  HeaderLength := z2b 19;
  ChecksumAlgorithm := z2b BinlogChecksumAlgOff;
  HeaderSizes := z2b <$>
    [56; 13; 0; 8; 0; 18; 0; 4; 4; 4;
     4; 18; 0; 0; 220; 0; 4; 26; 8; 0;
     0; 0; 8; 8; 8; 2; 0; 0; 0; 10;
     10; 10] ++ replicate 128 0 ++ [4; 19; 4]
|}.

(** [binary.LittleEndian.PutUint32(buf[i:j], v)] and so on: the slice has as many bytes as are
    written. *)
Definition put (buf : list byte) (i : Z) (bytes : list byte) : outcome (list byte) :=
  _ ← slice buf i (i + zlen bytes);
  store_seq buf i 0 bytes.

(** [copy(buf[i:], src)]. *)
Definition copy_from (buf : list byte) (i : Z) (src : list byte) : outcome (list byte) :=
  '(buf, _) ← copy_at buf i src; Ret buf.

Definition has_trailer (f : BinlogFormat) (typ : byte) : bool :=
  (b2z typ =? eFormatDescriptionEvent) || (b2z (ChecksumAlgorithm f) =? BinlogChecksumAlgCRC32).

(** [FakeBinlogStream.Packetize]. *)
Definition Packetize (s : FakeBinlogStream) (f : BinlogFormat) (typ : byte) (flags : Z) (data : list byte)
  : outcome (list byte) :=
  let length := b2z (HeaderLength f) + zlen data + (if has_trailer f typ then 4 else 0) in
  buf ← make_bytes length;
  buf ← (if (b2z typ =? eRotateEvent) || (b2z typ =? eHeartbeatEvent) then Ret buf
         else put buf 0 (binary.le_bytes 4 (StreamTimestamp s)));
  buf ← store buf 4 typ;
  buf ← put buf 5 (binary.le_bytes 4 (StreamServerID s));
  buf ← put buf 9 (binary.le_bytes 4 (uint32 length));
  buf ← (if 19 <=? b2z (HeaderLength f) then
           buf ← put buf 13 (binary.le_bytes 4 (LogPosition s));
           put buf 17 (binary.le_bytes 2 flags)
         else Ret buf);
  buf ← copy_from buf (b2z (HeaderLength f)) data;
  if b2z (ChecksumAlgorithm f) =? BinlogChecksumAlgCRC32 then
    covered ← slice buf 0 (length - 4);
    put buf (length - 4) (binary.le_bytes 4 (crc32.ChecksumIEEE covered))
  else Ret buf.

(** [NewInvalidEvent]. *)
Definition NewInvalidEvent : BinlogEvent := mysql56BinlogEvent [z2b 0] false.

(** Wraps a packet. *)
Definition new56 (p : outcome (list byte)) : outcome BinlogEvent := buf ← p; Ret (mysql56BinlogEvent buf false).

(** [NewFormatDescriptionEvent]. *)
Definition NewFormatDescriptionEvent (f : BinlogFormat) (s : FakeBinlogStream) : outcome BinlogEvent :=
  data ← make_bytes (2 + 50 + 4 + 1 + zlen (HeaderSizes f) + 1);
  data ← put data 0 (binary.le_bytes 2 (FormatVersion f));
  sv ← slice data 2 52;
  data ← store_seq data 2 0 (copy_into sv (ServerVersion f));
  data ← put data 52 (binary.le_bytes 4 (StreamTimestamp s));
  data ← store data 56 (HeaderLength f);
  data ← copy_from data 57 (HeaderSizes f);
  data ← store data (57 + zlen (HeaderSizes f)) (ChecksumAlgorithm f);
  new56 (Packetize s f (z2b eFormatDescriptionEvent) 0 data).

(** [NewInvalidFormatDescriptionEvent]. *)
Definition NewInvalidFormatDescriptionEvent (f : BinlogFormat) (s : FakeBinlogStream) : outcome BinlogEvent :=
  data ← make_bytes 75;
  data ← store data 0 (z2b 3);
  new56 (Packetize s f (z2b eFormatDescriptionEvent) 0 data).

(** [NewRotateEvent] and [NewFakeRotateEvent]. *)
Definition rotate_data (position : Z) (filename : list byte) : outcome (list byte) :=
  data ← make_bytes (8 + zlen filename);
  data ← put data 0 (binary.le_bytes 8 position);
  copy_from data 8 filename.

Definition NewRotateEvent (f : BinlogFormat) (s : FakeBinlogStream) (position : Z) (filename : list byte)
  : outcome BinlogEvent :=
  data ← rotate_data position filename;
  new56 (Packetize s f (z2b eRotateEvent) 0 data).

Definition NewFakeRotateEvent (f : BinlogFormat) (s : FakeBinlogStream) (filename : list byte)
  : outcome BinlogEvent :=
  data ← rotate_data 4 filename;
  new56 (Packetize s f (z2b eRotateEvent) FlagLogEventArtificial data).

(** [NewHeartbeatEvent] and [NewHeartbeatEventWithLogFile]. *)
Definition NewHeartbeatEvent (f : BinlogFormat) (s : FakeBinlogStream) : outcome BinlogEvent :=
  new56 (Packetize s f (z2b eHeartbeatEvent) 0 []).

Definition NewHeartbeatEventWithLogFile (f : BinlogFormat) (s : FakeBinlogStream) (filename : list byte)
  : outcome BinlogEvent :=
  data ← make_bytes (zlen filename);
  data ← copy_from data 0 filename;
  new56 (Packetize s f (z2b eHeartbeatEvent) 0 data).

(** The bytes of a character set in a query event. *)
Definition charset_bytes (c : charset) : list byte :=
  [z2b QCharsetCode; z2b (Client c); byte_at (Client c) 8; z2b (Conn c); byte_at (Conn c) 8;
   z2b (CServer c); byte_at (CServer c) 8].

(** The [if q.Charset != nil] of [NewQueryEvent]. *)
Definition write_charset (data : list byte) (pos : Z) (cs : option charset) : outcome (list byte * Z) :=
  match cs with
  | Some c => data ← store_seq data pos 0 (charset_bytes c); Ret (data, pos + 7)
  | None => Ret (data, pos)
  end.

(** [NewQueryEvent]. *)
Definition NewQueryEvent (f : BinlogFormat) (s : FakeBinlogStream) (q : Query) : outcome BinlogEvent :=
  let statusVarLength := match Charset q with Some _ => 1 + 2 + 2 + 2 | None => 0 end in
  data ← make_bytes (4 + 4 + 1 + 2 + 2 + statusVarLength + zlen (Database q) + 1 + zlen (SQL q));
  let pos := 8 in
  data ← store data pos (z2b (zlen (Database q)));
  let pos := pos + (1 + 2) in
  data ← store_seq data pos 0 [z2b statusVarLength; byte_at statusVarLength 8];
  let pos := pos + 2 in
  '(data, pos) ← write_charset data pos (Charset q);
  dst ← slice data pos (pos + zlen (Database q));
  data ← store_seq data pos 0 (copy_into dst (Database q));
  let pos := pos + Z.min (zlen dst) (zlen (Database q)) in
  data ← store data pos (z2b 0);
  let pos := pos + 1 in
  data ← copy_from data pos (SQL q);
  new56 (Packetize s f (z2b eQueryEvent) 0 data).

(** [NewInvalidQueryEvent]. *)
Definition NewInvalidQueryEvent (f : BinlogFormat) (s : FakeBinlogStream) : outcome BinlogEvent :=
  data ← make_bytes 100;
  data ← store data (4 + 4) (z2b 200);
  new56 (Packetize s f (z2b eQueryEvent) 0 data).

(** [NewXIDEvent]. *)
Definition NewXIDEvent (f : BinlogFormat) (s : FakeBinlogStream) : outcome BinlogEvent :=
  data ← make_bytes 8;
  new56 (Packetize s f (z2b eXIDEvent) 0 data).

(** The bytes [byte(v)], [byte(v >> 8)], ... that the code assigns one by one. *)
Definition le_seq (n : nat) (v : Z) : list byte := (fun k => byte_at v (8 * Z.of_nat k)) <$> seq 0 n.

(** [NewIntVarEvent]. *)
Definition NewIntVarEvent (f : BinlogFormat) (s : FakeBinlogStream) (typ : byte) (value : Z)
  : outcome BinlogEvent :=
  data ← make_bytes 9;
  data ← store data 0 typ;
  data ← store_seq data 1 0 (le_seq 8 value);
  new56 (Packetize s f (z2b eIntVarEvent) 0 data).

(** [NewMariaDBGTIDEvent]. *)
Definition NewMariaDBGTIDEvent (f : BinlogFormat) (s : FakeBinlogStream) (gtid : MariadbGTID) (hasBegin : bool)
  : outcome BinlogEvent :=
  data ← make_bytes (8 + 4 + 1);
  data ← store_seq data 0 0 (le_seq 8 (MSequence gtid));
  data ← store_seq data 8 0 (le_seq 4 (Domain gtid));
  data ← store data 12 (z2b (if hasBegin then 0 else Z.lor 0 1));
  buf ← Packetize s f (z2b eMariaGTIDEvent) 0 data;
  Ret (mariadbBinlogEvent buf false).

(** ** Packets of a replication stream, [replication.go] *)

(** [Conn.AnalyzeSemiSyncAckRequest]. *)
Definition AnalyzeSemiSyncAckRequest (ExpectSemiSyncIndicator : bool) (buf : list byte)
  : outcome (result binlog_error (list byte * bool)) :=
  if negb ExpectSemiSyncIndicator then Ret (Ok (buf, false))
  else if zlen buf <? 2 then Ret (Err SemiSyncTooSmall)
  else
    b0 ← index buf 0;
    if negb (b2z b0 =? 0xef) then Ret (Err SemiSyncNotFound)
    else
      rest ← slice_from buf 2;
      b1 ← index buf 1;
      Ret (Ok (rest, b2z b1 =? 1)).

(** [Conn.WriteBinlogEvent]: the packet it writes. *)
Definition WriteBinlogEvent (ev : BinlogEvent) (semiSyncEnabled : bool) : outcome (list byte) :=
  let extraBytes := if semiSyncEnabled then 1 + 2 else 1 in
  data ← make_bytes (zlen (Bytes ev) + extraBytes);
  '(data, pos) ← writeByte data 0 (z2b 0);
  '(data, pos) ← (if semiSyncEnabled then
                    '(data, pos) ← writeByte data pos (z2b 0xef);
                    writeByte data pos (z2b 0)
                  else Ret (data, pos));
  '(data, _) ← writeEOFString data pos (Bytes ev);
  Ret data.

(** ** Buffers that are filled from the front *)

Definition zeros (n : nat) : list byte := replicate n (z2b 0).

Lemma zeros_add k n : zeros (k + n) = zeros k ++ zeros n.
Proof. apply replicate_add. Qed.

Lemma zlen_zeros n : zlen (zeros n) = Z.of_nat n.
Proof. unfold zlen, zeros. by rewrite length_replicate. Qed.

#[export] Hint Rewrite zlen_zeros : zlen.

Lemma make_zeros n z : z = Z.of_nat n -> z <= MaxInt64 -> make_bytes z = Ret (zeros n).
Proof.
  intros -> Hn. unfold make_bytes. replace (_ && _) with true by (symmetry; apply andb_true_iff; lia).
  by rewrite Nat2Z.id.
Qed.

Section Fill.
Variables (p : list byte) (k n : nat) (i : Z).
Hypothesis Hi : zlen p = i.

Lemma seq_zeros bytes : length bytes = k -> i + Z.of_nat k <= MaxInt64 ->
  store_seq (p ++ zeros (k + n)) i 0 bytes = Ret ((p ++ bytes) ++ zeros n).
Proof.
  intros Hk Hb. rewrite zeros_add, <- Hi, store_seq_here; [by rewrite app_assoc| |].
  - unfold zeros. by rewrite length_replicate.
  - unfold zlen in *. lia.
Qed.

Lemma put_zeros bytes : length bytes = k -> i + Z.of_nat k <= MaxInt64 ->
  put (p ++ zeros (k + n)) i bytes = Ret ((p ++ bytes) ++ zeros n).
Proof.
  intros Hk Hb. unfold put. rewrite (slice_at _ p (zeros k) (zeros n)).
  - cbn [mbind outcome_bind]. by apply seq_zeros.
  - by rewrite zeros_add.
  - done.
  - rewrite zlen_zeros. unfold zlen in *. lia.
Qed.

Lemma copy_zeros src : length src = k ->
  copy_at (p ++ zeros (k + n)) i src = Ret ((p ++ src) ++ zeros n, zlen src).
Proof.
  intros Hk. rewrite zeros_add, <- Hi, copy_at_here; [by rewrite app_assoc|].
  unfold zeros. by rewrite length_replicate.
Qed.

Lemma copy_from_zeros src : length src = k ->
  copy_from (p ++ zeros (k + n)) i src = Ret ((p ++ src) ++ zeros n).
Proof. intros Hk. unfold copy_from. by rewrite copy_zeros. Qed.

Lemma store_zeros b : store (p ++ zeros (1 + n)) i b = Ret ((p ++ [b]) ++ zeros n).
Proof. rewrite <- Hi, <- app_assoc. apply store_app_here. Qed.
End Fill.

Lemma put_front k n bytes : length bytes = k -> Z.of_nat k <= MaxInt64 ->
  put (zeros (k + n)) 0 bytes = Ret (bytes ++ zeros n).
Proof. intros Hk Hb. by apply (put_zeros [] k n 0). Qed.

Lemma seq_front k n bytes : length bytes = k -> Z.of_nat k <= MaxInt64 ->
  store_seq (zeros (k + n)) 0 0 bytes = Ret (bytes ++ zeros n).
Proof. intros Hk Hb. by apply (seq_zeros [] k n 0). Qed.

Lemma store_front n b : store (zeros (1 + n)) 0 b = Ret ([b] ++ zeros n).
Proof. by apply (store_zeros [] n 0). Qed.

(** ** The layout of a packet *)

(** The timestamp, which rotate and heartbeat events leave zero. *)
Definition packet_time (s : FakeBinlogStream) (typ : byte) : Z :=
  if (b2z typ =? eRotateEvent) || (b2z typ =? eHeartbeatEvent) then 0 else StreamTimestamp s.

Definition packet_length (f : BinlogFormat) (typ : byte) (data : list byte) : Z :=
  b2z (HeaderLength f) + zlen data + (if has_trailer f typ then 4 else 0).

Definition packet_header (s : FakeBinlogStream) (f : BinlogFormat) (typ : byte) (flags : Z) (data : list byte)
  : list byte :=
  binary.le_bytes 4 (packet_time s typ) ++ [typ] ++ binary.le_bytes 4 (StreamServerID s) ++
  binary.le_bytes 4 (packet_length f typ data) ++ binary.le_bytes 4 (LogPosition s) ++
  binary.le_bytes 2 flags ++ zeros (Z.to_nat (b2z (HeaderLength f) - 19)).

Definition packet_trailer (f : BinlogFormat) (typ : byte) (body : list byte) : list byte :=
  if b2z (ChecksumAlgorithm f) =? BinlogChecksumAlgCRC32 then binary.le_bytes 4 (crc32.ChecksumIEEE body)
  else if b2z typ =? eFormatDescriptionEvent then zeros 4 else [].

Definition packet (s : FakeBinlogStream) (f : BinlogFormat) (typ : byte) (flags : Z) (data : list byte)
  : list byte :=
  let body := packet_header s f typ flags data ++ data in
  body ++ packet_trailer f typ body.

Lemma zlen_header s f typ flags data :
  19 <= b2z (HeaderLength f) -> zlen (packet_header s f typ flags data) = b2z (HeaderLength f).
Proof. intros. unfold packet_header. len. Qed.

Lemma zlen_trailer f typ body : zlen (packet_trailer f typ body) = if has_trailer f typ then 4 else 0.
Proof.
  unfold packet_trailer, has_trailer. destruct (b2z (ChecksumAlgorithm f) =? _).
  - rewrite orb_true_r. len.
  - rewrite orb_false_r. by destruct (b2z typ =? _).
Qed.

Lemma le_bytes_zeros n : binary.le_bytes n 0 = zeros n.
Proof. induction n as [|n IH]; [done|]. cbn [binary.le_bytes]. change (Z.shiftr 0 8) with 0. by rewrite IH. Qed.

(** What fits the writer. *)
Definition packable (f : BinlogFormat) (typ : byte) (data : list byte) : Prop :=
  19 <= b2z (HeaderLength f) /\ packet_length f typ data < 2 ^ 32.

Lemma time_zeros s typ n :
  (if (b2z typ =? eRotateEvent) || (b2z typ =? eHeartbeatEvent) then Ret (zeros (4 + n))
   else put (zeros (4 + n)) 0 (binary.le_bytes 4 (StreamTimestamp s))) =
  Ret (binary.le_bytes 4 (packet_time s typ) ++ zeros n).
Proof.
  unfold packet_time. case_match.
  - by rewrite le_bytes_zeros, <- zeros_add.
  - by apply put_front.
Qed.

(** The header the writer has filled in when it copies the data. *)
Lemma header_zeros s f typ flags data m :
  19 <= b2z (HeaderLength f) -> packet_length f typ data < 2 ^ 32 ->
  (((((binary.le_bytes 4 (packet_time s typ) ++ [typ]) ++ binary.le_bytes 4 (StreamServerID s)) ++
     binary.le_bytes 4 (uint32 (packet_length f typ data))) ++ binary.le_bytes 4 (LogPosition s)) ++
     binary.le_bytes 2 flags) ++ zeros (Z.to_nat (b2z (HeaderLength f) - 19) + m) =
  packet_header s f typ flags data ++ zeros m.
Proof.
  intros Hh Hl. unfold packet_header. rewrite zeros_add, <- !app_assoc. do 3 f_equal.
  unfold uint32, wrapU. rewrite Z.mod_small; [done|].
  pose proof (zlen_nonneg data). unfold packet_length in *. case_match; lia.
Qed.

Lemma Packetize_packet s f typ flags data :
  packable f typ data -> Packetize s f typ flags data = Ret (packet s f typ flags data).
Proof.
  intros [Hh Hl]. pose proof (zlen_nonneg data). pose proof (b2z_range (HeaderLength f)).
  set (e := Z.to_nat (b2z (HeaderLength f) - 19)).
  set (t := (if has_trailer f typ then 4 else 0)%nat).
  assert (packet_length f typ data =
          Z.of_nat (4 + (1 + (4 + (4 + (4 + (2 + (e + (length data + t))))))))) as El.
  { subst e t. unfold packet_length, zlen in *. destruct (has_trailer f typ); lia. }
  assert (b2z (HeaderLength f) + zlen data + Z.of_nat t = packet_length f typ data) as Et
    by (subst t; unfold packet_length; case_match; lia).
  unfold Packetize. fold (packet_length f typ data).
  rewrite (make_zeros _ _ El) by (unfold_ints; lia). cbn [mbind outcome_bind].
  rewrite time_zeros. cbn [mbind outcome_bind].
  rewrite store_zeros by len. cbn [mbind outcome_bind].
  do 2 (rewrite put_zeros by (done || (unfold_ints; lia) || len); cbn [mbind outcome_bind]).
  rewrite (proj2 (Z.leb_le _ _)) by done.
  do 2 (rewrite put_zeros by (done || (unfold_ints; lia) || len); cbn [mbind outcome_bind]).
  subst e. rewrite header_zeros, copy_from_zeros by (done || by apply zlen_header). cbn [mbind outcome_bind].
  unfold packet, packet_trailer. case_match eqn:Ec.
  - assert (t = 4%nat) as ->.
    { subst t. unfold has_trailer. by rewrite Ec, orb_true_r. }
    rewrite (slice_at _ [] (packet_header s f typ flags data ++ data) (zeros 4)) by
      (done || (rewrite zlen_nil, zlen_app, zlen_header by done; lia)).
    cbn [mbind outcome_bind]. change (zeros 4) with (zeros (4 + 0)).
    rewrite put_zeros; [by rewrite app_nil_r|rewrite zlen_app, zlen_header by done; lia|done|unfold_ints; lia].
  - subst t. unfold has_trailer. rewrite Ec, orb_false_r.
    destruct (b2z typ =? eFormatDescriptionEvent); [reflexivity|]. by rewrite !app_nil_r.
Qed.

(** ** Reading a packet *)

Lemma uint_at_le n m data p v q i :
  data = p ++ binary.le_bytes m v ++ q -> zlen p = i -> n = Z.of_nat m -> 0 <= v < 256 ^ n ->
  uint_at n data i = Ret v.
Proof.
  intros -> Hi -> Hv. unfold uint_at. rewrite (slice_at _ p (binary.le_bytes m v) q) by (done || len).
  cbn [mbind outcome_bind]. rewrite binary.of_le_le_bytes. by rewrite Z.mod_small.
Qed.

(** The header fields of a stream fit their width. *)
Definition stream_ok (s : FakeBinlogStream) : Prop :=
  0 <= StreamServerID s < 2 ^ 32 /\ 0 <= LogPosition s < 2 ^ 32 /\ 0 <= StreamTimestamp s < 2 ^ 32.

Section Header.
Context (s : FakeBinlogStream) (f : BinlogFormat) (typ : byte) (flags : Z) (data rest : list byte).
Hypothesis Hs : stream_ok s.
Hypothesis Hf : packable f typ data.

Abbreviation ev := (packet_header s f typ flags data ++ rest).

Lemma header_Type : ev_Type ev = Ret typ.
Proof.
  unfold ev_Type, packet_header.
  eapply (index_at _ (binary.le_bytes 4 (packet_time s typ)) typ); [by rewrite <- !app_assoc|done].
Qed.

Lemma header_Timestamp : ev_Timestamp ev = Ret (packet_time s typ).
Proof.
  unfold ev_Timestamp, packet_header. eapply (uint_at_le _ 4 _ [] _ _); [by rewrite <- !app_assoc|done|done|].
  unfold packet_time. case_match; [done|apply Hs].
Qed.

Lemma header_ServerID : ev_ServerID ev = Ret (StreamServerID s).
Proof.
  unfold ev_ServerID, packet_header.
  eapply (uint_at_le _ 4 _ (binary.le_bytes 4 (packet_time s typ) ++ [typ]) _ _);
    [by rewrite <- !app_assoc|len|done|apply Hs].
Qed.

Lemma header_Length : ev_Length ev = Ret (packet_length f typ data).
Proof.
  unfold ev_Length, packet_header.
  eapply (uint_at_le _ 4 _ (binary.le_bytes 4 (packet_time s typ) ++ [typ] ++ binary.le_bytes 4 (StreamServerID s)) _ _);
    [by rewrite <- !app_assoc|len|done|].
  destruct Hf as [? Hl]. unfold packet_length in *. pose proof (zlen_nonneg data). split; [case_match; lia|exact Hl].
Qed.

Lemma header_NextPosition : ev_NextPosition ev = Ret (LogPosition s).
Proof.
  unfold ev_NextPosition, packet_header.
  eapply (uint_at_le _ 4 _ (binary.le_bytes 4 (packet_time s typ) ++ [typ] ++ binary.le_bytes 4 (StreamServerID s) ++
    binary.le_bytes 4 (packet_length f typ data)) _ _); [by rewrite <- !app_assoc|len|done|apply Hs].
Qed.

Lemma header_Flags : 0 <= flags < 2 ^ 16 -> ev_Flags ev = Ret flags.
Proof.
  intros Hfl. unfold ev_Flags, packet_header.
  eapply (uint_at_le _ 2 _ (binary.le_bytes 4 (packet_time s typ) ++ [typ] ++ binary.le_bytes 4 (StreamServerID s) ++
    binary.le_bytes 4 (packet_length f typ data) ++ binary.le_bytes 4 (LogPosition s)) _ _);
    [by rewrite <- !app_assoc|len|done|exact Hfl].
Qed.

Lemma header_data : after_header ev f = Ret rest.
Proof. apply (slice_from_at _ (packet_header s f typ flags data)); [done|]. apply zlen_header, Hf. Qed.
End Header.

Lemma zlen_packet s f typ flags data : packable f typ data -> zlen (packet s f typ flags data) = packet_length f typ data.
Proof. intros [Hh _]. unfold packet. rewrite !zlen_app, zlen_trailer, zlen_header by done. done. Qed.

Lemma packet_valid s f typ flags data :
  stream_ok s -> packable f typ data -> 0 <= flags < 2 ^ 16 ->
  let ev := packet s f typ flags data in
  ev_IsValid ev = Ret true /\ ev_Type ev = Ret typ /\ ev_ServerID ev = Ret (StreamServerID s) /\
  ev_NextPosition ev = Ret (LogPosition s) /\ ev_Flags ev = Ret flags /\ ev_Length ev = Ret (zlen ev) /\
  ev_Timestamp ev = Ret (packet_time s typ).
Proof.
  intros Hs Hf Hfl. cbv zeta.
  pose proof (zlen_packet s f typ flags data Hf) as Hl. unfold packet in *. rewrite <- app_assoc in *.
  assert (19 <= packet_length f typ data < 2 ^ 32) as Hr.
  { destruct Hf as [? ?]. unfold packet_length in *. pose proof (zlen_nonneg data). case_match; lia. }
  split_and!; [|by apply header_Type|by apply header_ServerID|by apply header_NextPosition|by apply header_Flags|
    by rewrite Hl; apply header_Length|by apply header_Timestamp].
  unfold ev_IsValid. rewrite Hl, (proj2 (Z.ltb_ge _ _)), header_Length by (done || lia). cbn [mbind outcome_bind].
  unfold uint32, wrapU. by rewrite (proj2 (Z.ltb_ge _ _)), Z.mod_small, Z.eqb_refl by lia.
Qed.

(** C23: the writer makes an event out of any data that fits one: the event is valid, its header has the type,
    server, position, flags and length it should, and the timestamp of the stream unless it is a rotate or a
    heartbeat event. *)
Theorem Packetize_valid (s : FakeBinlogStream) (f : BinlogFormat) (typ : byte) (flags : Z) (data : list byte) :
  stream_ok s -> packable f typ data -> 0 <= flags < 2 ^ 16 ->
  exists ev, Packetize s f typ flags data = Ret ev /\
    ev_IsValid ev = Ret true /\ ev_Type ev = Ret typ /\ ev_ServerID ev = Ret (StreamServerID s) /\
    ev_NextPosition ev = Ret (LogPosition s) /\ ev_Flags ev = Ret flags /\ ev_Length ev = Ret (zlen ev) /\
    ev_Timestamp ev = Ret (if decide (b2z typ = eRotateEvent \/ b2z typ = eHeartbeatEvent) then 0 else StreamTimestamp s).
Proof.
  intros Hs Hf Hfl. exists (packet s f typ flags data). rewrite Packetize_packet by done. split; [done|].
  destruct (packet_valid s f typ flags data Hs Hf Hfl) as (? & ? & ? & ? & ? & ? & ->). split_and!; try done.
  unfold packet_time. f_equal. case_match eqn:E; case_decide; zify_tests; tauto || lia.
Qed.

(** ** Stripping the checksum *)

Lemma strip4_app (body sum : list byte) : length sum = 4%nat -> strip4 (body ++ sum) = Ret (body, Some sum).
Proof.
  intros Hs. assert (zlen sum = 4) as Hz by (unfold zlen; lia). unfold strip4.
  rewrite zlen_app, Hz. replace (zlen body + 4 - 4) with (zlen body) by lia.
  rewrite slice_from_app. cbn [mbind outcome_bind].
  by rewrite (slice_at _ [] body sum) by (done || by rewrite zlen_nil).
Qed.

(** The checksum algorithms of the writer. *)
Definition checksum_ok (f : BinlogFormat) : Prop :=
  no_checksum f = true \/ b2z (ChecksumAlgorithm f) = BinlogChecksumAlgCRC32.

(** The checksum of an event that has one. *)
Definition event_checksum (f : BinlogFormat) (body : list byte) : option (list byte) :=
  if no_checksum f then None else Some (binary.le_bytes 4 (crc32.ChecksumIEEE body)).

Lemma strip_packet s f typ flags data :
  packable f typ data -> checksum_ok f -> b2z typ <> eFormatDescriptionEvent ->
  let body := packet_header s f typ flags data ++ data in
  mysql56_StripChecksum (packet s f typ flags data) f = Ret (Ok (body, event_checksum f body)) /\
  mariadb_StripChecksum (packet s f typ flags data) f = Ret (body, event_checksum f body).
Proof.
  intros Hf Hc Ht. cbv zeta. unfold mysql56_StripChecksum, mariadb_StripChecksum, event_checksum, packet, packet_trailer.
  rewrite (proj2 (Z.eqb_neq _ _) Ht). destruct Hc as [Hc|Hc].
  - rewrite Hc. assert (b2z (ChecksumAlgorithm f) <> BinlogChecksumAlgCRC32) as Hne.
    { unfold no_checksum in Hc. zify_tests. intros E. rewrite E in Hc. destruct Hc; done. }
    rewrite (proj2 (Z.eqb_neq _ _) Hne). by rewrite app_nil_r.
  - unfold no_checksum. rewrite Hc. cbn -[binary.le_bytes strip4]. by rewrite strip4_app.
Qed.

(** ** Status variables *)

Lemma varsLoop_eq vars pos cs :
  varsLoop vars pos cs =
  if decide (pos < zlen vars) then
    code ← index vars pos;
    r ←? scan_var vars (pos + 1) code cs;
    match r with
    | None => Ret (Ok cs)
    | Some (step, cs') => varsLoop vars (pos + 1 + Z.of_nat step) cs'
    end
  else Ret (Ok cs).
Proof. unfold mbind, outcome_bind, tbind. funelim (varsLoop vars pos cs); use_tests; done. Qed.

(** A status variable as the server writes it. *)
Inductive status_var :=
| VarFlags2 (b : list byte)
| VarSQLMode (b : list byte)
| VarCatalog (name : list byte) (nul : byte)
| VarAutoIncrement (b : list byte)
| VarCharset (c : charset)
| VarCatalogNZ (name : list byte).

Definition var_bytes (v : status_var) : list byte :=
  match v with
  | VarFlags2 b => z2b QFlags2Code :: b
  | VarSQLMode b => z2b QSQLModeCode :: b
  | VarCatalog name nul => z2b QCatalog :: z2b (zlen name) :: name ++ [nul]
  | VarAutoIncrement b => z2b QAutoIncrement :: b
  | VarCharset c =>
      z2b QCharsetCode :: binary.le_bytes 2 (Client c) ++ binary.le_bytes 2 (Conn c) ++ binary.le_bytes 2 (CServer c)
  | VarCatalogNZ name => z2b QCatalogNZCode :: z2b (zlen name) :: name
  end.

Definition charset_ok (c : charset) : Prop :=
  0 <= Client c < 2 ^ 16 /\ 0 <= Conn c < 2 ^ 16 /\ 0 <= CServer c < 2 ^ 16.

Definition var_ok (v : status_var) : Prop :=
  match v with
  | VarFlags2 b | VarAutoIncrement b => zlen b = 4
  | VarSQLMode b => zlen b = 8
  | VarCatalog name _ | VarCatalogNZ name => zlen name < 256
  | VarCharset c => charset_ok c
  end.

Definition var_charset (cs : option charset) (v : status_var) : option charset :=
  match v with VarCharset c => Some c | _ => cs end.

(** Variables the reader does not look past. *)
Definition stops (tail : list byte) : Prop :=
  match tail with [] => True | b :: _ => b2z b = 5 \/ 6 < b2z b end.

(** Evaluates tests between constants. *)
Ltac eval_tests :=
  repeat match goal with
  | |- context [b2z (z2b ?c) =? ?d] =>
      let r := eval vm_compute in (b2z (z2b c) =? d) in change (b2z (z2b c) =? d) with r
  end; cbn [orb andb negb].

Lemma scan_var_here pre v rest cs :
  var_ok v ->
  exists code body, var_bytes v = code :: body /\
  scan_var (pre ++ code :: body ++ rest) (zlen pre + 1) code cs =
  Ret (Ok (Some (length body, var_charset cs v))).
Proof.
  pose proof (zlen_nonneg pre). pose proof (zlen_nonneg rest). intros Hv.
  destruct v as [b|b|name nul|b|c|name]; cbn [var_ok var_bytes] in *; eexists _, _; (split; [reflexivity|]);
    unfold scan_var; eval_tests.
  1,2,4: do 4 f_equal; unfold zlen in Hv; lia.
  - pose proof (zlen_nonneg name).
    rewrite (proj2 (Z.ltb_ge _ _)) by len.
    rewrite (index_at _ (pre ++ [z2b QCatalog]) (z2b (zlen name)) ((name ++ [nul]) ++ rest))
      by first [cbn [app]; by rewrite <- !app_assoc|len].
    cbn [mbind outcome_bind]. rewrite b2z_z2b, Z.mod_small by lia. do 4 f_equal.
    cbn [length]. rewrite length_app. unfold zlen. simpl. lia.
  - destruct Hv as (H1 & H2 & H3). rewrite (proj2 (Z.ltb_ge _ _)) by len.
    rewrite (uint_at_le _ 2 _ (pre ++ [z2b QCharsetCode]) (Client c)
      (binary.le_bytes 2 (Conn c) ++ binary.le_bytes 2 (CServer c) ++ rest) (zlen pre + 1)) by
      first [done|assumption|len|cbn [app]; by rewrite <- !app_assoc]. cbn [mbind outcome_bind].
    rewrite (uint_at_le _ 2 _ (pre ++ [z2b QCharsetCode] ++ binary.le_bytes 2 (Client c)) (Conn c)
      (binary.le_bytes 2 (CServer c) ++ rest) (zlen pre + 1 + 2)) by
      first [done|assumption|len|cbn [app]; by rewrite <- !app_assoc]. cbn [mbind outcome_bind].
    rewrite (uint_at_le _ 2 _ (pre ++ [z2b QCharsetCode] ++ binary.le_bytes 2 (Client c) ++ binary.le_bytes 2 (Conn c))
      (CServer c) rest (zlen pre + 1 + 4)) by first [done|assumption|len|cbn [app]; by rewrite <- !app_assoc]. cbn [mbind outcome_bind].
    by destruct c.
  - pose proof (zlen_nonneg name).
    rewrite (proj2 (Z.ltb_ge _ _)) by len.
    rewrite (index_at _ (pre ++ [z2b QCatalogNZCode]) (z2b (zlen name)) (name ++ rest))
      by first [cbn [app]; by rewrite <- !app_assoc|len].
    cbn [mbind outcome_bind]. rewrite b2z_z2b, Z.mod_small by lia. do 4 f_equal.
    cbn [length]. unfold zlen. lia.
Qed.

Lemma varsLoop_vars pre vs tail cs :
  Forall var_ok vs -> stops tail ->
  varsLoop (pre ++ concat (var_bytes <$> vs) ++ tail) (zlen pre) cs = Ret (Ok (foldl var_charset cs vs)).
Proof.
  intros Hvs Ht. revert pre cs. induction Hvs as [|v vs Hv Hvs IH]; intros pre cs; rewrite varsLoop_eq.
  - change (concat (var_bytes <$> [])) with (@nil byte). cbn [app].
    pose proof (zlen_nonneg pre). destruct tail as [|b tail].
    + rewrite decide_False; [done|len].
    + rewrite decide_True by (pose proof (zlen_nonneg tail); len).
      rewrite index_app_here. cbn [mbind outcome_bind]. unfold scan_var.
      cbn in Ht. unfold QFlags2Code, QAutoIncrement, QSQLModeCode, QCatalog, QCatalogNZCode, QCharsetCode.
      by rewrite !(proj2 (Z.eqb_neq _ _)) by lia.
  - destruct (scan_var_here pre v (concat (var_bytes <$> vs) ++ tail) cs Hv) as (code & body & E & Hscan).
    rewrite fmap_cons. cbn [concat]. rewrite E, <- app_assoc. cbn [app].
    pose proof (zlen_nonneg pre). pose proof (zlen_nonneg (body ++ concat (var_bytes <$> vs) ++ tail)).
    rewrite decide_True by len. rewrite index_app_here. cbn [mbind outcome_bind]. rewrite Hscan. cbn [tbind foldl].
    rewrite <- (IH (pre ++ code :: body)). f_equal.
    + by rewrite <- !app_assoc.
    + unfold zlen. rewrite length_app. cbn [length]. lia.
Qed.

(** ** Queries *)

(** The data of a query event. *)
Definition query_layout (ids db err vars : list byte) (nul : byte) (sql : list byte) : list byte :=
  ids ++ [z2b (zlen db)] ++ err ++ binary.le_bytes 2 (zlen vars) ++ vars ++ db ++ [nul] ++ sql.

Lemma Query_reads h f ids db err vs tail nul sql :
  zlen h = b2z (HeaderLength f) -> zlen ids = 8 -> zlen err = 2 -> zlen db < 256 ->
  let vars := concat (var_bytes <$> vs) ++ tail in
  zlen vars < 2 ^ 16 -> Forall var_ok vs -> stops tail ->
  ev_Query (h ++ query_layout ids db err vars nul sql) f =
  Ret (Ok {| Database := db; Charset := foldl var_charset None vs; SQL := sql |}).
Proof.
  intros Hh Hids Herr Hdb vars Hvl Hvs Ht. unfold ev_Query, after_header, varsPos.
  pose proof (zlen_nonneg db). pose proof (zlen_nonneg vars). pose proof (zlen_nonneg sql).
  rewrite (slice_from_at _ h (query_layout ids db err vars nul sql)) by done. cbn [mbind outcome_bind].
  rewrite (index_at _ ids (z2b (zlen db)) (err ++ binary.le_bytes 2 (zlen vars) ++ vars ++ db ++ [nul] ++ sql)) by done.
  cbn [mbind outcome_bind]. rewrite b2z_z2b, Z.mod_small by lia.
  assert (zlen (query_layout ids db err vars nul sql) = 14 + zlen vars + zlen db + zlen sql) as Hl
    by (unfold query_layout; len).
  rewrite (uint_at_le _ 2 _ (ids ++ [z2b (zlen db)] ++ err) (zlen vars) (vars ++ db ++ [nul] ++ sql));
    [|unfold query_layout; by rewrite <- !app_assoc|len|done|done]. cbn [mbind outcome_bind].
  rewrite (proj2 (Z.ltb_ge _ _)) by lia.
  rewrite (slice_at _ (ids ++ [z2b (zlen db)] ++ err ++ binary.le_bytes 2 (zlen vars) ++ vars) db ([nul] ++ sql)
    (4 + 4 + 1 + 2 + 2 + zlen vars));
    [|unfold query_layout; by rewrite <- !app_assoc|len|len]. cbn [mbind outcome_bind].
  rewrite (slice_from_at _ (ids ++ [z2b (zlen db)] ++ err ++ binary.le_bytes 2 (zlen vars) ++ vars ++ db ++ [nul]) sql);
    [|unfold query_layout; by rewrite <- !app_assoc|len]. cbn [mbind outcome_bind].
  rewrite (slice_at _ (ids ++ [z2b (zlen db)] ++ err ++ binary.le_bytes 2 (zlen vars)) vars (db ++ [nul] ++ sql)
    (4 + 4 + 1 + 2 + 2));
    [|unfold query_layout; by rewrite <- !app_assoc|len|len]. cbn [mbind outcome_bind].
  pose proof (varsLoop_vars [] vs tail None Hvs Ht) as Hv. cbn [app zlen] in Hv.
  fold vars in Hv. change (zlen []) with 0 in Hv. by rewrite Hv.
Qed.

Lemma uint_at_total n data i : 0 <= n -> 0 <= i -> i + n <= zlen data -> exists v, uint_at n data i = Ret v /\ 0 <= v < 256 ^ n.
Proof.
  intros Hn Hi Hb. unfold uint_at. destruct (slice_in_range data i (i + n)) as (m & -> & Hm); [lia..|].
  eexists. split; [done|]. pose proof (binary.of_le_range m) as Hr. by replace (zlen m) with n in Hr by lia.
Qed.

Lemma scan_var_total vars pos code cs : 0 <= pos -> exists r, scan_var vars pos code cs = Ret r.
Proof.
  intros Hp. unfold scan_var. repeat case_match; zify_tests; eauto.
  1,2: destruct (index_in_range vars pos) as [x ->]; [lia|]; cbn; eauto.
  destruct (uint_at_total 2 vars pos) as (? & -> & _); [lia..|]. cbn [mbind outcome_bind].
  destruct (uint_at_total 2 vars (pos + 2)) as (? & -> & _); [lia..|]. cbn [mbind outcome_bind].
  destruct (uint_at_total 2 vars (pos + 4)) as (? & -> & _); [lia..|]. cbn [mbind outcome_bind]. eauto.
Qed.

Lemma varsLoop_total vars pos cs : 0 <= pos -> exists r, varsLoop vars pos cs = Ret r.
Proof.
  remember (Z.to_nat (zlen vars - pos)) as n eqn:En. revert pos cs En.
  induction n as [n IH] using lt_wf_ind. intros pos cs -> Hp. rewrite varsLoop_eq. case_decide; [|eauto].
  destruct (index_in_range vars pos) as [code ->]; [lia|]. cbn [mbind outcome_bind].
  destruct (scan_var_total vars (pos + 1) code cs) as [[[[step cs']|]|e] ->]; [lia|..]; cbn [tbind]; [|eauto..].
  eapply IH; [|done|]; lia.
Qed.

(** C25: the query reader never panics on an event that has the fixed fields of a query event, whatever lengths and
    status variables it holds: it returns a query, or one of its errors. *)
Theorem Query_safe (ev : list byte) (f : BinlogFormat) :
  b2z (HeaderLength f) + varsPos <= zlen ev -> exists r, ev_Query ev f = Ret r.
Proof.
  unfold varsPos. intros Hl. pose proof (b2z_range (HeaderLength f)). unfold ev_Query, after_header, varsPos.
  destruct (slice_in_range ev (b2z (HeaderLength f)) (zlen ev)) as (data & Hd & Hz); [lia..|].
  assert (slice_from ev (b2z (HeaderLength f)) = Ret data) as -> by exact Hd. cbn [mbind outcome_bind].
  destruct (index_in_range data (4 + 4)) as [dbLen ->]; [lia|]. cbn [mbind outcome_bind]. pose proof (b2z_range dbLen).
  destruct (uint_at_total 2 data (4 + 4 + 1 + 2)) as (varsLen & -> & Hv); [lia..|]. cbn [mbind outcome_bind].
  case_match eqn:E; zify_tests; [eauto|].
  set (dbPos := 4 + 4 + 1 + 2 + 2 + varsLen) in *.
  destruct (slice_in_range data dbPos (dbPos + b2z dbLen)) as (db & -> & _); [lia..|]. cbn [mbind outcome_bind].
  destruct (slice_in_range data (dbPos + b2z dbLen + 1) (zlen data)) as (sql & Hsql & _); [lia..|].
  unfold slice_from. rewrite Hsql. cbn [mbind outcome_bind].
  destruct (slice_in_range data (4 + 4 + 1 + 2 + 2) dbPos) as (vars & -> & _); [lia..|]. cbn [mbind outcome_bind].
  destruct (varsLoop_total vars 0 None) as [[cs|e] ->]; [done|cbn [tbind]; eauto..].
Qed.

(** ** Events read back *)

Lemma charset_bytes_var c : charset_bytes c = var_bytes (VarCharset c).
Proof.
  unfold charset_bytes. cbn [var_bytes].
  rewrite (proj1 (le_bytes_shifts (Client c))), (proj1 (le_bytes_shifts (Conn c))), (proj1 (le_bytes_shifts (CServer c))).
  done.
Qed.

(** The status variables of a made query event. *)
Definition query_vars (q : Query) : list status_var :=
  match Charset q with Some c => [VarCharset c] | None => [] end.

Definition query_data (q : Query) : list byte :=
  query_layout (zeros 8) (Database q) (zeros 2) (concat (var_bytes <$> query_vars q)) (z2b 0) (SQL q).

Definition query_ok (q : Query) : Prop :=
  zlen (Database q) < 256 /\ match Charset q with Some c => charset_ok c | None => True end.

Lemma copy_into_zeros k src : length src = k -> copy_into (zeros k) src = src.
Proof. intros Hk. apply copy_into_all. unfold zeros. by rewrite length_replicate. Qed.

Lemma write_charset_zeros p n cs :
  let vars := concat (var_bytes <$> match cs with Some c => [VarCharset c] | None => [] end) in
  zlen p + 7 <= MaxInt64 ->
  write_charset (p ++ zeros (length vars + n)) (zlen p) cs = Ret ((p ++ vars) ++ zeros n, zlen p + zlen vars).
Proof.
  intros vars Hl. subst vars. destruct cs as [c|].
  - change (concat (var_bytes <$> [VarCharset c])) with (var_bytes (VarCharset c) ++ []). rewrite app_nil_r.
    rewrite <- charset_bytes_var. unfold write_charset. by rewrite seq_zeros.
  - unfold write_charset. change (concat (var_bytes <$> [])) with (@nil byte).
    by rewrite app_nil_r, zlen_nil, Z.add_0_r.
Qed.

Lemma NewQueryEvent_data f s q :
  zlen (query_data q) <= MaxInt64 ->
  NewQueryEvent f s q = new56 (Packetize s f (z2b eQueryEvent) 0 (query_data q)).
Proof.
  intros Hl. destruct q as [db cs sql]. unfold NewQueryEvent, query_data, query_vars in *.
  cbn [Database Charset SQL] in *. set (vars := concat (var_bytes <$> _)) in *. unfold query_layout in *.
  pose proof (zlen_nonneg db). pose proof (zlen_nonneg vars). pose proof (zlen_nonneg sql).
  assert (match cs with Some _ => 1 + 2 + 2 + 2 | None => 0 end = zlen vars) as -> by (subst vars; by destruct cs).
  autorewrite with zlen in Hl. assert (zlen vars <= 7) by (subst vars; by destruct cs).
  rewrite (make_zeros (8 + (1 + (2 + (2 + (length vars + (length db + (1 + (length sql + 0))))))))) by
    (unfold zlen in *; lia).
  cbn [mbind outcome_bind]. rewrite (zeros_add 8), store_zeros by done. cbn [mbind outcome_bind].
  rewrite (zeros_add 2), app_assoc, (seq_zeros _ 2) by (done || len). cbn [mbind outcome_bind].
  rewrite <- (proj1 (le_bytes_shifts (zlen vars))). set (p := _ ++ binary.le_bytes 2 (zlen vars)).
  assert (zlen p = 13) as Hp by (subst p; len). change (8 + (1 + 2) + 2) with 13. rewrite <- Hp.
  subst vars. rewrite write_charset_zeros by (unfold MaxInt64; lia). set (vars := concat (var_bytes <$> _)) in *. cbn [mbind outcome_bind].
  rewrite (slice_at _ (p ++ vars) (zeros (length db)) (zeros (1 + (length sql + 0)))) by
    first [by rewrite zeros_add|unfold zlen; rewrite !length_app; unfold zeros; rewrite ?length_replicate; lia].
  cbn [mbind outcome_bind]. rewrite copy_into_zeros, zlen_zeros by done.
  replace (Z.min (Z.of_nat (length db)) (zlen db)) with (zlen db) by (unfold zlen; lia).
  rewrite seq_zeros by first [done|len|unfold zlen in *; lia]. cbn [mbind outcome_bind].
  rewrite store_zeros by len. cbn [mbind outcome_bind]. rewrite copy_from_zeros by (done || len).
  cbn [mbind outcome_bind]. f_equal. f_equal. subst p. by rewrite <- !app_assoc, app_nil_r.
Qed.

(** An event made of [data], valid, of the type [typ], and what it is without its checksum. *)
Lemma new56_event s f typ flags data :
  stream_ok s -> packable f typ data -> 0 <= flags < 2 ^ 16 -> checksum_ok f -> b2z typ <> eFormatDescriptionEvent ->
  exists ev sum, new56 (Packetize s f typ flags data) = Ret ev /\ IsValid ev = Ret true /\ ev_Type (Bytes ev) = Ret typ /\
  StripChecksum ev f = Ret (Ok (mysql56BinlogEvent (packet_header s f typ flags data ++ data) false, sum)).
Proof.
  intros Hs Hf Hfl Hc Ht. destruct (packet_valid s f typ flags data Hs Hf Hfl) as (Hv & Htyp & _).
  exists (mysql56BinlogEvent (packet s f typ flags data) false),
    (event_checksum f (packet_header s f typ flags data ++ data)).
  unfold new56. rewrite Packetize_packet by done. split_and!; [done|exact Hv|exact Htyp|]. unfold StripChecksum.
  destruct (strip_packet s f typ flags data Hf Hc Ht) as [H56 _]. rewrite H56. cbn [tbind]. unfold event_checksum in *.
  destruct (no_checksum f) eqn:E; [|done]. unfold mysql56_StripChecksum in H56. rewrite E in H56.
  assert (packet s f typ flags data = packet_header s f typ flags data ++ data) as -> by congruence. done.
Qed.

(** The data of a made event; bytes that follow are taken for a part of the statement. *)
Lemma Query_reads_data h f q rest :
  zlen h = b2z (HeaderLength f) -> query_ok q ->
  ev_Query (h ++ query_data q ++ rest) f =
  Ret (Ok {| Database := Database q; Charset := Charset q; SQL := SQL q ++ rest |}).
Proof.
  intros Hh [Hdb Hcs]. unfold query_data.
  assert (query_layout (zeros 8) (Database q) (zeros 2) (concat (var_bytes <$> query_vars q)) (z2b 0) (SQL q) ++ rest =
    query_layout (zeros 8) (Database q) (zeros 2) (concat (var_bytes <$> query_vars q) ++ []) (z2b 0) (SQL q ++ rest)) as ->
    by (unfold query_layout; by rewrite app_nil_r, <- !app_assoc).
  rewrite Query_reads; [|done..| | |done].
  - unfold query_vars. by destruct q as [db [c|] sql].
  - rewrite app_nil_r. unfold query_vars. by destruct (Charset q).
  - unfold query_vars. destruct (Charset q); [by apply Forall_singleton|by apply Forall_nil].
Qed.

(** The same for the events of MariaDB. *)
Lemma mariadb_event s f typ flags data :
  stream_ok s -> packable f typ data -> 0 <= flags < 2 ^ 16 -> checksum_ok f -> b2z typ <> eFormatDescriptionEvent ->
  let ev := mariadbBinlogEvent (packet s f typ flags data) false in
  exists sum, IsValid ev = Ret true /\
  StripChecksum ev f = Ret (Ok (mariadbBinlogEvent (packet_header s f typ flags data ++ data) false, sum)).
Proof.
  intros Hs Hf Hfl Hc Ht. cbv zeta. destruct (packet_valid s f typ flags data Hs Hf Hfl) as (Hv & _).
  exists (event_checksum f (packet_header s f typ flags data ++ data)). split; [exact Hv|]. unfold StripChecksum.
  destruct (strip_packet s f typ flags data Hf Hc Ht) as [H56 ->]. cbn [mbind outcome_bind]. unfold event_checksum in *.
  destruct (no_checksum f) eqn:E; [|done]. unfold mysql56_StripChecksum in H56. rewrite E in H56.
  assert (packet s f typ flags data = packet_header s f typ flags data ++ data) as -> by congruence. done.
Qed.

(** Every query the writer puts into an event, with or without a character set, is read back from the event after
    its checksum has been stripped. *)
Theorem Query_roundtrip (f : BinlogFormat) (s : FakeBinlogStream) (q : Query) :
  stream_ok s -> packable f (z2b eQueryEvent) (query_data q) -> checksum_ok f -> query_ok q ->
  exists ev ev' sum, NewQueryEvent f s q = Ret ev /\ IsValid ev = Ret true /\ IsQuery ev = Ret true /\
    StripChecksum ev f = Ret (Ok (ev', sum)) /\ event_Query ev' f = Ret (Ok q).
Proof.
  intros Hs Hf Hc Hq0. pose proof Hf as [Hh Hl].
  assert (zlen (query_data q) <= MaxInt64) as Hq.
  { unfold packet_length in Hl. pose proof (b2z_range (HeaderLength f)). unfold_ints. case_match; lia. }
  destruct (new56_event s f (z2b eQueryEvent) 0 (query_data q)) as (ev & sum & E & Hv & Ht & Hst); [done..|].
  exists ev, (mysql56BinlogEvent (packet_header s f (z2b eQueryEvent) 0 (query_data q) ++ query_data q) false), sum.
  rewrite NewQueryEvent_data, E by done. split_and!; [done|done| |done|].
  - unfold new56 in E. rewrite Packetize_packet in E by done. injection E as <-.
    unfold IsQuery, on_raw, ev_IsQuery, has_type. cbn [raw].
    change (Bytes _) with (packet s f (z2b eQueryEvent) 0 (query_data q)) in Ht. by rewrite Ht.
  - unfold event_Query, on_raw. cbn [raw]. rewrite <- (app_nil_r (query_data q)) at 2.
    rewrite Query_reads_data by (done || by apply zlen_header). rewrite app_nil_r. by destruct q.
Qed.

(** ** Formats *)

Lemma trim_zeroes_zeros n : trim_zeroes (zeros n) = [].
Proof. induction n as [|n IH]; [done|]. cbn. fold (zeros n). by rewrite IH. Qed.

Lemma trim_zeroes_app sv n : last sv <> Some (z2b 0) -> trim_zeroes (sv ++ zeros n) = sv.
Proof.
  induction sv as [|b sv IH]; intros Hlast; [apply trim_zeroes_zeros|].
  cbn [app trim_zeroes]. destruct sv as [|c sv].
  - cbn [app]. rewrite trim_zeroes_zeros. rewrite decide_False; [done|]. intros ->. by apply Hlast.
  - by rewrite IH.
Qed.

(** A format that its event describes completely. *)
Definition format_ok (f : BinlogFormat) : Prop :=
  FormatVersion f = 4 /\ b2z (HeaderLength f) = 19 /\ zlen (ServerVersion f) <= 50 /\
  last (ServerVersion f) <> Some (z2b 0).

Definition format_data (f : BinlogFormat) (s : FakeBinlogStream) : list byte :=
  binary.le_bytes 2 (FormatVersion f) ++ ServerVersion f ++ zeros (50 - length (ServerVersion f)) ++
  binary.le_bytes 4 (StreamTimestamp s) ++ [HeaderLength f] ++ HeaderSizes f ++ [ChecksumAlgorithm f].

Lemma copy_into_short n src : (length src <= n)%nat -> copy_into (zeros n) src = src ++ zeros (n - length src).
Proof.
  intros Hn. unfold copy_into, zeros. by rewrite length_replicate, take_ge, drop_replicate by lia.
Qed.

Lemma NewFormatDescriptionEvent_data f s :
  zlen (ServerVersion f) <= 50 -> zlen (format_data f s) <= MaxInt64 ->
  NewFormatDescriptionEvent f s = new56 (Packetize s f (z2b eFormatDescriptionEvent) 0 (format_data f s)).
Proof.
  intros Hsv Hl. unfold NewFormatDescriptionEvent, format_data in *. set (sv := ServerVersion f) in *.
  set (hs := HeaderSizes f) in *. pose proof (zlen_nonneg sv). pose proof (zlen_nonneg hs).
  autorewrite with zlen in Hl. assert (length sv <= 50)%nat by (unfold zlen in *; lia).
  rewrite (make_zeros (2 + (50 + (4 + (1 + (length hs + (1 + 0))))))) by (unfold zlen in *; unfold MaxInt64 in *; lia).
  cbn [mbind outcome_bind]. rewrite put_front by done. cbn [mbind outcome_bind app].
  rewrite (slice_at _ (binary.le_bytes 2 (FormatVersion f)) (zeros 50) (zeros (4 + (1 + (length hs + (1 + 0)))))) by
    first [done|by rewrite zeros_add|len]. cbn [mbind outcome_bind].
  rewrite copy_into_short by done. rewrite (seq_zeros _ 50) by
    first [done|len|rewrite length_app; unfold zeros; rewrite length_replicate; lia|unfold MaxInt64; lia].
  cbn [mbind outcome_bind]. rewrite put_zeros by first [done|unfold MaxInt64; lia|autorewrite with zlen; unfold zlen; lia].
  cbn [mbind outcome_bind]. rewrite store_zeros by (autorewrite with zlen; unfold zlen; lia). cbn [mbind outcome_bind].
  rewrite copy_from_zeros by first [done|autorewrite with zlen; unfold zlen; lia]. cbn [mbind outcome_bind].
  rewrite store_zeros by (autorewrite with zlen; unfold zlen; lia). cbn [mbind outcome_bind].
  do 2 f_equal. by rewrite <- !app_assoc.
Qed.

Lemma Format_reads h f s sum :
  format_ok f -> zlen h = 19 -> zlen sum = 4 -> ev_Format (h ++ format_data f s ++ sum) = Ret (Ok f).
Proof.
  intros (Hv & Hh & Hsv & Hlast) Hz Hs. destruct f as [hs sv v hl alg]. unfold ev_Format, format_data.
  cbn [FormatVersion HeaderLength ServerVersion HeaderSizes ChecksumAlgorithm] in *. subst v.
  assert (length sv <= 50)%nat by (unfold zlen in *; lia). assert (zlen sv = Z.of_nat (length sv)) by done.
  rewrite (slice_from_at _ h _ 19) by done. cbn [mbind outcome_bind]. rewrite <- !app_assoc.
  set (vb := binary.le_bytes 2 4). set (pad := zeros (50 - length sv)).
  set (ts := binary.le_bytes 4 (StreamTimestamp s)).
  assert (zlen vb = 2 /\ zlen pad = 50 - zlen sv /\ zlen ts = 4) as (Hvb & Hpad & Hts) by (subst vb pad ts; len).
  rewrite (uint_at_le _ 2 _ [] 4 (sv ++ pad ++ ts ++ [hl] ++ hs ++ [alg] ++ sum)) by done. cbn [mbind outcome_bind].
  change (negb (4 =? 4)) with false. cbv iota.
  rewrite (slice_at _ vb (sv ++ pad) (ts ++ [hl] ++ hs ++ [alg] ++ sum) 2) by first [done|by rewrite <- !app_assoc|len].
  cbn [mbind outcome_bind].
  rewrite (index_at _ (vb ++ sv ++ pad ++ ts) hl (hs ++ [alg] ++ sum) (2 + 50 + 4)) by first [by rewrite <- !app_assoc|len].
  cbn [mbind outcome_bind]. rewrite (proj2 (Z.ltb_ge _ _)) by lia.
  rewrite (index_at _ (vb ++ sv ++ pad ++ ts ++ [hl] ++ hs) alg sum) by first [by rewrite <- !app_assoc|len].
  cbn [mbind outcome_bind].
  rewrite (slice_at _ (vb ++ sv ++ pad ++ ts ++ [hl]) hs ([alg] ++ sum)) by first [by rewrite <- !app_assoc|len].
  cbn [mbind outcome_bind]. subst pad. by rewrite trim_zeroes_app.
Qed.

(** A format description event gives its format back: server version, header length, checksum algorithm
    and the table of header sizes, whether or not the events that follow it carry checksums. *)
Theorem Format_roundtrip (f : BinlogFormat) (s : FakeBinlogStream) :
  stream_ok s -> format_ok f -> packable f (z2b eFormatDescriptionEvent) (format_data f s) ->
  exists ev, NewFormatDescriptionEvent f s = Ret ev /\ IsValid ev = Ret true /\
    ev_IsFormatDescription (Bytes ev) = Ret true /\ ev_Format (Bytes ev) = Ret (Ok f).
Proof.
  intros Hs Hok Hf. pose proof Hok as (_ & Hh & Hsv & _). pose proof Hf as [_ Hl].
  assert (zlen (format_data f s) <= MaxInt64) as Hq.
  { unfold packet_length in Hl. unfold_ints. case_match; lia. }
  rewrite NewFormatDescriptionEvent_data by done. unfold new56. rewrite Packetize_packet by done.
  eexists. split; [done|]. set (typ := z2b eFormatDescriptionEvent) in *.
  destruct (packet_valid s f typ 0 (format_data f s) Hs Hf) as (Hv & Ht & _); [done|].
  split; [exact Hv|]. change (Bytes _) with (packet s f typ 0 (format_data f s)).
  split; [unfold ev_IsFormatDescription, has_type; by rewrite Ht|].
  unfold packet. rewrite <- app_assoc. apply Format_reads; [done| |by rewrite zlen_trailer].
  rewrite zlen_header by lia. done.
Qed.

(** ** Log files *)

Definition rotate_layout (position : Z) (filename : list byte) : list byte :=
  binary.le_bytes 8 position ++ filename.

Lemma rotate_data_layout position filename :
  zlen (rotate_layout position filename) <= MaxInt64 ->
  rotate_data position filename = Ret (rotate_layout position filename).
Proof.
  unfold rotate_layout, rotate_data. intros Hl. pose proof (zlen_nonneg filename). autorewrite with zlen in Hl.
  rewrite (make_zeros (8 + (length filename + 0))) by (unfold zlen in *; lia). cbn [mbind outcome_bind].
  rewrite put_front by done. cbn [mbind outcome_bind]. rewrite copy_from_zeros by done. by rewrite app_nil_r.
Qed.

Lemma filePos_rotate_reads h f position filename :
  zlen h = b2z (HeaderLength f) -> 0 <= position < 2 ^ 64 ->
  filePos_rotate (h ++ rotate_layout position filename) f = Ret (int64 position, filename).
Proof.
  intros Hh Hp. unfold filePos_rotate, after_header. rewrite (slice_from_at _ h (rotate_layout position filename)) by done.
  cbn [mbind outcome_bind]. rewrite (uint_at_le _ 8 _ [] position filename) by done. cbn [mbind outcome_bind].
  by rewrite (slice_from_at _ (binary.le_bytes 8 position) filename).
Qed.

Lemma NextLogFile_reads h f position filename sum :
  zlen h = b2z (HeaderLength f) -> 0 <= position < 2 ^ 64 -> zlen sum = 4 ->
  buffer_ok (rotate_layout position filename) ->
  ev_NextLogFile (h ++ rotate_layout position filename ++ sum) f = Ret (filename, position).
Proof.
  intros Hh Hp Hs Hb. unfold ev_NextLogFile, dataBytes, after_header. unfold rotate_layout in *.
  rewrite (slice_from_at _ h ((binary.le_bytes 8 position ++ filename) ++ sum)) by done. cbn [mbind outcome_bind].
  rewrite (slice_at _ [] (binary.le_bytes 8 position ++ filename) sum) by first [done|len]. cbn [mbind outcome_bind].
  pose proof (readUintN_here 8 [] (binary.le_bytes 8 position) filename eq_refl ltac:(lia) Hb) as Hr.
  cbn [app] in Hr. unfold readUint64. rewrite zlen_nil in Hr. rewrite Hr.
  cbn [mbind outcome_bind]. rewrite (slice_from_at _ (binary.le_bytes 8 position) filename) by done.
  cbn [mbind outcome_bind]. rewrite binary.of_le_le_bytes. by rewrite Z.mod_small.
Qed.

(** A rotate event carries the name of the next log file and the position in it.  The file position flavor reads
    them from the event without its checksum; [NextLogFile] from the event with it, since it always drops the last four bytes: in a
    stream without checksums it cuts four bytes off the name. *)
Theorem Rotate_roundtrip (f : BinlogFormat) (s : FakeBinlogStream) (position : Z) (filename : list byte) :
  stream_ok s -> 0 <= position < 2 ^ 64 -> checksum_ok f -> 4 <= zlen filename ->
  packable f (z2b eRotateEvent) (rotate_layout position filename) ->
  exists ev body sum, NewRotateEvent f s position filename = Ret ev /\ IsValid ev = Ret true /\
    ev_IsRotate (Bytes ev) = Ret true /\ ev_Timestamp (Bytes ev) = Ret 0 /\
    mariadb_StripChecksum (Bytes ev) f = Ret (body, sum) /\
    filePos_rotate body f = Ret (int64 position, filename) /\
    ev_NextLogFile (Bytes ev) f =
      Ret (if no_checksum f then take (length filename - 4) filename else filename, position).
Proof.
  intros Hs Hp Hc Hn Hf. pose proof Hf as [Hh Hl]. pose proof (b2z_range (HeaderLength f)).
  assert (zlen (rotate_layout position filename) <= MaxInt64) as Hq.
  { unfold packet_length in Hl. unfold_ints. case_match; lia. }
  unfold NewRotateEvent. rewrite rotate_data_layout by done. cbn [mbind outcome_bind].
  unfold new56. rewrite Packetize_packet by done. set (typ := z2b eRotateEvent) in *.
  destruct (packet_valid s f typ 0 (rotate_layout position filename) Hs Hf) as (Hv & Ht & _ & _ & _ & _ & Hts); [done|].
  destruct (strip_packet s f typ 0 (rotate_layout position filename) Hf Hc) as [_ Hst]; [done|].
  eexists _, _, _. split; [done|]. change (Bytes _) with (packet s f typ 0 (rotate_layout position filename)).
  split_and!; [exact Hv|unfold ev_IsRotate, has_type; by rewrite Ht|exact Hts|exact Hst|
    apply filePos_rotate_reads; [by apply zlen_header|done]|].
  unfold packet, packet_trailer. change (b2z typ =? eFormatDescriptionEvent) with false. cbv iota zeta.
  rewrite <- app_assoc. destruct Hc as [Hc|Hc].
  - rewrite Hc. replace (b2z (ChecksumAlgorithm f) =? BinlogChecksumAlgCRC32) with false.
    2:{ unfold no_checksum in Hc. zify_tests. symmetry. apply Z.eqb_neq. intros E. rewrite E in Hc. by destruct Hc. }
    assert (rotate_layout position filename ++ [] = rotate_layout position (take (length filename - 4) filename) ++
      drop (length filename - 4) filename) as ->
      by (unfold rotate_layout; by rewrite app_nil_r, <- app_assoc, take_drop).
    apply NextLogFile_reads; [by apply zlen_header|done|unfold zlen in *; rewrite length_drop; lia|].
    unfold buffer_ok, rotate_layout, zlen in *. rewrite !length_app, binary.length_le_bytes, length_take in *. lia.
  - unfold no_checksum. rewrite Hc. change (_ || _) with false. cbv iota.
    rewrite Z.eqb_refl. apply NextLogFile_reads; [by apply zlen_header|done|by rewrite zlen_le_bytes|done].
Qed.

(** ** Variables and GTIDs *)

Lemma le_seq_bytes n v : le_seq n v = binary.le_bytes n v.
Proof.
  unfold le_seq, byte_at. revert v. induction n as [|n IH]; intros v; [done|].
  cbn [seq binary.le_bytes]. rewrite fmap_cons, <- fmap_S_seq, <- list_fmap_compose, <- IH. f_equal.
  apply list_fmap_ext. intros _ k _. cbn. f_equal. rewrite Z.shiftr_shiftr by lia. f_equal. lia.
Qed.

Lemma length_le_seq n v : length (le_seq n v) = n.
Proof. by rewrite le_seq_bytes, binary.length_le_bytes. Qed.

(** Data that are small enough for an event. *)
Lemma packable_small f typ data : 19 <= b2z (HeaderLength f) -> zlen data <= 100 -> packable f typ data.
Proof.
  intros Hh Hd. pose proof (b2z_range (HeaderLength f)). split; [done|]. unfold packet_length. case_match; lia.
Qed.

(** The variable of an [IntVar] event is read back. *)
Theorem IntVar_roundtrip (f : BinlogFormat) (s : FakeBinlogStream) (typ : byte) (value : Z) :
  stream_ok s -> 19 <= b2z (HeaderLength f) -> checksum_ok f ->
  b2z typ = IntVarLastInsertID \/ b2z typ = IntVarInsertID -> 0 <= value < 2 ^ 64 ->
  exists ev ev' sum, NewIntVarEvent f s typ value = Ret ev /\ IsValid ev = Ret true /\
    StripChecksum ev f = Ret (Ok (ev', sum)) /\ ev_IntVar (Bytes ev') f = Ret (Ok (typ, value)).
Proof.
  intros Hs Hh Hc Htyp Hval. set (data := [typ] ++ binary.le_bytes 8 value).
  assert (NewIntVarEvent f s typ value = new56 (Packetize s f (z2b eIntVarEvent) 0 data)) as ->.
  { unfold NewIntVarEvent. rewrite (make_zeros (1 + (8 + 0))) by done. cbn [mbind outcome_bind].
    rewrite store_front. cbn [mbind outcome_bind].
    rewrite seq_zeros by first [done|by rewrite length_le_seq]. cbn [mbind outcome_bind].
    by rewrite le_seq_bytes, app_nil_r. }
  destruct (new56_event s f (z2b eIntVarEvent) 0 data) as (ev & sum & E & Hv & _ & Hst);
    [done|by apply packable_small|done..|].
  eexists ev, _, sum. split_and!; [done|done|exact Hst|].
  unfold ev_IntVar. cbn [Bytes raw default from_option id]. rewrite header_data by by apply packable_small.
  cbn [mbind outcome_bind]. rewrite (index_at _ [] typ (binary.le_bytes 8 value)) by done. cbn [mbind outcome_bind].
  replace (negb _ && negb _) with false by (symmetry; destruct Htyp as [-> | ->]; done).
  by rewrite (uint_at_le _ 8 _ [typ] value []).
Qed.

Definition mariadb_gtid_data (gtid : MariadbGTID) (hasBegin : bool) : list byte :=
  binary.le_bytes 8 (MSequence gtid) ++ binary.le_bytes 4 (Domain gtid) ++ [z2b (if hasBegin then 0 else 1)].

Lemma mariadb_GTID_reads s f typ flags d gtid (hasBegin : bool) sum :
  stream_ok s -> packable f typ d -> 0 <= MSequence gtid < 2 ^ 64 -> 0 <= Domain gtid < 2 ^ 32 ->
  mariadb_GTID (packet_header s f typ flags d ++ mariadb_gtid_data gtid hasBegin ++ sum) f =
  Ret ({| Domain := Domain gtid; MServer := StreamServerID s; MSequence := MSequence gtid |}, hasBegin).
Proof.
  intros Hs Hp Hseq Hdom. unfold mariadb_GTID, mariadb_gtid_data. rewrite header_ServerID, header_data by done.
  cbn [mbind outcome_bind]. set (b := z2b (if hasBegin then 0 else 1)). rewrite <- !app_assoc.
  rewrite (index_at _ (binary.le_bytes 8 (MSequence gtid) ++ binary.le_bytes 4 (Domain gtid)) b sum)
    by first [by rewrite <- !app_assoc|done]. cbn [mbind outcome_bind].
  rewrite (uint_at_le 8 8 _ [] (MSequence gtid) (binary.le_bytes 4 (Domain gtid) ++ [b] ++ sum)) by done.
  cbn [mbind outcome_bind].
  rewrite (uint_at_le _ 4 _ (binary.le_bytes 8 (MSequence gtid)) (Domain gtid) ([b] ++ sum) 8) by done.
  cbn [mbind outcome_bind]. subst b. by destruct hasBegin.
Qed.

Lemma NewMariaDBGTIDEvent_packet f s gtid hasBegin :
  19 <= b2z (HeaderLength f) ->
  NewMariaDBGTIDEvent f s gtid hasBegin =
  Ret (mariadbBinlogEvent (packet s f (z2b eMariaGTIDEvent) 0 (mariadb_gtid_data gtid hasBegin)) false).
Proof.
  intros Hh. unfold NewMariaDBGTIDEvent. rewrite (make_zeros (8 + (4 + (1 + 0)))) by done. cbn [mbind outcome_bind].
  rewrite seq_front by first [done|by rewrite length_le_seq]. cbn [mbind outcome_bind]. rewrite !le_seq_bytes.
  rewrite seq_zeros by done. cbn [mbind outcome_bind]. rewrite store_zeros by done. cbn [mbind outcome_bind].
  rewrite app_nil_r, <- app_assoc. change (if hasBegin then 0 else Z.lor 0 1) with (if hasBegin then 0 else 1).
  fold (mariadb_gtid_data gtid hasBegin). by rewrite Packetize_packet by by apply packable_small.
Qed.

(** The GTID of a MariaDB event, with its server taken from the header, and its [BEGIN] flag are read back. *)
Theorem MariadbGTID_roundtrip (f : BinlogFormat) (s : FakeBinlogStream) (gtid : MariadbGTID) (hasBegin : bool) :
  stream_ok s -> 19 <= b2z (HeaderLength f) -> 0 <= MSequence gtid < 2 ^ 64 -> 0 <= Domain gtid < 2 ^ 32 ->
  exists ev, NewMariaDBGTIDEvent f s gtid hasBegin = Ret ev /\ IsValid ev = Ret true /\ IsGTID ev = Ret true /\
    event_GTID ev f = Ret (Some (GtidMariadb
      {| Domain := Domain gtid; MServer := StreamServerID s; MSequence := MSequence gtid |}), hasBegin).
Proof.
  intros Hs Hh Hseq Hdom. rewrite NewMariaDBGTIDEvent_packet by done.
  set (typ := z2b eMariaGTIDEvent). set (data := mariadb_gtid_data gtid hasBegin).
  assert (packable f typ data) as Hp by by apply packable_small.
  destruct (packet_valid s f typ 0 data Hs Hp) as (Hv & Ht & _); [done|].
  eexists. split_and!; [done|exact Hv|unfold IsGTID, has_type; by rewrite Ht|].
  unfold event_GTID, packet. cbv zeta. rewrite <- app_assoc. unfold data at 2.
  by rewrite mariadb_GTID_reads.
Qed.

(** A MySQL GTID event names the transaction in its data, and a previous-GTIDs event whose data are the SID block
    of a set is the position of that set, whatever follows the block; when the block is cut off, the event is an
    error. *)
Theorem Mysql56_events (f : BinlogFormat) (h sid rest : list byte) (flags : byte) (gno : Z) (m : m56map) (k : nat)
    (ack : bool) :
  zlen h = b2z (HeaderLength f) -> sid_ok sid -> is_int64 gno -> encodable m ->
  (k < length (SIDBlock (Some m)))%nat ->
  event_GTID (mysql56BinlogEvent (h ++ [flags] ++ sid ++ binary.le_bytes 8 (uint64 gno) ++ rest) ack) f =
    Ret (Some (Gtid56 {| Server := sid; Sequence := gno |}), false) /\
  PreviousGTIDs (mysql56BinlogEvent (h ++ SIDBlock (Some m) ++ rest) ack) f = Ret (Ok (Some (Set56 (Some m)))) /\
  exists e, PreviousGTIDs (mysql56BinlogEvent (h ++ take k (SIDBlock (Some m))) ack) f = Ret (Err e).
Proof.
  intros Hh Hsid Hgno Hm Hk. split_and!.
  - unfold event_GTID, mysql56_GTID, after_header. rewrite (slice_from_at _ h _ _ eq_refl Hh). cbn [mbind outcome_bind].
    assert (zlen sid = 16) as Hz by (unfold zlen; rewrite Hsid; done).
    rewrite (slice_at _ [flags] sid (binary.le_bytes 8 (uint64 gno) ++ rest)) by (done || by rewrite Hz).
    cbn [mbind outcome_bind].
    rewrite (uint_at_le _ 8 _ ([flags] ++ sid) (uint64 gno) rest) by
      first [by rewrite <- app_assoc|len|pose proof (uint64_range gno); unfold is_uint64, MaxUint64 in *; lia].
    cbn [mbind outcome_bind]. by rewrite int64_uint64, int64_id.
  - unfold PreviousGTIDs, mysql56_PreviousGTIDs, after_header. rewrite (slice_from_at _ h _ _ eq_refl Hh).
    cbn [mbind outcome_bind]. destruct (SIDBlock_decoded m rest Hm) as (r & buf & Hb & Hs & ->).
    unfold NewMysql56GTIDSetFromSIDBlock. by rewrite Hb, Hs.
  - unfold PreviousGTIDs, mysql56_PreviousGTIDs, after_header. rewrite (slice_from_at _ h _ _ eq_refl Hh).
    cbn [mbind outcome_bind]. destruct (SIDBlock_cut m k Hm Hk) as [e ->]. by eexists.
Qed.

(** ** Semi-sync prefixes *)

(** What a server writes for an event, with or without the semi-sync prefix, a client that expects the same reads back
    after the packet's OK byte. *)
Theorem SemiSync_roundtrip (ev : BinlogEvent) (semiSync : bool) :
  zlen (Bytes ev) + 3 <= MaxInt64 ->
  exists body, WriteBinlogEvent ev semiSync = Ret (z2b 0 :: body) /\
    AnalyzeSemiSyncAckRequest semiSync body = Ret (Ok (Bytes ev, false)).
Proof.
  intros Hl. unfold WriteBinlogEvent. set (bytes := Bytes ev) in *. pose proof (zlen_nonneg bytes).
  destruct semiSync.
  - exists ([z2b 0xef; z2b 0] ++ bytes).
    rewrite (make_zeros (1 + (1 + (1 + (length bytes + 0))))) by (unfold zlen in *; lia).
    cbn [mbind outcome_bind]. unfold writeByte. rewrite store_front. cbn [mbind outcome_bind].
    rewrite store_zeros by done. cbn [mbind outcome_bind]. rewrite store_zeros by done. cbn [mbind outcome_bind].
    unfold writeEOFString. rewrite copy_zeros by done. cbn [mbind outcome_bind]. rewrite app_nil_r. split; [done|].
    unfold AnalyzeSemiSyncAckRequest. cbn [negb]. rewrite (proj2 (Z.ltb_ge _ _)) by len.
    rewrite (index_at _ [] (z2b 0xef) (z2b 0 :: bytes) 0) by done. cbn [mbind outcome_bind].
    change (negb (b2z (z2b 0xef) =? 0xef)) with false. cbv iota.
    rewrite (slice_from_at _ [z2b 0xef; z2b 0] bytes) by done. cbn [mbind outcome_bind].
    by rewrite (index_at _ [z2b 0xef] (z2b 0) bytes).
  - exists bytes. rewrite (make_zeros (1 + (length bytes + 0))) by (unfold zlen in *; lia).
    cbn [mbind outcome_bind]. unfold writeByte. rewrite store_front. cbn [mbind outcome_bind].
    unfold writeEOFString. rewrite copy_zeros by done. cbn [mbind outcome_bind]. by rewrite app_nil_r.
Qed.

(** ** Valid events the readers panic on *)

(** A header without data. *)
Definition bare_event (typ : byte) : list byte :=
  binary.le_bytes 4 0 ++ [typ] ++ binary.le_bytes 4 1 ++ binary.le_bytes 4 19 ++ binary.le_bytes 4 4 ++ binary.le_bytes 2 0.

(** An event can be valid and still make a reader panic: validity only says that the header is there and has the
    right length, so that on a bare header of the type of a query, variable or GTID event the reader of that type
    indexes out of range. *)
Theorem IsValid_not_enough (f : BinlogFormat) (typ : byte) :
  b2z (HeaderLength f) = 19 ->
  ev_IsValid (bare_event typ) = Ret true /\ ev_Query (bare_event typ) f = Panic /\
  ev_IntVar (bare_event typ) f = Panic /\ mariadb_GTID (bare_event typ) f = Panic.
Proof.
  intros Hh. assert (after_header (bare_event typ) f = Ret []) as Hd by (unfold after_header; by rewrite Hh).
  unfold ev_Query, ev_IntVar, mariadb_GTID. rewrite Hd. done.
Qed.

(** ** Witnesses *)

Lemma stream_ok_new : stream_ok NewFakeBinlogStream.
Proof. by vm_compute. Qed.

Lemma Packetize_valid_witness :
  exists ev, Packetize NewFakeBinlogStream NewMySQL56BinlogFormat (z2b eXIDEvent) 0 (zeros 8) = Ret ev /\
    ev_IsValid ev = Ret true /\ zlen ev = 31.
Proof.
  destruct (Packetize_valid NewFakeBinlogStream NewMySQL56BinlogFormat (z2b eXIDEvent) 0 (zeros 8))
    as (ev & E & Hv & _ & _ & _ & _ & Hl & _); [exact stream_ok_new|by vm_compute|lia|].
  exists ev. split; [exact E|]. split; [exact Hv|]. vm_compute in E. injection E as <-. by vm_compute.
Defined.

Definition sample_query : Query :=
  {| Database := bs "ks"; Charset := Some {| Client := 33; Conn := 33; CServer := 8 |}; SQL := bs "insert into t values (1)" |}.

Lemma Query_safe_witness :
  exists r, ev_Query (bare_event (z2b eQueryEvent) ++ zeros 13) NewMySQL56BinlogFormat = Ret r.
Proof. apply (Query_safe (bare_event (z2b eQueryEvent) ++ zeros 13) NewMySQL56BinlogFormat). by vm_compute. Defined.

Lemma Query_roundtrip_witness :
  exists ev ev' sum, NewQueryEvent NewMySQL56BinlogFormat NewFakeBinlogStream sample_query = Ret ev /\
    StripChecksum ev NewMySQL56BinlogFormat = Ret (Ok (ev', sum)) /\
    event_Query ev' NewMySQL56BinlogFormat = Ret (Ok sample_query).
Proof.
  destruct (Query_roundtrip NewMySQL56BinlogFormat NewFakeBinlogStream sample_query)
    as (ev & ev' & sum & E & _ & _ & Hs & Hq); [exact stream_ok_new|by vm_compute|by right|by vm_compute|].
  exists ev, ev', sum. split; [exact E|]. split; [exact Hs|exact Hq].
Defined.

Lemma Format_roundtrip_witness :
  exists ev, NewFormatDescriptionEvent NewMariaDBBinlogFormat NewFakeBinlogStream = Ret ev /\
    ev_Format (Bytes ev) = Ret (Ok NewMariaDBBinlogFormat).
Proof.
  destruct (Format_roundtrip NewMariaDBBinlogFormat NewFakeBinlogStream) as (ev & E & _ & _ & Hf);
    [exact stream_ok_new|by vm_compute|by vm_compute|].
  exists ev. split; [exact E|exact Hf].
Defined.

Lemma Rotate_roundtrip_witness :
  exists ev, NewRotateEvent NewMariaDBBinlogFormat NewFakeBinlogStream 4 (bs "vt-bin.000002") = Ret ev /\
    ev_NextLogFile (Bytes ev) NewMariaDBBinlogFormat = Ret (bs "vt-bin.00", 4).
Proof.
  destruct (Rotate_roundtrip NewMariaDBBinlogFormat NewFakeBinlogStream 4 (bs "vt-bin.000002"))
    as (ev & body & sum & E & _ & _ & _ & _ & _ & Hn); [exact stream_ok_new|lia|by left|by vm_compute|by vm_compute|].
  exists ev. split; [exact E|exact Hn].
Defined.

Lemma Mysql56_events_witness :
  PreviousGTIDs (mysql56BinlogEvent (zeros 19 ++ SIDBlock (Some (one_server sid_a [Interval 1 5; Interval 10 MaxInt64])) ++ [])
    false) NewMySQL56BinlogFormat = Ret (Ok (Some (Set56 (Some (one_server sid_a [Interval 1 5; Interval 10 MaxInt64]))))).
Proof.
  apply (Mysql56_events NewMySQL56BinlogFormat (zeros 19) sid_a [] (z2b 1) 7
    (one_server sid_a [Interval 1 5; Interval 10 MaxInt64]) 3 false);
    [done|done|by vm_compute|exact encodable_sample|vm_compute; lia].
Defined.

Lemma IsValid_not_enough_witness :
  ev_IsValid (bare_event (z2b eQueryEvent)) = Ret true /\ ev_Query (bare_event (z2b eQueryEvent)) NewMySQL56BinlogFormat = Panic.
Proof.
  destruct (IsValid_not_enough NewMySQL56BinlogFormat (z2b eQueryEvent)) as (Hv & Hq & _); [done|]. split; [exact Hv|exact Hq].
Defined.
