(* ===== verification/BinlogStream.v ===== *)
(** * The file position flavor of the replication stream

    [readBinlogEvent] of [go/mysql/flavor_filepos.go], with the readers of the other two flavors
    ([flavor_mysql.go], [flavor_mariadb.go]): packets of a connection become events.  The file position flavor has no GTIDs, so it
    makes them up: before every event that changes data it delivers a GTID of the current log file and the
    position after the event.  The state is the format, the file and an event that is still to be
    delivered.  The theorem is that the events a client reads off a log, one call at a time, are those the log
    prescribes, with the positions of the log. *)

From S2P Require Import Prelude Intervals GoStd GtidTypes Gtid56 Encoding Position Binlog.

(** ** The code *)

(** What a call of [readBinlogEvent] can return as an error. *)
Inductive stream_error :=
| ReadError
| ServerLost
| ServerError (packet : list byte)
| EventError (e : binlog_error).

(** The next packets of a connection; an error of [ReadPacket] is [None]. *)
Abbreviation packets := (list (option (list byte))).

(** [filePosFlavor]; a nil [savedEvent] is [None]. *)
Record filePosFlavor := { flv_format : BinlogFormat; flv_file : list byte; savedEvent : option BinlogEvent }.

Definition zero_format : BinlogFormat :=
  {| HeaderSizes := []; ServerVersion := []; FormatVersion := 0; HeaderLength := z2b 0; ChecksumAlgorithm := z2b 0 |}.

Definition newFilePosFlavor : filePosFlavor :=
  {| flv_format := zero_format; flv_file := []; savedEvent := None |}.

Definition set_format (flv : filePosFlavor) (f : BinlogFormat) : filePosFlavor :=
  {| flv_format := f; flv_file := flv_file flv; savedEvent := savedEvent flv |}.
Definition set_file (flv : filePosFlavor) (file : list byte) : filePosFlavor :=
  {| flv_format := flv_format flv; flv_file := file; savedEvent := savedEvent flv |}.
Definition set_saved (flv : filePosFlavor) (ev : option BinlogEvent) : filePosFlavor :=
  {| flv_format := flv_format flv; flv_file := flv_file flv; savedEvent := ev |}.

Definition EOFPacket : Z := 0xfe.
Definition ErrPacket : Z := 0xff.

(** The part the three flavors share: the packet's first byte and the semi-sync prefix. *)
Definition open_packet (semiSync : bool) (packet : list byte)
  : outcome (result stream_error (list byte * bool)) :=
  b ← index packet 0;
  if b2z b =? EOFPacket then Ret (Err ServerLost)
  else if b2z b =? ErrPacket then Ret (Err (ServerError packet))
  else
    rest ← slice_from packet 1;
    r ← AnalyzeSemiSyncAckRequest semiSync rest;
    Ret (wrap_err EventError r).

(** [mysqlFlavor.readBinlogEvent] and [mariadbFlavor.readBinlogEvent]. *)
Definition mysql_readBinlogEvent (semiSync : bool) (packet : list byte) : outcome (result stream_error BinlogEvent) :=
  '(buf, ack) ←? open_packet semiSync packet; Ret (Ok (mysql56BinlogEvent buf ack)).

Definition mariadb_readBinlogEvent (semiSync : bool) (packet : list byte) : outcome (result stream_error BinlogEvent) :=
  '(buf, ack) ←? open_packet semiSync packet; Ret (Ok (mariadbBinlogEvent buf ack)).

(** [event.Type()] is one of these. *)
Definition one_of (types : list Z) (typ : byte) : bool := existsb (Z.eqb (b2z typ)) types.

Definition skipped_types : list Z := [eGTIDEvent; eAnonymousGTIDEvent; ePreviousGTIDsEvent; eMariaGTIDListEvent].
Definition data_types : list Z :=
  [eXIDEvent; eTableMapEvent; eWriteRowsEventV0; eWriteRowsEventV1; eWriteRowsEventV2;
   eDeleteRowsEventV0; eDeleteRowsEventV1; eDeleteRowsEventV2;
   eUpdateRowsEventV0; eUpdateRowsEventV1; eUpdateRowsEventV2].

(** [strings.HasPrefix(q.SQL, "#")]. *)
Definition is_comment (sql : list byte) : bool :=
  match sql with b :: _ => b2z b =? 35 | [] => false end.

(** [flv.savedEvent = event; return newFilePosGTIDEvent(flv.file, event.nextPosition(flv.format), event.Timestamp())]. *)
Definition deliver_after_gtid (flv : filePosFlavor) (buf : list byte) (ev : BinlogEvent)
  : outcome (BinlogEvent * filePosFlavor) :=
  pos ← filePos_nextPosition buf (flv_format flv);
  ts ← ev_Timestamp buf;
  Ret (filePosGTIDEvent {| file := flv_file flv; GtidTypes.pos := pos |} ts, set_saved flv (Some ev)).

(** One round of the loop: the event to return, or [None] for [continue]. *)
Definition on_packet (semiSync : bool) (flv : filePosFlavor) (packet : list byte)
  : outcome (result stream_error (option BinlogEvent * filePosFlavor)) :=
  '(buf, ack) ←? open_packet semiSync packet;
  let event := filePosBinlogEvent buf ack in
  typ ← ev_Type buf;
  if one_of skipped_types typ then Ret (Ok (None, flv))
  else if b2z typ =? eMariaGTIDEvent then
    flags2 ← index packet (8 + 4);
    if Z.land (b2z flags2) 1 =? 0 then
      ts ← ev_Timestamp buf;
      Ret (Ok (Some (filePosQueryEvent (bs "begin") ts), flv))
    else Ret (Ok (None, flv))
  else if b2z typ =? eFormatDescriptionEvent then
    r ← ev_Format buf;
    match r with
    | Err e => Ret (Err (EventError e))
    | Ok format => Ret (Ok (Some event, set_format flv format))
    end
  else if (b2z typ =? eRotateEvent) && negb (Format_IsZero (flv_format flv)) then
    '(stripped, _) ← mariadb_StripChecksum buf (flv_format flv);
    '(_, file) ← filePos_rotate stripped (flv_format flv);
    Ret (Ok (None, set_file flv file))
  else if b2z typ =? eRotateEvent then Ret (Ok (Some event, flv))
  else if one_of data_types typ then
    '(ev, flv) ← deliver_after_gtid flv buf event;
    Ret (Ok (Some ev, flv))
  else if b2z typ =? eQueryEvent then
    q ← ev_Query buf (flv_format flv);
    if match q with Ok q => is_comment (SQL q) | Err _ => false end then Ret (Ok (None, flv))
    else
      '(ev, flv) ← deliver_after_gtid flv buf event;
      Ret (Ok (Some ev, flv))
  else if negb (Format_IsZero (flv_format flv)) then
    v ← filePos_nextPosition buf (flv_format flv);
    if negb (v =? 0) then
      ts ← ev_Timestamp buf;
      '(ev, flv) ← deliver_after_gtid flv buf (filePosQueryEvent (bs "repair") ts);
      Ret (Ok (Some ev, flv))
    else Ret (Ok (Some event, flv))
  else Ret (Ok (Some event, flv)).

(** The loop; it waits, [None], when the connection has no more packets. *)
Fixpoint read_loop (semiSync : bool) (flv : filePosFlavor) (ps : packets)
  : outcome (option (result stream_error BinlogEvent) * filePosFlavor * packets) :=
  match ps with
  | [] => Ret (None, flv, [])
  | None :: ps => Ret (Some (Err ReadError), flv, ps)
  | Some packet :: ps =>
      r ← on_packet semiSync flv packet;
      match r with
      | Err e => Ret (Some (Err e), flv, ps)
      | Ok (Some ev, flv) => Ret (Some (Ok ev), flv, ps)
      | Ok (None, flv) => read_loop semiSync flv ps
      end
  end.

(** [filePosFlavor.readBinlogEvent]. *)
Definition filePos_readBinlogEvent (semiSync : bool) (flv : filePosFlavor) (ps : packets)
  : outcome (option (result stream_error BinlogEvent) * filePosFlavor * packets) :=
  match savedEvent flv with
  | Some ret => Ret (Some (Ok ret), set_saved flv None, ps)
  | None => read_loop semiSync flv ps
  end.

(** [n] calls: the events they return, or [None] when one of them fails or waits. *)
Fixpoint read_events (semiSync : bool) (n : nat) (flv : filePosFlavor) (ps : packets)
  : outcome (option (list BinlogEvent * filePosFlavor * packets)) :=
  match n with
  | O => Ret (Some ([], flv, ps))
  | S n =>
      '(r, flv, ps) ← filePos_readBinlogEvent semiSync flv ps;
      match r with
      | Some (Ok ev) =>
          rest ← read_events semiSync n flv ps;
          Ret ('(evs, flv, ps) ← rest; Some (ev :: evs, flv, ps))
      | _ => Ret None
      end
  end.

(** ** Logs

    The entries of a binary log, as a server sends them. *)
Inductive log_entry :=
| LFormat (f : BinlogFormat)
| LRotate (position : Z) (filename : list byte)
| LData (typ : byte) (data : list byte)
| LQuery (q : Query)
| LSkipped (typ : byte) (data : list byte)
| LOther (typ : byte) (data : list byte).

(** The event of an entry in a log with the format [f], made by the writer. *)
Definition entry_event (s : FakeBinlogStream) (f : BinlogFormat) (e : log_entry) : outcome BinlogEvent :=
  match e with
  | LFormat f' => NewFormatDescriptionEvent f' s
  | LRotate position filename => NewRotateEvent f s position filename
  | LQuery q => NewQueryEvent f s q
  | LData typ data | LSkipped typ data | LOther typ data => new56 (Packetize s f typ 0 data)
  end.

Definition entry_format (f : BinlogFormat) (e : log_entry) : BinlogFormat :=
  match e with LFormat f' => f' | _ => f end.

Definition entry_file (file : list byte) (e : log_entry) : list byte :=
  match e with LRotate _ filename => filename | _ => file end.

(** Types that are in no [case] of the reader. *)
Definition other_type (typ : byte) : Prop :=
  one_of (skipped_types ++ data_types ++
    [eMariaGTIDEvent; eFormatDescriptionEvent; eRotateEvent; eQueryEvent]) typ = false.

Definition entry_ok (s : FakeBinlogStream) (f : BinlogFormat) (e : log_entry) : Prop :=
  stream_ok s /\
  match e with
  | LFormat f' => format_ok f' /\ checksum_ok f' /\ packable f' (z2b eFormatDescriptionEvent) (format_data f' s)
  | LRotate position filename =>
      0 <= position < 2 ^ 64 /\ packable f (z2b eRotateEvent) (rotate_layout position filename)
  | LData typ data => one_of data_types typ = true /\ packable f typ data
  | LQuery q => query_ok q /\ SQL q <> [] /\ packable f (z2b eQueryEvent) (query_data q)
  | LSkipped typ data => one_of skipped_types typ = true /\ packable f typ data
  | LOther typ data => other_type typ /\ packable f typ data
  end.

(** What a client should see of an entry: a GTID of the file and the position after the entry and then the event, nothing for
    rotations, comments and the server's own GTIDs. *)
Definition deliveries (s : FakeBinlogStream) (file : list byte) (e : log_entry) (ev : BinlogEvent) : list BinlogEvent :=
  let event := filePosBinlogEvent (Bytes ev) false in
  let gtid ts := filePosGTIDEvent {| file := file; GtidTypes.pos := LogPosition s |} ts in
  match e with
  | LFormat _ => [event]
  | LRotate _ _ | LSkipped _ _ => []
  | LData _ _ => [gtid (StreamTimestamp s); event]
  | LQuery q => if is_comment (SQL q) then [] else [gtid (StreamTimestamp s); event]
  | LOther typ _ =>
      let ts := packet_time s typ in
      if LogPosition s =? 0 then [event] else [gtid ts; filePosQueryEvent (bs "repair") ts]
  end.

(** A whole log, read from the format [f] and the file [file] on: its packets and what a client should see. *)
Inductive log_stream (semiSync : bool) :
  BinlogFormat -> list byte -> list (FakeBinlogStream * log_entry) -> packets -> list BinlogEvent -> Prop :=
| log_nil f file : log_stream semiSync f file [] [] []
| log_cons f file s e ev p log ps evs :
    entry_ok s f e -> entry_event s f e = Ret ev -> WriteBinlogEvent ev semiSync = Ret p ->
    log_stream semiSync (entry_format f e) (entry_file file e) log ps evs ->
    log_stream semiSync f file ((s, e) :: log) (Some p :: ps) (deliveries s file e ev ++ evs).

(** ** One entry *)

Lemma open_written ev semiSync p :
  zlen (Bytes ev) + 3 <= MaxInt64 -> WriteBinlogEvent ev semiSync = Ret p ->
  exists body, p = z2b 0 :: body /\ open_packet semiSync p = Ret (Ok (Bytes ev, false)).
Proof.
  intros Hl Hw. destruct (SemiSync_roundtrip ev semiSync Hl) as (body & Hw' & Ha). rewrite Hw in Hw'.
  injection Hw' as ->. exists body. split; [done|]. unfold open_packet.
  rewrite (index_at _ [] (z2b 0) body 0) by done. cbn [mbind outcome_bind].
  change (b2z (z2b 0) =? EOFPacket) with false. change (b2z (z2b 0) =? ErrPacket) with false. cbv iota.
  rewrite (slice_from_at _ [z2b 0] body 1) by done. cbn [mbind outcome_bind]. by rewrite Ha.
Qed.

(** The reader has consumed the log up to here. *)
Definition at_log (flv : filePosFlavor) (f : BinlogFormat) (file : list byte) : Prop :=
  flv = {| flv_format := f; flv_file := file; savedEvent := None |} /\ Format_IsZero f = false /\
  19 <= b2z (HeaderLength f) /\ checksum_ok f.

Lemma type_data typ : one_of data_types typ = true ->
  one_of skipped_types typ = false /\ (b2z typ =? eMariaGTIDEvent) = false /\ (b2z typ =? eFormatDescriptionEvent) = false /\
  (b2z typ =? eRotateEvent) = false /\ (b2z typ =? eHeartbeatEvent) = false.
Proof. destruct typ; by vm_compute. Qed.

Lemma type_skipped typ : one_of skipped_types typ = true -> b2z typ <> eFormatDescriptionEvent.
Proof. destruct typ; by vm_compute. Qed.

Lemma type_other typ : other_type typ ->
  one_of skipped_types typ = false /\ (b2z typ =? eMariaGTIDEvent) = false /\ (b2z typ =? eFormatDescriptionEvent) = false /\
  (b2z typ =? eRotateEvent) = false /\ one_of data_types typ = false /\ (b2z typ =? eQueryEvent) = false.
Proof. destruct typ; by vm_compute. Qed.

Section Entry.
Context (semiSync : bool) (s : FakeBinlogStream) (f : BinlogFormat) (cur : list byte) (flv : filePosFlavor).
Context (typ : byte) (data p : list byte).
Hypothesis Hs : stream_ok s.
Hypothesis Hflv : at_log flv f cur.
Hypothesis Hf : packable f typ data.
Hypothesis Hp : WriteBinlogEvent (mysql56BinlogEvent (packet s f typ 0 data) false) semiSync = Ret p.

Lemma packet_fits : zlen (packet s f typ 0 data) + 3 <= MaxInt64.
Proof. rewrite zlen_packet by done. destruct Hf. unfold_ints. lia. Qed.

Lemma packet_opened : open_packet semiSync p = Ret (Ok (packet s f typ 0 data, false)).
Proof. destruct (open_written (mysql56BinlogEvent (packet s f typ 0 data) false) semiSync p packet_fits Hp) as (body & -> & Ho). exact Ho. Qed.

Lemma packet_Type : ev_Type (packet s f typ 0 data) = Ret typ.
Proof. by destruct (packet_valid s f typ 0 data Hs Hf) as (_ & Ht & _). Qed.

Lemma packet_Timestamp : ev_Timestamp (packet s f typ 0 data) = Ret (packet_time s typ).
Proof. by destruct (packet_valid s f typ 0 data Hs Hf) as (_ & _ & _ & _ & _ & _ & Ht). Qed.

Lemma packet_nextPosition : filePos_nextPosition (packet s f typ 0 data) f = Ret (LogPosition s).
Proof.
  unfold filePos_nextPosition. rewrite (proj2 (Z.leb_gt _ _)) by (destruct Hf; lia).
  by destruct (packet_valid s f typ 0 data Hs Hf) as (_ & _ & _ & Ht & _).
Qed.

Lemma packet_split : exists tail, packet s f typ 0 data = packet_header s f typ 0 data ++ data ++ tail.
Proof. eexists. unfold packet. by rewrite <- app_assoc. Qed.

Lemma packet_delivered ev :
  deliver_after_gtid flv (packet s f typ 0 data) ev =
  Ret (filePosGTIDEvent {| file := cur; GtidTypes.pos := LogPosition s |} (packet_time s typ), set_saved flv (Some ev)).
Proof.
  unfold deliver_after_gtid. destruct Hflv as (-> & _). cbn [flv_format flv_file].
  rewrite packet_nextPosition. cbn [mbind outcome_bind]. by rewrite packet_Timestamp.
Qed.

Lemma on_data : one_of data_types typ = true ->
  on_packet semiSync flv p =
  Ret (Ok (Some (filePosGTIDEvent {| file := cur; GtidTypes.pos := LogPosition s |} (StreamTimestamp s)),
    set_saved flv (Some (filePosBinlogEvent (packet s f typ 0 data) false)))).
Proof.
  intros Ht. destruct (type_data typ Ht) as (E1 & E2 & E3 & E4 & E5). unfold on_packet.
  rewrite packet_opened. cbn [tbind]. rewrite packet_Type. cbn [mbind outcome_bind].
  rewrite E1, E2, E3, E4. cbn [andb]. rewrite Ht, packet_delivered. cbn [mbind outcome_bind].
  unfold packet_time. by rewrite E4, E5.
Qed.

Lemma on_skipped : one_of skipped_types typ = true -> on_packet semiSync flv p = Ret (Ok (None, flv)).
Proof.
  intros Ht. unfold on_packet. rewrite packet_opened. cbn [tbind]. rewrite packet_Type. cbn [mbind outcome_bind].
  by rewrite Ht.
Qed.

Lemma on_other : other_type typ ->
  on_packet semiSync flv p =
  Ret (Ok (if LogPosition s =? 0 then (Some (filePosBinlogEvent (packet s f typ 0 data) false), flv)
    else (Some (filePosGTIDEvent {| file := cur; GtidTypes.pos := LogPosition s |} (packet_time s typ)),
      set_saved flv (Some (filePosQueryEvent (bs "repair") (packet_time s typ)))))).
Proof.
  intros Ht. destruct (type_other typ Ht) as (E1 & E2 & E3 & E4 & E5 & E6). unfold on_packet.
  rewrite packet_opened. cbn [tbind]. rewrite packet_Type. cbn [mbind outcome_bind].
  rewrite E1, E2, E3, E4. cbn [andb]. rewrite E5, E6. destruct Hflv as (Eflv & Hz & _).
  assert (flv_format flv = f) as -> by by rewrite Eflv. rewrite Hz. cbn [negb].
  rewrite packet_nextPosition. cbn [mbind outcome_bind]. destruct (LogPosition s =? 0); [done|]. cbn [negb].
  rewrite packet_Timestamp. cbn [mbind outcome_bind]. by rewrite packet_delivered.
Qed.

Lemma on_rotate position filename :
  typ = z2b eRotateEvent -> data = rotate_layout position filename -> 0 <= position < 2 ^ 64 ->
  on_packet semiSync flv p = Ret (Ok (None, set_file flv filename)).
Proof.
  intros Et Ed Hpos. unfold on_packet. rewrite packet_opened. cbn [tbind]. rewrite packet_Type. cbn [mbind outcome_bind].
  destruct Hflv as (Eflv & Hz & Hh & Hc). assert (flv_format flv = f) as -> by by rewrite Eflv. rewrite Hz.
  destruct (strip_packet s f typ 0 data Hf Hc) as [_ Hst]; [by rewrite Et|]. rewrite Hst.
  assert (one_of skipped_types typ = false /\ (b2z typ =? eMariaGTIDEvent) = false /\
    (b2z typ =? eFormatDescriptionEvent) = false /\ (b2z typ =? eRotateEvent) = true) as (-> & -> & -> & ->)
    by by rewrite Et.
  cbn [andb negb mbind outcome_bind].
  rewrite Ed at 2. by rewrite filePos_rotate_reads by (done || by apply zlen_header).
Qed.

Lemma on_format : typ = z2b eFormatDescriptionEvent -> data = format_data f s -> format_ok f ->
  on_packet semiSync flv p = Ret (Ok (Some (filePosBinlogEvent (packet s f typ 0 data) false), set_format flv f)).
Proof.
  intros Et Ed Hok. unfold on_packet. rewrite packet_opened. cbn [tbind]. rewrite packet_Type. cbn [mbind outcome_bind].
  assert (ev_Format (packet s f typ 0 data) = Ret (Ok f)) as Hr.
  { unfold packet. rewrite <- app_assoc. rewrite Ed at 2. pose proof Hok as (_ & Hh & _). apply Format_reads; [done| |].
    - rewrite zlen_header by (destruct Hf; done). done.
    - rewrite zlen_trailer. unfold has_trailer. by rewrite Et. }
  assert (one_of skipped_types typ = false /\ (b2z typ =? eMariaGTIDEvent) = false /\
    (b2z typ =? eFormatDescriptionEvent) = true) as (-> & -> & ->) by by rewrite Et.
  by rewrite Hr.
Qed.

Lemma on_query q : typ = z2b eQueryEvent -> data = query_data q -> query_ok q -> SQL q <> [] ->
  on_packet semiSync flv p =
  Ret (Ok (if is_comment (SQL q) then (None, flv)
    else (Some (filePosGTIDEvent {| file := cur; GtidTypes.pos := LogPosition s |} (StreamTimestamp s)),
      set_saved flv (Some (filePosBinlogEvent (packet s f typ 0 data) false))))).
Proof.
  intros Et Ed Hq Hne. unfold on_packet. rewrite packet_opened. cbn [tbind]. rewrite packet_Type. cbn [mbind outcome_bind].
  destruct Hflv as (Eflv & Hz & Hh & Hc). assert (flv_format flv = f) as -> by by rewrite Eflv.
  assert (exists q', ev_Query (packet s f typ 0 data) f = Ret (Ok q') /\ is_comment (SQL q') = is_comment (SQL q))
    as (q' & -> & Eq).
  { destruct packet_split as [tail ->]. pose proof (zlen_header s f typ 0 data Hh) as Hz'.
    set (h := packet_header s f typ 0 data) in *. rewrite Ed, Query_reads_data by done. eexists. split; [done|]. cbn [SQL].
    by destruct (SQL q). }
  assert (one_of skipped_types typ = false /\ (b2z typ =? eMariaGTIDEvent) = false /\
    (b2z typ =? eFormatDescriptionEvent) = false /\ (b2z typ =? eRotateEvent) = false /\
    one_of data_types typ = false /\ (b2z typ =? eQueryEvent) = true /\ packet_time s typ = StreamTimestamp s)
    as (-> & -> & -> & -> & -> & -> & Et') by by rewrite Et.
  cbn [andb mbind outcome_bind]. rewrite Eq. destruct (is_comment (SQL q)); [done|].
  rewrite packet_delivered. cbn [mbind outcome_bind]. by rewrite Et'.
Qed.
End Entry.

(** ** A whole log *)

(** Reading [ps] from the state [flv] gives exactly [evs], one event per call; the next call waits. *)
Definition reads (semiSync : bool) (flv : filePosFlavor) (ps : packets) (evs : list BinlogEvent) : Prop :=
  exists flv' rest flv'',
    read_events semiSync (length evs) flv ps = Ret (Some (evs, flv', rest)) /\
    filePos_readBinlogEvent semiSync flv' rest = Ret (None, flv'', []).

Lemma reads_same semiSync flv ps flv1 ps1 evs :
  filePos_readBinlogEvent semiSync flv ps = filePos_readBinlogEvent semiSync flv1 ps1 ->
  reads semiSync flv1 ps1 evs -> reads semiSync flv ps evs.
Proof.
  intros E (flv' & rest & flv'' & Hr & Hw). destruct evs as [|ev evs].
  - injection Hr as <- <-. exists flv, ps, flv''. split; [done|]. by rewrite E.
  - exists flv', rest, flv''. split; [|done]. cbn [length read_events] in *. by rewrite E.
Qed.

Lemma reads_cons semiSync flv ps ev flv1 ps1 evs :
  filePos_readBinlogEvent semiSync flv ps = Ret (Some (Ok ev), flv1, ps1) ->
  reads semiSync flv1 ps1 evs -> reads semiSync flv ps (ev :: evs).
Proof.
  intros E (flv' & rest & flv'' & Hr & Hw). exists flv', rest, flv''. split; [|done].
  cbn [length read_events]. rewrite E. cbn [mbind outcome_bind]. by rewrite Hr.
Qed.

(** One packet: what it delivers at once and what it saves. *)
Lemma reads_packet semiSync flv p ps o flv1 evs :
  savedEvent flv = None -> on_packet semiSync flv p = Ret (Ok (o, flv1)) -> (o = None -> savedEvent flv1 = None) ->
  reads semiSync (set_saved flv1 None) ps evs ->
  reads semiSync flv (Some p :: ps) (option_list o ++ option_list (savedEvent flv1) ++ evs).
Proof.
  intros Hn Hp Ho Hr. destruct o as [ev|]; cbn [option_list app].
  - apply (reads_cons _ _ _ _ flv1 ps).
    + unfold filePos_readBinlogEvent. rewrite Hn. cbn [read_loop]. by rewrite Hp.
    + destruct (savedEvent flv1) as [sv|] eqn:E; cbn [option_list app].
      * apply (reads_cons _ _ _ _ (set_saved flv1 None) ps); [|done]. unfold filePos_readBinlogEvent. by rewrite E.
      * assert (set_saved flv1 None = flv1) as <- by (destruct flv1; cbn in *; by subst). done.
  - rewrite (Ho eq_refl). cbn [option_list app]. apply (reads_same _ _ _ (set_saved flv1 None) ps); [|done].
    assert (set_saved flv1 None = flv1) as -> by (specialize (Ho eq_refl); destruct flv1; cbn in *; by subst).
    unfold filePos_readBinlogEvent. rewrite Hn, (Ho eq_refl). cbn [read_loop]. by rewrite Hp.
Qed.

(** One entry of a log. *)
Lemma reads_entry semiSync f cur s e ev p :
  Format_IsZero f = false -> 19 <= b2z (HeaderLength f) -> checksum_ok f ->
  entry_ok s f e -> entry_event s f e = Ret ev -> WriteBinlogEvent ev semiSync = Ret p ->
  let flv := {| flv_format := f; flv_file := cur; savedEvent := None |} in
  exists o sv, on_packet semiSync flv p =
    Ret (Ok (o, {| flv_format := entry_format f e; flv_file := entry_file cur e; savedEvent := sv |})) /\
  option_list o ++ option_list sv = deliveries s cur e ev /\ (o = None -> sv = None).
Proof.
  intros Hz Hh Hc [Hs He] Hev Hp flv. assert (at_log flv f cur) as Hflv by done.
  assert (forall f' typ data, packable f' typ data -> zlen data <= MaxInt64) as Hfit.
  { intros f' typ data [? Hl]. unfold packet_length in Hl. pose proof (b2z_range (HeaderLength f')). unfold_ints. case_match; lia. }
  assert (forall f' typ data, packable f' typ data -> new56 (Packetize s f' typ 0 data) = Ret ev ->
    ev = mysql56BinlogEvent (packet s f' typ 0 data) false) as Hnew.
  { intros f' typ data Hf E. unfold new56 in E. rewrite Packetize_packet in E by done. by injection E as <-. }
  destruct e as [f'|position filename|typ data|q|typ data|typ data]; cbn [entry_event entry_format entry_file] in *.
  - destruct He as (Hok & Hc' & Hf). rewrite NewFormatDescriptionEvent_data in Hev by (apply Hok || by eapply Hfit).
    apply Hnew in Hev as ->; [|done]. eexists _, _. erewrite on_format by done. done.
  - destruct He as (Hpos & Hf). unfold NewRotateEvent in Hev. rewrite rotate_data_layout in Hev by by eapply Hfit.
    apply Hnew in Hev as ->; [|done]. eexists _, _. erewrite on_rotate by done. done.
  - destruct He as (Ht & Hf). apply Hnew in Hev as ->; [|done]. eexists _, _. erewrite on_data by done. done.
  - destruct He as (Hq & Hne & Hf). rewrite NewQueryEvent_data in Hev by by eapply Hfit.
    apply Hnew in Hev as ->; [|done]. erewrite on_query by done. unfold deliveries.
    destruct (is_comment (SQL q)); eexists _, _; done.
  - destruct He as (Ht & Hf). apply Hnew in Hev as ->; [|done]. eexists _, _. erewrite on_skipped by done. done.
  - destruct He as (Ht & Hf). apply Hnew in Hev as ->; [|done]. erewrite on_other by done. unfold deliveries.
    destruct (LogPosition s =? 0); eexists _, _; done.
Qed.

(** Formats a log can switch to. *)
Lemma entry_format_ok s f e :
  Format_IsZero f = false -> 19 <= b2z (HeaderLength f) -> checksum_ok f -> entry_ok s f e ->
  Format_IsZero (entry_format f e) = false /\ 19 <= b2z (HeaderLength (entry_format f e)) /\ checksum_ok (entry_format f e).
Proof.
  intros Hz Hh Hc [_ He]. destruct e as [f'|position filename|typ data|q|typ data|typ data]; try done.
  destruct He as ((Hv & Hh' & _) & Hc' & _). cbn [entry_format]. unfold Format_IsZero. rewrite Hh', Hv. done.
Qed.

(** C22: reading a log through the file position flavor: for a log of format descriptions, rotations, changes, statements, GTIDs and
    other events, sent with or without semi-sync prefixes, the calls of [readBinlogEvent] return, in order and one by one,
    the events that change data, each after a GTID of the log file the last rotation named and of the position that
    follows the event, and then the reader waits for more. *)
Theorem filePos_reads_log (semiSync : bool) (f : BinlogFormat) (cur : list byte)
    (log : list (FakeBinlogStream * log_entry)) (ps : packets) (evs : list BinlogEvent) :
  Format_IsZero f = false -> 19 <= b2z (HeaderLength f) -> checksum_ok f ->
  log_stream semiSync f cur log ps evs ->
  reads semiSync {| flv_format := f; flv_file := cur; savedEvent := None |} ps evs.
Proof.
  intros Hz Hh Hc Hlog. induction Hlog as [f cur|f cur s e ev p log ps evs He Hev Hp Hlog IH].
  - eexists _, _, _. done.
  - destruct (reads_entry semiSync f cur s e ev p Hz Hh Hc He Hev Hp) as (o & sv & Hon & Hd & Ho).
    rewrite <- Hd, <- app_assoc.
    apply (reads_packet semiSync _ p ps o
      {| flv_format := entry_format f e; flv_file := entry_file cur e; savedEvent := sv |} evs); [done|exact Hon|done|].
    apply IH; apply (entry_format_ok s f e); done.
Qed.

(** The third byte of the length of a short event. *)
Lemma length_byte s f typ flags data rest :
  0 <= packet_length f typ data < 2 ^ 16 ->
  index (z2b 0 :: packet_header s f typ flags data ++ rest) 12 = Ret (z2b 0).
Proof.
  intros Hl. unfold packet_header. set (n := packet_length f typ data) in *.
  assert (binary.le_bytes 4 n = [z2b n; byte_at n 8; z2b 0; z2b 0]) as ->.
  { destruct (le_bytes_shifts n) as (_ & _ & -> & _). unfold byte_at.
    rewrite (Z.shiftr_div_pow2 n 16), (Z.shiftr_div_pow2 n 24), !Z.div_small by lia. done. }
  eapply (index_at _ (z2b 0 :: binary.le_bytes 4 (packet_time s typ) ++ [typ] ++ binary.le_bytes 4 (StreamServerID s) ++
    [z2b n; byte_at n 8])); [cbn [app]; by rewrite <- !app_assoc|len].
Qed.

(** The reader takes the flags of a MariaDB GTID event from the packet header instead of the event: the byte it looks at
    is the third of the event's length.  It reports the start of a transaction for every such event, standalone or
    not. *)
Theorem filePos_MariaGTID_begins (f : BinlogFormat) (s : FakeBinlogStream) (gtid : MariadbGTID) (hasBegin : bool)
    (flv : filePosFlavor) :
  stream_ok s -> 19 <= b2z (HeaderLength f) -> 0 <= MSequence gtid < 2 ^ 64 -> 0 <= Domain gtid < 2 ^ 32 ->
  exists ev p g, NewMariaDBGTIDEvent f s gtid hasBegin = Ret ev /\ WriteBinlogEvent ev false = Ret p /\
    event_GTID ev f = Ret (Some g, hasBegin) /\
    on_packet false flv p = Ret (Ok (Some (filePosQueryEvent (bs "begin") (StreamTimestamp s)), flv)).
Proof.
  intros Hs Hh Hseq Hdom. destruct (MariadbGTID_roundtrip f s gtid hasBegin) as (ev & E & _ & _ & Hg); [done..|].
  exists ev. rewrite NewMariaDBGTIDEvent_packet in E by done. injection E as <-.
  set (typ := z2b eMariaGTIDEvent) in *. set (data := mariadb_gtid_data gtid hasBegin) in *.
  assert (packable f typ data) as Hf by by apply packable_small.
  set (ev := mariadbBinlogEvent (packet s f typ 0 data) false) in *.
  pose proof (packet_fits s f typ data Hf) as Hl. destruct (SemiSync_roundtrip ev false Hl) as (body & Hw & Ha).
  injection Ha as Hbody. change (Bytes ev) with (packet s f typ 0 data) in Hbody. subst body.
  eexists _, _. split_and!; [by rewrite NewMariaDBGTIDEvent_packet|exact Hw|exact Hg|].
  destruct (open_written ev false _ Hl Hw) as (body & _ & Hopen). unfold on_packet. rewrite Hopen. cbn [tbind].
  change (Bytes ev) with (packet s f typ 0 data).
  destruct (packet_valid s f typ 0 data Hs Hf) as (_ & -> & _ & _ & _ & _ & ->); [done|]. cbn [mbind outcome_bind].
  change (one_of skipped_types typ) with false. change (b2z typ =? eMariaGTIDEvent) with true. cbv iota.
  unfold packet at 1. cbv zeta. rewrite <- app_assoc, length_byte; [done|].
  pose proof (b2z_range (HeaderLength f)). unfold packet_length. change (zlen data) with 13. case_match; lia.
Qed.

(** ** Witnesses *)

Definition at_position (n : Z) : FakeBinlogStream := {| StreamServerID := 1; LogPosition := n; StreamTimestamp := 1407805592 |}.

(** A rotation, a statement, its commit, and a heartbeat. *)
Definition sample_log : list (FakeBinlogStream * log_entry) :=
  [(at_position 0, LRotate 4 (bs "vt-bin.000002")); (at_position 200, LQuery sample_query);
   (at_position 231, LData (z2b eXIDEvent) (zeros 8)); (at_position 0, LOther (z2b eHeartbeatEvent) [])].

Lemma filePos_reads_log_witness :
  exists ps evs, log_stream true NewMySQL56BinlogFormat (bs "vt-bin.000001") sample_log ps evs /\ length evs = 5%nat /\
  reads true {| flv_format := NewMySQL56BinlogFormat; flv_file := bs "vt-bin.000001"; savedEvent := None |} ps evs.
Proof.
  eassert (log_stream true NewMySQL56BinlogFormat (bs "vt-bin.000001") sample_log ?[ps] ?[evs]) as Hlog.
  { eapply log_cons; [by vm_compute|vm_compute; reflexivity|vm_compute; reflexivity|].
    eapply log_cons; [by vm_compute|vm_compute; reflexivity|vm_compute; reflexivity|].
    eapply log_cons; [by vm_compute|vm_compute; reflexivity|vm_compute; reflexivity|].
    eapply log_cons; [by vm_compute|vm_compute; reflexivity|vm_compute; reflexivity|]. apply log_nil. }
  eexists _, _. split; [exact Hlog|]. split; [reflexivity|].
  refine (filePos_reads_log true _ _ sample_log _ _ _ _ _ Hlog); [reflexivity|by vm_compute|by right].
Defined.

Lemma filePos_MariaGTID_begins_witness :
  exists ev p g, NewMariaDBGTIDEvent NewMariaDBBinlogFormat NewFakeBinlogStream
      {| Domain := 0; MServer := 62344; MSequence := 9 |} false = Ret ev /\ WriteBinlogEvent ev false = Ret p /\
    event_GTID ev NewMariaDBBinlogFormat = Ret (Some g, false) /\
    on_packet false newFilePosFlavor p =
      Ret (Ok (Some (filePosQueryEvent (bs "begin") 1407805592), newFilePosFlavor)).
Proof.
  apply (filePos_MariaGTID_begins NewMariaDBBinlogFormat NewFakeBinlogStream
    {| Domain := 0; MServer := 62344; MSequence := 9 |} false newFilePosFlavor);
    [exact stream_ok_new|by vm_compute|by vm_compute|by vm_compute].
Defined.
