(* ===== verification/BinlogRows.v ===== *)
(** * Row events of the binary log

    The bitmaps, table maps and rows of [go/mysql/binlog_event.go] and [binlog_event_rbr.go], with the writers
    of [binlog_event_make.go].  A table map event names the columns of a table; a rows event then has, per row, a
    bitmap of null columns and the values one after the other, without separators: [cellLength] says where each one
    ends.  The theorems are the round trips through the writer, how the reader ends, and the event it does not end
    on. *)

From S2P Require Import Prelude Intervals GoStd GtidTypes Gtid56 Encoding SqlTypes Position Binlog.

(** ** Column types *)

(** [case t1, t2, ...:]. *)
Definition typ_in (typ : byte) (types : list Z) : bool := existsb (Z.eqb (b2z typ)) types.

(** ** Bitmaps *)

Record Bitmap := { bm_data : list byte; bm_count : Z }.

#[export] Instance Bitmap_eq_dec : EqDecision Bitmap.
Proof. solve_decision. Defined.

Definition byteSize (count : Z) : Z := Z.quot (add64 count 7) 8.

(** [newBitmap] and [NewServerBitmap]. *)
Definition newBitmap (data : list byte) (pos count : Z) : outcome (Bitmap * Z) :=
  s ← slice data pos (add64 pos (byteSize count));
  Ret ({| bm_data := s; bm_count := count |}, add64 pos (byteSize count)).

Definition NewServerBitmap (count : Z) : outcome Bitmap :=
  s ← make_bytes (byteSize count);
  Ret {| bm_data := s; bm_count := count |}.

(** [byte(1 << (uint(index) & 0x7))]. *)
Definition bitMask (index : Z) : byte := z2b (Z.shiftl 1 (Z.land (uint64 index) 7)).

(** [Bitmap.Bit], [Bitmap.Set] and [Bitmap.BitCount]. *)
Definition Bit (b : Bitmap) (i : Z) : outcome bool :=
  x ← index (bm_data b) (Z.quot i 8);
  Ret (0 <? Z.land (b2z x) (b2z (bitMask i))).

Definition Set_ (b : Bitmap) (i : Z) (value : bool) : outcome Bitmap :=
  let byteIndex := Z.quot i 8 in
  x ← index (bm_data b) byteIndex;
  let x' := if value then Z.lor (b2z x) (b2z (bitMask i)) else Z.land (b2z x) (0xff - b2z (bitMask i)) in
  data ← store (bm_data b) byteIndex (z2b x');
  Ret {| bm_data := data; bm_count := bm_count b |}.

Fixpoint bit_count (b : Bitmap) (n : nat) (i sum : Z) : outcome Z :=
  match n with
  | O => Ret sum
  | S n => bit ← Bit b i; bit_count b n (i + 1) (if bit : bool then sum + 1 else sum)
  end.

Definition BitCount (b : Bitmap) : outcome Z := bit_count b (Z.to_nat (bm_count b)) 0 0.

(** ** Table maps *)

Record TableMap := {
  TFlags : Z;
  TDatabase : list byte;
  TName : list byte;
  Types : list byte;
  CanBeNull : Bitmap;
  Metadata : list Z
}.

#[export] Instance TableMap_eq_dec : EqDecision TableMap.
Proof. solve_decision. Defined.

(** The cases of [metadataLength], [metadataRead] and [metadataWrite]. *)
Definition no_metadata : list Z :=
  [TypeDecimal; TypeTiny; TypeShort; TypeLong; TypeNull; TypeTimestamp; TypeLongLong; TypeInt24; TypeDate; TypeTime;
   TypeDateTime; TypeYear; TypeNewDate].
Definition byte_metadata : list Z :=
  [TypeFloat; TypeDouble; TypeTimestamp2; TypeDateTime2; TypeTime2; TypeJSON; TypeTinyBlob; TypeMediumBlob;
   TypeLongBlob; TypeBlob; TypeGeometry].
Definition be_metadata : list Z := [TypeNewDecimal; TypeEnum; TypeSet; TypeString].
Definition le_metadata : list Z := [TypeVarchar; TypeBit; TypeVarString].

(** [metadataLength] and [metadataTotalLength]. *)
Definition metadataLength (typ : byte) : outcome Z :=
  if typ_in typ no_metadata then Ret 0
  else if typ_in typ byte_metadata then Ret 1
  else if typ_in typ be_metadata then Ret 2
  else if typ_in typ le_metadata then Ret 2
  else Panic.

Fixpoint metadata_sum (types : list byte) (sum : Z) : outcome Z :=
  match types with
  | [] => Ret sum
  | t :: types => n ← metadataLength t; metadata_sum types (sum + n)
  end.

Definition metadataTotalLength (types : list byte) : outcome Z := metadata_sum types 0.

(** [metadataRead]: the value and the position after it. *)
Definition metadataRead (data : list byte) (pos : Z) (typ : byte) : outcome (result binlog_error (Z * Z)) :=
  if typ_in typ no_metadata then Ret (Ok (0, pos))
  else if typ_in typ byte_metadata then b ← index data pos; Ret (Ok (b2z b, pos + 1))
  else if typ_in typ be_metadata then
    b0 ← index data pos; b1 ← index data (pos + 1);
    Ret (Ok (uint16 (Z.shiftl (b2z b0) 8 + b2z b1), pos + 2))
  else if typ_in typ le_metadata then
    b0 ← index data pos; b1 ← index data (pos + 1);
    Ret (Ok (uint16 (b2z b0 + Z.shiftl (b2z b1) 8), pos + 2))
  else Ret (Err (UnhandledMetadataType typ)).

(** [metadataWrite]. *)
Definition metadataWrite (data : list byte) (pos : Z) (typ : byte) (value : Z) : outcome (list byte * Z) :=
  if typ_in typ no_metadata then Ret (data, pos)
  else if typ_in typ byte_metadata then data ← store data pos (z2b value); Ret (data, pos + 1)
  else if typ_in typ be_metadata then
    data ← store_seq data pos 0 [byte_at value 8; z2b value]; Ret (data, pos + 2)
  else if typ_in typ le_metadata then
    data ← store_seq data pos 0 [z2b value; byte_at value 8]; Ret (data, pos + 2)
  else Panic.

(** The loop of [binlogEvent.TableMap] over the columns. *)
Fixpoint read_metadata (data : list byte) (pos : Z) (types : list byte) : outcome (result binlog_error (list Z * Z)) :=
  match types with
  | [] => Ret (Ok ([], pos))
  | t :: types =>
      '(m, pos) ←? metadataRead data pos t;
      '(ms, pos) ←? read_metadata data pos types;
      Ret (Ok (m :: ms, pos))
  end.

(** The length of the table id in an event of this type. *)
Definition id_length (f : BinlogFormat) (typ : byte) : outcome Z :=
  size ← HeaderSize f typ; Ret (if b2z size =? 6 then 4 else 6).

(** A name after its length, and the position after its terminator. *)
Definition read_name (data : list byte) (pos : Z) : outcome (list byte * Z) :=
  l ← index data pos;
  name ← slice data (pos + 1) (pos + 1 + b2z l);
  Ret (name, pos + (1 + b2z l + 1)).

(** The columns of a table map: types, metadata and the bitmap of those that can be null. *)
Definition read_table_columns (data : list byte) (pos : Z)
  : outcome (result binlog_error (list byte * list Z * Bitmap)) :=
  '(columnCount, read, ok) ← readLenEncInt data pos;
  if negb ok then Ret (Err (ExpectedColumnCount pos))
  else
    let pos := read in
    let n := int64 columnCount in
    types ← slice data pos (add64 pos n);
    let pos := add64 pos n in
    '(metaLen, read, ok) ← readLenEncInt data pos;
    if negb ok then Ret (Err (ExpectedMetadataLength pos))
    else
      let pos := read in
      let expectedEnd := add64 pos (int64 metaLen) in
      '(metadata, pos) ←? read_metadata data pos types;
      if negb (pos =? expectedEnd) then Ret (Err (UnexpectedMetadataEnd pos expectedEnd))
      else
        '(nulls, _) ← newBitmap data pos n;
        Ret (Ok (types, metadata, nulls)).

(** [binlogEvent.TableMap]. *)
Definition ev_TableMap (ev : list byte) (f : BinlogFormat) : outcome (result binlog_error TableMap) :=
  data ← after_header ev f;
  pos ← id_length f (z2b eTableMapEvent);
  flags ← uint_at 2 data pos;
  let pos := pos + 2 in
  '(db, pos) ← read_name data pos;
  '(name, pos) ← read_name data pos;
  '(types, metadata, nulls) ←? read_table_columns data pos;
  Ret (Ok {| TFlags := flags; TDatabase := db; TName := name; Types := types; CanBeNull := nulls;
             Metadata := metadata |}).

(** ** Cells *)

Definition dig2bytes : list Z := [0; 1; 1; 2; 2; 3; 3; 4; 4; 4].

(** The value of the [n] bytes at [pos], least significant first, as the code adds them up. *)
Fixpoint le_at (data : list byte) (pos : Z) (n : nat) : outcome Z :=
  match n with
  | O => Ret 0
  | S n => b ← index data pos; r ← le_at data (pos + 1) n; Ret (Z.lor (b2z b) (Z.shiftl r 8))
  end.

(** The size of a decimal of the given precision and scale. *)
Definition decimal_size (precision scale : Z) : outcome Z :=
  let intg := precision - scale in
  let intg0 := Z.quot intg 9 in
  let frac0 := Z.quot scale 9 in
  let intg0x := intg - intg0 * 9 in
  let frac0x := scale - frac0 * 9 in
  di ← index dig2bytes intg0x;
  df ← index dig2bytes frac0x;
  Ret (intg0 * 4 + di + frac0 * 4 + df).

(** [cellLength]. *)
Definition cellLength (data : list byte) (pos : Z) (typ : byte) (metadata : Z) : outcome (result binlog_error Z) :=
  if typ_in typ [TypeNull] then Ret (Ok 0)
  else if typ_in typ [TypeTiny; TypeYear] then Ret (Ok 1)
  else if typ_in typ [TypeShort] then Ret (Ok 2)
  else if typ_in typ [TypeInt24] then Ret (Ok 3)
  else if typ_in typ [TypeLong; TypeFloat; TypeTimestamp] then Ret (Ok 4)
  else if typ_in typ [TypeLongLong; TypeDouble] then Ret (Ok 8)
  else if typ_in typ [TypeDate; TypeTime; TypeNewDate] then Ret (Ok 3)
  else if typ_in typ [TypeDateTime] then Ret (Ok 8)
  else if typ_in typ [TypeVarchar; TypeVarString] then
    if 255 <? metadata then l ← le_at data pos 2; Ret (Ok (l + 2))
    else l ← le_at data pos 1; Ret (Ok (l + 1))
  else if typ_in typ [TypeBit] then
    let nbits := uint16 (uint16 (Z.shiftr metadata 8 * 8) + Z.land metadata 0xFF) in
    Ret (Ok (Z.quot (nbits + 7) 8))
  else if typ_in typ [TypeTimestamp2] then Ret (Ok (4 + Z.quot (metadata + 1) 2))
  else if typ_in typ [TypeDateTime2] then Ret (Ok (5 + Z.quot (metadata + 1) 2))
  else if typ_in typ [TypeTime2] then Ret (Ok (3 + Z.quot (metadata + 1) 2))
  else if typ_in typ [TypeNewDecimal] then
    n ← decimal_size (Z.shiftr metadata 8) (Z.land metadata 0xff); Ret (Ok n)
  else if typ_in typ [TypeEnum; TypeSet] then Ret (Ok (Z.land metadata 0xff))
  else if typ_in typ [TypeJSON; TypeTinyBlob; TypeMediumBlob; TypeLongBlob; TypeBlob; TypeGeometry] then
    if (1 <=? metadata) && (metadata <=? 4) then
      l ← le_at data pos (Z.to_nat metadata); Ret (Ok (metadata + l))
    else Ret (Err (UnsupportedBlobMetadata metadata))
  else if typ_in typ [TypeString] then
    let t := Z.shiftr metadata 8 in
    if (t =? TypeEnum) || (t =? TypeSet) then Ret (Ok (Z.land metadata 0xff))
    else
      let max := Z.lxor (Z.land (Z.shiftr metadata 4) 0x300) 0x300 + Z.land metadata 0xff in
      if 255 <? max then l ← le_at data pos 2; Ret (Ok (l + 2))
      else l ← le_at data pos 1; Ret (Ok (l + 1))
  else Ret (Err (UnsupportedType typ)).

(** ** Rows *)

Record Row := { NullIdentifyColumns : Bitmap; NullColumns : Bitmap; Identify : list byte; Data : list byte }.
Record Rows := { RFlags : Z; IdentifyColumns : Bitmap; DataColumns : Bitmap; RRows : list Row }.

#[export] Instance Row_eq_dec : EqDecision Row.
Proof. solve_decision. Defined.
#[export] Instance Rows_eq_dec : EqDecision Rows.
Proof. solve_decision. Defined.

Definition no_bitmap : Bitmap := {| bm_data := []; bm_count := 0 |}.

Definition hasIdentify (typ : byte) : bool :=
  typ_in typ [eUpdateRowsEventV1; eUpdateRowsEventV2; eDeleteRowsEventV1; eDeleteRowsEventV2].
Definition hasData (typ : byte) : bool :=
  typ_in typ [eWriteRowsEventV1; eWriteRowsEventV2; eUpdateRowsEventV1; eUpdateRowsEventV2].

(** The loop over the columns [c], ..., [c + n - 1] of a row: the position after the values. *)
Fixpoint skip_cells (tm : TableMap) (cols nulls : Bitmap) (data : list byte) (n : nat) (c valueIndex pos : Z)
  : outcome (result binlog_error Z) :=
  match n with
  | O => Ret (Ok pos)
  | S n =>
      present ← Bit cols c;
      if negb present then skip_cells tm cols nulls data n (c + 1) valueIndex pos
      else
        null ← Bit nulls valueIndex;
        if null : bool then skip_cells tm cols nulls data n (c + 1) (valueIndex + 1) pos
        else
          typ ← index (Types tm) c;
          metadata ← index (Metadata tm) c;
          l ←? cellLength data pos typ metadata;
          skip_cells tm cols nulls data n (c + 1) (valueIndex + 1) (pos + l)
  end.

(** The null bitmap and the values of one image of a row. *)
Definition read_image (tm : TableMap) (cols : Bitmap) (num columnCount : Z) (data : list byte) (pos : Z)
  : outcome (result binlog_error (Bitmap * list byte * Z)) :=
  '(nulls, startPos) ← newBitmap data pos num;
  pos ←? skip_cells tm cols nulls data (Z.to_nat columnCount) 0 0 startPos;
  values ← slice data startPos pos;
  Ret (Ok (nulls, values, pos)).

(** The same for an image the event may not have. *)
Definition read_image_if (has : bool) (tm : TableMap) (cols : Bitmap) (num columnCount : Z) (data : list byte) (pos : Z)
  : outcome (result binlog_error (Bitmap * list byte * Z)) :=
  if has then read_image tm cols num columnCount data pos else Ret (Ok (no_bitmap, [], pos)).

(** The loop over the rows; [None] when the fuel is used up. *)
Fixpoint rows_loop (fuel : nat) (identify hasdata : bool) (tm : TableMap) (icols dcols : Bitmap)
    (numI numD columnCount : Z) (data : list byte) (pos : Z) (rows : list Row)
  : option (outcome (result binlog_error (list Row))) :=
  if zlen data <=? pos then Some (Ret (Ok rows))
  else
    match fuel with
    | O => None
    | S fuel =>
        match
          '(nulli, ivals, pos) ←? read_image_if identify tm icols numI columnCount data pos;
          '(nulld, dvals, pos) ←? read_image_if hasdata tm dcols numD columnCount data pos;
          Ret (Ok ({| NullIdentifyColumns := nulli; NullColumns := nulld; Identify := ivals; Data := dvals |}, pos))
        with
        | Panic => Some Panic
        | Ret (Err e) => Some (Ret (Err e))
        | Ret (Ok (row, pos)) =>
            rows_loop fuel identify hasdata tm icols dcols numI numD columnCount data pos (rows ++ [row])
        end
    end.

(** The bitmap of the columns an image has, if the event has that image, and how many they are. *)
Definition read_columns (has : bool) (data : list byte) (pos columnCount : Z) : outcome (Bitmap * Z * Z) :=
  if has then
    '(b, pos) ← newBitmap data pos columnCount;
    n ← BitCount b;
    Ret (b, n, pos)
  else Ret (no_bitmap, 0, pos).

(** The number of columns and the columns of the images, and where the rows start. *)
Definition rows_columns (typ : byte) (data : list byte) (pos : Z)
  : outcome (result binlog_error (Z * (Bitmap * Z) * (Bitmap * Z) * Z)) :=
  '(columnCount, read, ok) ← readLenEncInt data pos;
  if negb ok then Ret (Err (ExpectedColumnCount pos))
  else
    let n := int64 columnCount in
    '(icols, numI, pos) ← read_columns (hasIdentify typ) data read n;
    '(dcols, numD, pos) ← read_columns (hasData typ) data pos n;
    Ret (Ok (n, (icols, numI), (dcols, numD), pos)).

(** [binlogEvent.Rows] up to the loop. *)
Definition rows_header (ev : list byte) (f : BinlogFormat)
  : outcome (result binlog_error (byte * list byte * Z * (Z * (Bitmap * Z) * (Bitmap * Z) * Z))) :=
  typ ← ev_Type ev;
  data ← after_header ev f;
  pos ← id_length f typ;
  flags ← uint_at 2 data pos;
  let pos := pos + 2 in
  pos ← (if typ_in typ [eWriteRowsEventV2; eUpdateRowsEventV2; eDeleteRowsEventV2] then
           extraDataLength ← uint_at 2 data pos; Ret (pos + extraDataLength)
         else Ret pos);
  columns ←? rows_columns typ data pos;
  Ret (Ok (typ, data, flags, columns)).

(** [binlogEvent.Rows]. *)
Definition ev_Rows (fuel : nat) (ev : list byte) (f : BinlogFormat) (tm : TableMap)
  : option (outcome (result binlog_error Rows)) :=
  match rows_header ev f with
  | Panic => Some Panic
  | Ret (Err e) => Some (Ret (Err e))
  | Ret (Ok (typ, data, flags, (n, (icols, numI), (dcols, numD), pos))) =>
      r ← rows_loop fuel (hasIdentify typ) (hasData typ) tm icols dcols numI numD n data pos [];
      Some (rows ←? r;
            Ret (Ok {| RFlags := flags; IdentifyColumns := icols; DataColumns := dcols; RRows := rows |}))
  end.

(** ** Making row events, [binlog_event_make.go] *)

(** [for c, typ := range tm.Types { pos = metadataWrite(data, pos, typ, tm.Metadata[c]) }]. *)
Fixpoint write_metadata (data : list byte) (pos : Z) (types : list byte) (metadata : list Z) (c : Z)
  : outcome (list byte * Z) :=
  match types with
  | [] => Ret (data, pos)
  | t :: types =>
      m ← index metadata c;
      '(data, pos) ← metadataWrite data pos t m;
      write_metadata data pos types metadata (c + 1)
  end.

(** [data[pos] = byte(len(name)); copy(data[pos+1:], name); data[...] = 0]: the position after the
    terminator. *)
Definition write_name (data : list byte) (pos : Z) (name : list byte) : outcome (list byte * Z) :=
  data ← store data pos (z2b (zlen name));
  '(data, n) ← copy_at data (pos + 1) name;
  let pos := pos + (1 + n) in
  data ← store data pos (z2b 0);
  Ret (data, pos + 1).

(** [pos += copy(data[pos:], src)]. *)
Definition append_copy (data : list byte) (pos : Z) (src : list byte) : outcome (list byte * Z) :=
  '(data, n) ← copy_at data pos src; Ret (data, pos + n).

(** What [NewTableMapEvent] writes behind the flags. *)
Definition write_columns (tm : TableMap) (metaLength : Z) (data : list byte) (pos : Z) : outcome (list byte * Z) :=
  '(data, pos) ← write_name data pos (TDatabase tm);
  '(data, pos) ← write_name data pos (TName tm);
  '(data, pos) ← writeLenEncInt data pos (uint64 (zlen (Types tm)));
  '(data, pos) ← append_copy data pos (Types tm);
  '(data, pos) ← writeLenEncInt data pos (uint64 metaLength);
  '(data, pos) ← write_metadata data pos (Types tm) (Metadata tm) 0;
  append_copy data pos (bm_data (CanBeNull tm)).

(** [NewTableMapEvent]. *)
Definition NewTableMapEvent (f : BinlogFormat) (s : FakeBinlogStream) (tableID : Z) (tm : TableMap)
  : outcome BinlogEvent :=
  size ← HeaderSize f (z2b eTableMapEvent);
  if negb (b2z size =? 8) then Panic
  else
    metaLength ← metadataTotalLength (Types tm);
    data ← make_bytes (6 + 2 + 1 + zlen (TDatabase tm) + 1 + 1 + zlen (TName tm) + 1 +
      lenEncIntSize (uint64 (zlen (Types tm))) + zlen (Types tm) +
      lenEncIntSize (uint64 metaLength) + metaLength + zlen (bm_data (CanBeNull tm)));
    data ← store_seq data 0 0 (le_seq 6 tableID ++ le_seq 2 (TFlags tm));
    '(data, pos) ← write_columns tm metaLength data 8;
    if negb (pos =? zlen data) then Panic
    else buf ← Packetize s f (z2b eTableMapEvent) 0 data; Ret (mariadbBinlogEvent buf false).

(** [if has { pos += copy(data[pos:], a); pos += copy(data[pos:], b) }]. *)
Definition append_if (has : bool) (data : list byte) (pos : Z) (a b : list byte) : outcome (list byte * Z) :=
  if has then '(data, pos) ← append_copy data pos a; append_copy data pos b else Ret (data, pos).

Fixpoint write_rows (identify hasdata : bool) (data : list byte) (pos : Z) (rows : list Row)
  : outcome (list byte * Z) :=
  match rows with
  | [] => Ret (data, pos)
  | row :: rows =>
      '(data, pos) ← append_if identify data pos (bm_data (NullIdentifyColumns row)) (Identify row);
      '(data, pos) ← append_if hasdata data pos (bm_data (NullColumns row)) (Data row);
      write_rows identify hasdata data pos rows
  end.

Definition row_size (row : Row) : Z :=
  zlen (bm_data (NullIdentifyColumns row)) + zlen (bm_data (NullColumns row)) + zlen (Identify row) + zlen (Data row).

(** What [newRowsEvent] writes from the number of columns on. *)
Definition write_rows_body (typ : byte) (rowLen : Z) (rows : Rows) (data : list byte) (pos : Z) : outcome (list byte * Z) :=
  '(data, pos) ← writeLenEncInt data pos (uint64 rowLen);
  '(data, pos) ← (if hasIdentify typ then append_copy data pos (bm_data (IdentifyColumns rows)) else Ret (data, pos));
  '(data, pos) ← (if hasData typ then append_copy data pos (bm_data (DataColumns rows)) else Ret (data, pos));
  write_rows (hasIdentify typ) (hasData typ) data pos (RRows rows).

(** [newRowsEvent]. *)
Definition newRowsEvent (f : BinlogFormat) (s : FakeBinlogStream) (typ : byte) (tableID : Z) (rows : Rows)
  : outcome BinlogEvent :=
  size ← HeaderSize f typ;
  if b2z size =? 6 then Panic
  else
    let rowLen := if hasIdentify typ then bm_count (IdentifyColumns rows) else bm_count (DataColumns rows) in
    data ← make_bytes (foldl (fun n row => n + row_size row)
      (6 + 2 + 2 + lenEncIntSize (uint64 rowLen) + zlen (bm_data (IdentifyColumns rows)) +
       zlen (bm_data (DataColumns rows))) (RRows rows));
    data ← store_seq data 0 0 (le_seq 6 tableID ++ le_seq 2 (RFlags rows) ++ [z2b 2; z2b 0]);
    '(data, _) ← write_rows_body typ rowLen rows data 10;
    new56 (Packetize s f typ 0 data).

(** [NewWriteRowsEvent], [NewUpdateRowsEvent] and [NewDeleteRowsEvent]. *)
Definition NewWriteRowsEvent (f : BinlogFormat) (s : FakeBinlogStream) : Z -> Rows -> outcome BinlogEvent :=
  newRowsEvent f s (z2b eWriteRowsEventV2).
Definition NewUpdateRowsEvent (f : BinlogFormat) (s : FakeBinlogStream) : Z -> Rows -> outcome BinlogEvent :=
  newRowsEvent f s (z2b eUpdateRowsEventV2).
Definition NewDeleteRowsEvent (f : BinlogFormat) (s : FakeBinlogStream) : Z -> Rows -> outcome BinlogEvent :=
  newRowsEvent f s (z2b eDeleteRowsEventV2).

(** ** Bits *)

(** A bitmap of [count] bits, as the readers and [NewServerBitmap] make them. *)
Definition bitmap_ok (b : Bitmap) : Prop :=
  0 <= bm_count b <= MaxInt64 - 7 /\ zlen (bm_data b) = (bm_count b + 7) / 8.

(** The bit [i]. *)
Definition bit_at (b : Bitmap) (i : Z) : bool :=
  Z.testbit (b2z (default (z2b 0) (bm_data b !! Z.to_nat (i / 8)))) (i mod 8).

Lemma b2z_bitMask i : 0 <= i < 2 ^ 64 -> b2z (bitMask i) = 2 ^ (i mod 8).
Proof.
  intros Hi. unfold bitMask, uint64, wrapU. rewrite (Z.mod_small i) by done.
  change 7 with (Z.ones 3). rewrite Z.land_ones by lia. change (2 ^ 3) with 8. rewrite b2z_z2b, Z.shiftl_1_l.
  apply Z.mod_small. pose proof (Z.mod_pos_bound i 8). split; [apply Z.pow_nonneg; lia|].
  change 256 with (2 ^ 8). apply Z.pow_lt_mono_r; lia.
Qed.

Lemma land_pow2 v k : 0 <= v -> 0 <= k -> (0 <? Z.land v (2 ^ k)) = Z.testbit v k.
Proof.
  intros Hv Hk. assert (Z.land v (2 ^ k) = if Z.testbit v k then 2 ^ k else 0) as ->.
  { apply Z.bits_inj'. intros n Hn. rewrite Z.land_spec, Z.pow2_bits_eqb by done.
    destruct (Z.eqb_spec k n) as [->|Hne].
    - rewrite andb_true_r. destruct (Z.testbit v n) eqn:E; [by rewrite Z.pow2_bits_true|by rewrite Z.bits_0].
    - rewrite andb_false_r. destruct (Z.testbit v k); [by rewrite Z.pow2_bits_false|by rewrite Z.bits_0]. }
  destruct (Z.testbit v k); [|done]. apply Z.ltb_lt. apply Z.pow_pos_nonneg; lia.
Qed.

Lemma Bit_at b i : 0 <= i < 2 ^ 64 -> i < 8 * zlen (bm_data b) -> Bit b i = Ret (bit_at b i).
Proof.
  intros Hi Hl. unfold Bit, bit_at. rewrite Z.quot_div_nonneg by lia.
  assert (0 <= i / 8 < zlen (bm_data b)) as Hd by (split; [apply Z.div_pos; lia|apply Z.div_lt_upper_bound; lia]).
  unfold index. replace (_ && _) with true by (symmetry; apply andb_true_iff; lia).
  destruct (lookup_lt_is_Some_2 (bm_data b) (Z.to_nat (i / 8))) as [x Hx]; [unfold zlen in Hd; lia|].
  rewrite Hx. cbn [mbind outcome_bind default from_option]. f_equal. rewrite b2z_bitMask by lia.
  apply land_pow2; [apply b2z_range|]. pose proof (Z.mod_pos_bound i 8). lia.
Qed.

Lemma bitmap_bits b i : bitmap_ok b -> 0 <= i < bm_count b -> Bit b i = Ret (bit_at b i).
Proof.
  intros [Hc Hd] Hi. apply Bit_at; [unfold MaxInt64 in *; lia|]. rewrite Hd.
  assert (bm_count b <= 8 * ((bm_count b + 7) / 8)); [|lia]. pose proof (Z.div_mod (bm_count b + 7) 8).
  pose proof (Z.mod_pos_bound (bm_count b + 7) 8). lia.
Qed.

(** The byte [Set] writes. *)
Lemma set_bit x k m (value : bool) :
  0 <= x < 256 -> 0 <= k < 8 -> 0 <= m < 8 ->
  Z.testbit (b2z (z2b (if value then Z.lor x (2 ^ k) else Z.land x (0xff - 2 ^ k)))) m =
  if decide (m = k) then value else Z.testbit x m.
Proof.
  intros Hx Hk Hm. rewrite b2z_z2b. change 256 with (2 ^ 8). rewrite Z.mod_pow2_bits_low by lia. destruct value.
  - rewrite Z.lor_spec, Z.pow2_bits_eqb by lia.
    case_decide as E; [subst; by rewrite Z.eqb_refl, orb_true_r|].
    rewrite (proj2 (Z.eqb_neq k m)) by lia. apply orb_false_r.
  - assert (0xff - 2 ^ k = Z.ldiff 0xff (2 ^ k)) as ->.
    { assert (k = 0 \/ k = 1 \/ k = 2 \/ k = 3 \/ k = 4 \/ k = 5 \/ k = 6 \/ k = 7) as Hcases by lia.
      by repeat destruct Hcases as [-> | Hcases]; [..|subst]. }
    rewrite Z.land_spec, Z.ldiff_spec, Z.pow2_bits_eqb by lia.
    change 0xff with (Z.ones 8). rewrite Z.ones_spec_low by lia.
    case_decide as E; [subst; by rewrite Z.eqb_refl, andb_false_r|].
    rewrite (proj2 (Z.eqb_neq k m)) by lia. apply andb_true_r.
Qed.

Lemma bitmap_byte b i : bitmap_ok b -> 0 <= i < bm_count b -> 0 <= i / 8 < zlen (bm_data b).
Proof.
  intros [Hc Hd] Hi. split; [apply Z.div_pos; lia|]. rewrite Hd. apply Z.div_lt_upper_bound; [lia|].
  pose proof (Z.div_mod (bm_count b + 7) 8). pose proof (Z.mod_pos_bound (bm_count b + 7) 8). lia.
Qed.

Lemma NewServerBitmap_ok n : 0 <= n <= MaxInt64 - 7 ->
  exists b, NewServerBitmap n = Ret b /\ bitmap_ok b /\ bm_count b = n /\ forall j, bit_at b j = false.
Proof.
  intros Hn. assert (0 <= (n + 7) / 8 <= MaxInt64) as Hs.
  { split; [apply Z.div_pos; lia|]. apply Z.div_le_upper_bound; unfold MaxInt64 in *; lia. }
  unfold NewServerBitmap, byteSize. rewrite add64_pos, Z.quot_div_nonneg by lia.
  rewrite (make_zeros (Z.to_nat ((n + 7) / 8))) by lia. cbn [mbind outcome_bind].
  eexists. split; [done|]. split_and!; [|done|].
  - split; [done|]. cbn. rewrite zlen_zeros. lia.
  - intros j. unfold bit_at, zeros. cbn [bm_data].
    destruct (replicate _ _ !! _) as [y|] eqn:E; [apply lookup_replicate in E as [-> _]|];
      cbn [default from_option]; unfold id; change (b2z (z2b 0)) with 0; by rewrite Z.bits_0.
Qed.

(** Setting a bit of a bitmap sets that bit and no other, and keeps the bitmap well formed; a new bitmap has no
    bit set. *)
Theorem Bitmap_Set (b : Bitmap) (i j : Z) (value : bool) :
  bitmap_ok b -> 0 <= i < bm_count b -> 0 <= j < bm_count b ->
  (exists b', Set_ b i value = Ret b' /\ bitmap_ok b' /\ bm_count b' = bm_count b /\
     Bit b' j = if decide (j = i) then Ret value else Bit b j) /\
  (exists b0, NewServerBitmap (bm_count b) = Ret b0 /\ bitmap_ok b0 /\ Bit b0 j = Ret false).
Proof.
  intros Hok Hi Hj. pose proof Hok as [Hc Hd]. pose proof (Z.mod_pos_bound i 8). pose proof (Z.mod_pos_bound j 8).
  pose proof (Z.div_mod i 8). pose proof (Z.div_mod j 8). pose proof (bitmap_byte b i Hok Hi) as Hb.
  split.
  - destruct (lookup_lt_is_Some_2 (bm_data b) (Z.to_nat (i / 8))) as [x Hx]; [unfold zlen in Hb; lia|].
    unfold Set_. rewrite Z.quot_div_nonneg by lia. unfold index, store.
    replace (_ && _) with true by (symmetry; apply andb_true_iff; lia).
    rewrite Hx. cbn [mbind outcome_bind]. rewrite b2z_bitMask by (unfold MaxInt64 in *; lia).
    eexists. split; [done|]. set (b' := {| bm_data := _; bm_count := _ |}).
    assert (bitmap_ok b') as Hok' by (split; [done|]; unfold zlen in *; cbn; by rewrite length_insert).
    split_and!; [done|done|]. rewrite !bitmap_bits by done. unfold bit_at, b'. cbn [bm_data].
    destruct (decide (j / 8 = i / 8)) as [E|E].
    + rewrite E, list_lookup_insert_eq by (unfold zlen in Hb; lia). rewrite Hx. cbn [default from_option].
      unfold id. rewrite set_bit by (apply b2z_range || lia). repeat case_decide; try done; lia.
    + rewrite list_lookup_insert_ne by (pose proof (Z.div_pos j 8); lia).
      rewrite decide_False; [done|]. intros ->. done.
  - destruct (NewServerBitmap_ok (bm_count b) Hc) as (b0 & E & Hok0 & Hc0 & Hz). exists b0. split_and!; [done..|].
    rewrite bitmap_bits by (done || by rewrite Hc0). by rewrite Hz.
Qed.

(** ** Writing at a cursor

    A write that appends [out] at the cursor and moves the cursor behind it, in a buffer that is still zero from the
    cursor on. *)
Definition writes (w : list byte -> Z -> outcome (list byte * Z)) (out : list byte) : Prop :=
  forall p n, zlen p + zlen out + Z.of_nat n <= MaxInt64 ->
  w (p ++ zeros (length out + n)) (zlen p) = Ret ((p ++ out) ++ zeros n, zlen p + zlen out).

Lemma writes_nil : writes (fun data pos => Ret (data, pos)) [].
Proof. intros p n _. rewrite app_nil_r, zlen_nil, Z.add_0_r. done. Qed.

Lemma writes_bind w1 w2 o1 o2 :
  writes w1 o1 -> writes w2 o2 -> writes (fun data pos => '(data, pos) ← w1 data pos; w2 data pos) (o1 ++ o2).
Proof.
  intros H1 H2 p n Hl. rewrite zlen_app in *. pose proof (zlen_nonneg o2).
  rewrite length_app, <- Nat.add_assoc, H1 by (unfold zlen in *; lia). cbn [mbind outcome_bind].
  specialize (H2 (p ++ o1) n). rewrite zlen_app in H2. rewrite H2 by lia. by rewrite <- (app_assoc p), Z.add_assoc.
Qed.

Lemma writes_copy src : writes (fun data pos => append_copy data pos src) src.
Proof. intros p n _. unfold append_copy. by rewrite copy_zeros. Qed.

Lemma writes_if (b : bool) w out : writes w out ->
  writes (fun data pos => if b then w data pos else Ret (data, pos)) (if b then out else []).
Proof. intros Hw. destruct b; [exact Hw|apply writes_nil]. Qed.

Lemma writes_append (b : bool) x y :
  writes (fun data pos => append_if b data pos x y) (if b then x ++ y else []).
Proof.
  apply (writes_if b (fun data pos => '(data, pos) ← append_copy data pos x; append_copy data pos y)).
  apply (writes_bind (fun data pos => append_copy data pos x) (fun data pos => append_copy data pos y)); apply writes_copy.
Qed.

Lemma writes_lenenc i : writes (fun data pos => writeLenEncInt data pos i) (lenenc i).
Proof.
  intros p n Hl. rewrite zeros_add, writeLenEncInt_here.
  - by rewrite zlen_lenenc, app_assoc.
  - by rewrite zlen_zeros, <- zlen_lenenc.
  - unfold buffer_ok. rewrite <- zeros_add. autorewrite with zlen. unfold zlen in *. lia.
Qed.

Lemma writes_name name :
  writes (fun data pos => write_name data pos name) (z2b (zlen name) :: name ++ [z2b 0]).
Proof.
  intros p n Hl. unfold write_name. pose proof (zlen_nonneg name).
  replace (length (z2b (zlen name) :: name ++ [z2b 0]) + n)%nat with (1 + (length name + (1 + n)))%nat
    by (cbn [length]; rewrite length_app; cbn [length]; lia).
  rewrite store_zeros by done. cbn [mbind outcome_bind]. rewrite copy_zeros by (done || len). cbn [mbind outcome_bind].
  rewrite store_zeros by len. cbn [mbind outcome_bind]. rewrite <- !app_assoc. cbn [app]. do 2 f_equal.
  - by rewrite <- app_assoc.
  - autorewrite with zlen. lia.
Qed.

(** The bytes of the metadata of a column, and the values that fit there. *)
Definition metadata_bytes (typ : byte) (value : Z) : list byte :=
  if typ_in typ no_metadata then []
  else if typ_in typ byte_metadata then [z2b value]
  else if typ_in typ be_metadata then [byte_at value 8; z2b value]
  else [z2b value; byte_at value 8].

Definition metadata_ok (typ : byte) (value : Z) : Prop :=
  if typ_in typ no_metadata then value = 0
  else if typ_in typ byte_metadata then 0 <= value < 2 ^ 8
  else (typ_in typ be_metadata || typ_in typ le_metadata) = true /\ 0 <= value < 2 ^ 16.

Lemma metadataLength_bytes typ value : metadata_ok typ value -> metadataLength typ = Ret (zlen (metadata_bytes typ value)).
Proof.
  unfold metadata_ok, metadataLength, metadata_bytes. intros Hok.
  repeat case_match; try done. destruct Hok as [Hok _]. by rewrite orb_false_l in Hok.
Qed.

Lemma writes_metadata typ value : metadata_ok typ value ->
  writes (fun data pos => metadataWrite data pos typ value) (metadata_bytes typ value).
Proof.
  intros Hok p n Hl. unfold metadataWrite, metadata_ok, metadata_bytes in *.
  destruct (typ_in typ no_metadata); [by apply writes_nil|].
  destruct (typ_in typ byte_metadata); [cbn [length]; by rewrite store_zeros|].
  pose proof (zlen_nonneg p).
  destruct (typ_in typ be_metadata).
  { cbn [length] in *. rewrite seq_zeros by (done || (unfold zlen in *; cbn [length] in *; lia)). done. }
  destruct Hok as [Hok _]. rewrite orb_false_l in Hok. rewrite Hok.
  cbn [length] in *. rewrite seq_zeros by (done || (unfold zlen in *; cbn [length] in *; lia)). done.
Qed.

(** ** Table maps read back *)

Definition metadata_layout (types : list byte) (metadata : list Z) : list byte :=
  concat (zip_with metadata_bytes types metadata).

Lemma two_bytes v : 0 <= v < 2 ^ 16 ->
  uint16 (Z.shiftl (b2z (byte_at v 8)) 8 + b2z (z2b v)) = v /\ uint16 (b2z (z2b v) + Z.shiftl (b2z (byte_at v 8)) 8) = v.
Proof.
  intros Hv. unfold byte_at. rewrite !b2z_z2b, Z.shiftr_div_pow2, !Z.shiftl_mul_pow2 by lia. change (2 ^ 8) with 256.
  change (2 ^ 16) with 65536 in Hv.
  rewrite (Z.mod_small (v / 256) 256) by (split; [apply Z.div_pos; lia|apply Z.div_lt_upper_bound; lia]).
  pose proof (Z.div_mod v 256 ltac:(lia)) as Hd.
  replace (v / 256 * 256 + v mod 256) with v by lia. replace (v mod 256 + v / 256 * 256) with v by lia.
  unfold uint16, wrapU. by rewrite Z.mod_small.
Qed.

Lemma metadataRead_here p typ value q : metadata_ok typ value ->
  metadataRead (p ++ metadata_bytes typ value ++ q) (zlen p) typ =
  Ret (Ok (value, zlen p + zlen (metadata_bytes typ value))).
Proof.
  intros Hok. unfold metadataRead, metadata_ok, metadata_bytes in *.
  destruct (typ_in typ no_metadata); [subst; change (zlen (@nil byte)) with 0; by rewrite Z.add_0_r|].
  destruct (typ_in typ byte_metadata).
  { cbn [app]. rewrite index_app_here. cbn [mbind outcome_bind]. rewrite b2z_z2b, Z.mod_small by lia. done. }
  assert (forall b0 b1, index (p ++ [b0; b1] ++ q) (zlen p) = Ret b0 /\ index (p ++ [b0; b1] ++ q) (zlen p + 1) = Ret b1)
    as Hix.
  { intros b0 b1. split; [apply index_app_here|].
    apply (index_at _ (p ++ [b0]) b1 q); [by rewrite <- app_assoc|len]. }
  destruct (typ_in typ be_metadata); destruct Hok as [Ht Hv]; rewrite ?orb_false_l in Ht; rewrite ?Ht.
  - destruct (Hix (byte_at value 8) (z2b value)) as [-> ->]. cbn [mbind outcome_bind].
    by destruct (two_bytes value Hv) as [-> _].
  - destruct (Hix (z2b value) (byte_at value 8)) as [-> ->]. cbn [mbind outcome_bind].
    by destruct (two_bytes value Hv) as [_ ->].
Qed.

Lemma read_metadata_here p types metadata q : Forall2 metadata_ok types metadata ->
  read_metadata (p ++ metadata_layout types metadata ++ q) (zlen p) types =
  Ret (Ok (metadata, zlen p + zlen (metadata_layout types metadata))).
Proof.
  intros Hok. revert p. induction Hok as [|t m types ms Hm Hok IH]; intros p; [cbn -[zlen]; change (zlen (@nil byte)) with 0; by rewrite Z.add_0_r|].
  unfold metadata_layout in *. cbn [zip_with concat read_metadata]. rewrite <- app_assoc, metadataRead_here by done.
  cbn [tbind]. rewrite app_assoc, <- zlen_app, IH. cbn [tbind]. do 3 f_equal. len.
Qed.

Lemma writes_metadata_layout pre types metadata : Forall2 metadata_ok types metadata ->
  writes (fun data pos => write_metadata data pos types (pre ++ metadata) (zlen pre)) (metadata_layout types metadata).
Proof.
  intros Hok. revert pre. induction Hok as [|t m types ms Hm Hok IH]; intros pre; [apply writes_nil|].
  unfold metadata_layout. cbn [zip_with concat]. fold (metadata_layout types ms). intros p n Hl. cbn [write_metadata].
  rewrite index_app_here. cbn [mbind outcome_bind].
  specialize (IH (pre ++ [m])). rewrite <- app_assoc, zlen_app in IH. change (zlen [m]) with 1 in IH. cbn [app] in IH.
  by apply (writes_bind _ _ _ _ (writes_metadata t m Hm) IH p n).
Qed.

Lemma metadata_sum_layout types metadata sum : Forall2 metadata_ok types metadata ->
  metadata_sum types sum = Ret (sum + zlen (metadata_layout types metadata)).
Proof.
  intros Hok. revert sum. induction Hok as [|t m types ms Hm Hok IH]; intros sum; [cbn -[zlen]; change (zlen (@nil byte)) with 0; by rewrite Z.add_0_r|].
  cbn [metadata_sum]. rewrite (metadataLength_bytes t m) by done. cbn [mbind outcome_bind]. rewrite IH.
  unfold metadata_layout. cbn [zip_with concat]. f_equal. len.
Qed.

(** Table maps that fit an event. *)
Definition tablemap_ok (tm : TableMap) : Prop :=
  0 <= TFlags tm < 2 ^ 16 /\ zlen (TDatabase tm) < 256 /\ zlen (TName tm) < 256 /\
  Forall2 metadata_ok (Types tm) (Metadata tm) /\ bitmap_ok (CanBeNull tm) /\ bm_count (CanBeNull tm) = zlen (Types tm).

Definition name_layout (name : list byte) : list byte := z2b (zlen name) :: name ++ [z2b 0].

Definition tablemap_layout (tableID : Z) (tm : TableMap) : list byte :=
  binary.le_bytes 6 tableID ++ binary.le_bytes 2 (TFlags tm) ++ name_layout (TDatabase tm) ++ name_layout (TName tm) ++
  lenenc (zlen (Types tm)) ++ Types tm ++ lenenc (zlen (metadata_layout (Types tm) (Metadata tm))) ++
  metadata_layout (Types tm) (Metadata tm) ++ bm_data (CanBeNull tm).

Lemma writes_columns tm : tablemap_ok tm ->
  is_uint64 (zlen (Types tm)) -> is_uint64 (zlen (metadata_layout (Types tm) (Metadata tm))) ->
  writes (write_columns tm (zlen (metadata_layout (Types tm) (Metadata tm))))
    (name_layout (TDatabase tm) ++ name_layout (TName tm) ++ lenenc (zlen (Types tm)) ++ Types tm ++
     lenenc (zlen (metadata_layout (Types tm) (Metadata tm))) ++ metadata_layout (Types tm) (Metadata tm) ++
     bm_data (CanBeNull tm)).
Proof.
  intros (_ & _ & _ & Hm & _) Ht Hl. unfold write_columns. rewrite !uint64_id by done.
  apply writes_bind; [apply writes_name|]. apply writes_bind; [apply writes_name|].
  apply writes_bind; [apply writes_lenenc|]. apply writes_bind; [apply writes_copy|].
  apply writes_bind; [apply writes_lenenc|]. apply writes_bind; [|apply writes_copy].
  by apply (writes_metadata_layout []).
Qed.

Lemma zlen_name name : zlen (name_layout name) = zlen name + 2.
Proof. unfold name_layout. len. Qed.

#[export] Hint Rewrite zlen_name zlen_lenenc : zlen.

Lemma NewTableMapEvent_packet f s tableID tm :
  tablemap_ok tm -> HeaderSize f (z2b eTableMapEvent) = Ret (z2b 8) ->
  packable f (z2b eTableMapEvent) (tablemap_layout tableID tm) ->
  NewTableMapEvent f s tableID tm =
  Ret (mariadbBinlogEvent (packet s f (z2b eTableMapEvent) 0 (tablemap_layout tableID tm)) false).
Proof.
  intros Hok Hh Hf. unfold NewTableMapEvent. rewrite Hh. cbn [mbind outcome_bind].
  change (negb (b2z (z2b 8) =? 8)) with false. cbv iota. unfold metadataTotalLength.
  pose proof Hok as (_ & _ & _ & Hm & _). rewrite (metadata_sum_layout _ _ 0 Hm), Z.add_0_l. cbn [mbind outcome_bind].
  assert (zlen (tablemap_layout tableID tm) < 2 ^ 32) as Hl.
  { destruct Hf as [? Hl]. unfold packet_length in Hl. case_match; lia. }
  set (meta := metadata_layout _ _) in *.
  set (out := name_layout (TDatabase tm) ++ name_layout (TName tm) ++ lenenc (zlen (Types tm)) ++ Types tm ++
     lenenc (zlen meta) ++ meta ++ bm_data (CanBeNull tm)).
  assert (tablemap_layout tableID tm = (binary.le_bytes 6 tableID ++ binary.le_bytes 2 (TFlags tm)) ++ out) as El
    by (unfold tablemap_layout; by rewrite <- app_assoc).
  assert (zlen out = zlen (TDatabase tm) + 2 + (zlen (TName tm) + 2) + lenEncIntSize (zlen (Types tm)) + zlen (Types tm) +
    lenEncIntSize (zlen meta) + zlen meta + zlen (bm_data (CanBeNull tm))) as Eo by (subst out; len).
  rewrite El, zlen_app in Hl. change (zlen (_ ++ binary.le_bytes 2 (TFlags tm))) with 8 in Hl.
  pose proof (lenEncIntSize_range (zlen (Types tm))). pose proof (lenEncIntSize_range (zlen meta)).
  pose proof (zlen_nonneg (TDatabase tm)). pose proof (zlen_nonneg (TName tm)). pose proof (zlen_nonneg (Types tm)).
  pose proof (zlen_nonneg meta). pose proof (zlen_nonneg (bm_data (CanBeNull tm))).
  assert (is_uint64 (zlen (Types tm)) /\ is_uint64 (zlen meta)) as [Ht Hmeta] by (unfold is_uint64, MaxUint64; lia).
  rewrite (make_zeros (8 + (length out + 0))) by (rewrite ?uint64_id by done; unfold MaxInt64; unfold zlen in *; lia).
  cbn [mbind outcome_bind]. rewrite !le_seq_bytes, seq_front by done. cbn [mbind outcome_bind].
  pose proof (writes_columns tm Hok Ht Hmeta (binary.le_bytes 6 tableID ++ binary.le_bytes 2 (TFlags tm)) 0%nat) as Hw.
  fold meta out in Hw. change (zlen (_ ++ binary.le_bytes 2 (TFlags tm))) with 8 in Hw.
  rewrite Hw by (unfold MaxInt64; lia). cbn [mbind outcome_bind].
  rewrite app_nil_r, <- El. replace (_ =? _) with true by (symmetry; apply Z.eqb_eq; rewrite El; by rewrite zlen_app).
  cbn [negb]. by rewrite Packetize_packet.
Qed.

(** Readers at a position of a buffer. *)
Section At.
Context (data p q : list byte) (i : Z).
Hypothesis Hb : buffer_ok data.

Lemma read_name_at name : data = p ++ name_layout name ++ q -> zlen p = i -> zlen name < 256 ->
  read_name data i = Ret (name, i + (zlen name + 2)).
Proof.
  intros E Hi Hn. unfold read_name. pose proof (zlen_nonneg name).
  rewrite (index_at _ p (z2b (zlen name)) (name ++ [z2b 0] ++ q)) by
    (rewrite ?E; unfold name_layout; cbn [app]; by rewrite <- ?app_assoc).
  cbn [mbind outcome_bind]. rewrite b2z_z2b, Z.mod_small by lia.
  rewrite (slice_at _ (p ++ [z2b (zlen name)]) name ([z2b 0] ++ q)) by
    first [rewrite E; unfold name_layout; cbn [app]; by rewrite <- !app_assoc|len].
  cbn [mbind outcome_bind]. do 2 f_equal. lia.
Qed.

Lemma readLenEncInt_at n : data = p ++ lenenc n ++ q -> zlen p = i -> is_uint64 n ->
  readLenEncInt data i = Ret (n, i + lenEncIntSize n, true).
Proof. intros E <- Hn. rewrite E in *. by apply readLenEncInt_here. Qed.

Lemma read_metadata_at types metadata : data = p ++ metadata_layout types metadata ++ q -> zlen p = i ->
  Forall2 metadata_ok types metadata ->
  read_metadata data i types = Ret (Ok (metadata, i + zlen (metadata_layout types metadata))).
Proof. intros -> <- Hm. by apply read_metadata_here. Qed.

Lemma byteSize_ok b : bitmap_ok b -> byteSize (bm_count b) = zlen (bm_data b).
Proof. intros [Hc Hd]. unfold byteSize. rewrite add64_pos, Z.quot_div_nonneg by lia. by rewrite Hd. Qed.

Lemma newBitmap_at b : data = p ++ bm_data b ++ q -> zlen p = i -> bitmap_ok b ->
  newBitmap data i (bm_count b) = Ret (b, i + zlen (bm_data b)).
Proof.
  intros E Hi Hok. unfold newBitmap. rewrite byteSize_ok by done. pose proof (zlen_nonneg p).
  pose proof (zlen_nonneg q). pose proof (zlen_nonneg (bm_data b)).
  assert (i + zlen (bm_data b) <= MaxInt64) by (unfold buffer_ok in Hb; rewrite E in Hb; len).
  rewrite add64_pos by lia. rewrite (slice_at _ p (bm_data b) q) by (done || by rewrite Hi).
  by destruct b.
Qed.
End At.

(** The columns of a table map in an event. *)
Definition columns_layout (tm : TableMap) : list byte :=
  lenenc (zlen (Types tm)) ++ Types tm ++ lenenc (zlen (metadata_layout (Types tm) (Metadata tm))) ++
  metadata_layout (Types tm) (Metadata tm) ++ bm_data (CanBeNull tm).

Lemma read_table_columns_at data p q i tm :
  buffer_ok data -> tablemap_ok tm -> data = p ++ columns_layout tm ++ q -> zlen p = i ->
  read_table_columns data i = Ret (Ok (Types tm, Metadata tm, CanBeNull tm)).
Proof.
  intros Hb (_ & _ & _ & Hm & Hbm & Hcount) E Hi. unfold read_table_columns, columns_layout in *.
  set (meta := metadata_layout (Types tm) (Metadata tm)) in *. set (nulls := bm_data (CanBeNull tm)) in *.
  set (p1 := p ++ lenenc (zlen (Types tm))). set (p2 := p1 ++ Types tm). set (p3 := p2 ++ lenenc (zlen meta)).
  assert (zlen p1 = i + lenEncIntSize (zlen (Types tm)) /\ zlen p2 = zlen p1 + zlen (Types tm) /\
    zlen p3 = zlen p2 + lenEncIntSize (zlen meta)) as (Z1 & Z2 & Z3)
    by (subst p3 p2 p1; repeat split; autorewrite with zlen; lia).
  assert (data = p3 ++ meta ++ nulls ++ q) as E3 by (rewrite E; subst p3 p2 p1; by rewrite <- !app_assoc).
  assert (data = p2 ++ lenenc (zlen meta) ++ meta ++ nulls ++ q) as E2 by (rewrite E3; subst p3; by rewrite <- app_assoc).
  assert (data = p1 ++ Types tm ++ lenenc (zlen meta) ++ meta ++ nulls ++ q) as E1
    by (rewrite E2; subst p2; by rewrite <- app_assoc).
  pose proof (zlen_nonneg p). pose proof (zlen_nonneg (Types tm)). pose proof (zlen_nonneg meta).
  pose proof (lenEncIntSize_range (zlen (Types tm))). pose proof (lenEncIntSize_range (zlen meta)).
  assert (zlen p3 + zlen meta <= MaxInt64) as Hmax.
  { unfold buffer_ok in Hb. rewrite E3, !zlen_app in Hb. pose proof (zlen_nonneg nulls). pose proof (zlen_nonneg q). lia. }
  assert (is_uint64 (zlen (Types tm)) /\ is_uint64 (zlen meta)) as [Hu1 Hu2]
    by (unfold is_uint64, MaxUint64, MaxInt64 in *; lia).
  rewrite (readLenEncInt_at data p (Types tm ++ lenenc (zlen meta) ++ meta ++ nulls ++ q)) with (n := zlen (Types tm)) by
    (done || by rewrite E, <- !app_assoc). cbn [mbind outcome_bind negb].
  rewrite !(int64_id (zlen (Types tm))), (add64_pos _ (zlen (Types tm))), <- Z1, <- Z2 by
    (unfold is_int64, MinInt64 in *; lia).
  rewrite (slice_at data p1 (Types tm) _ _ _ E1 eq_refl) by lia. cbn [mbind outcome_bind].
  rewrite (readLenEncInt_at data p2 (meta ++ nulls ++ q)) with (n := zlen meta) by done. cbn [mbind outcome_bind negb].
  rewrite <- Z3, (read_metadata_at data p3 (nulls ++ q)) with (metadata := Metadata tm) by done. cbn [tbind].
  rewrite int64_id, add64_pos, Z.eqb_refl by (unfold is_int64, MinInt64 in *; lia). cbn [negb].
  rewrite <- Hcount, (newBitmap_at data (p3 ++ meta) q) by first [done|by rewrite E3, <- app_assoc|by rewrite zlen_app].
  done.
Qed.

Lemma TableMap_reads h f tableID tm rest :
  zlen h = b2z (HeaderLength f) -> HeaderSize f (z2b eTableMapEvent) = Ret (z2b 8) -> tablemap_ok tm ->
  buffer_ok (tablemap_layout tableID tm ++ rest) ->
  ev_TableMap (h ++ tablemap_layout tableID tm ++ rest) f = Ret (Ok tm).
Proof.
  intros Hh Hsize Hok Hb. pose proof Hok as (Hfl & Hdb & Hname & _). unfold ev_TableMap, after_header.
  rewrite (slice_from_at _ h _ _ eq_refl Hh). cbn [mbind outcome_bind]. unfold id_length. rewrite Hsize.
  cbn [mbind outcome_bind]. change (if b2z (z2b 8) =? 6 then 4 else 6) with 6.
  set (data := tablemap_layout tableID tm ++ rest) in *.
  set (p0 := binary.le_bytes 6 tableID ++ binary.le_bytes 2 (TFlags tm)).
  set (p1 := p0 ++ name_layout (TDatabase tm)). set (p2 := p1 ++ name_layout (TName tm)).
  assert (zlen p0 = 8 /\ zlen p1 = 8 + (zlen (TDatabase tm) + 2) /\ zlen p2 = zlen p1 + (zlen (TName tm) + 2))
    as (Z0 & Z1 & Z2) by (subst p2 p1 p0; repeat split; autorewrite with zlen; lia).
  assert (data = p2 ++ columns_layout tm ++ rest) as E2
    by (subst data p2 p1 p0; unfold tablemap_layout, columns_layout; by rewrite <- !app_assoc).
  assert (data = p1 ++ name_layout (TName tm) ++ columns_layout tm ++ rest) as E1
    by (rewrite E2; subst p2; by rewrite <- app_assoc).
  assert (data = p0 ++ name_layout (TDatabase tm) ++ name_layout (TName tm) ++ columns_layout tm ++ rest) as E0
    by (rewrite E1; subst p1; by rewrite <- app_assoc).
  rewrite (uint_at_le 2 2 data (binary.le_bytes 6 tableID) (TFlags tm)
    (name_layout (TDatabase tm) ++ name_layout (TName tm) ++ columns_layout tm ++ rest) 6);
    [|rewrite E0; subst p0; by rewrite <- app_assoc|done|done|done]. cbn [mbind outcome_bind].
  rewrite (read_name_at data p0 (name_layout (TName tm) ++ columns_layout tm ++ rest) (6 + 2)) with (name := TDatabase tm)
    by (done || lia). cbn [mbind outcome_bind].
  rewrite (read_name_at data p1 (columns_layout tm ++ rest)) with (name := TName tm) by (done || lia).
  cbn [mbind outcome_bind].
  rewrite (read_table_columns_at data p2 rest _ tm) by (done || lia). cbn [tbind]. by destruct tm.
Qed.

Lemma TableID_reads h f typ tableID rest size :
  zlen h = b2z (HeaderLength f) -> zlen h <= 250 -> ev_Type (h ++ binary.le_bytes 6 tableID ++ rest) = Ret typ ->
  HeaderSize f typ = Ret size -> b2z size <> 6 -> 0 <= tableID < 2 ^ 48 ->
  ev_TableID (h ++ binary.le_bytes 6 tableID ++ rest) f = Ret tableID.
Proof.
  intros Hh Hl Ht Hsize Hne Hid. unfold ev_TableID. rewrite Ht. cbn [mbind outcome_bind]. rewrite Hsize.
  cbn [mbind outcome_bind]. rewrite (proj2 (Z.eqb_neq _ _) Hne), <- Hh. pose proof (zlen_nonneg h).
  assert (binary.of_le (binary.le_bytes 6 tableID) = tableID) as Hv
    by (rewrite binary.of_le_le_bytes, Z.mod_small; done).
  set (bytes := binary.le_bytes 6 tableID) in *.
  assert (exists b0 b1 b2 b3 b4 b5, bytes = [b0; b1; b2; b3; b4; b5]) as (b0 & b1 & b2 & b3 & b4 & b5 & E) by (by repeat eexists).
  rewrite E in *. unfold wrapU. change (2 ^ 8) with 256. rewrite !Z.mod_small by lia.
  rewrite (index_at _ h b0 ([b1; b2; b3; b4; b5] ++ rest) (zlen h)) by done. cbn [mbind outcome_bind].
  rewrite (index_at _ (h ++ [b0]) b1 ([b2; b3; b4; b5] ++ rest) (zlen h + 1)) by first [by rewrite <- app_assoc|len].
  cbn [mbind outcome_bind].
  rewrite (index_at _ (h ++ [b0; b1]) b2 ([b3; b4; b5] ++ rest) (zlen h + 2)) by first [by rewrite <- app_assoc|len].
  cbn [mbind outcome_bind].
  rewrite (index_at _ (h ++ [b0; b1; b2]) b3 ([b4; b5] ++ rest) (zlen h + 3)) by first [by rewrite <- app_assoc|len].
  cbn [mbind outcome_bind].
  rewrite (index_at _ (h ++ [b0; b1; b2; b3]) b4 ([b5] ++ rest) (zlen h + 4)) by first [by rewrite <- app_assoc|len].
  cbn [mbind outcome_bind].
  rewrite (index_at _ (h ++ [b0; b1; b2; b3; b4]) b5 rest (zlen h + 5)) by first [by rewrite <- app_assoc|len].
  cbn [mbind outcome_bind]. by rewrite Hv.
Qed.

(** C21: a table map event gives its table map back after the checksum has been stripped, with the id of the table:
    names, column types, the metadata of every type in its own encoding, and the nullable columns. *)
Theorem TableMap_roundtrip (f : BinlogFormat) (s : FakeBinlogStream) (tableID : Z) (tm : TableMap) :
  stream_ok s -> checksum_ok f -> b2z (HeaderLength f) <= 250 -> HeaderSize f (z2b eTableMapEvent) = Ret (z2b 8) ->
  0 <= tableID < 2 ^ 48 -> tablemap_ok tm -> packable f (z2b eTableMapEvent) (tablemap_layout tableID tm) ->
  exists ev ev' sum, NewTableMapEvent f s tableID tm = Ret ev /\ IsValid ev = Ret true /\
    StripChecksum ev f = Ret (Ok (ev', sum)) /\ ev_TableID (Bytes ev') f = Ret tableID /\
    ev_TableMap (Bytes ev') f = Ret (Ok tm).
Proof.
  intros Hs Hc Hh Hsize Hid Hok Hf. rewrite NewTableMapEvent_packet by done.
  destruct (mariadb_event s f (z2b eTableMapEvent) 0 (tablemap_layout tableID tm)) as (sum & Hv & Hst); [done..|].
  eexists _, _, sum. split_and!; [done|exact Hv|exact Hst| |]; cbn [Bytes raw default from_option id].
  - pose proof (zlen_header s f (z2b eTableMapEvent) 0 (tablemap_layout tableID tm) (proj1 Hf)) as Hz.
    unfold tablemap_layout at 2. apply (TableID_reads _ _ (z2b eTableMapEvent) _ _ (z2b 8)); try done; [lia|].
    by apply header_Type.
  - rewrite <- (app_nil_r (tablemap_layout tableID tm)) at 2.
    apply TableMap_reads; [by apply zlen_header, Hf|done|done|].
    unfold buffer_ok. rewrite app_nil_r. destruct Hf as [_ Hl]. unfold packet_length, MaxInt64 in *.
    pose proof (b2z_range (HeaderLength f)). case_match; lia.
Qed.

(** ** Counting bits *)

(** How many of the bits [i], ..., [i + n - 1] are set. *)
Fixpoint ones (b : Bitmap) (n : nat) (i : Z) : Z :=
  match n with O => 0 | S n => (if bit_at b i then 1 else 0) + ones b n (i + 1) end.

Lemma ones_range b n i : 0 <= ones b n i <= Z.of_nat n.
Proof. revert i. induction n as [|n IH]; intros i; cbn [ones]; [lia|]. specialize (IH (i + 1)). case_match; lia. Qed.

Lemma bit_count_ones b n i sum :
  bitmap_ok b -> 0 <= i -> i + Z.of_nat n <= bm_count b -> bit_count b n i sum = Ret (sum + ones b n i).
Proof.
  intros Hok. revert i sum. induction n as [|n IH]; intros i sum Hi Hn; cbn [bit_count ones]; [by rewrite Z.add_0_r|].
  rewrite bitmap_bits by (done || lia). cbn [mbind outcome_bind]. rewrite IH by lia. f_equal. case_match; lia.
Qed.

(** The number of bits that are set. *)
Definition weight (b : Bitmap) : Z := ones b (Z.to_nat (bm_count b)) 0.

Lemma BitCount_weight b : bitmap_ok b -> BitCount b = Ret (weight b).
Proof.
  intros Hok. unfold BitCount. destruct (Hok) as [Hc _]. by rewrite bit_count_ones by (done || lia).
Qed.

(** ** Cells in a row *)

Lemma le_at_local p cell q i n v : 0 <= i ->
  le_at cell i n = Ret v -> le_at (p ++ cell ++ q) (zlen p + i) n = Ret v.
Proof.
  intros Hi. revert i v Hi. induction n as [|n IH]; intros i v Hi; cbn [le_at]; [done|].
  destruct (index cell i) as [b|] eqn:E; cbn [mbind outcome_bind]; [|done].
  destruct (le_at cell (i + 1) n) as [r|] eqn:Er; cbn [mbind outcome_bind]; [|done]. intros [= <-].
  assert (index (p ++ cell ++ q) (zlen p + i) = Ret b) as ->.
  { unfold index in E. destruct (_ && _) eqn:Et in E; [|done]. destruct (cell !! Z.to_nat i) as [x|] eqn:Ex; [|done].
    injection E as ->. zify_tests. apply (index_at _ (p ++ take (Z.to_nat i) cell) b (drop (S (Z.to_nat i)) cell ++ q)).
    - rewrite <- (take_drop_middle cell (Z.to_nat i) b Ex) at 1. by rewrite <- !app_assoc.
    - rewrite zlen_app. unfold zlen in *. rewrite length_take. lia. }
  cbn [mbind outcome_bind]. replace (zlen p + i + 1) with (zlen p + (i + 1)) by lia. by rewrite (IH (i + 1) r) by (done || lia).
Qed.

(** Where a value ends depends on the value alone. *)
Lemma cellLength_local p cell q typ metadata n :
  cellLength cell 0 typ metadata = Ret (Ok n) -> cellLength (p ++ cell ++ q) (zlen p) typ metadata = Ret (Ok n).
Proof.
  unfold cellLength.
  assert (forall k v, le_at cell 0 k = Ret v -> le_at (p ++ cell ++ q) (zlen p) k = Ret v) as Hl.
  { intros k v Hk. apply (le_at_local p cell q) in Hk; [|done]. by rewrite Z.add_0_r in Hk. }
  repeat match goal with
  | |- context [typ_in typ ?l] => destruct (typ_in typ l); [try done|]
  end; try done.
  - case_match.
    + destruct (le_at cell 0 2) as [v|] eqn:E; [|done]. by rewrite (Hl _ _ E).
    + destruct (le_at cell 0 1) as [v|] eqn:E; [|done]. by rewrite (Hl _ _ E).
  - case_match; [|done]. destruct (le_at cell 0 (Z.to_nat metadata)) as [v|] eqn:E; [|done]. by rewrite (Hl _ _ E).
  - cbv zeta. case_match; [done|]. case_match.
    + destruct (le_at cell 0 2) as [v|] eqn:E; [|done]. by rewrite (Hl _ _ E).
    + destruct (le_at cell 0 1) as [v|] eqn:E; [|done]. by rewrite (Hl _ _ E).
Qed.

(** A value of a column: where it ends is where it should. *)
Definition cell_ok (typ : byte) (metadata : Z) (cell : list byte) : Prop :=
  cellLength cell 0 typ metadata = Ret (Ok (zlen cell)).

(** The types and metadata of the columns whose values a row holds, from column [c] on, the [v]th of the columns present. *)
Fixpoint live_columns (tm : TableMap) (cols nulls : Bitmap) (n : nat) (c v : Z) : list (byte * Z) :=
  match n with
  | O => []
  | S n =>
      if bit_at cols c then
        if bit_at nulls v then live_columns tm cols nulls n (c + 1) (v + 1)
        else (default (z2b 0) (Types tm !! Z.to_nat c), default 0 (Metadata tm !! Z.to_nat c))
             :: live_columns tm cols nulls n (c + 1) (v + 1)
      else live_columns tm cols nulls n (c + 1) v
  end.

Definition cells_ok (columns : list (byte * Z)) (cells : list (list byte)) : Prop :=
  Forall2 (fun '(typ, metadata) cell => cell_ok typ metadata cell) columns cells.

Lemma index_lookup {A} (l : list A) i d : 0 <= i < zlen l -> index l i = Ret (default d (l !! Z.to_nat i)).
Proof.
  intros Hi. unfold index. replace (_ && _) with true by (symmetry; apply andb_true_iff; lia).
  destruct (lookup_lt_is_Some_2 l (Z.to_nat i)) as [x ->]; [unfold zlen in Hi; lia|done].
Qed.

Lemma skip_cells_live tm cols nulls n c v p cells q :
  bitmap_ok cols -> bitmap_ok nulls -> 0 <= c -> 0 <= v -> c + Z.of_nat n <= bm_count cols ->
  v + ones cols n c <= bm_count nulls -> bm_count cols <= zlen (Types tm) -> bm_count cols <= zlen (Metadata tm) ->
  cells_ok (live_columns tm cols nulls n c v) cells ->
  skip_cells tm cols nulls (p ++ concat cells ++ q) n c v (zlen p) = Ret (Ok (zlen p + zlen (concat cells))).
Proof.
  intros Hcols Hnulls. revert c v p cells. induction n as [|n IH]; intros c v p cells Hc Hv Hn Ho Ht Hm Hcells.
  { inversion Hcells; subst. cbn. change (zlen (@nil byte)) with 0. by rewrite Z.add_0_r. }
  cbn [skip_cells live_columns ones] in *. pose proof (ones_range cols n (c + 1)).
  rewrite (bitmap_bits cols c) by (done || lia). cbn [mbind outcome_bind]. destruct (bit_at cols c); cbn [negb].
  2:{ by rewrite IH by (done || lia). }
  rewrite (bitmap_bits nulls v) by (done || lia). cbn [mbind outcome_bind]. destruct (bit_at nulls v); [by rewrite IH by (done || lia)|].
  rewrite (index_lookup (Types tm) c (z2b 0)), (index_lookup (Metadata tm) c 0) by lia. cbn [mbind outcome_bind].
  inversion Hcells as [|? cell ? cells' Hcell Hrest]; subst. cbn [concat]. rewrite <- app_assoc.
  rewrite (cellLength_local p cell (concat cells' ++ q) _ _ _ Hcell). cbn [tbind].
  rewrite app_assoc, <- zlen_app, IH by (done || lia). do 2 f_equal. len.
Qed.

(** ** Rows read back *)

(** One image of a row: the null bits of the columns present and the values of those that are not null. *)
Definition image_ok (tm : TableMap) (cols nulls : Bitmap) (values : list byte) : Prop :=
  bitmap_ok nulls /\ bm_count nulls = weight cols /\
  exists cells, values = concat cells /\
    cells_ok (live_columns tm cols nulls (Z.to_nat (bm_count cols)) 0 0) cells.

Definition columns_ok (tm : TableMap) (cols : Bitmap) : Prop :=
  bitmap_ok cols /\ bm_count cols <= zlen (Types tm) /\ bm_count cols <= zlen (Metadata tm).

Lemma read_image_at tm cols nulls values data p q i :
  buffer_ok data -> columns_ok tm cols -> image_ok tm cols nulls values ->
  data = p ++ (bm_data nulls ++ values) ++ q -> zlen p = i ->
  read_image tm cols (weight cols) (bm_count cols) data i =
  Ret (Ok (nulls, values, i + zlen (bm_data nulls ++ values))).
Proof.
  intros Hb (Hcols & Ht & Hm) (Hn & Hw & cells & Hv & Hcells) E Hi. unfold read_image. rewrite <- app_assoc in E.
  rewrite <- Hw, (newBitmap_at data p (values ++ q)) by done. cbn [mbind outcome_bind].
  rewrite app_assoc in E. assert (i + zlen (bm_data nulls) = zlen (p ++ bm_data nulls)) as -> by len.
  rewrite Hv in E. rewrite E at 1. pose proof Hcols as [Hc _].
  rewrite skip_cells_live by (done || lia || (rewrite Hw; unfold weight; lia)). cbn [tbind]. rewrite <- Hv in *.
  rewrite (slice_at data (p ++ bm_data nulls) values q) by done. cbn [mbind outcome_bind]. do 3 f_equal. len.
Qed.

(** An image the event may not have. *)
Definition image_if_ok (has : bool) (tm : TableMap) (cols nulls : Bitmap) (values : list byte) : Prop :=
  if has then image_ok tm cols nulls values else nulls = no_bitmap /\ values = [].

Definition columns_if_ok (has : bool) (tm : TableMap) (cols : Bitmap) : Prop :=
  if has then columns_ok tm cols /\ bm_count cols = zlen (Types tm) else cols = no_bitmap.

Definition image_layout (has : bool) (nulls : Bitmap) (values : list byte) : list byte :=
  if has then bm_data nulls ++ values else [].

Lemma read_image_if_at has tm cols nulls values data p q i :
  buffer_ok data -> columns_if_ok has tm cols -> image_if_ok has tm cols nulls values ->
  data = p ++ image_layout has nulls values ++ q -> zlen p = i ->
  read_image_if has tm cols (weight cols) (zlen (Types tm)) data i =
  Ret (Ok (nulls, values, i + zlen (image_layout has nulls values))).
Proof.
  intros Hb Hc Hok E Hi. destruct has; cbn in *.
  - destruct Hc as [Hc <-]. by apply (read_image_at _ _ _ _ _ p q).
  - destruct Hok as [-> ->]. change (zlen (@nil byte)) with 0. by rewrite Z.add_0_r.
Qed.

Definition row_layout (identify hasdata : bool) (row : Row) : list byte :=
  image_layout identify (NullIdentifyColumns row) (Identify row) ++ image_layout hasdata (NullColumns row) (Data row).

Section RowsRead.
Context (identify hasdata : bool) (tm : TableMap) (icols dcols : Bitmap).
Hypothesis Hi : columns_if_ok identify tm icols.
Hypothesis Hd : columns_if_ok hasdata tm dcols.
Hypothesis Hsome : 0 < weight icols + weight dcols.

Definition row_ok (row : Row) : Prop :=
  image_if_ok identify tm icols (NullIdentifyColumns row) (Identify row) /\
  image_if_ok hasdata tm dcols (NullColumns row) (Data row).

(** A row takes at least a byte. *)
Lemma row_layout_pos row : row_ok row -> 0 < zlen (row_layout identify hasdata row).
Proof.
  assert (forall has cols nulls values, columns_if_ok has tm cols -> image_if_ok has tm cols nulls values ->
    0 < weight cols -> 0 < zlen (image_layout has nulls values)) as Hone.
  { intros has cols nulls values Hc Hok Hw. destruct has; cbn in *; [|by rewrite Hc in Hw].
    destruct Hok as ([_ Hz] & Hn & _). rewrite zlen_app, Hz, Hn. pose proof (zlen_nonneg values).
    assert (1 <= (weight cols + 7) / 8); [|lia]. apply Z.div_le_lower_bound; lia. }
  intros [H1 H2]. unfold row_layout. rewrite zlen_app.
  pose proof (zlen_nonneg (image_layout identify (NullIdentifyColumns row) (Identify row))).
  pose proof (zlen_nonneg (image_layout hasdata (NullColumns row) (Data row))).
  destruct (decide (0 < weight icols)) as [Hw|Hw].
  - pose proof (Hone identify icols _ _ Hi H1 Hw). lia.
  - assert (0 < weight dcols) as Hw' by lia. pose proof (Hone hasdata dcols _ _ Hd H2 Hw'). lia.
Qed.

Lemma rows_loop_here rows acc fuel p :
  buffer_ok (p ++ concat (row_layout identify hasdata <$> rows)) -> Forall row_ok rows -> (length rows <= fuel)%nat ->
  rows_loop fuel identify hasdata tm icols dcols (weight icols) (weight dcols) (zlen (Types tm))
    (p ++ concat (row_layout identify hasdata <$> rows)) (zlen p) acc = Some (Ret (Ok (acc ++ rows))).
Proof.
  intros Hb Hrows. revert acc fuel p Hb. induction Hrows as [|row rows Hrow Hrows IH]; intros acc fuel p Hb Hf.
  - destruct fuel; cbn [rows_loop]; rewrite app_nil_r, (proj2 (Z.leb_le _ _)) by done; by rewrite app_nil_r.
  - destruct fuel as [|fuel]; cbn [length] in Hf; [lia|]. cbn [rows_loop].
    rewrite fmap_cons in *. cbn [concat] in *. set (rest := concat (row_layout identify hasdata <$> rows)) in *.
    pose proof (row_layout_pos row Hrow) as Hpos. pose proof (zlen_nonneg rest).
    set (data := p ++ row_layout identify hasdata row ++ rest) in *.
    assert (zlen data = zlen p + zlen (row_layout identify hasdata row) + zlen rest) as Hz by (subst data; len).
    rewrite (proj2 (Z.leb_gt _ _)) by lia. destruct Hrow as [H1 H2].
    set (x1 := image_layout identify (NullIdentifyColumns row) (Identify row)).
    set (x2 := image_layout hasdata (NullColumns row) (Data row)).
    rewrite (read_image_if_at identify tm icols (NullIdentifyColumns row) (Identify row) data p (x2 ++ rest)) by
      first [done|subst data; unfold row_layout; by rewrite <- app_assoc]. cbn [tbind].
    rewrite (read_image_if_at hasdata tm dcols (NullColumns row) (Data row) data (p ++ x1) rest) by
      first [done|subst data; unfold row_layout; by rewrite <- !app_assoc|fold x1; len]. cbn [tbind].
    fold x1 x2. replace (zlen p + zlen x1 + zlen x2) with (zlen (p ++ row_layout identify hasdata row))
      by (unfold row_layout; fold x1 x2; len).
    assert (data = (p ++ row_layout identify hasdata row) ++ rest) as E by (subst data; by rewrite app_assoc).
    rewrite E in *. rewrite IH by (done || lia). do 3 f_equal. rewrite <- app_assoc. by destruct row.
Qed.
End RowsRead.

(** The bitmap of the columns of an image. *)
Definition columns_bytes (has : bool) (cols : Bitmap) : list byte := if has then bm_data cols else [].

Lemma read_columns_at has tm cols data p q i :
  buffer_ok data -> columns_if_ok has tm cols -> data = p ++ columns_bytes has cols ++ q -> zlen p = i ->
  read_columns has data i (zlen (Types tm)) = Ret (cols, weight cols, i + zlen (columns_bytes has cols)).
Proof.
  intros Hb Hc E Hi. unfold read_columns. destruct has; cbn in *.
  - destruct Hc as [(Hok & _) <-]. rewrite (newBitmap_at data p q) by done. cbn [mbind outcome_bind].
    by rewrite BitCount_weight.
  - rewrite Hc. change (zlen (@nil byte)) with 0. by rewrite Z.add_0_r.
Qed.

(** Rows that belong to the table map [tm]. *)
Definition rows_ok (typ : byte) (tm : TableMap) (rows : Rows) : Prop :=
  0 <= RFlags rows < 2 ^ 16 /\ length (Metadata tm) = length (Types tm) /\
  columns_if_ok (hasIdentify typ) tm (IdentifyColumns rows) /\ columns_if_ok (hasData typ) tm (DataColumns rows) /\
  0 < weight (IdentifyColumns rows) + weight (DataColumns rows) /\
  Forall (row_ok (hasIdentify typ) (hasData typ) tm (IdentifyColumns rows) (DataColumns rows)) (RRows rows).

Definition rows_body (typ : byte) (tm : TableMap) (rows : Rows) : list byte :=
  lenenc (zlen (Types tm)) ++ columns_bytes (hasIdentify typ) (IdentifyColumns rows) ++
  columns_bytes (hasData typ) (DataColumns rows) ++ concat (row_layout (hasIdentify typ) (hasData typ) <$> RRows rows).

Definition rows_layout (typ : byte) (tableID : Z) (tm : TableMap) (rows : Rows) : list byte :=
  (binary.le_bytes 6 tableID ++ binary.le_bytes 2 (RFlags rows) ++ [z2b 2; z2b 0]) ++ rows_body typ tm rows.

Definition v2_type (typ : byte) : bool := typ_in typ [eWriteRowsEventV2; eUpdateRowsEventV2; eDeleteRowsEventV2].

Lemma v2_images typ : v2_type typ = true -> hasIdentify typ || hasData typ = true.
Proof. destruct typ; by vm_compute. Qed.

(** The number of columns is a length. *)
Lemma columns_count typ tm rows : v2_type typ = true -> rows_ok typ tm rows -> zlen (Types tm) <= MaxInt64 - 7.
Proof.
  intros Hv (_ & _ & Hi & Hd & _). apply v2_images in Hv.
  destruct (hasIdentify typ); [by destruct Hi as [([[_ ?] _] & _) <-]|].
  destruct (hasData typ); [by destruct Hd as [([[_ ?] _] & _) <-]|done].
Qed.

Lemma rows_columns_at typ tm rows data p i :
  buffer_ok data -> v2_type typ = true -> rows_ok typ tm rows -> data = p ++ rows_body typ tm rows -> zlen p = i ->
  exists p', data = p' ++ concat (row_layout (hasIdentify typ) (hasData typ) <$> RRows rows) /\
  rows_columns typ data i =
  Ret (Ok (zlen (Types tm), (IdentifyColumns rows, weight (IdentifyColumns rows)),
    (DataColumns rows, weight (DataColumns rows)), zlen p')).
Proof.
  intros Hb Hv Hok E0 Hi. pose proof (columns_count typ tm rows Hv Hok) as Hmax. pose proof (zlen_nonneg (Types tm)).
  destruct Hok as (Hfl & _ & Hic & Hdc & _). unfold rows_columns, rows_body in *.
  set (ic := columns_bytes (hasIdentify typ) (IdentifyColumns rows)) in *.
  set (dc := columns_bytes (hasData typ) (DataColumns rows)) in *. set (rest := concat _) in *.
  set (p1 := p ++ lenenc (zlen (Types tm))). set (p2 := p1 ++ ic). exists (p2 ++ dc).
  assert (data = p2 ++ dc ++ rest) as E2 by (rewrite E0; subst p2 p1; by rewrite <- !app_assoc).
  assert (data = p1 ++ ic ++ dc ++ rest) as E1 by (rewrite E2; subst p2; by rewrite <- app_assoc).
  assert (zlen p1 = i + lenEncIntSize (zlen (Types tm)) /\ zlen p2 = zlen p1 + zlen ic) as [Z1 Z2]
    by (subst p2 p1; split; autorewrite with zlen; lia).
  split; [by rewrite E2, <- app_assoc|].
  rewrite (readLenEncInt_at data p (ic ++ dc ++ rest)) with (n := zlen (Types tm)) by
    (done || (unfold is_uint64, MaxUint64, MaxInt64 in *; lia)). cbn [mbind outcome_bind negb]. rewrite <- Z1.
  rewrite !int64_id by (unfold is_int64, MinInt64 in *; lia).
  rewrite (read_columns_at (hasIdentify typ) tm (IdentifyColumns rows) data p1 (dc ++ rest)) by done.
  cbn [mbind outcome_bind]. fold ic. rewrite <- Z2.
  rewrite (read_columns_at (hasData typ) tm (DataColumns rows) data p2 rest) by done.
  cbn [mbind outcome_bind]. fold dc. by rewrite <- zlen_app.
Qed.

Lemma rows_header_reads h f typ tableID tm rows size :
  zlen h = b2z (HeaderLength f) -> v2_type typ = true -> HeaderSize f typ = Ret size -> b2z size <> 6 ->
  ev_Type (h ++ rows_layout typ tableID tm rows) = Ret typ -> rows_ok typ tm rows ->
  buffer_ok (rows_layout typ tableID tm rows) ->
  exists p, rows_layout typ tableID tm rows = p ++ concat (row_layout (hasIdentify typ) (hasData typ) <$> RRows rows) /\
  rows_header (h ++ rows_layout typ tableID tm rows) f =
  Ret (Ok (typ, rows_layout typ tableID tm rows, RFlags rows, (zlen (Types tm),
    (IdentifyColumns rows, weight (IdentifyColumns rows)), (DataColumns rows, weight (DataColumns rows)), zlen p))).
Proof.
  intros Hh Hv Hsize Hne Ht Hok Hb. unfold rows_header. rewrite Ht. cbn [mbind outcome_bind].
  unfold after_header. rewrite (slice_from_at _ h _ _ eq_refl Hh). cbn [mbind outcome_bind]. unfold id_length.
  rewrite Hsize. cbn [mbind outcome_bind]. rewrite (proj2 (Z.eqb_neq _ _) Hne). pose proof Hv as Hv'.
  unfold v2_type in Hv'. rewrite Hv'.
  set (data := rows_layout typ tableID tm rows) in *. set (body := rows_body typ tm rows).
  assert (data = binary.le_bytes 6 tableID ++ binary.le_bytes 2 (RFlags rows) ++ [z2b 2; z2b 0] ++ body) as E
    by (subst data; unfold rows_layout; by rewrite <- !app_assoc).
  rewrite (uint_at_le 2 2 data (binary.le_bytes 6 tableID) (RFlags rows) ([z2b 2; z2b 0] ++ body) 6) by (done || apply Hok).
  cbn [mbind outcome_bind].
  rewrite (uint_at_le 2 2 data (binary.le_bytes 6 tableID ++ binary.le_bytes 2 (RFlags rows)) 2 body (6 + 2)) by
    first [done|by rewrite E, <- app_assoc]. cbn [mbind outcome_bind].
  destruct (rows_columns_at typ tm rows data (binary.le_bytes 6 tableID ++ binary.le_bytes 2 (RFlags rows) ++ [z2b 2; z2b 0])
    (6 + 2 + 2)) as (p & Ep & ->); [done..|]. exists p. done.
Qed.

Lemma writes_rows identify hasdata rows :
  writes (fun data pos => write_rows identify hasdata data pos rows) (concat (row_layout identify hasdata <$> rows)).
Proof.
  induction rows as [|row rows IH]; [apply writes_nil|]. rewrite fmap_cons. cbn [concat write_rows]. unfold row_layout at 1.
  rewrite <- app_assoc. apply writes_bind; [apply writes_append|]. apply writes_bind; [apply writes_append|exact IH].
Qed.

Lemma row_size_layout typ tm rows row :
  row_ok (hasIdentify typ) (hasData typ) tm (IdentifyColumns rows) (DataColumns rows) row ->
  row_size row = zlen (row_layout (hasIdentify typ) (hasData typ) row).
Proof.
  intros [Hi Hd]. unfold row_size, row_layout, image_layout, image_if_ok in *.
  destruct (hasIdentify typ), (hasData typ); autorewrite with zlen; try lia;
    repeat match goal with H : _ = no_bitmap /\ _ = [] |- _ => destruct H as [-> ->] end; cbn -[zlen];
    change (zlen (@nil byte)) with 0; lia.
Qed.

Lemma sum_row_sizes typ tm rows rs n :
  Forall (row_ok (hasIdentify typ) (hasData typ) tm (IdentifyColumns rows) (DataColumns rows)) rs ->
  foldl (fun n row => n + row_size row) n rs = n + zlen (concat (row_layout (hasIdentify typ) (hasData typ) <$> rs)).
Proof.
  intros Hrs. revert n. induction Hrs as [|row rs Hrow Hrs IH]; intros n; [cbn; by rewrite Z.add_0_r|].
  cbn [foldl]. rewrite IH, fmap_cons. cbn [concat]. rewrite zlen_app, (row_size_layout typ tm rows row Hrow). lia.
Qed.

Lemma newRowsEvent_packet f s typ tableID tm rows size :
  v2_type typ = true -> HeaderSize f typ = Ret size -> b2z size <> 6 -> rows_ok typ tm rows ->
  packable f typ (rows_layout typ tableID tm rows) ->
  newRowsEvent f s typ tableID rows = Ret (mysql56BinlogEvent (packet s f typ 0 (rows_layout typ tableID tm rows)) false).
Proof.
  intros Hv Hsize Hne Hok Hf. pose proof (columns_count typ tm rows Hv Hok) as Hmax. pose proof (zlen_nonneg (Types tm)).
  unfold newRowsEvent. rewrite Hsize. cbn [mbind outcome_bind]. rewrite (proj2 (Z.eqb_neq _ _) Hne).
  pose proof Hok as (_ & _ & Hi & Hd & _ & Hrows).
  assert ((if hasIdentify typ then bm_count (IdentifyColumns rows) else bm_count (DataColumns rows)) = zlen (Types tm)) as ->.
  { pose proof (v2_images typ Hv) as Hv'. destruct (hasIdentify typ); [apply Hi|]. destruct (hasData typ); [apply Hd|done]. }
  rewrite (sum_row_sizes typ tm rows _ _ Hrows).
  assert (zlen (bm_data (IdentifyColumns rows)) = zlen (columns_bytes (hasIdentify typ) (IdentifyColumns rows)) /\
    zlen (bm_data (DataColumns rows)) = zlen (columns_bytes (hasData typ) (DataColumns rows))) as [Ei Ed].
  { split; [destruct (hasIdentify typ)|destruct (hasData typ)]; try done; [by rewrite Hi|by rewrite Hd]. }
  rewrite uint64_id by (unfold is_uint64, MaxUint64, MaxInt64 in *; lia). rewrite Ei, Ed.
  assert (zlen (rows_layout typ tableID tm rows) < 2 ^ 32) as Hl.
  { destruct Hf as [? Hl]. unfold packet_length in Hl. case_match; lia. }
  set (p := binary.le_bytes 6 tableID ++ binary.le_bytes 2 (RFlags rows) ++ [z2b 2; z2b 0]).
  assert (rows_layout typ tableID tm rows = p ++ rows_body typ tm rows) as El by done.
  rewrite El, zlen_app in Hl. change (zlen p) with 10 in Hl. unfold rows_body in Hl.
  rewrite (make_zeros (10 + (length (rows_body typ tm rows) + 0))).
  2:{ unfold rows_body. rewrite !length_app. unfold zlen in *. rewrite <- zlen_lenenc. unfold zlen. lia. }
  2:{ autorewrite with zlen in Hl. unfold MaxInt64. lia. }
  cbn [mbind outcome_bind]. rewrite !le_seq_bytes, seq_front by done. cbn [mbind outcome_bind]. fold p.
  assert (writes (write_rows_body typ (zlen (Types tm)) rows) (rows_body typ tm rows)) as Hw.
  { unfold write_rows_body, rows_body. rewrite uint64_id by (unfold is_uint64, MaxUint64, MaxInt64 in *; lia).
    apply writes_bind; [apply writes_lenenc|]. apply writes_bind; [apply writes_if, writes_copy|].
    apply writes_bind; [apply writes_if, writes_copy|apply writes_rows]. }
  specialize (Hw p 0%nat). change (zlen p) with 10 in Hw. fold (rows_body typ tm rows) in Hl.
  rewrite Hw by (unfold MaxInt64; lia).
  cbn [mbind outcome_bind]. rewrite app_nil_r, <- El. unfold new56. by rewrite Packetize_packet.
Qed.

(** C20: the rows of a write, update or delete event are read back from the event the writer makes of them, once its checksum has
    been stripped: the columns of the images, the null bits, and the values, split where each column's type says, for
    every fuel that allows one round per row. *)
Theorem Rows_roundtrip (f : BinlogFormat) (s : FakeBinlogStream) (typ : byte) (tableID : Z) (tm : TableMap) (rows : Rows)
    (size : byte) (fuel : nat) :
  stream_ok s -> checksum_ok f -> b2z (HeaderLength f) <= 250 -> v2_type typ = true ->
  HeaderSize f typ = Ret size -> b2z size <> 6 -> 0 <= tableID < 2 ^ 48 -> rows_ok typ tm rows ->
  packable f typ (rows_layout typ tableID tm rows) -> (length (RRows rows) <= fuel)%nat ->
  exists ev ev' sum, newRowsEvent f s typ tableID rows = Ret ev /\ IsValid ev = Ret true /\
    StripChecksum ev f = Ret (Ok (ev', sum)) /\ ev_TableID (Bytes ev') f = Ret tableID /\
    ev_Rows fuel (Bytes ev') f tm = Some (Ret (Ok rows)).
Proof.
  intros Hs Hc Hh Hv Hsize Hne Hid Hok Hf Hfuel. rewrite (newRowsEvent_packet f s typ tableID tm rows size) by done.
  assert (b2z typ <> eFormatDescriptionEvent) as Ht by (destruct typ; by vm_compute).
  set (data := rows_layout typ tableID tm rows) in *.
  destruct (new56_event s f typ 0 data) as (ev & sum & E & Hval & _ & Hst); [done..|].
  unfold new56 in E. rewrite Packetize_packet in E by done. cbn [mbind outcome_bind] in E. injection E as <-.
  eexists _, _, sum. split_and!; [done|exact Hval|exact Hst| |]; cbn [Bytes raw default from_option id].
  - pose proof (zlen_header s f typ 0 data (proj1 Hf)) as Hz. unfold data at 2, rows_layout. rewrite <- !app_assoc.
    apply (TableID_reads _ _ typ _ _ size); try done; [lia|]. by apply header_Type.
  - assert (buffer_ok data) as Hb.
    { unfold buffer_ok. destruct Hf as [? Hl]. unfold packet_length, MaxInt64 in *. case_match; lia. }
    destruct (rows_header_reads (packet_header s f typ 0 data) f typ tableID tm rows size) as (p & Ep & Hr);
      [by apply zlen_header, Hf|done..|by apply header_Type|done|done|].
    unfold ev_Rows. fold data in Hr, Ep. rewrite Hr. destruct Hok as (_ & _ & Hi & Hd & Hw & Hrows).
    rewrite Ep in *. rewrite rows_loop_here by done. cbn [mbind option_bind tbind app]. by destruct rows.
Qed.

(** ** How the reader ends *)

Lemma slice_inv {A} (s : list A) i j m : slice s i j = Ret m -> 0 <= i <= j /\ j <= zlen s.
Proof. unfold slice. case_match eqn:E; [|done]. intros _. zify_tests. lia. Qed.

Lemma add64_cases a b : is_int64 a -> is_int64 b ->
  (is_int64 (a + b) /\ add64 a b = a + b) \/ (MaxInt64 < a + b /\ add64 a b = a + b - 2 ^ 64) \/ (a + b < MinInt64 /\ add64 a b = a + b + 2 ^ 64).
Proof.
  intros Ha Hb. unfold_ints. change (64 - 1) with 63. change (2 ^ 63) with 9223372036854775808.
  change (2 ^ 64) with 18446744073709551616.
  pose proof (Z.div_mod (a + b + 9223372036854775808) 18446744073709551616 ltac:(lia)).
  pose proof (Z.mod_pos_bound (a + b + 9223372036854775808) 18446744073709551616 ltac:(lia)). lia.
Qed.

(** A bitmap that is there: how many bits it can have and how far it reaches. *)
Lemma newBitmap_inv data pos count b pos' :
  newBitmap data pos count = Ret (b, pos') -> buffer_ok data -> is_int64 count ->
  count <= MaxInt64 - 7 /\ 0 <= pos <= pos' /\ pos' <= zlen data /\ bm_count b = count /\ (0 < count -> pos < pos').
Proof.
  unfold newBitmap, buffer_ok. intros E Hb Hc. destruct (slice data pos _) as [m|] eqn:Es; [|done]. injection E as <- <-.
  apply slice_inv in Es. cbn [bm_count].
  assert (is_int64 (byteSize count) /\ (MaxInt64 - 7 < count -> byteSize count < 0) /\ (0 < count <= MaxInt64 - 7 -> 0 < byteSize count))
    as (Hbs & Hneg & Hpos).
  { unfold byteSize. assert (is_int64 7) as H7 by done.
    destruct (add64_cases count 7 Hc H7) as [[? ->] | [[? ->] | [? ->]]]; unfold is_int64, MaxInt64, MinInt64 in *;
      change (2 ^ 64) with 18446744073709551616 in *; Z.to_euclidean_division_equations; lia. }
  assert (is_int64 pos) as Hp by (unfold is_int64, MinInt64, MaxInt64 in *; lia).
  destruct (add64_cases pos (byteSize count) Hp Hbs) as [[? E'] | [[? E'] | [? E']]]; rewrite E' in *;
    unfold is_int64, MaxInt64, MinInt64 in *; change (2 ^ 64) with 18446744073709551616 in *; lia.
Qed.

Lemma bit_count_bound b n i sum r : bit_count b n i sum = Ret r -> sum <= r <= sum + Z.of_nat n.
Proof.
  revert i sum. induction n as [|n IH]; intros i sum; cbn [bit_count]; [intros [= ->]; lia|].
  destruct (Bit b i) as [bit|]; cbn [mbind outcome_bind]; [|done]. intros H%IH. case_match; lia.
Qed.

(** The columns of an image: an image that is not there has none. *)
Lemma read_columns_inv has data pos n b num pos' :
  read_columns has data pos n = Ret (b, num, pos') -> buffer_ok data -> is_int64 n ->
  0 <= num <= MaxInt64 - 7 /\ (0 <= pos -> 0 <= pos') /\ (0 < num -> has = true /\ 0 <= pos').
Proof.
  unfold read_columns. intros E Hb Hn. destruct has; [|by injection E as <- <- <-].
  destruct (newBitmap data pos n) as [[b' p']|] eqn:Eb; cbn [mbind outcome_bind] in E; [|done].
  destruct (newBitmap_inv _ _ _ _ _ Eb Hb Hn) as (Hmax & Hp & Hp' & Hc & _).
  unfold BitCount in E. destruct (bit_count b' _ 0 0) as [k|] eqn:Ek; cbn [mbind outcome_bind] in E; [|done].
  injection E as <- <- <-. apply bit_count_bound in Ek. unfold MaxInt64 in *. lia.
Qed.

(** Reading an image with columns moves on. *)
Lemma read_image_if_inv has tm cols num n data pos nulls values pos' :
  read_image_if has tm cols num n data pos = Ret (Ok (nulls, values, pos')) -> buffer_ok data ->
  0 <= num <= MaxInt64 - 7 -> 0 <= pos <= zlen data -> pos <= pos' <= zlen data /\ (has = true -> 0 < num -> pos < pos').
Proof.
  unfold read_image_if, read_image. intros E Hb Hn Hp. destruct has; [|injection E as <- <- <-; split; [lia|done]].
  destruct (newBitmap data pos num) as [[b start]|] eqn:Eb; cbn [mbind outcome_bind] in E; [|done].
  destruct (skip_cells _ _ _ _ _ _ _ _) as [[p'|e]|]; cbn [tbind] in E; try done.
  destruct (slice data start p') as [v|] eqn:Es; cbn [mbind outcome_bind] in E; [|done]. injection E as <- <- <-.
  apply slice_inv in Es. destruct (newBitmap_inv _ _ _ _ _ Eb Hb) as (_ & ? & ? & _ & Hlt);
    [unfold is_int64, MinInt64, MaxInt64 in *; lia|]. split; [lia|]. intros _ Hnum. specialize (Hlt Hnum). lia.
Qed.

Lemma rows_loop_ends fuel identify hasdata tm icols dcols numI numD n data pos rows :
  buffer_ok data -> 0 <= numI <= MaxInt64 - 7 -> 0 <= numD <= MaxInt64 - 7 ->
  (identify = true /\ 0 < numI) \/ (hasdata = true /\ 0 < numD) ->
  0 <= pos -> zlen data - pos <= Z.of_nat fuel ->
  exists r, rows_loop fuel identify hasdata tm icols dcols numI numD n data pos rows = Some r.
Proof.
  intros Hb HI HD Hsome. revert pos rows. induction fuel as [|fuel IH]; intros pos rows Hp Hf; cbn [rows_loop].
  - rewrite (proj2 (Z.leb_le _ _)) by lia. eauto.
  - destruct (Z.leb_spec (zlen data) pos); [eauto|].
    destruct (read_image_if identify _ _ _ _ _ _) as [[[[nulli ivals] p1]|e]|] eqn:E1; cbn [tbind]; [|eauto..].
    destruct (read_image_if_inv _ _ _ _ _ _ _ _ _ _ E1 Hb HI) as [H1 H1']; [lia|].
    destruct (read_image_if hasdata _ _ _ _ _ _) as [[[[nulld dvals] p2]|e]|] eqn:E2; cbn [tbind]; [|eauto..].
    destruct (read_image_if_inv _ _ _ _ _ _ _ _ _ _ E2 Hb HD) as [H2 H2']; [lia|].
    apply IH; [lia|]. destruct Hsome as [[Hi Hn]|[Hd Hn]]; [specialize (H1' Hi Hn)|specialize (H2' Hd Hn)]; lia.
Qed.

Lemma rows_columns_inv typ data pos n icols numI dcols numD pos' :
  rows_columns typ data pos = Ret (Ok (n, (icols, numI), (dcols, numD), pos')) -> buffer_ok data ->
  0 <= numI <= MaxInt64 - 7 /\ 0 <= numD <= MaxInt64 - 7 /\
  (0 < numI + numD -> ((hasIdentify typ = true /\ 0 < numI) \/ (hasData typ = true /\ 0 < numD)) /\ 0 <= pos').
Proof.
  unfold rows_columns. intros E Hb.
  destruct (readLenEncInt data pos) as [[[count rd] ok]|]; cbn [mbind outcome_bind] in E; [|done].
  destruct ok; cbn [negb] in E; [|done]. pose proof (int64_range count) as Hc.
  destruct (read_columns (hasIdentify typ) data rd (int64 count)) as [[[b1 n1] p1]|] eqn:E1; cbn [mbind outcome_bind] in E; [|done].
  destruct (read_columns (hasData typ) data p1 (int64 count)) as [[[b2 n2] p2]|] eqn:E2; cbn [mbind outcome_bind] in E; [|done].
  injection E as <- <- <- <- <- <-.
  destruct (read_columns_inv _ _ _ _ _ _ _ E1 Hb Hc) as (H1 & _ & H1').
  destruct (read_columns_inv _ _ _ _ _ _ _ E2 Hb Hc) as (H2 & Hkeep & H2'). split_and!; [lia..|]. intros Hsum.
  destruct (decide (0 < n1)) as [Hn|Hn].
  - destruct (H1' Hn) as [? ?]. auto.
  - assert (0 < n2) as Hn2 by lia. destruct (H2' Hn2) as [? ?]. auto.
Qed.

Lemma rows_header_inv ev f typ data flags columns :
  rows_header ev f = Ret (Ok (typ, data, flags, columns)) ->
  zlen data <= zlen ev /\ exists pos, rows_columns typ data pos = Ret (Ok columns).
Proof.
  unfold rows_header, after_header, slice_from. intros E.
  destruct (ev_Type ev) as [t|]; cbn [mbind outcome_bind] in E; [|done].
  destruct (slice ev _ (zlen ev)) as [d|] eqn:Es; cbn [mbind outcome_bind] in E; [|done].
  destruct (id_length f t) as [p0|]; cbn [mbind outcome_bind] in E; [|done].
  destruct (uint_at 2 d p0) as [fl|]; cbn [mbind outcome_bind] in E; [|done].
  destruct (if typ_in t _ then _ else _) as [p1|]; cbn [mbind outcome_bind] in E; [|done].
  destruct (rows_columns t d p1) as [[c|e]|] eqn:Ec; cbn [tbind] in E; [|done..]. injection E as <- <- <- <-.
  split; [|eauto]. unfold slice in Es. case_match; [|done]. injection Es as <-.
  unfold zlen. rewrite length_take, length_drop. lia.
Qed.

(** Further rounds change nothing. *)
Lemma rows_loop_more fuel fuel' identify hasdata tm icols dcols numI numD n data pos rows r :
  rows_loop fuel identify hasdata tm icols dcols numI numD n data pos rows = Some r -> (fuel <= fuel')%nat ->
  rows_loop fuel' identify hasdata tm icols dcols numI numD n data pos rows = Some r.
Proof.
  revert fuel' pos rows. induction fuel as [|fuel IH]; intros [|fuel'] pos rows; cbn [rows_loop]; [done| |lia|].
  - by destruct (zlen data <=? pos).
  - destruct (zlen data <=? pos); [done|]. intros H Hf.
    destruct (_ ←? read_image_if identify _ _ _ _ _ _; _) as [[[row pos']|e]|]; [|done..]. apply IH; [done|lia].
Qed.

(** C24: the reader of a rows event that has at least one column always ends, after at most one round per
    byte of the event, whatever the event holds: it has one result, rows, an error, or the panic of a slice past the end of a truncated
    event, which every larger number of rounds gives too. *)
Theorem Rows_terminates (ev : list byte) (f : BinlogFormat) (tm : TableMap) (typ : byte) (data : list byte) (flags n : Z)
    (icols dcols : Bitmap) (numI numD pos : Z) :
  rows_header ev f = Ret (Ok (typ, data, flags, (n, (icols, numI), (dcols, numD), pos))) -> buffer_ok ev ->
  0 < numI + numD -> exists r, forall fuel, (length ev <= fuel)%nat -> ev_Rows fuel ev f tm = Some r.
Proof.
  intros Eh Hb Hnum. unfold ev_Rows. rewrite Eh. destruct (rows_header_inv _ _ _ _ _ _ Eh) as [Hl [p0 Ec]].
  assert (buffer_ok data) as Hd by (unfold buffer_ok in *; lia).
  destruct (rows_columns_inv _ _ _ _ _ _ _ _ _ Ec Hd) as (HI & HD & Hsome). destruct (Hsome Hnum) as [Hhas Hpos].
  destruct (rows_loop_ends (length ev) (hasIdentify typ) (hasData typ) tm icols dcols numI numD n data pos [])
    as [r Er]; [done..| |]; [unfold zlen in *; lia|]. eexists. intros fuel Hf.
  rewrite (rows_loop_more _ _ _ _ _ _ _ _ _ _ _ _ _ _ Er Hf). cbn [mbind option_bind]. done.
Qed.

(** ** An event the reader does not end on *)

(** No column is present. *)
Lemma skip_cells_none tm cols nulls data n c v pos :
  (forall i, c <= i < c + Z.of_nat n -> Bit cols i = Ret false) -> skip_cells tm cols nulls data n c v pos = Ret (Ok pos).
Proof.
  revert c. induction n as [|n IH]; intros c Hbits; cbn [skip_cells]; [done|].
  rewrite Hbits by lia. cbn [mbind outcome_bind negb]. apply IH. intros i Hi. apply Hbits. lia.
Qed.

Lemma bit_count_zero b n i : bit_count b n i 0 = Ret 0 -> forall j, i <= j < i + Z.of_nat n -> Bit b j = Ret false.
Proof.
  revert i. induction n as [|n IH]; intros i E j Hj; [lia|]. cbn [bit_count] in E.
  destruct (Bit b i) as [bit|] eqn:Eb; cbn [mbind outcome_bind] in E; [|done].
  destruct bit; [apply bit_count_bound in E; lia|].
  destruct (decide (j = i)) as [->|]; [done|]. apply (IH (i + 1) E). lia.
Qed.

(** Columns that are counted as none. *)
Lemma rows_columns_zero typ data pos n icols dcols pos' :
  rows_columns typ data pos = Ret (Ok (n, (icols, 0), (dcols, 0), pos')) ->
  (hasIdentify typ = true -> forall i, 0 <= i < n -> Bit icols i = Ret false) /\
  (hasData typ = true -> forall i, 0 <= i < n -> Bit dcols i = Ret false).
Proof.
  assert (forall has p n b p', read_columns has data p n = Ret (b, 0, p') ->
    has = true -> forall i, 0 <= i < n -> Bit b i = Ret false) as Hone.
  { intros has p k b p' E -> i Hi. unfold read_columns, newBitmap in E.
    destruct (slice data p _) as [m|]; cbn [mbind outcome_bind] in E; [|done].
    unfold BitCount in E. cbn [bm_count] in E.
    destruct (bit_count _ _ 0 0) as [c|] eqn:Ek; cbn [mbind outcome_bind] in E; [|done]. injection E as <- -> <-.
    apply (bit_count_zero _ _ _ Ek). lia. }
  unfold rows_columns. intros E.
  destruct (readLenEncInt data pos) as [[[count rd] ok]|]; cbn [mbind outcome_bind] in E; [|done].
  destruct ok; cbn [negb] in E; [|done].
  destruct (read_columns (hasIdentify typ) _ _ _) as [[[b1 n1] p1]|] eqn:E1; cbn [mbind outcome_bind] in E; [|done].
  destruct (read_columns (hasData typ) _ _ _) as [[[b2 n2] p2]|] eqn:E2; cbn [mbind outcome_bind] in E; [|done].
  injection E as <- <- -> <- -> <-. split; by eapply Hone.
Qed.

Lemma read_image_if_none has tm cols n data pos :
  buffer_ok data -> 0 <= pos < zlen data -> (has = true -> forall i, 0 <= i < n -> Bit cols i = Ret false) -> 
  read_image_if has tm cols 0 n data pos = Ret (Ok (no_bitmap, [], pos)).
Proof.
  intros Hb Hp Hbits. destruct has; [|done]. cbn. unfold read_image, newBitmap, byteSize.
  change (Z.quot (add64 0 7) 8) with 0. unfold buffer_ok in Hb. rewrite add64_pos, Z.add_0_r by lia.
  assert (slice data pos pos = Ret []) as Hs.
  { unfold slice. replace (_ && _ && _) with true by (symmetry; rewrite !andb_true_iff; lia). by rewrite Z.sub_diag. }
  rewrite Hs. cbn [mbind outcome_bind]. rewrite skip_cells_none; [|intros i Hi; apply Hbits; [done|lia]].
  cbn [tbind]. by rewrite Hs.
Qed.

(** When an event has no columns but bytes where the rows should be, the reader never ends: every round appends an empty
    row and stays where it is. *)
Theorem Rows_diverges (ev : list byte) (f : BinlogFormat) (tm : TableMap) (typ : byte) (data : list byte) (flags n : Z)
    (icols dcols : Bitmap) (pos : Z) :
  rows_header ev f = Ret (Ok (typ, data, flags, (n, (icols, 0), (dcols, 0), pos))) -> buffer_ok ev ->
  0 <= pos < zlen data -> forall fuel, ev_Rows fuel ev f tm = None.
Proof.
  intros Eh Hb Hpos fuel. unfold ev_Rows. rewrite Eh. destruct (rows_header_inv _ _ _ _ _ _ Eh) as [Hl [p0 Ec]].
  assert (buffer_ok data) as Hd by (unfold buffer_ok in *; lia).
  destruct (rows_columns_zero _ _ _ _ _ _ _ Ec) as [Hi Hdt].
  assert (forall rows, rows_loop fuel (hasIdentify typ) (hasData typ) tm icols dcols 0 0 n data pos rows = None) as Hloop.
  { induction fuel as [|fuel IH]; intros rows; cbn [rows_loop]; rewrite (proj2 (Z.leb_gt _ _)) by lia; [done|].
    rewrite (read_image_if_none (hasIdentify typ)) by done. cbn [tbind].
    rewrite (read_image_if_none (hasData typ)) by done. cbn [tbind]. apply IH. }
  by rewrite Hloop.
Qed.

(** ** Witnesses *)

Lemma Bitmap_Set_witness :
  exists b', Set_ {| bm_data := zeros 2; bm_count := 9 |} 8 true = Ret b' /\ Bit b' 8 = Ret true.
Proof.
  destruct (Bitmap_Set {| bm_data := zeros 2; bm_count := 9 |} 8 8 true) as [(b' & E & _ & _ & Hb) _];
    [by vm_compute|cbn; lia|cbn; lia|]. exists b'. split; [exact E|exact Hb].
Defined.

(** A table with an integer, a string and a decimal, and a row of it in which the string is null. *)
Definition sample_map : TableMap := {|
  TFlags := 1; TDatabase := bs "ks"; TName := bs "t"; Types := z2b <$> [TypeLong; TypeVarchar; TypeNewDecimal];
  CanBeNull := {| bm_data := [z2b 2]; bm_count := 3 |}; Metadata := [0; 300; 0x0a02] |}.

Definition sample_rows : Rows := {|
  RFlags := 1; IdentifyColumns := no_bitmap; DataColumns := {| bm_data := [z2b 7]; bm_count := 3 |};
  RRows := [{| NullIdentifyColumns := no_bitmap; NullColumns := {| bm_data := [z2b 2]; bm_count := 3 |}; Identify := [];
               Data := z2b <$> [1; 0; 0; 0; 0x80; 0; 0; 1; 50] |}] |}.

Lemma sample_map_ok : tablemap_ok sample_map.
Proof.
  split_and!; try by vm_compute. by repeat (constructor; [by vm_compute|]).
Qed.

Lemma TableMap_roundtrip_witness :
  exists ev ev' sum, NewTableMapEvent NewMySQL56BinlogFormat NewFakeBinlogStream 0x102030405060 sample_map = Ret ev /\
    StripChecksum ev NewMySQL56BinlogFormat = Ret (Ok (ev', sum)) /\
    ev_TableMap (Bytes ev') NewMySQL56BinlogFormat = Ret (Ok sample_map).
Proof.
  destruct (TableMap_roundtrip NewMySQL56BinlogFormat NewFakeBinlogStream 0x102030405060 sample_map)
    as (ev & ev' & sum & E & _ & Hs & _ & Hm);
    [exact stream_ok_new|by right|by vm_compute|done|lia|exact sample_map_ok|by vm_compute|].
  exists ev, ev', sum. split; [exact E|]. split; [exact Hs|exact Hm].
Defined.

Lemma sample_rows_ok : rows_ok (z2b eWriteRowsEventV2) sample_map sample_rows.
Proof.
  split_and!; [by vm_compute|by vm_compute|done|done|by vm_compute|by vm_compute|].
  apply Forall_singleton. split; [by vm_compute|]. split; [by vm_compute|]. split; [by vm_compute|]. exists [z2b <$> [1; 0; 0; 0]; z2b <$> [0x80; 0; 0; 1; 50]]. split; [done|].
  by repeat (constructor; [by vm_compute|]).
Qed.

Lemma Rows_roundtrip_witness :
  exists ev ev' sum, NewWriteRowsEvent NewMySQL56BinlogFormat NewFakeBinlogStream 7 sample_rows = Ret ev /\
    StripChecksum ev NewMySQL56BinlogFormat = Ret (Ok (ev', sum)) /\
    ev_Rows 1 (Bytes ev') NewMySQL56BinlogFormat sample_map = Some (Ret (Ok sample_rows)).
Proof.
  destruct (Rows_roundtrip NewMySQL56BinlogFormat NewFakeBinlogStream (z2b eWriteRowsEventV2) 7 sample_map sample_rows (z2b 10) 1)
    as (ev & ev' & sum & E & _ & Hs & _ & Hr);
    [exact stream_ok_new|by right|by vm_compute|done|done|done|lia|exact sample_rows_ok|by vm_compute|cbn; lia|].
  exists ev, ev', sum. split; [exact E|]. split; [exact Hs|exact Hr].
Defined.

(** A rows event of the given number of columns, none of them present, and one byte more. *)
Definition hollow_event (columns : list byte) : list byte :=
  bare_event (z2b eWriteRowsEventV2) ++ zeros 6 ++ (z2b <$> [0; 0; 2; 0]) ++ columns ++ [z2b 0].

Lemma Rows_terminates_witness :
  exists r, forall fuel, (length (hollow_event [z2b 1; z2b 1]) <= fuel)%nat ->
    ev_Rows fuel (hollow_event [z2b 1; z2b 1]) NewMySQL56BinlogFormat sample_map = Some r.
Proof.
  eapply (Rows_terminates (hollow_event [z2b 1; z2b 1]) NewMySQL56BinlogFormat sample_map);
    [vm_compute; reflexivity|by vm_compute|lia].
Defined.

Lemma Rows_diverges_witness :
  forall fuel, ev_Rows fuel (hollow_event [z2b 1; z2b 0]) NewMySQL56BinlogFormat sample_map = None.
Proof.
  eapply (Rows_diverges (hollow_event [z2b 1; z2b 0]) NewMySQL56BinlogFormat sample_map);
    [vm_compute; reflexivity|by vm_compute|by vm_compute].
Defined.
