(* ===== verification/BinlogCell.v ===== *)
(** * Values in row events

    [CellValue] of [go/mysql/binlog_event_rbr.go]: the bytes of a column in a row event as a SQL value, with the number of
    bytes they take.  The theorems relate it to [cellLength], which the reader of the rows uses to find the ends of the
    values, and say what the text of a value means: integers of every width, dates, and decimals in the
    server's encoding. *)

From S2P Require Import Prelude Intervals GoStd GtidTypes Gtid56 Encoding SqlTypes Position Binlog BinlogRows.

(** A value and the number of bytes it takes. *)
Abbreviation cell_result := (outcome (result binlog_error (Value * Z))).

Definition cell (typ : Z) (val : list byte) (l : Z) : cell_result := Ret (Ok (MakeTrusted typ val, l)).

(** ** Reading bytes *)

(** The value of the [n] bytes at [pos], most significant first. *)
Fixpoint be_at_acc (data : list byte) (pos : Z) (n : nat) (acc : Z) : outcome Z :=
  match n with
  | O => Ret acc
  | S n => b ← index data pos; be_at_acc data (pos + 1) n (Z.shiftl acc 8 + b2z b)
  end.

Definition be_at (data : list byte) (pos : Z) (n : nat) : outcome Z := be_at_acc data pos n 0.

(** ** Dates and times *)

Definition dash_b : byte := z2b 45.
Definition colon_b : byte := z2b 58.
Definition dot_b : byte := z2b 46.
Definition space_b : byte := z2b 32.

(** ["%04d-%02d-%02d"], ["%02d:%02d:%02d"]. *)
Definition date_text (year month day : Z) : list byte :=
  fmt.pad_int 4 year ++ [dash_b] ++ fmt.pad_int 2 month ++ [dash_b] ++ fmt.pad_int 2 day.
Definition time_text (hour minute second : Z) : list byte :=
  fmt.pad_int 2 hour ++ [colon_b] ++ fmt.pad_int 2 minute ++ [colon_b] ++ fmt.pad_int 2 second.

Definition ZeroTimestamp : list byte := bs "0000-00-00 00:00:00".

(** [printTimestamp]. *)
Definition printTimestamp (v : Z) : list byte :=
  if v =? 0 then ZeroTimestamp
  else
    let '(year, month, day) := time.Date (v / 86400) in
    let '(hour, minute, second) := time.Clock v in
    date_text year month day ++ [space_b] ++ time_text hour minute second.

(** The [switch metadata] of the types with fractional seconds: the fraction stored at [pos] and the bytes it
    takes. *)
Definition fraction (data : list byte) (pos metadata : Z) : outcome (list byte * Z) :=
  if metadata =? 1 then d ← be_at data pos 1; Ret (dot_b :: fmt.pad_int 1 (Z.quot d 10), 1)
  else if metadata =? 2 then d ← be_at data pos 1; Ret (dot_b :: fmt.pad_int 2 d, 1)
  else if metadata =? 3 then d ← be_at data pos 2; Ret (dot_b :: fmt.pad_int 3 (Z.quot d 10), 2)
  else if metadata =? 4 then d ← be_at data pos 2; Ret (dot_b :: fmt.pad_int 4 d, 2)
  else if metadata =? 5 then d ← be_at data pos 3; Ret (dot_b :: fmt.pad_int 5 (Z.quot d 10), 3)
  else if metadata =? 6 then d ← be_at data pos 3; Ret (dot_b :: fmt.pad_int 6 d, 3)
  else Ret ([], 0).

(** [case TypeDate, TypeNewDate]. *)
Definition cell_Date (data : list byte) (pos : Z) : cell_result :=
  val ← le_at data pos 3;
  let day := Z.land val 31 in
  let month := Z.land (Z.shiftr val 5) 15 in
  let year := Z.shiftr val 9 in
  cell Type_DATE (date_text year month day) 3.

(** [case TypeTime]. *)
Definition cell_Time (data : list byte) (pos : Z) : cell_result :=
  b2 ← index data (pos + 2);
  v ← le_at data pos 3;
  let '(hour, minute, second) :=
    if 0 <? Z.land (b2z b2) 128 then
      let val := int32 (v + Z.shiftl 255 24) in
      (Z.quot val 10000, - Z.quot (Z.rem val 10000) 100, - Z.rem val 100)
    else (Z.quot v 10000, Z.quot (Z.rem v 10000) 100, Z.rem v 100) in
  cell Type_TIME (time_text hour minute second) 3.

(** [case TypeDateTime]. *)
Definition cell_DateTime (data : list byte) (pos : Z) : cell_result :=
  val ← uint_at 8 data pos;
  let d := val / 1000000 in
  let t := val mod 1000000 in
  cell Type_DATETIME
    (date_text (d / 10000) (d mod 10000 / 100) (d mod 100) ++ [space_b] ++
     time_text (t / 10000) (t mod 10000 / 100) (t mod 100)) 8.

(** [case TypeTimestamp2]. *)
Definition cell_Timestamp2 (data : list byte) (pos metadata : Z) : cell_result :=
  s ← slice data pos (pos + 4);
  let txt := printTimestamp (binary.of_be s) in
  '(frac, n) ← fraction data (pos + 4) metadata;
  cell Type_TIMESTAMP (txt ++ frac) (4 + n).

(** [case TypeDateTime2]. *)
Definition cell_DateTime2 (data : list byte) (pos metadata : Z) : cell_result :=
  v ← be_at data pos 5;
  let ymdhms := uint64 (v - 0x8000000000) in
  let ymd := Z.shiftr ymdhms 17 in
  let ym := Z.shiftr ymd 5 in
  let hms := ymdhms mod 2 ^ 17 in
  let day := ymd mod 2 ^ 5 in
  let month := ym mod 13 in
  let year := ym / 13 in
  let second := hms mod 2 ^ 6 in
  let minute := Z.shiftr hms 6 mod 2 ^ 6 in
  let hour := Z.shiftr hms 12 in
  '(frac, n) ← fraction data (pos + 5) metadata;
  cell Type_DATETIME (date_text year month day ++ [space_b] ++ time_text hour minute second ++ frac) (5 + n).

(** One case of the [switch metadata] of [TypeTime2]: [n] bytes of fraction, printed with [digits] digits; a negative time
    is stored as the complement. *)
Definition time2_fraction (data : list byte) (pos : Z) (n : nat) (negative : bool) (hms : Z) (digits : nat) (tenth : bool)
  : outcome (Z * list byte) :=
  frac ← be_at data pos n;
  let '(hms, frac) := if negative && negb (frac =? 0) then (hms - 1, 2 ^ (8 * Z.of_nat n) - frac) else (hms, frac) in
  Ret (hms, dot_b :: fmt.pad_int digits (if tenth then Z.quot frac 10 else frac)).

(** The [switch metadata] of [TypeTime2]. *)
Definition time2_switch (data : list byte) (pos metadata : Z) (negative : bool) (hms : Z) : outcome (Z * list byte) :=
  if metadata =? 1 then time2_fraction data pos 1 negative hms 1 true
  else if metadata =? 2 then time2_fraction data pos 1 negative hms 2 false
  else if metadata =? 3 then time2_fraction data pos 2 negative hms 3 true
  else if metadata =? 4 then time2_fraction data pos 2 negative hms 4 false
  else if metadata =? 5 then time2_fraction data pos 3 negative hms 5 true
  else if metadata =? 6 then time2_fraction data pos 3 negative hms 6 false
  else Ret (hms, []).

(** [case TypeTime2]. *)
Definition cell_Time2 (data : list byte) (pos metadata : Z) : cell_result :=
  v ← be_at data pos 3;
  let hms := v - 0x800000 in
  let negative := hms <? 0 in
  let hms := Z.abs hms in
  '(hms, fracStr) ← time2_switch data (pos + 3) metadata negative hms;
  let hour := Z.shiftr hms 12 mod 2 ^ 10 in
  let minute := Z.shiftr hms 6 mod 2 ^ 6 in
  let second := hms mod 2 ^ 6 in
  cell Type_TIME ((if negative then [dash_b] else []) ++ time_text hour minute second ++ fracStr)
    (3 + Z.quot (metadata + 1) 2).

(** ** Decimals *)

(** [binary.BigEndian.Uint32(d[pos:pos+4])]. *)
Definition be32_at (d : list byte) (pos : Z) : outcome Z := s ← slice d pos (pos + 4); Ret (binary.of_be s).

(** [for i := 0; i < n; i++ { val = ...; fmt.Fprintf(txt, "%09d", val); pos += 4 }]. *)
Fixpoint full_groups (d : list byte) (pos : Z) (n : nat) (txt : list byte) : outcome (list byte * Z) :=
  match n with
  | O => Ret (txt, pos)
  | S n => val ← be32_at d pos; full_groups d (pos + 4) n (txt ++ fmt.pad_int 9 val)
  end.

(** [d[0] ^= 0x80; if isNegative { for i := range d { d[i] ^= 0xff } }]. *)
Definition decimal_flip (negative : bool) (d : list byte) : list byte :=
  let d := match d with [] => [] | b :: d => z2b (Z.lxor (b2z b) 0x80) :: d end in
  if negative then (fun b => z2b (Z.lxor (b2z b) 0xff)) <$> d else d.

(** [strings.TrimLeft(s, "0")]. *)
Fixpoint trim_left_zeroes (s : list byte) : list byte :=
  match s with
  | [] => []
  | b :: s' => if decide (b = z2b 48) then trim_left_zeroes s' else s
  end.

(** [trimPrecedingZeroes]; the text is not empty. *)
Definition trimPrecedingZeroes (s : list byte) : outcome (list byte) :=
  b ← index s 0;
  if decide (b = dash_b) then s ← slice_from s 1; Ret (dash_b :: trim_left_zeroes s)
  else Ret (trim_left_zeroes s).

(** The integer part: the leading digits, if they are not zero, and the groups of nine. *)
Definition decimal_int (d : list byte) (head : Z) (intg0 : Z) (txt : list byte) : outcome (list byte * Z) :=
  val ← be_at d 0 (Z.to_nat head);
  full_groups d head (Z.to_nat intg0) (if 0 <? val then txt ++ strconv.FormatUint val else txt).

(** The fraction: the groups of nine and the last digits, after which preceding zeroes are removed. *)
Definition decimal_frac (d : list byte) (pos frac0 frac0x tail : Z) (txt : list byte) : outcome (list byte) :=
  '(txt, pos) ← full_groups d pos (Z.to_nat frac0) (txt ++ [dot_b]);
  if tail =? 0 then Ret txt
  else
    val ← be_at d pos (Z.to_nat tail);
    trimPrecedingZeroes (txt ++ fmt.pad_int (Z.to_nat frac0x) val).

(** [case TypeNewDecimal]. *)
Definition cell_NewDecimal (data : list byte) (pos metadata : Z) : cell_result :=
  let precision := Z.shiftr metadata 8 in
  let scale := Z.land metadata 0xff in
  let intg := precision - scale in
  let intg0 := Z.quot intg 9 in
  let intg0x := intg - intg0 * 9 in
  let frac0 := Z.quot scale 9 in
  let frac0x := scale - frac0 * 9 in
  head ← index dig2bytes intg0x;
  tail ← index dig2bytes frac0x;
  let l := intg0 * 4 + head + frac0 * 4 + tail in
  d ← make_bytes l;
  s ← slice data pos (pos + l);
  let d := copy_into d s in
  b ← index d 0;
  let isNegative := Z.land (b2z b) 0x80 =? 0 in
  let d := decimal_flip isNegative d in
  '(txt, p) ← decimal_int d head intg0 (if isNegative then [dash_b] else []);
  if scale =? 0 then cell Type_DECIMAL (if decide (txt = []) then [z2b 48] else txt) l
  else
    txt ← decimal_frac d p frac0 frac0x tail txt;
    cell Type_DECIMAL txt l.

(** ** The cases of [CellValue] *)

(** The integers; [strconv.AppendInt] and [AppendUint]. *)
Definition cell_Tiny (data : list byte) (pos : Z) (field : Field) : cell_result :=
  b ← index data pos;
  if IsSigned (f_Type field) then cell Type_INT8 (strconv.FormatInt (int8 (b2z b))) 1
  else cell Type_UINT8 (strconv.FormatUint (b2z b)) 1.

Definition cell_Year (data : list byte) (pos : Z) : cell_result :=
  b ← index data pos;
  if b2z b =? 0 then cell Type_YEAR (bs "0000") 1 else cell Type_YEAR (strconv.FormatUint (b2z b + 1900)) 1.

Definition cell_Short (data : list byte) (pos : Z) (field : Field) : cell_result :=
  val ← uint_at 2 data pos;
  if IsSigned (f_Type field) then cell Type_INT16 (strconv.FormatInt (int16 val)) 2
  else cell Type_UINT16 (strconv.FormatUint val) 2.

Definition cell_Int24 (data : list byte) (pos : Z) (field : Field) : cell_result :=
  b2 ← (if IsSigned (f_Type field) then index data (pos + 2) else Ret (z2b 0));
  val ← le_at data pos 3;
  if IsSigned (f_Type field) && (0 <? Z.land (b2z b2) 128) then
    cell Type_INT24 (strconv.FormatInt (int32 (val + Z.shiftl 255 24))) 3
  else cell Type_UINT24 (strconv.FormatUint val) 3.

Definition cell_Long (data : list byte) (pos : Z) (field : Field) : cell_result :=
  val ← uint_at 4 data pos;
  if IsSigned (f_Type field) then cell Type_INT32 (strconv.FormatInt (int32 val)) 4
  else cell Type_UINT32 (strconv.FormatUint val) 4.

Definition cell_LongLong (data : list byte) (pos : Z) (field : Field) : cell_result :=
  val ← uint_at 8 data pos;
  if IsSigned (f_Type field) then cell Type_INT64 (strconv.FormatInt (int64 val)) 8
  else cell Type_UINT64 (strconv.FormatUint val) 8.

(** A string after a length of [n] bytes. *)
Definition counted_bytes (data : list byte) (pos : Z) (n : nat) : outcome (list byte * Z) :=
  l ← le_at data pos n;
  s ← slice data (pos + Z.of_nat n) (pos + Z.of_nat n + l);
  Ret (s, l + Z.of_nat n).

Definition cell_Varchar (data : list byte) (pos metadata : Z) (field : Field) : cell_result :=
  let typeToUse :=
    if (f_Type field =? Type_VARBINARY) || (f_Type field =? Type_BINARY) || (f_Type field =? Type_BLOB)
    then f_Type field else Type_VARCHAR in
  '(s, l) ← counted_bytes data pos (if 255 <? metadata then 2%nat else 1%nat);
  cell typeToUse s l.

Definition cell_Bit (data : list byte) (pos metadata : Z) : cell_result :=
  let nbits := uint16 (uint16 (Z.shiftr metadata 8 * 8) + Z.land metadata 0xFF) in
  let l := Z.quot (nbits + 7) 8 in
  s ← slice data pos (pos + l);
  cell Type_BIT s l.

(** An enum of the given size. *)
Definition cell_Enum (data : list byte) (pos size typ1 typ2 : Z) : cell_result :=
  if size =? 1 then b ← index data pos; cell typ1 (strconv.FormatUint (b2z b)) 1
  else if size =? 2 then val ← uint_at 2 data pos; cell typ2 (strconv.FormatUint val) 2
  else Ret (Err (UnexpectedEnumSize size)).

Section Parameters.
(** [strconv.AppendFloat(nil, x, 'E', -1, 32)] and [64] on the bits of a number, [strings.ToLower], and the
    text of a JSON document in binary form. *)
Context (float32_text float64_text : Z -> list byte) (ToLower : list byte -> list byte).
Context (getJSONValue : list byte -> option (list byte)).

Definition cell_Float (data : list byte) (pos : Z) : cell_result :=
  val ← uint_at 4 data pos; cell Type_FLOAT32 (float32_text val) 4.
Definition cell_Double (data : list byte) (pos : Z) : cell_result :=
  val ← uint_at 8 data pos; cell Type_FLOAT64 (float64_text val) 8.

(** The blobs: [metadata] bytes of length, and then the data. *)
Definition cell_Blob (data : list byte) (pos : Z) (typ : byte) (metadata : Z) : cell_result :=
  if (1 <=? metadata) && (metadata <=? 4) then
    '(s, l) ← counted_bytes data pos (Z.to_nat metadata);
    if typ_in typ [TypeJSON] then
      match getJSONValue s with
      | None => Ret (Err StringifyingJSON)
      | Some d => cell Type_EXPRESSION d l
      end
    else if typ_in typ [TypeGeometry] then cell Type_GEOMETRY s l
    else cell Type_VARBINARY s l
  else Ret (Err (UnsupportedBlobMetadata metadata)).

(** [strings.HasPrefix(strings.ToLower(field.ColumnType), "binary")]. *)
Definition is_binary_column (field : Field) : bool :=
  bool_decide (take 6 (ToLower (f_ColumnType field)) = bs "binary").

(** [case TypeString]: enums, sets and strings. *)
Definition cell_String (data : list byte) (pos metadata : Z) (field : Field) : cell_result :=
  let t := Z.shiftr metadata 8 in
  if t =? TypeEnum then cell_Enum data pos (Z.land metadata 0xff) Type_UINT8 Type_UINT16
  else if t =? TypeSet then
    let l := Z.land metadata 0xff in
    val ← le_at data pos (Z.to_nat l);
    cell Type_UINT64 (strconv.FormatUint (uint64 val)) l
  else
    let max := Z.lxor (Z.land (Z.shiftr metadata 4) 0x300) 0x300 + Z.land metadata 0xff in
    if 255 <? max then '(s, l) ← counted_bytes data pos 2; cell Type_VARCHAR s l
    else
      '(mdata, l) ← counted_bytes data pos 1;
      if IsBinary (f_Type field) then
        if (zlen mdata <? max) && is_binary_column field then
          cell Type_BINARY (mdata ++ replicate (Z.to_nat (max - zlen mdata)) (z2b 0)) l
        else cell Type_BINARY mdata l
      else cell Type_VARCHAR mdata l.

(** [CellValue]. *)
Definition CellValue (data : list byte) (pos : Z) (typ : byte) (metadata : Z) (field : Field) : cell_result :=
  if typ_in typ [TypeTiny] then cell_Tiny data pos field
  else if typ_in typ [TypeYear] then cell_Year data pos
  else if typ_in typ [TypeShort] then cell_Short data pos field
  else if typ_in typ [TypeInt24] then cell_Int24 data pos field
  else if typ_in typ [TypeLong] then cell_Long data pos field
  else if typ_in typ [TypeFloat] then cell_Float data pos
  else if typ_in typ [TypeDouble] then cell_Double data pos
  else if typ_in typ [TypeTimestamp] then
    val ← uint_at 4 data pos; cell Type_TIMESTAMP (printTimestamp val) 4
  else if typ_in typ [TypeLongLong] then cell_LongLong data pos field
  else if typ_in typ [TypeDate; TypeNewDate] then cell_Date data pos
  else if typ_in typ [TypeTime] then cell_Time data pos
  else if typ_in typ [TypeDateTime] then cell_DateTime data pos
  else if typ_in typ [TypeVarchar; TypeVarString] then cell_Varchar data pos metadata field
  else if typ_in typ [TypeBit] then cell_Bit data pos metadata
  else if typ_in typ [TypeTimestamp2] then cell_Timestamp2 data pos metadata
  else if typ_in typ [TypeDateTime2] then cell_DateTime2 data pos metadata
  else if typ_in typ [TypeTime2] then cell_Time2 data pos metadata
  else if typ_in typ [TypeNewDecimal] then cell_NewDecimal data pos metadata
  else if typ_in typ [TypeEnum] then cell_Enum data pos (Z.land metadata 0xff) Type_ENUM Type_ENUM
  else if typ_in typ [TypeSet] then
    let l := Z.land metadata 0xff in s ← slice data pos (pos + l); cell Type_SET s l
  else if typ_in typ [TypeJSON; TypeTinyBlob; TypeMediumBlob; TypeLongBlob; TypeBlob] then cell_Blob data pos typ metadata
  else if typ_in typ [TypeString] then cell_String data pos metadata field
  else if typ_in typ [TypeGeometry] then cell_Blob data pos typ metadata
  else Ret (Err (UnsupportedType typ)).

(** The loop over the columns [c], ..., [c + n - 1] of the helpers below: the texts of the values, and the position after
    them. *)
Fixpoint row_strings (tm : TableMap) (cols nulls : Bitmap) (data : list byte) (n : nat) (c valueIndex pos : Z)
    (strs : list (list byte)) : outcome (result binlog_error (list (list byte) * Z)) :=
  match n with
  | O => Ret (Ok (strs, pos))
  | S n =>
      present ← Bit cols c;
      if negb present then row_strings tm cols nulls data n (c + 1) valueIndex pos strs
      else
        null ← Bit nulls valueIndex;
        if null : bool then row_strings tm cols nulls data n (c + 1) (valueIndex + 1) pos (strs ++ [bs "NULL"])
        else
          typ ← index (Types tm) c;
          metadata ← index (Metadata tm) c;
          '(value, l) ←? CellValue data pos typ metadata (type_field Type_UINT64);
          row_strings tm cols nulls data n (c + 1) (valueIndex + 1) (pos + l) (strs ++ [v_val value])
  end.

(** [StringValuesForTests] and [StringIdentifiesForTests]. *)
Definition StringValuesForTests (rs : Rows) (tm : TableMap) (rowIndex : Z) : outcome (result binlog_error (list (list byte))) :=
  row ← index (RRows rs) rowIndex;
  '(result, _) ←? row_strings tm (DataColumns rs) (NullColumns row) (Data row) (Z.to_nat (bm_count (DataColumns rs))) 0 0 0 [];
  Ret (Ok result).

Definition StringIdentifiesForTests (rs : Rows) (tm : TableMap) (rowIndex : Z) : outcome (result binlog_error (list (list byte))) :=
  row ← index (RRows rs) rowIndex;
  '(result, _) ←? row_strings tm (IdentifyColumns rs) (NullIdentifyColumns row) (Identify row)
    (Z.to_nat (bm_count (IdentifyColumns rs))) 0 0 0 [];
  Ret (Ok result).
End Parameters.

(** ** Numbers with the most significant byte first *)

Lemma of_be_cons b m : binary.of_be (b :: m) = b2z b * 256 ^ zlen m + binary.of_be m.
Proof.
  unfold binary.of_be. rewrite reverse_cons.
  assert (forall l, binary.of_le (l ++ [b]) = binary.of_le l + 256 ^ zlen l * b2z b) as H.
  { induction l as [|c l IH]; [cbn [app]; rewrite binary.of_le_cons; change (zlen (A := byte) []) with 0; change (binary.of_le []) with 0; lia|].
    cbn [app]. rewrite !binary.of_le_cons, IH, zlen_cons, Z.pow_add_r by (lia || apply zlen_nonneg). lia. }
  rewrite H. unfold zlen. rewrite length_reverse. lia.
Qed.

Lemma be_at_acc_of_be p m q acc : be_at_acc (p ++ m ++ q) (zlen p) (length m) acc = Ret (acc * 256 ^ zlen m + binary.of_be m).
Proof.
  revert p acc. induction m as [|b m IH]; intros p acc; [change (zlen (A := byte) []) with 0; cbn; f_equal; lia|].
  cbn [length be_at_acc app]. rewrite (index_at _ p b (m ++ q)) by done. cbn [mbind outcome_bind].
  specialize (IH (p ++ [b]) (Z.shiftl acc 8 + b2z b)). rewrite <- app_assoc, zlen_app in IH. cbn [app] in IH.
  change (zlen [b]) with 1 in IH. rewrite IH. f_equal.
  rewrite of_be_cons, zlen_cons, Z.pow_add_r, Z.shiftl_mul_pow2 by (lia || apply zlen_nonneg). lia.
Qed.

Lemma be_at_read p n z q : 0 <= z < 256 ^ Z.of_nat n -> be_at (p ++ binary.be_bytes n z ++ q) (zlen p) n = Ret z.
Proof.
  intros Hz. unfold be_at. rewrite <- (binary.length_be_bytes n z) at 2.
  rewrite be_at_acc_of_be, binary.of_be_be_bytes, Z.mod_small by done. done.
Qed.

(** ** A value ends where the reader of the rows thinks it does *)

(** The types a row can have values of. *)
Definition cell_types : list Z :=
  [TypeTiny; TypeYear; TypeShort; TypeInt24; TypeLong; TypeFloat; TypeDouble; TypeTimestamp; TypeLongLong; TypeDate;
   TypeNewDate; TypeTime; TypeDateTime; TypeVarchar; TypeVarString; TypeBit; TypeTimestamp2; TypeDateTime2; TypeTime2;
   TypeNewDecimal; TypeEnum; TypeSet; TypeJSON; TypeTinyBlob; TypeMediumBlob; TypeLongBlob; TypeBlob; TypeString;
   TypeGeometry].

Lemma typ_in_list typ l : typ_in typ l = true -> exists t, t ∈ l /\ typ = z2b t.
Proof.
  unfold typ_in. intros (t & Hin & Ht)%existsb_exists. exists t. split; [by apply list_elem_of_In|].
  apply Z.eqb_eq in Ht. by rewrite <- Ht, z2b_b2z.
Qed.

Lemma typ_in_sub typ l l' : forallb (fun t => existsb (Z.eqb t) l') l = true -> typ_in typ l' = false -> typ_in typ l = false.
Proof.
  unfold typ_in. intros Hsub Hn. apply not_true_is_false. intros (t & Hin & Ht)%existsb_exists.
  assert (existsb (Z.eqb (b2z typ)) l' = true); [|congruence]. apply Z.eqb_eq in Ht. rewrite Ht.
  rewrite forallb_forall in Hsub. by apply Hsub.
Qed.

(** Evaluates the tests on a concrete type. *)
Ltac eval_typ :=
  repeat match goal with
  | |- context [typ_in (z2b ?t) ?l] =>
      let r := eval vm_compute in (typ_in (z2b t) l) in change (typ_in (z2b t) l) with r
  | H : context [typ_in (z2b ?t) ?l] |- _ =>
      let r := eval vm_compute in (typ_in (z2b t) l) in change (typ_in (z2b t) l) with r in H
  end; cbv iota in *.

(** Follows a computation that returned a value. *)
Ltac follow H :=
  unfold mbind, outcome_bind in H;
  repeat (case_match; try discriminate H); try (injection H as <- <-).

Lemma counted_bytes_inv data pos n s l : counted_bytes data pos n = Ret (s, l) ->
  exists k, le_at data pos n = Ret k /\ l = k + Z.of_nat n.
Proof. unfold counted_bytes. intros H. follow H. eauto. Qed.

Lemma fraction_inv data pos metadata t n : 0 <= metadata <= 6 ->
  fraction data pos metadata = Ret (t, n) -> n = Z.quot (metadata + 1) 2.
Proof.
  intros Hm H. assert (metadata = 0 \/ metadata = 1 \/ metadata = 2 \/ metadata = 3 \/ metadata = 4 \/ metadata = 5 \/ metadata = 6)
    as Hcases by lia. unfold fraction in H.
  repeat destruct Hcases as [-> | Hcases]; try subst metadata; cbn [Z.eqb Pos.eqb] in H; by follow H.
Qed.

Lemma cell_NewDecimal_length data pos metadata v l : cell_NewDecimal data pos metadata = Ret (Ok (v, l)) ->
  decimal_size (Z.shiftr metadata 8) (Z.land metadata 0xff) = Ret l.
Proof.
  unfold cell_NewDecimal, decimal_size. generalize (index dig2bytes (Z.shiftr metadata 8 - Z.land metadata 255 -
    Z.quot (Z.shiftr metadata 8 - Z.land metadata 255) 9 * 9)) as head.
  generalize (index dig2bytes (Z.land metadata 255 - Z.quot (Z.land metadata 255) 9 * 9)) as tail.
  intros [df|] [di|] H; cbn [mbind outcome_bind] in *; try discriminate H. unfold cell in H. by follow H.
Qed.

(** The inner computation of a case, and what is left of it. *)
Lemma bind_inv {A B} (m : outcome A) (k : A -> outcome B) b : m ≫= k = Ret b -> exists a, m = Ret a /\ k a = Ret b.
Proof. destruct m as [a|]; [intros H; by exists a|discriminate]. Qed.

Ltac inv_bind H :=
  let a := fresh "a" in let E := fresh "E" in
  apply bind_inv in H as (a & E & H).

Lemma cell_Varchar_length data pos metadata field v l : cell_Varchar data pos metadata field = Ret (Ok (v, l)) ->
  (if 255 <? metadata then n ← le_at data pos 2; Ret (Ok (n + 2)) else n ← le_at data pos 1; Ret (Ok (n + 1))) =
  Ret (Ok (E := binlog_error) l).
Proof.
  unfold cell_Varchar. intros H. inv_bind H. destruct a as [s n]. injection H as _ <-.
  case_match; apply counted_bytes_inv in E as (k & -> & ->); done.
Qed.

Lemma cell_fraction_length data pos metadata n v l typ f :
  0 <= metadata <= 6 -> ('(frac, k) ← fraction data pos metadata; cell typ (f frac) (n + k)) = Ret (Ok (v, l)) ->
  l = n + Z.quot (metadata + 1) 2.
Proof.
  intros Hm H. inv_bind H. destruct a as [t k]. injection H as _ <-. by rewrite (fraction_inv _ _ _ _ _ Hm E).
Qed.

Section CellLength.
Context (float32_text float64_text : Z -> list byte) (ToLower : list byte -> list byte).
Context (getJSONValue : list byte -> option (list byte)).
Abbreviation Cell := (CellValue float32_text float64_text ToLower getJSONValue).

Lemma Cell_unsupported data pos typ metadata field :
  typ_in typ cell_types = false -> Cell data pos typ metadata field = Ret (Err (UnsupportedType typ)).
Proof.
  intros Hn. unfold CellValue.
  repeat match goal with
  | |- context [typ_in typ ?l] => rewrite (typ_in_sub typ l cell_types) by (vm_compute; reflexivity || exact Hn)
  end. done.
Qed.

Lemma cell_Blob_length data pos typ metadata v l : cell_Blob getJSONValue data pos typ metadata = Ret (Ok (v, l)) ->
  (if (1 <=? metadata) && (metadata <=? 4) then n ← le_at data pos (Z.to_nat metadata); Ret (Ok (metadata + n))
   else Ret (Err (UnsupportedBlobMetadata metadata))) = Ret (Ok l).
Proof.
  unfold cell_Blob. destruct (_ && _) eqn:Em; [|discriminate]. intros H. inv_bind H. destruct a as [s n].
  apply counted_bytes_inv in E as (k & -> & ->). rewrite Z2Nat.id in H by lia. cbn [mbind outcome_bind].
  rewrite Z.add_comm. unfold cell in H. repeat (case_match; try discriminate H); by injection H as _ <-.
Qed.

Lemma cell_String_length data pos metadata field v l : cell_String ToLower data pos metadata field = Ret (Ok (v, l)) ->
  (if (Z.shiftr metadata 8 =? TypeEnum) || (Z.shiftr metadata 8 =? TypeSet) then Ret (Ok (Z.land metadata 0xff))
   else if 255 <? Z.lxor (Z.land (Z.shiftr metadata 4) 0x300) 0x300 + Z.land metadata 0xff
   then n ← le_at data pos 2; Ret (Ok (n + 2)) else n ← le_at data pos 1; Ret (Ok (n + 1))) =
  Ret (Ok (E := binlog_error) l).
Proof.
  unfold cell_String, cell_Enum, cell. intros H. repeat (case_match; try discriminate H); cbn [orb] in *; try discriminate;
    repeat inv_bind H; repeat (case_match; try discriminate H); simplify_eq;
    try match goal with E : counted_bytes _ _ _ = Ret _ |- _ => apply counted_bytes_inv in E as (k & -> & ->) end;
    cbn [mbind outcome_bind]; by repeat f_equal; lia.
Qed.

(** When a value can be read, it takes exactly the bytes [cellLength] says, so that the values of a row, read
    one after the other, are the ones the reader of the rows has found.  The types with fractional seconds have at
    most six digits of them. *)
Theorem CellValue_length (data : list byte) (pos : Z) (typ : byte) (metadata : Z) (field : Field) (v : Value) (l : Z) :
  0 <= metadata < 2 ^ 16 -> (typ_in typ [TypeTimestamp2; TypeDateTime2] = true -> metadata <= 6) ->
  Cell data pos typ metadata field = Ret (Ok (v, l)) -> cellLength data pos typ metadata = Ret (Ok l).
Proof.
  intros Hm Hfrac H. destruct (typ_in typ cell_types) eqn:Et; [|by rewrite Cell_unsupported in H].
  destruct (typ_in_list _ _ Et) as (t & Hin & ->). unfold cell_types in Hin.
  repeat (apply elem_of_cons in Hin as [-> | Hin]; [clear Et; unfold CellValue, cellLength in *; eval_typ|]);
    [..|by apply not_elem_of_nil in Hin].
  all: try (unfold cell_Tiny, cell_Year, cell_Short, cell_Int24, cell_Long, cell_Float, cell_Double, cell_LongLong, cell_Date,
    cell_Time, cell_DateTime, cell_Bit, cell_Time2, cell_Enum, cell in H; follow H; zify_tests; congruence).
  1,2: by eapply cell_Varchar_length.
  1,2: unfold cell_Timestamp2, cell_DateTime2 in H; inv_bind H;
    apply cell_fraction_length in H; [by rewrite H|specialize (Hfrac eq_refl); lia].
  1: by rewrite (cell_NewDecimal_length _ _ _ _ _ H).
  1-5,7: by eapply cell_Blob_length.
  by eapply cell_String_length.
Qed.

Lemma index_inv {A} (l : list A) i x : index l i = Ret x -> l !! Z.to_nat i = Some x.
Proof. unfold index. intros H. repeat case_match; congruence. Qed.

(** The columns of a row whose types have the metadata the server gives them. *)
Definition good_column (typ : byte) (metadata : Z) : Prop :=
  0 <= metadata < 2 ^ 16 /\ (typ_in typ [TypeTimestamp2; TypeDateTime2] = true -> metadata <= 6).

(** C26: the values of a row end where the reader of the rows has found its end.  When the values of the columns of a
    row, or of the part of it from column [c] on, can be read one after the other, the reader passes over the same columns and
    comes to the same place. *)
Theorem Row_values_end (tm : TableMap) (cols nulls : Bitmap) (data : list byte) (n : nat) (c v pos : Z)
    (strs strings : list (list byte)) (pos' : Z) :
  Forall2 good_column (Types tm) (Metadata tm) ->
  row_strings float32_text float64_text ToLower getJSONValue tm cols nulls data n c v pos strs = Ret (Ok (strings, pos')) ->
  skip_cells tm cols nulls data n c v pos = Ret (Ok pos').
Proof.
  intros Hgood. revert c v pos strs. induction n as [|n IH]; intros c v pos strs; cbn [row_strings skip_cells]; [congruence|].
  intros H. inv_bind H. rewrite E. cbn [mbind outcome_bind]. destruct (negb a); [by eapply IH|].
  inv_bind H. rewrite E0. cbn [mbind outcome_bind]. destruct a0; [by eapply IH|].
  inv_bind H. inv_bind H. destruct (Forall2_lookup_lr _ _ _ _ _ _ Hgood (index_inv _ _ _ E1) (index_inv _ _ _ E2)) as [Hm Hf]. rewrite E1, E2. cbn [mbind outcome_bind].
  destruct (Cell _ _ _ _ _) as [[[value l]|e]|] eqn:Ec; cbn [tbind] in H; try discriminate H.
  rewrite (CellValue_length _ _ _ _ _ _ _ Hm Hf Ec). cbn [tbind]. by eapply IH.
Qed.
End CellLength.

(** A row of a [VARCHAR(20)], a NULL and a [DATE]. *)
Example Row_values_end_witness :
  let tm := {| TFlags := 0; TDatabase := []; TName := []; Types := [z2b TypeVarchar; z2b TypeLong; z2b TypeDate];
    CanBeNull := no_bitmap; Metadata := [20; 0; 0] |} in
  let data := z2b 2 :: bs "ab" ++ binary.le_bytes 3 (2024 * 512 + 2 * 32 + 29) in
  skip_cells tm {| bm_data := [z2b 7]; bm_count := 3 |} {| bm_data := [z2b 2]; bm_count := 3 |} data 3 0 0 0 = Ret (Ok 6).
Proof.
  intros tm data.
  apply (Row_values_end (fun _ => []) (fun _ => []) (fun s => s) (fun _ => None) tm _ _ data 3 0 0 0 []
    [bs "ab"; bs "NULL"; bs "2024-02-29"]).
  - repeat constructor; by vm_compute.
  - by vm_compute.
Defined.

(** ** Integers *)

(** The types of the integers and the bytes their values take. *)
Definition int_types : list (Z * nat) :=
  [(TypeTiny, 1%nat); (TypeShort, 2%nat); (TypeInt24, 3%nat); (TypeLong, 4%nat); (TypeLongLong, 8%nat)].

Lemma le_at_of_le data p m q pos n : data = p ++ m ++ q -> zlen p = pos -> length m = n -> le_at data pos n = Ret (binary.of_le m).
Proof.
  revert p pos n. induction m as [|b m IH]; intros p pos n -> <- <-; [done|].
  cbn [le_at length app binary.of_le]. rewrite (index_at _ p b (m ++ q)) by done.
  rewrite (IH (p ++ [b]) (zlen p + 1)); [done| |len|done]. by rewrite <- app_assoc.
Qed.

(** The two's complement of [n] bytes, and back. *)
Lemma sign_bit b : (0 <? Z.land (b2z b) 128) = (128 <=? b2z b).
Proof. by destruct b. Qed.

Lemma int32_of_int24 v : 2 ^ 23 <= v < 2 ^ 24 -> int32 (v + Z.shiftl 255 24) = v - 2 ^ 24.
Proof.
  intros Hv. unfold int32, wrapS. change (Z.shiftl 255 24) with (2 ^ 32 - 2 ^ 24).
  replace (v + (2 ^ 32 - 2 ^ 24) + 2 ^ (32 - 1)) with (v - 2 ^ 24 + 2 ^ 31 + 1 * 2 ^ 32) by lia.
  rewrite Z.mod_add, Z.mod_small by lia. lia.
Qed.

Section Integers.
Context (float32_text float64_text : Z -> list byte) (ToLower : list byte -> list byte).
Context (getJSONValue : list byte -> option (list byte)).
Abbreviation Cell := (CellValue float32_text float64_text ToLower getJSONValue).

(** The last byte of three has the sign. *)
Lemma int24_sign p v q : 0 <= v < 2 ^ 24 ->
  exists b, index (p ++ binary.le_bytes 3 v ++ q) (zlen p + 2) = Ret b /\ (0 <? Z.land (b2z b) 128) = (2 ^ 23 <=? v).
Proof.
  intros Hv. exists (z2b (Z.shiftr (Z.shiftr v 8) 8)). split.
  - apply (index_at _ (p ++ [z2b v; z2b (Z.shiftr v 8)]) _ q); [|len]. by rewrite <- app_assoc.
  - rewrite sign_bit, b2z_z2b, Z.shiftr_shiftr, Z.shiftr_div_pow2 by lia.
    pose proof (Z.div_mod v (2 ^ (8 + 8)) ltac:(lia)). pose proof (Z.mod_pos_bound v (2 ^ (8 + 8)) ltac:(lia)).
    rewrite Z.mod_small by lia. apply eq_true_iff_eq. rewrite !Z.leb_le. lia.
Qed.

(** The values of a column of [n] bytes. *)
Definition int_range (signed : bool) (n : nat) (z : Z) : Prop :=
  if signed then - 2 ^ (8 * Z.of_nat n - 1) <= z < 2 ^ (8 * Z.of_nat n - 1) else 0 <= z < 2 ^ (8 * Z.of_nat n).

(** The value read from the bytes, as it is printed. *)
Lemma int_printed signed n z T1 T2 l : (0 < n)%nat -> int_range signed n z ->
  exists typ,
    (if signed : bool then cell T1 (strconv.FormatInt (wrapS (8 * Z.of_nat n) (z mod 2 ^ (8 * Z.of_nat n)))) l
     else cell T2 (strconv.FormatUint (z mod 2 ^ (8 * Z.of_nat n))) l) = cell typ (strconv.FormatInt z) l.
Proof.
  intros Hn Hz. destruct signed; simpl in Hz.
  - exists T1. by rewrite wrapS_mod by lia.
  - exists T2. by rewrite Z.mod_small, strconv.FormatInt_nonneg by lia.
Qed.

Lemma int_uint_at n z p q : uint_at (Z.of_nat n) (p ++ binary.le_bytes n (z mod 2 ^ (8 * Z.of_nat n)) ++ q) (zlen p) =
  Ret (z mod 2 ^ (8 * Z.of_nat n)).
Proof.
  apply (uint_at_le _ n _ p _ q); try done. change 256 with (2 ^ 8). rewrite <- Z.pow_mul_r by lia.
  apply Z.mod_pos_bound. apply Z.pow_pos_nonneg; lia.
Qed.

Lemma int24_decode z p q field : int_range (IsSigned (f_Type field)) 3 z ->
  exists typ, cell_Int24 (p ++ binary.le_bytes 3 (z mod 2 ^ 24) ++ q) (zlen p) field = cell typ (strconv.FormatInt z) 3.
Proof.
  intros Hz. set (v := z mod 2 ^ 24). assert (0 <= v < 2 ^ 24) as Hv by (apply Z.mod_pos_bound; lia).
  destruct (int24_sign p v q Hv) as (b & Hb & Hs). unfold cell_Int24, int_range in *.
  rewrite (le_at_of_le _ p (binary.le_bytes 3 v) q) by (done || apply binary.length_le_bytes).
  rewrite binary.of_le_le_bytes, (Z.mod_small v) by done. destruct (IsSigned _); simpl in Hz.
  - rewrite Hb. cbn [mbind outcome_bind andb]. rewrite Hs. assert (z = v \/ z = v - 2 ^ 24) as Hzv.
    { pose proof (Z.div_mod z (2 ^ 24) ltac:(lia)) as Hdm. fold v in Hdm. lia. }
    destruct (Z.leb_spec (2 ^ 23) v); eexists.
    + rewrite int32_of_int24 by lia. by replace (v - 2 ^ 24) with z by lia.
    + replace v with z by lia. by rewrite strconv.FormatInt_nonneg by lia.
  - exists Type_UINT24. cbn [mbind outcome_bind andb]. unfold v. by rewrite Z.mod_small, strconv.FormatInt_nonneg by lia.
Qed.

(** An integer column decodes to its value.  A value in the range of the column's type, written on the bytes of
    the type in two's complement, is read back as the text of the value, for every width and signed or not. *)
Theorem Integers_decode (t : Z) (n : nat) (z : Z) (p q : list byte) (metadata : Z) (field : Field) :
  (t, n) ∈ int_types ->
  int_range (IsSigned (f_Type field)) n z ->
  exists typ,
    Cell (p ++ binary.le_bytes n (z mod 2 ^ (8 * Z.of_nat n)) ++ q) (zlen p) (z2b t) metadata field =
    cell typ (strconv.FormatInt z) (Z.of_nat n).
Proof.
  intros Hin Hz. unfold int_types in Hin.
  repeat (apply elem_of_cons in Hin as [[= -> ->] | Hin]; [unfold CellValue; eval_typ|]); [..|by apply not_elem_of_nil in Hin].
  - unfold cell_Tiny. rewrite (index_at _ p (z2b (z mod 2 ^ 8)) q) by done. cbn [mbind outcome_bind].
    rewrite b2z_z2b, Z.mod_mod by done. apply (int_printed _ 1); [lia|done].
  - unfold cell_Short. rewrite (int_uint_at 2). apply (int_printed _ 2); [lia|done].
  - by apply int24_decode.
  - unfold cell_Long. rewrite (int_uint_at 4). apply (int_printed _ 4); [lia|done].
  - unfold cell_LongLong. rewrite (int_uint_at 8). apply (int_printed _ 8); [lia|done].
Qed.
End Integers.

(** -5 in a signed [MEDIUMINT] column. *)
Example Integers_decode_witness :
  exists typ, CellValue (fun _ => []) (fun _ => []) (fun s => s) (fun _ => None)
    ([z2b 9] ++ binary.le_bytes 3 (-5 mod 2 ^ 24) ++ [z2b 7]) 1 (z2b TypeInt24) 0 (type_field Type_INT24) =
    cell typ (strconv.FormatInt (-5)) 3.
Proof.
  apply (Integers_decode _ _ _ _ TypeInt24 3 (-5) [z2b 9] [z2b 7] 0 (type_field Type_INT24)).
  - unfold int_types. set_solver.
  - vm_compute. split; congruence.
Defined.
