(* ===== verification/BinlogDecimal.v ===== *)
(** * Decimals in row events

    The server writes a decimal of precision [p] and scale [s] as groups of nine digits on four bytes, the digits that
    do not make a group first and last on fewer bytes, with the first bit telling the sign and every byte complemented
    in a negative number.  [CellValue] gives a text back.  This file has that encoding, what a text
    means, and the theorem that the text read means the number written. *)

From S2P Require Import Prelude Intervals GoStd GtidTypes Gtid56 Encoding SqlTypes Position Binlog BinlogRows BinlogCell.

(** ** What digits mean *)

Definition is_digits (s : list byte) : Prop := Forall (fun c => strconv.is_digit c = true) s.

(** The number a text of digits is. *)
Fixpoint digits_value (s : list byte) : Z :=
  match s with
  | [] => 0
  | c :: s => (b2z c - 48) * 10 ^ zlen s + digits_value s
  end.

Lemma digits_value_app a b : digits_value (a ++ b) = digits_value a * 10 ^ zlen b + digits_value b.
Proof.
  induction a as [|c a IH]; cbn [app digits_value]; [lia|].
  rewrite IH, zlen_app, Z.pow_add_r by apply zlen_nonneg. lia.
Qed.

Lemma digits_value_zeroes n s : digits_value (replicate n (z2b 48) ++ s) = digits_value s.
Proof. induction n as [|n IH]; [done|]. cbn [replicate app digits_value]. rewrite IH. change (b2z (z2b 48)) with 48. lia. Qed.

Lemma digits_value_trim s : digits_value (trim_left_zeroes s) = digits_value s.
Proof.
  induction s as [|c s IH]; [done|]. cbn [trim_left_zeroes]. destruct (decide _) as [->|]; [|done].
  cbn [digits_value]. rewrite IH. change (b2z (z2b 48)) with 48. lia.
Qed.

Lemma is_digits_app a b : is_digits (a ++ b) <-> is_digits a /\ is_digits b.
Proof. apply Forall_app. Qed.

Lemma is_digits_trim s : is_digits s -> is_digits (trim_left_zeroes s).
Proof. induction 1 as [|c s Hc Hs IH]; [constructor|]. cbn [trim_left_zeroes]. destruct (decide _); [done|]. by constructor. Qed.

Lemma trim_app_dot s t : trim_left_zeroes (s ++ dot_b :: t) = trim_left_zeroes s ++ dot_b :: t.
Proof. induction s as [|c s IH]; [done|]. cbn [app trim_left_zeroes]. by destruct (decide _). Qed.

Lemma format_loop_value fuel z acc : 0 <= z < 10 ^ Z.of_nat fuel ->
  digits_value (strconv.format_loop fuel z acc) = z * 10 ^ zlen acc + digits_value acc.
Proof.
  revert z acc. induction fuel as [|fuel IH]; intros z acc Hz.
  { simpl in *. assert (z = 0) as -> by lia. lia. }
  cbn [strconv.format_loop]. pose proof (Z.mod_pos_bound z 10). pose proof (Z.div_mod z 10).
  destruct (Z.ltb_spec z 10); [cbn [digits_value]; by rewrite strconv.b2z_digit by lia; f_equal; lia|].
  rewrite Nat2Z.inj_succ, Z.pow_succ_r in Hz by lia.
  rewrite IH by (split; [apply Z.div_pos; lia|apply Z.div_lt_upper_bound; lia]).
  cbn [digits_value]. rewrite strconv.b2z_digit, zlen_cons, Z.pow_add_r by (lia || apply zlen_nonneg). lia.
Qed.

(** A number printed on [n] digits. *)
Lemma pad_int_digits n z : (0 < n <= 20)%nat -> 0 <= z < 10 ^ Z.of_nat n ->
  is_digits (fmt.pad_int n z) /\ length (fmt.pad_int n z) = n /\ digits_value (fmt.pad_int n z) = z.
Proof.
  intros Hn Hz. unfold fmt.pad_int, fmt.pad_uint. rewrite (proj2 (Z.ltb_ge z 0)) by lia. split_and!.
  - apply is_digits_app. split; [by apply Forall_replicate|apply strconv.FormatUint_digits; lia].
  - rewrite length_app, length_replicate. pose proof (strconv.format_loop_length 20 n z [] (proj1 Hn) Hz) as Hl.
    fold (strconv.FormatUint z) in Hl. cbn [length] in Hl. lia.
  - rewrite digits_value_zeroes. unfold strconv.FormatUint. rewrite format_loop_value; [change (zlen (A := byte) []) with 0; cbn; lia|].
    assert (10 ^ Z.of_nat n <= 10 ^ Z.of_nat 20) by (apply Z.pow_le_mono_r; lia). lia.
Qed.

(** ** The server's encoding *)

(** The last [9 * k] digits of [z], in groups of nine. *)
Fixpoint groups (k : nat) (z : Z) : list byte :=
  match k with
  | O => []
  | S k => binary.be_bytes 4 (z / 10 ^ (9 * Z.of_nat k) mod 10 ^ 9) ++ groups k z
  end.

(** The bytes for fewer than nine digits. *)
Definition digit_bytes (n : Z) : nat := Z.to_nat (default 0 (dig2bytes !! Z.to_nat n)).

(** The first bit tells that a number is not negative; a negative number is complemented. *)
Definition sign_flip (negative : bool) (d : list byte) : list byte :=
  let d := match d with [] => [] | b :: d => z2b (b2z b + 128) :: d end in
  if negative then (fun b => z2b (255 - b2z b)) <$> d else d.

(** The digits of a number that is not negative: those before the point and those after it. *)
Definition decimal_digits (precision scale n : Z) : list byte :=
  let int := n / 10 ^ scale in
  let frac := n mod 10 ^ scale in
  let intg := precision - scale in
  binary.be_bytes (digit_bytes (intg mod 9)) (int / 10 ^ (9 * (intg / 9))) ++ groups (Z.to_nat (intg / 9)) int ++
  groups (Z.to_nat (scale / 9)) (frac / 10 ^ (scale mod 9)) ++
  binary.be_bytes (digit_bytes (scale mod 9)) (frac mod 10 ^ (scale mod 9)).

(** [n / 10 ^ scale] as the server writes it. *)
Definition server_decimal (precision scale n : Z) : list byte :=
  sign_flip (n <? 0) (decimal_digits precision scale (Z.abs n)).

(** ** Reading it back *)

Lemma length_groups k z : length (groups k z) = (4 * k)%nat.
Proof. induction k as [|k IH]; [done|]. cbn [groups]. rewrite length_app, IH, binary.length_be_bytes. lia. Qed.

(** The first byte of a number below half the range of its bytes leaves the first bit free. *)
Definition low_head (d : list byte) : Prop := match d with [] => True | b :: _ => b2z b < 128 end.

Lemma decimal_flip_sign_flip negative d : low_head d -> decimal_flip negative (sign_flip negative d) = d.
Proof.
  assert (forall b, z2b (Z.lxor (b2z (z2b (255 - b2z b))) 255) = b) as Hc by (intros b; by destruct b).
  assert (forall b, b2z b < 128 -> z2b (Z.lxor (b2z (z2b (b2z b + 128))) 128) = b) as H0 by (intros b; by destruct b).
  assert (forall b, b2z b < 128 -> z2b (Z.lxor (b2z (z2b (Z.lxor (b2z (z2b (255 - b2z (z2b (b2z b + 128))))) 128))) 255) = b) as H1
    by (intros b; by destruct b).
  destruct d as [|b d]; [by destruct negative|]. intros Hb. simpl in Hb. unfold decimal_flip, sign_flip.
  destruct negative; cbn [fmap list_fmap].
  - f_equal; [by apply H1|]. rewrite <- list_fmap_compose. rewrite <- (list_fmap_id d) at 2. by apply list_fmap_ext; intros; apply Hc.
  - by rewrite H0.
Qed.

Lemma sign_flip_sign negative b d : b2z b < 128 ->
  exists c r, sign_flip negative (b :: d) = c :: r /\ (Z.land (b2z c) 0x80 =? 0) = negative.
Proof.
  assert (forall b, b2z b < 128 -> (Z.land (b2z (z2b (b2z b + 128))) 128 =? 0) = false) as H0 by (intros c; by destruct c).
  assert (forall b, b2z b < 128 -> (Z.land (b2z (z2b (255 - b2z (z2b (b2z b + 128))))) 128 =? 0) = true) as H1 by (intros c; by destruct c).
  intros Hb. destruct negative; cbn; eauto.
Qed.

(** *** The groups *)

Fixpoint groups_text (k : nat) (z : Z) : list byte :=
  match k with
  | O => []
  | S k => fmt.pad_int 9 (z / 10 ^ (9 * Z.of_nat k) mod 10 ^ 9) ++ groups_text k z
  end.

Lemma full_groups_read k z p q txt :
  full_groups (p ++ groups k z ++ q) (zlen p) k txt = Ret (txt ++ groups_text k z, zlen p + 4 * Z.of_nat k).
Proof.
  revert p txt. induction k as [|k IH]; intros p txt; cbn [full_groups groups groups_text].
  { by rewrite app_nil_r, Z.add_0_r. }
  set (g := z / 10 ^ (9 * Z.of_nat k) mod 10 ^ 9). unfold be32_at. rewrite <- app_assoc.
  rewrite (slice_at _ p (binary.be_bytes 4 g) (groups k z ++ q)); [|done|done|].
  2:{ unfold zlen. rewrite binary.length_be_bytes. lia. }
  cbn [mbind outcome_bind]. rewrite binary.of_be_be_bytes, Z.mod_small.
  2:{ pose proof (Z.mod_pos_bound (z / 10 ^ (9 * Z.of_nat k)) (10 ^ 9) ltac:(lia)). unfold g. lia. }
  assert (zlen (p ++ binary.be_bytes 4 g) = zlen p + 4) as Hp by (unfold zlen; rewrite length_app, binary.length_be_bytes; lia).
  specialize (IH (p ++ binary.be_bytes 4 g) (txt ++ fmt.pad_int 9 g)). rewrite <- !app_assoc, Hp in IH. rewrite IH.
  by replace (zlen p + 4 * Z.of_nat (S k)) with (zlen p + 4 + 4 * Z.of_nat k) by lia.
Qed.

Lemma groups_text_digits k z : is_digits (groups_text k z).
Proof.
  induction k as [|k IH]; [constructor|]. cbn [groups_text]. apply is_digits_app. split; [|done].
  apply pad_int_digits; [lia|]. apply Z.mod_pos_bound. lia.
Qed.

Lemma zlen_groups_text k z : zlen (groups_text k z) = 9 * Z.of_nat k.
Proof.
  induction k as [|k IH]; [done|]. cbn [groups_text]. rewrite zlen_app, IH. unfold zlen.
  rewrite (proj1 (proj2 (pad_int_digits 9 _ ltac:(lia) ltac:(apply Z.mod_pos_bound; lia)))). lia.
Qed.

Lemma groups_text_value k z : digits_value (groups_text k z) = z mod 10 ^ (9 * Z.of_nat k).
Proof.
  induction k as [|k IH]; [cbn; by rewrite Z.mod_1_r|]. cbn [groups_text].
  rewrite digits_value_app, IH, zlen_groups_text.
  rewrite (proj2 (proj2 (pad_int_digits 9 _ ltac:(lia) ltac:(apply Z.mod_pos_bound; lia)))).
  replace (9 * Z.of_nat (S k)) with (9 * Z.of_nat k + 9) by lia. rewrite Z.pow_add_r by lia.
  rewrite Z.rem_mul_r by (lia || apply Z.pow_nonzero; lia). lia.
Qed.

(** *** The digits that are not a group *)

(** Fewer than nine digits fit in their bytes, and leave the first bit free. *)
Lemma digit_bytes_enough n : 0 <= n < 9 ->
  index dig2bytes n = Ret (Z.of_nat (digit_bytes n)) /\ (digit_bytes n <= 4)%nat /\ (digit_bytes n = 0%nat <-> n = 0) /\
  10 ^ n <= 256 ^ Z.of_nat (digit_bytes n) /\ (0 < n -> 2 * 10 ^ n <= 256 ^ Z.of_nat (digit_bytes n)).
Proof.
  intros Hn. assert (n = 0 \/ n = 1 \/ n = 2 \/ n = 3 \/ n = 4 \/ n = 5 \/ n = 6 \/ n = 7 \/ n = 8) as Hc by lia.
  repeat destruct Hc as [-> | Hc]; try subst n; split_and!; try (vm_compute; split; congruence); vm_compute; lia || congruence.
Qed.

(** *** The two parts *)

(** A text of digits for a number. *)
Definition reads_as (s : list byte) (n : Z) : Prop := is_digits s /\ digits_value s = n.

Lemma decimal_int_read h k int q txt : 0 <= int -> int / 10 ^ (9 * Z.of_nat k) < 256 ^ Z.of_nat h -> (h <= 4)%nat ->
  exists ip, reads_as ip int /\ (ip = [] -> k = 0%nat) /\
    decimal_int (binary.be_bytes h (int / 10 ^ (9 * Z.of_nat k)) ++ groups k int ++ q) (Z.of_nat h) (Z.of_nat k) txt =
    Ret (txt ++ ip, Z.of_nat h + 4 * Z.of_nat k).
Proof.
  intros Hi Hh H4. set (P := 10 ^ (9 * Z.of_nat k)) in *. assert (0 < P) by (apply Z.pow_pos_nonneg; lia).
  assert (0 <= int / P) as Hv by (apply Z.div_pos; lia).
  exists ((if 0 <? int / P then strconv.FormatUint (int / P) else []) ++ groups_text k int). split_and!.
  - split; [apply is_digits_app; split; [|apply groups_text_digits]|].
    { case_match; [by apply strconv.FormatUint_digits|constructor]. }
    rewrite digits_value_app, groups_text_value, zlen_groups_text. fold P.
    assert (digits_value (if 0 <? int / P then strconv.FormatUint (int / P) else []) = int / P) as ->.
    { destruct (Z.ltb_spec 0 (int / P)); [|cbn; lia]. unfold strconv.FormatUint. rewrite format_loop_value.
      - change (zlen (A := byte) []) with 0. cbn [digits_value]. lia.
      - assert (256 ^ Z.of_nat h <= 256 ^ 4) by (apply Z.pow_le_mono_r; lia). lia. }
    pose proof (Z.div_mod int P). lia.
  - intros [_ Hk]%app_nil. pose proof (zlen_groups_text k int) as Hz. rewrite Hk in Hz. change (zlen (A := byte) []) with 0 in Hz. lia.
  - unfold decimal_int. rewrite !Nat2Z.id. pose proof (be_at_read [] h (int / P) (groups k int ++ q) ltac:(lia)) as Hb.
    change (zlen (A := byte) []) with 0 in Hb. cbn [app] in Hb. rewrite Hb. cbn [mbind outcome_bind].
    pose proof (full_groups_read k int (binary.be_bytes h (int / P)) q (if 0 <? int / P then txt ++ strconv.FormatUint (int / P) else txt)) as Hg.
    unfold zlen in Hg. rewrite binary.length_be_bytes in Hg. rewrite Hg. do 2 f_equal.
    rewrite app_assoc. f_equal. case_match; [done|]. by rewrite app_nil_r.
Qed.

Lemma decimal_frac_read p k x tail frac txt : 0 <= x < 9 -> tail = digit_bytes x -> 0 <= frac < 10 ^ (9 * Z.of_nat k + x) ->
  exists fp, reads_as fp frac /\ zlen fp = 9 * Z.of_nat k + x /\
    decimal_frac (p ++ groups k (frac / 10 ^ x) ++ binary.be_bytes tail (frac mod 10 ^ x)) (zlen p) (Z.of_nat k) x (Z.of_nat tail) txt =
    (if x =? 0 then Ret (txt ++ dot_b :: fp) else trimPrecedingZeroes (txt ++ dot_b :: fp)).
Proof.
  intros Hx -> Hf. destruct (digit_bytes_enough x Hx) as (_ & _ & Hz & Hfit & _).
  assert (0 < 10 ^ x) by (apply Z.pow_pos_nonneg; lia).
  pose proof (Z.mod_pos_bound frac (10 ^ x) ltac:(lia)) as Hm. pose proof (Z.div_mod frac (10 ^ x) ltac:(lia)) as Hdm.
  assert (frac / 10 ^ x < 10 ^ (9 * Z.of_nat k)).
  { apply Z.div_lt_upper_bound; [lia|]. rewrite <- Z.pow_add_r by lia. rewrite (Z.add_comm x). lia. }
  assert (0 <= frac / 10 ^ x) by (apply Z.div_pos; lia).
  assert (digits_value (groups_text k (frac / 10 ^ x)) = frac / 10 ^ x) as Hgv by (rewrite groups_text_value; by apply Z.mod_small).
  unfold decimal_frac. rewrite !Nat2Z.id, full_groups_read. cbn [mbind outcome_bind].
  destruct (Z.eqb_spec x 0) as [->|Hx0].
  - exists (groups_text k (frac / 10 ^ 0)). split_and!; [split; [apply groups_text_digits|]|by rewrite zlen_groups_text, Z.add_0_r|].
    + rewrite Hgv. by rewrite Z.div_1_r.
    + rewrite (proj2 Hz) by done. cbn [Z.of_nat Z.eqb]. by rewrite <- app_assoc.
  - destruct (pad_int_digits (Z.to_nat x) (frac mod 10 ^ x)) as (Hd & Hl & Hv); [lia|by rewrite Z2Nat.id by lia|].
    exists (groups_text k (frac / 10 ^ x) ++ fmt.pad_int (Z.to_nat x) (frac mod 10 ^ x)).
    assert (zlen (fmt.pad_int (Z.to_nat x) (frac mod 10 ^ x)) = x) as Hzl by (unfold zlen; lia). split_and!.
    + split; [apply is_digits_app; split; [apply groups_text_digits|done]|]. rewrite digits_value_app, Hgv, Hv, Hzl. lia.
    + rewrite zlen_app, zlen_groups_text. lia.
    + rewrite (proj2 (Z.eqb_neq (Z.of_nat (digit_bytes x)) 0)) by (intros ?; apply Hx0, Hz; lia).
      pose proof (be_at_read (p ++ groups k (frac / 10 ^ x)) (digit_bytes x) (frac mod 10 ^ x) [] ltac:(lia)) as Hb.
      rewrite app_nil_r, <- app_assoc, zlen_app in Hb. unfold zlen at 2 in Hb. rewrite length_groups in Hb.
      replace (zlen p + Z.of_nat (4 * k)) with (zlen p + 4 * Z.of_nat k) in Hb by lia. rewrite Hb. cbn [mbind outcome_bind].
      by rewrite <- !app_assoc.
Qed.

(** *** The whole number *)

(** A text that starts with a byte below 128, which the sign can be put on. *)
Definition low_start (d : list byte) : Prop := exists b r, d = b :: r /\ b2z b < 128.

Lemma low_be n z q : (0 < n)%nat -> 0 <= z -> 2 * z < 256 ^ Z.of_nat n -> low_start (binary.be_bytes n z ++ q).
Proof.
  intros Hn Hz H2. pose proof (binary.of_be_be_bytes n z) as Hv. pose proof (binary.length_be_bytes n z) as Hl.
  rewrite Z.mod_small in Hv by lia. destruct (binary.be_bytes n z) as [|b r]; [simpl in Hl; lia|].
  exists b, (r ++ q). split; [done|]. rewrite of_be_cons in Hv. simpl in Hl.
  assert (0 <= binary.of_be r) by apply (binary.of_le_range (reverse r)).
  replace (Z.of_nat n) with (zlen r + 1) in H2 by (unfold zlen; lia). rewrite Z.pow_add_r in H2 by (lia || apply zlen_nonneg).
  assert (0 < 256 ^ zlen r) by (apply Z.pow_pos_nonneg; [lia|apply zlen_nonneg]). nia.
Qed.

Lemma low_groups k z q : (0 < k)%nat -> low_start (groups k z ++ q).
Proof.
  intros Hk. destruct k as [|k]; [lia|]. cbn [groups]. rewrite <- app_assoc.
  pose proof (Z.mod_pos_bound (z / 10 ^ (9 * Z.of_nat k)) (10 ^ 9) ltac:(lia)). apply low_be; lia.
Qed.

Lemma be_bytes_0 z q : binary.be_bytes 0 z ++ q = q.
Proof. done. Qed.

Lemma groups_0 z q : groups (Z.to_nat 0) z ++ q = q.
Proof. done. Qed.

Section Decimal.
Context (p s : Z) (Hs : 0 <= s <= p) (Hp : 0 < p < 256).

Lemma head_fits n : 0 <= n < 10 ^ p -> 0 <= n / 10 ^ s / 10 ^ (9 * ((p - s) / 9)) < 10 ^ ((p - s) mod 9).
Proof.
  intros Hn. pose proof (Z.div_mod (p - s) 9). pose proof (Z.mod_pos_bound (p - s) 9).
  assert (0 < 10 ^ s) by (apply Z.pow_pos_nonneg; lia).
  assert (0 < 10 ^ (9 * ((p - s) / 9))) by (apply Z.pow_pos_nonneg; lia). split; [apply Z.div_pos; [apply Z.div_pos|]; lia|].
  apply Z.div_lt_upper_bound; [lia|]. rewrite <- Z.pow_add_r by lia.
  apply Z.div_lt_upper_bound; [lia|]. rewrite <- Z.pow_add_r by lia. replace (s + _) with p by lia. lia.
Qed.

Lemma decimal_digits_low n : 0 <= n < 10 ^ p -> low_start (decimal_digits p s n).
Proof.
  intros Hn. unfold decimal_digits. cbv zeta. pose proof (head_fits n Hn) as Hh.
  pose proof (Z.div_mod (p - s) 9 ltac:(lia)). pose proof (Z.mod_pos_bound (p - s) 9 ltac:(lia)) as Hi.
  pose proof (Z.div_mod s 9 ltac:(lia)). pose proof (Z.mod_pos_bound s 9 ltac:(lia)) as Hf.
  destruct (digit_bytes_enough _ Hi) as (_ & _ & Hi0 & _ & Hilow). destruct (digit_bytes_enough _ Hf) as (_ & _ & Hf0 & _ & Hflow).
  destruct (Z.eq_dec ((p - s) mod 9) 0) as [E|E].
  2:{ specialize (Hilow ltac:(lia)). apply low_be; [|lia..]. destruct (digit_bytes _); [by destruct E; apply Hi0|lia]. }
  rewrite (proj2 Hi0 E). rewrite be_bytes_0.
  destruct (Z.eq_dec ((p - s) / 9) 0) as [E'|E']; [|apply low_groups; lia]. rewrite E', groups_0.
  destruct (Z.eq_dec (s / 9) 0) as [E''|E'']; [|apply low_groups; lia]. rewrite E'', groups_0.
  rewrite <- (app_nil_r (binary.be_bytes _ _)).
  pose proof (Z.mod_pos_bound (n mod 10 ^ s) (10 ^ (s mod 9)) ltac:(apply Z.pow_pos_nonneg; lia)).
  specialize (Hflow ltac:(lia)). apply low_be; [|lia..].
  destruct (digit_bytes (s mod 9)); [|lia]. pose proof (proj1 Hf0 eq_refl). lia.
Qed.

Lemma zlen_decimal_digits n : zlen (decimal_digits p s n) =
  (p - s) / 9 * 4 + Z.of_nat (digit_bytes ((p - s) mod 9)) + s / 9 * 4 + Z.of_nat (digit_bytes (s mod 9)).
Proof.
  unfold decimal_digits, zlen. rewrite !length_app, !length_groups, !binary.length_be_bytes.
  pose proof (Z.div_pos (p - s) 9). pose proof (Z.div_pos s 9). lia.
Qed.
End Decimal.

Lemma zlen_sign_flip negative d : zlen (sign_flip negative d) = zlen d.
Proof. unfold zlen. f_equal. destruct negative, d; cbn; by rewrite ?length_fmap. Qed.

Definition sign_text (negative : bool) : list byte := if negative then [dash_b] else [].

Lemma trim_text negative ip fp : is_digits ip ->
  trimPrecedingZeroes (sign_text negative ++ ip ++ dot_b :: fp) = Ret (sign_text negative ++ trim_left_zeroes ip ++ dot_b :: fp).
Proof.
  intros Hip. unfold trimPrecedingZeroes. rewrite <- trim_app_dot. destruct negative; cbn [sign_text app].
  - rewrite (index_at _ [] dash_b (ip ++ dot_b :: fp)) by done. cbn [mbind outcome_bind]. rewrite decide_True by done.
    by rewrite (slice_from_at _ [dash_b] (ip ++ dot_b :: fp)) by done.
  - assert (exists b r, ip ++ dot_b :: fp = b :: r /\ b <> dash_b) as (b & r & -> & Hb).
    { destruct Hip as [|b ip Hb _]; [by exists dot_b, fp|]. exists b, (ip ++ dot_b :: fp). split; [done|]. by intros ->. }
    rewrite (index_at _ [] b r) by done. cbn [mbind outcome_bind]. by rewrite decide_False.
Qed.

Lemma zlen_server_decimal p s n : 0 <= s <= p -> p < 256 -> zlen (server_decimal p s n) <= MaxInt64.
Proof.
  intros Hs Hp. unfold server_decimal. rewrite zlen_sign_flip, zlen_decimal_digits by done.
  destruct (digit_bytes_enough _ (Z.mod_pos_bound (p - s) 9 ltac:(lia))) as (_ & H1 & _).
  destruct (digit_bytes_enough _ (Z.mod_pos_bound s 9 ltac:(lia))) as (_ & H2 & _).
  pose proof (Z.div_mod (p - s) 9). pose proof (Z.mod_pos_bound (p - s) 9). pose proof (Z.div_mod s 9). pose proof (Z.mod_pos_bound s 9).
  unfold MaxInt64. lia.
Qed.

(** What the text of a decimal has to be. *)
Definition decimal_text (negative : bool) (s m : Z) (txt : list byte) : Prop :=
  exists ip fp, txt = sign_text negative ++ ip ++ (if s =? 0 then [] else dot_b :: fp) /\
    is_digits ip /\ is_digits fp /\ zlen fp = s /\ digits_value (ip ++ fp) = m.

Lemma decimal_whole negative m ip l : is_digits ip -> digits_value ip = m ->
  exists txt, decimal_text negative 0 m txt /\
    cell Type_DECIMAL (if decide (sign_text negative ++ ip = []) then [z2b 48] else sign_text negative ++ ip) l =
    cell Type_DECIMAL txt l.
Proof.
  intros Hip Hv. eexists. split; [|done]. destruct (decide _) as [[Hn ->]%app_nil|].
  - exists [z2b 48], []. destruct negative; [done|]. subst m. by repeat constructor.
  - exists ip, []. rewrite !app_nil_r. by split_and!; [|done|constructor|..].
Qed.

Lemma decimal_pointed negative s m ip fp x l : s <> 0 -> is_digits ip -> is_digits fp -> zlen fp = s -> digits_value (ip ++ fp) = m ->
  exists txt, decimal_text negative s m txt /\
    (txt ← (if x : bool then Ret (sign_text negative ++ ip ++ dot_b :: fp)
            else trimPrecedingZeroes (sign_text negative ++ ip ++ dot_b :: fp));
     cell Type_DECIMAL txt l) = cell Type_DECIMAL txt l.
Proof.
  intros Hs Hip Hfp Hl Hv. destruct x.
  - eexists. split; [|done]. exists ip, fp. by rewrite (proj2 (Z.eqb_neq s 0)).
  - rewrite trim_text by done. eexists. split; [|done]. exists (trim_left_zeroes ip), fp.
    rewrite (proj2 (Z.eqb_neq s 0)) by done. split_and!; try done; [by apply is_digits_trim|].
    by rewrite digits_value_app, digits_value_trim, <- digits_value_app.
Qed.

Lemma decimal_parts_read p s m negative l : 0 <= s <= p -> 0 < p < 256 -> 0 <= m < 10 ^ p ->
  exists txt, decimal_text negative s m txt /\
    ('(txt, pos) ← decimal_int (decimal_digits p s m) (Z.of_nat (digit_bytes ((p - s) mod 9))) ((p - s) / 9) (sign_text negative);
     if s =? 0 then cell Type_DECIMAL (if decide (txt = []) then [z2b 48] else txt) l
     else
       txt ← decimal_frac (decimal_digits p s m) pos (s / 9) (s mod 9) (Z.of_nat (digit_bytes (s mod 9))) txt;
       cell Type_DECIMAL txt l) = cell Type_DECIMAL txt l.
Proof.
  intros Hs Hp Hm. pose proof (head_fits p s Hs Hp m Hm) as Hh.
  pose proof (Z.div_mod (p - s) 9 ltac:(lia)) as Hi. pose proof (Z.mod_pos_bound (p - s) 9 ltac:(lia)) as Hib.
  pose proof (Z.div_mod s 9 ltac:(lia)) as Hf. pose proof (Z.mod_pos_bound s 9 ltac:(lia)) as Hfb.
  destruct (digit_bytes_enough _ Hib) as (_ & H4 & _ & Hifit & _). assert (0 < 10 ^ s) by (apply Z.pow_pos_nonneg; lia).
  set (frac := m mod 10 ^ s). set (int := m / 10 ^ s). assert (m = int * 10 ^ s + frac) as Hmm by (unfold int, frac; pose proof (Z.div_mod m (10 ^ s)); lia).
  set (rest := groups (Z.to_nat (s / 9)) (frac / 10 ^ (s mod 9)) ++ binary.be_bytes (digit_bytes (s mod 9)) (frac mod 10 ^ (s mod 9))).
  set (h := digit_bytes ((p - s) mod 9)) in *. set (k := Z.to_nat ((p - s) / 9)).
  assert ((p - s) / 9 = Z.of_nat k) as Hk by lia.
  destruct (decimal_int_read h k int rest (sign_text negative)) as (ip & [Hip Hiv] & Hne & Hread).
  { apply Z.div_pos; lia. } { rewrite <- Hk. unfold int. lia. } { done. }
  assert (decimal_digits p s m = binary.be_bytes h (int / 10 ^ (9 * Z.of_nat k)) ++ groups k int ++ rest) as ->.
  { unfold decimal_digits. cbv zeta. fold frac int h k rest. by rewrite <- Hk. }
  rewrite Hk, Hread. cbn [mbind outcome_bind]. destruct (Z.eqb_spec s 0) as [Hs0|Hs0].
  - rewrite Hs0. apply decimal_whole; [done|]. rewrite Hiv. unfold int. by rewrite Hs0, Z.div_1_r.
  - subst rest. pose proof (zlen_app (binary.be_bytes h (int / 10 ^ (9 * Z.of_nat k))) (groups k int)) as Hl.
    unfold zlen in Hl. rewrite binary.length_be_bytes, length_groups in Hl.
    destruct (decimal_frac_read (binary.be_bytes h (int / 10 ^ (9 * Z.of_nat k)) ++ groups k int) (Z.to_nat (s / 9)) (s mod 9) _ frac
      (sign_text negative ++ ip) Hfb eq_refl) as (fp & [Hfp Hfv] & Hfl & Hfread).
    { rewrite Z2Nat.id, <- Hf by lia. apply Z.mod_pos_bound; lia. }
    rewrite Z2Nat.id in Hfread, Hfl by lia. rewrite <- Hf in Hfl. unfold zlen at 1 in Hfread. rewrite <- !app_assoc in Hfread.
    replace (Z.of_nat (length (binary.be_bytes h (int / 10 ^ (9 * Z.of_nat k)) ++ groups k int))) with (Z.of_nat h + 4 * Z.of_nat k) in Hfread by lia.
    rewrite Hfread. apply decimal_pointed; try done. rewrite digits_value_app, Hiv, Hfv, Hfl. lia.
Qed.

(** A decimal keeps its value.  The number [n / 10 ^ s] in the server's encoding for precision [p] and scale
    [s] is read as a text with its sign, its integer part, and exactly [s] digits after the point, which mean [n]; and the
    value takes the bytes it was written on. *)
Theorem Decimal_decode (p s n : Z) (before after : list byte) :
  0 <= s <= p -> 0 < p < 256 -> Z.abs n < 10 ^ p ->
  exists txt, decimal_text (n <? 0) s (Z.abs n) txt /\
    cell_NewDecimal (before ++ server_decimal p s n ++ after) (zlen before) (p * 256 + s) =
    cell Type_DECIMAL txt (zlen (server_decimal p s n)).
Proof.
  intros Hs Hp Hn. unfold cell_NewDecimal.
  assert (Z.shiftr (p * 256 + s) 8 = p) as ->.
  { rewrite Z.shiftr_div_pow2 by lia. change (2 ^ 8) with 256. by rewrite Z.div_add_l, Z.div_small by lia; lia. }
  assert (Z.land (p * 256 + s) 255 = s) as ->.
  { change 255 with (Z.ones 8). rewrite Z.land_ones by lia. change (2 ^ 8) with 256. by rewrite Z.add_comm, Z.mod_add, Z.mod_small by lia. }
  rewrite !Z.quot_div_nonneg by lia.
  assert (forall a, a - a / 9 * 9 = a mod 9) as Hmod by (intros a; rewrite Z.mod_eq; lia). rewrite !Hmod.
  destruct (digit_bytes_enough _ (Z.mod_pos_bound (p - s) 9 ltac:(lia))) as (-> & _).
  destruct (digit_bytes_enough _ (Z.mod_pos_bound s 9 ltac:(lia))) as (-> & _). cbn [mbind outcome_bind].
  rewrite <- (zlen_decimal_digits p s Hs (Z.abs n)), <- (zlen_sign_flip (n <? 0)). fold (server_decimal p s n).
  set (D := server_decimal p s n). destruct (decimal_digits_low p s Hs Hp (Z.abs n) ltac:(lia)) as (b & r & HD & Hb).
  rewrite (make_zeros (length D)) by (done || (apply zlen_server_decimal; lia)). cbn [mbind outcome_bind].
  rewrite (slice_at _ before D after) by done. cbn [mbind outcome_bind]. rewrite copy_into_zeros by done.
  destruct (sign_flip_sign (n <? 0) b r Hb) as (c & r' & Hc & Hsign). rewrite <- HD in Hc. fold (server_decimal p s n) in Hc. fold D in Hc.
  rewrite Hc, (index_at _ [] c r') by done. cbn [mbind outcome_bind]. rewrite Hsign, <- Hc.
  assert (decimal_flip (n <? 0) D = decimal_digits p s (Z.abs n)) as -> by (apply decimal_flip_sign_flip; by rewrite HD). by apply decimal_parts_read; [..|lia].
Qed.

(** [-123456789012.050] as a [DECIMAL(15,3)] is read as that text; the value 7 of a [DECIMAL(18,9)] keeps the zeroes
    before it, since they are only removed when the last digits are not a whole group. *)
Example Decimal_decode_witness :
  (exists txt, decimal_text true 3 123456789012050 txt /\
    cell_NewDecimal (server_decimal 15 3 (-123456789012050)) 0 (15 * 256 + 3) = cell Type_DECIMAL txt 8 /\ txt = bs "-123456789012.050") /\
  cell_NewDecimal (server_decimal 18 9 7000000000) 0 (18 * 256 + 9) = cell Type_DECIMAL (bs "000000007.000000000") 8.
Proof.
  split; [|by vm_compute].
  destruct (Decimal_decode 15 3 (-123456789012050) [] [] ltac:(lia) ltac:(lia) ltac:(vm_compute; reflexivity)) as (txt & Ht & E).
  exists txt. rewrite app_nil_r in E. split; [exact Ht|]. split; [exact E|]. 
  assert (cell_NewDecimal (server_decimal 15 3 (-123456789012050)) 0 (15 * 256 + 3) = cell Type_DECIMAL (bs "-123456789012.050") 8) as E2
    by (vm_compute; reflexivity).
  change (zlen (A := byte) []) with 0 in E. cbn [app] in E. rewrite E2 in E. unfold cell, MakeTrusted in E. cbn [Z.eqb] in E. by injection E as <-.
Defined.
