(* ===== verification/BinlogTime.v ===== *)
(** * Dates and times in row events

    The encodings of [DATETIME] and [TIME] with fractional seconds, as the server writes them, and what [CellValue] gives
    for them: the date and the time of day that were written, with the fraction.  A [TIME] in the old
    encoding loses its sign when it is less than an hour from zero. *)

From S2P Require Import Prelude Intervals GoStd GtidTypes Gtid56 Encoding SqlTypes Position Binlog BinlogRows BinlogCell.

(** ** The server's encodings *)

(** The bytes of a fraction of [f] digits. *)
Definition fraction_bytes (f : Z) : nat := Z.to_nat ((f + 1) / 2).

(** A fraction with an odd number of digits has a zero after them. *)
Definition fraction_stored (f frac : Z) : Z := if Z.odd f then frac * 10 else frac.

(** The text of a fraction. *)
Definition fraction_text (f frac : Z) : list byte := if f =? 0 then [] else dot_b :: fmt.pad_int (Z.to_nat f) frac.

(** Hours, minutes and seconds in one number; days before them. *)
Definition packed_time (hour minute second : Z) : Z := hour * 2 ^ 12 + minute * 2 ^ 6 + second.
Definition packed_datetime (year month day hour minute second : Z) : Z :=
  ((year * 13 + month) * 2 ^ 5 + day) * 2 ^ 17 + packed_time hour minute second.

Definition server_datetime2 (f year month day hour minute second frac : Z) : list byte :=
  binary.be_bytes 5 (packed_datetime year month day hour minute second + 0x8000000000) ++
  binary.be_bytes (fraction_bytes f) (fraction_stored f frac).

(** A time and its fraction are one number, which has the sign. *)
Definition server_time2 (f : Z) (negative : bool) (hour minute second frac : Z) : list byte :=
  let unit := 256 ^ Z.of_nat (fraction_bytes f) in
  let t := packed_time hour minute second * unit + fraction_stored f frac in
  let v := (if negative then - t else t) + 0x800000 * unit in
  binary.be_bytes 3 (v / unit) ++ binary.be_bytes (fraction_bytes f) (v mod unit).

(** Three bytes in two's complement, of the digits of the time. *)
Definition server_time (t : Z) : list byte := binary.le_bytes 3 (t mod 2 ^ 24).

(** ** Reading them back *)

(** One goal for each number of digits, with the constants evaluated. *)
Ltac fraction_cases f Hf :=
  assert (f = 0 \/ f = 1 \/ f = 2 \/ f = 3 \/ f = 4 \/ f = 5 \/ f = 6) as Hcases by (clear - Hf; lia);
  repeat (destruct Hcases as [Hcases|Hcases]; [subst f|]); try subst f;
  repeat match goal with
  | H : context [fraction_bytes ?c] |- _ => let r := eval vm_compute in (fraction_bytes c) in change (fraction_bytes c) with r in *
  | |- context [fraction_bytes ?c] => let r := eval vm_compute in (fraction_bytes c) in change (fraction_bytes c) with r in *
  end;
  unfold fraction_stored in *; cbn [Z.odd] in *.

Lemma fraction_stored_fits f frac : 0 <= f <= 6 -> 0 <= frac < 10 ^ f ->
  0 <= fraction_stored f frac < 256 ^ Z.of_nat (fraction_bytes f).
Proof. intros Hf Hfrac. fraction_cases f Hf; lia. Qed.

Lemma fraction_read f frac p q : 0 <= f <= 6 -> 0 <= frac < 10 ^ f ->
  fraction (p ++ binary.be_bytes (fraction_bytes f) (fraction_stored f frac) ++ q) (zlen p) f =
  Ret (fraction_text f frac, Z.of_nat (fraction_bytes f)).
Proof.
  intros Hf Hfrac. pose proof (be_at_read p _ _ q (fraction_stored_fits f frac Hf Hfrac)) as Hr. unfold fraction, fraction_text.
  fraction_cases f Hf; cbn [Z.eqb Pos.eqb]; [done|..]; rewrite Hr; cbn [mbind outcome_bind]; rewrite ?Z.quot_mul by lia; done.
Qed.

Lemma packed_time_parts hour minute second : 0 <= hour -> 0 <= minute < 64 -> 0 <= second < 64 ->
  packed_time hour minute second mod 2 ^ 6 = second /\ Z.shiftr (packed_time hour minute second) 6 mod 2 ^ 6 = minute /\
  Z.shiftr (packed_time hour minute second) 12 = hour.
Proof.
  intros Hh Hm Hs. unfold packed_time. rewrite !Z.shiftr_div_pow2 by lia. split_and!.
  - symmetry. apply Z.mod_unique with (hour * 2 ^ 6 + minute); lia.
  - rewrite <- (Z.div_unique _ (2 ^ 6) (hour * 2 ^ 6 + minute) second) by lia.
    symmetry. apply Z.mod_unique with hour; lia.
  - symmetry. apply Z.div_unique with (minute * 2 ^ 6 + second); lia.
Qed.

Lemma packed_datetime_parts year month day hour minute second :
  0 <= year < 10000 -> 0 <= month < 13 -> 0 <= day < 32 -> 0 <= hour < 32 -> 0 <= minute < 64 -> 0 <= second < 64 ->
  let v := packed_datetime year month day hour minute second in
  0 <= v < 2 ^ 39 /\ v mod 2 ^ 17 = packed_time hour minute second /\ Z.shiftr v 17 mod 2 ^ 5 = day /\
  Z.shiftr (Z.shiftr v 17) 5 mod 13 = month /\ Z.shiftr (Z.shiftr v 17) 5 / 13 = year.
Proof.
  intros Hy Hmo Hd Hh Hm Hs v. assert (0 <= packed_time hour minute second < 2 ^ 17) as Ht by (unfold packed_time; lia).
  assert (Z.shiftr v 17 = (year * 13 + month) * 2 ^ 5 + day) as ->.
  { rewrite Z.shiftr_div_pow2 by lia. symmetry. by apply Z.div_unique with (packed_time hour minute second); [lia|unfold v, packed_datetime; lia]. }
  assert (Z.shiftr ((year * 13 + month) * 2 ^ 5 + day) 5 = year * 13 + month) as ->.
  { rewrite Z.shiftr_div_pow2 by lia. symmetry. apply Z.div_unique with day; lia. }
  split_and!; [unfold v, packed_datetime; lia..| | | |].
  - symmetry. by apply Z.mod_unique with ((year * 13 + month) * 2 ^ 5 + day); [lia|unfold v, packed_datetime; lia].
  - symmetry. apply Z.mod_unique with (year * 13 + month); lia.
  - symmetry. apply Z.mod_unique with year; lia.
  - symmetry. apply Z.div_unique with month; lia.
Qed.

(** A [DATETIME] keeps its value.  A date and a time of day with a fraction of up to six digits, in the server's
    encoding, is read as the same date and time, printed with exactly the digits of its type. *)
Theorem DateTime2_decode (f year month day hour minute second frac : Z) (p q : list byte) :
  0 <= f <= 6 -> 0 <= frac < 10 ^ f ->
  0 <= year < 10000 -> 0 <= month < 13 -> 0 <= day < 32 -> 0 <= hour < 24 -> 0 <= minute < 60 -> 0 <= second < 60 ->
  cell_DateTime2 (p ++ server_datetime2 f year month day hour minute second frac ++ q) (zlen p) f =
  cell Type_DATETIME (date_text year month day ++ [space_b] ++ time_text hour minute second ++ fraction_text f frac)
    (zlen (server_datetime2 f year month day hour minute second frac)).
Proof.
  intros Hf Hfrac Hy Hmo Hd Hh Hm Hs. unfold cell_DateTime2, server_datetime2.
  destruct (packed_datetime_parts year month day hour minute second) as (Hv & H17 & Hday & Hmonth & Hyear); try lia.
  destruct (packed_time_parts hour minute second) as (Hsec & Hmin & Hhour); try lia.
  set (v := packed_datetime year month day hour minute second) in *. rewrite <- app_assoc, be_at_read by lia. cbn [mbind outcome_bind].
  replace (v + 549755813888 - 549755813888) with v by lia.
  assert (uint64 v = v) as -> by (unfold uint64, wrapU; apply Z.mod_small; lia).
  rewrite H17, Hday, Hmonth, Hyear, Hsec, Hmin, Hhour, (app_assoc p).
  replace (zlen p + 5) with (zlen (p ++ binary.be_bytes 5 (v + 549755813888))) by (rewrite zlen_app, zlen_be_bytes; lia).
  rewrite fraction_read by done. cbn [mbind outcome_bind]. by rewrite zlen_app, !zlen_be_bytes.
Qed.

(** 2024-02-29 23:59:58.12345 in a [DATETIME(5)] column. *)
Example DateTime2_decode_witness :
  cell_DateTime2 ([] ++ server_datetime2 5 2024 2 29 23 59 58 12345 ++ []) 0 5 = cell Type_DATETIME (bs "2024-02-29 23:59:58.12345") 8.
Proof. apply (DateTime2_decode 5 2024 2 29 23 59 58 12345 [] []); lia. Defined.

(** *** Times *)

(** The two parts of the number the server writes for a time. *)
Lemma time2_parts (negative : bool) H F U : 0 <= H -> 0 <= F < U ->
  let v := (if negative then - (H * U + F) else H * U + F) + 0x800000 * U in
  v / U - 0x800000 = (if negative then - (if F =? 0 then H else H + 1) else H) /\
  v mod U = (if negative then if F =? 0 then 0 else U - F else F).
Proof.
  intros HH HF v. rewrite <- (Z.add_opp_r (v / U)). unfold v. rewrite Z.div_add, Z.mod_add by lia. destruct negative.
  - destruct (Z.eqb_spec F 0) as [->|].
    + rewrite <- (Z.div_unique _ U (- H) 0), <- (Z.mod_unique _ U (- H) 0) by lia. lia.
    + rewrite <- (Z.div_unique _ U (- H - 1) (U - F)), <- (Z.mod_unique _ U (- H - 1) (U - F)) by lia. lia.
  - rewrite <- (Z.div_unique _ U H F), <- (Z.mod_unique _ U H F) by lia. lia.
Qed.

Lemma time2_fraction_read p n q negative H F digits tenth : 0 <= F < 256 ^ Z.of_nat n ->
  time2_fraction (p ++ binary.be_bytes n (if negative : bool then if F =? 0 then 0 else 256 ^ Z.of_nat n - F else F) ++ q) (zlen p) n
    negative (if negative then if F =? 0 then H else H + 1 else H) digits tenth =
  Ret (H, dot_b :: fmt.pad_int digits (if tenth : bool then Z.quot F 10 else F)).
Proof.
  intros HF. unfold time2_fraction. rewrite be_at_read by (repeat case_match; lia). cbn [mbind outcome_bind].
  replace (2 ^ (8 * Z.of_nat n)) with (256 ^ Z.of_nat n) by (rewrite Z.pow_mul_r by lia; done).
  destruct negative; cbn [andb]; [|done]. destruct (Z.eqb_spec F 0) as [->|HF0]; [done|].
  rewrite (proj2 (Z.eqb_neq (256 ^ Z.of_nat n - F) 0)) by lia. cbn [negb].
  replace (H + 1 - 1) with H by lia. by replace (256 ^ Z.of_nat n - (256 ^ Z.of_nat n - F)) with F by lia.
Qed.

Lemma time2_switch_read f frac p q negative H : 0 <= f <= 6 -> 0 <= frac < 10 ^ f ->
  let F := fraction_stored f frac in
  let n := fraction_bytes f in
  time2_switch (p ++ binary.be_bytes n (if negative : bool then if F =? 0 then 0 else 256 ^ Z.of_nat n - F else F) ++ q) (zlen p) f
    negative (if negative then if F =? 0 then H else H + 1 else H) = Ret (H, fraction_text f frac).
Proof.
  intros Hf Hfrac F n. pose proof (fraction_stored_fits f frac Hf Hfrac) as HF. unfold F, n, time2_switch, fraction_text.
  fraction_cases f Hf; cbn [Z.eqb Pos.eqb].
  { assert (frac = 0) as -> by lia. by destruct negative. }
  all: rewrite time2_fraction_read by done; cbv iota; by rewrite ?Z.quot_mul by lia.
Qed.

(** A [TIME] keeps its value.  A time with a fraction, and with a sign, in the server's encoding, where a negative
    one is the complement of time and fraction together, is read as the same time, printed with its sign and with
    exactly the digits of its type. *)
Theorem Time2_decode (f : Z) (negative : bool) (hour minute second frac : Z) (p q : list byte) :
  0 <= f <= 6 -> 0 <= frac < 10 ^ f -> 0 <= hour < 839 -> 0 <= minute < 60 -> 0 <= second < 60 ->
  (negative = true -> 0 < hour + minute + second + frac) ->
  cell_Time2 (p ++ server_time2 f negative hour minute second frac ++ q) (zlen p) f =
  cell Type_TIME ((if negative then [dash_b] else []) ++ time_text hour minute second ++ fraction_text f frac)
    (zlen (server_time2 f negative hour minute second frac)).
Proof.
  intros Hf Hfrac Hh Hm Hs Hneg. destruct (packed_time_parts hour minute second) as (Hsec & Hmin & Hhour); try lia.
  pose proof (fraction_stored_fits f frac Hf Hfrac) as HF.
  assert (0 < hour + minute + second + frac -> 0 < packed_time hour minute second + fraction_stored f frac) as Hpos
    by (unfold packed_time, fraction_stored; case_match; lia).
  set (H := packed_time hour minute second) in *. set (F := fraction_stored f frac) in *. set (U := 256 ^ Z.of_nat (fraction_bytes f)) in *.
  assert (0 <= H < 2 ^ 22) as HH by (unfold H, packed_time; lia).
  unfold server_time2. fold H F U. cbv zeta. set (v := _ + 0x800000 * U).
  destruct (time2_parts negative H F U ltac:(lia) HF) as [Hdiv Hmod]. fold v in Hdiv, Hmod.
  unfold cell_Time2. rewrite <- app_assoc, be_at_read by (repeat case_match; lia). cbn [mbind outcome_bind].
  rewrite Hdiv, Hmod. 
  assert (((if negative then - (if F =? 0 then H else H + 1) else H) <? 0) = negative) as ->.
  { destruct negative; [|apply Z.ltb_ge; lia]. specialize (Hneg eq_refl). destruct (Z.eqb_spec F 0); apply Z.ltb_lt; lia. }
  assert (Z.abs (if negative then - (if F =? 0 then H else H + 1) else H) = (if negative then if F =? 0 then H else H + 1 else H)) as ->
    by (repeat case_match; lia).
  rewrite (app_assoc p).
  replace (zlen p + 3) with (zlen (p ++ binary.be_bytes 3 (v / U))) by (rewrite zlen_app, zlen_be_bytes; lia).
  pose proof (time2_switch_read f frac (p ++ binary.be_bytes 3 (v / U)) q negative H Hf Hfrac) as Hsw.
  cbv zeta in Hsw. fold F U in Hsw. rewrite Hsw. cbn [mbind outcome_bind].
  rewrite Hsec, Hmin, Hhour, Z.mod_small by lia. rewrite zlen_app, !zlen_be_bytes. unfold fraction_bytes.
  by rewrite Z2Nat.id, Z.quot_div_nonneg by (lia || apply Z.div_pos; lia).
Qed.

(** -00:00:01.5 in a [TIME(1)] column. *)
Example Time2_decode_witness :
  cell_Time2 ([] ++ server_time2 1 true 0 0 1 5 ++ []) 0 1 = cell Type_TIME (bs "-00:00:01.5") 4.
Proof. apply (Time2_decode 1 true 0 0 1 5 [] []); lia. Defined.

(** What is read from three bytes. *)
Lemma cell_Time_read v p q : 0 <= v < 2 ^ 24 ->
  cell_Time (p ++ binary.le_bytes 3 v ++ q) (zlen p) =
  let t := if 2 ^ 23 <=? v then v - 2 ^ 24 else v in
  cell Type_TIME (time_text (Z.quot t 10000) (Z.abs (Z.quot (Z.rem t 10000) 100)) (Z.abs (Z.rem t 100))) 3.
Proof.
  intros Hv. unfold cell_Time. destruct (int24_sign p v q Hv) as (b & -> & Hb). cbn [mbind outcome_bind].
  rewrite (le_at_of_le _ p (binary.le_bytes 3 v) q) by (done || apply binary.length_le_bytes).
  rewrite binary.of_le_le_bytes, Z.mod_small by done. cbn [mbind outcome_bind]. rewrite Hb.
  destruct (Z.leb_spec (2 ^ 23) v).
  - rewrite int32_of_int24 by lia. set (t := v - 2 ^ 24). assert (Z.rem t 10000 <= 0) by (apply Z.rem_nonpos; lia).
    assert (Z.rem t 100 <= 0) by (apply Z.rem_nonpos; lia).
    assert (Z.quot (Z.rem t 10000) 100 <= 0).
    { replace (Z.rem t 10000) with (- - Z.rem t 10000) by lia. rewrite Z.quot_opp_l by lia. pose proof (Z.quot_pos (- Z.rem t 10000) 100). lia. }
    by rewrite !Z.abs_neq by lia.
  - rewrite !Z.abs_eq; [done| |apply Z.quot_pos; [|lia]]; apply Z.rem_nonneg; lia.
Qed.

Lemma time_digits hour minute second : 0 <= hour -> 0 <= minute < 60 -> 0 <= second < 60 ->
  let t := hour * 10000 + minute * 100 + second in
  Z.quot t 10000 = hour /\ Z.quot (Z.rem t 10000) 100 = minute /\ Z.rem t 100 = second.
Proof.
  intros Hh Hm Hs t. rewrite !Z.rem_mod_nonneg by (unfold t; lia).
  rewrite <- (Z.mod_unique t 10000 hour (minute * 100 + second)) by (unfold t; lia).
  rewrite !Z.quot_div_nonneg by (unfold t; lia). split_and!; symmetry.
  - apply Z.div_unique with (minute * 100 + second); unfold t; lia.
  - apply Z.div_unique with second; lia.
  - apply Z.mod_unique with (hour * 100 + minute); unfold t; lia.
Qed.

(** In the encoding of [TIME] without fractions the sign is printed with the hours.  A time is read as its
    hours with the sign, its minutes and its seconds, so that a negative time less than an hour from zero loses its
    sign: it has the text of its opposite. *)
Theorem Time_decode (negative : bool) (hour minute second : Z) (p q : list byte) :
  0 <= hour < 839 -> 0 <= minute < 60 -> 0 <= second < 60 ->
  let t := hour * 10000 + minute * 100 + second in
  cell_Time (p ++ server_time (if negative then - t else t) ++ q) (zlen p) =
  cell Type_TIME (time_text (if negative then - hour else hour) minute second) 3 /\
  (hour = 0 -> cell_Time (p ++ server_time (- t) ++ q) (zlen p) = cell_Time (p ++ server_time t ++ q) (zlen p)).
Proof.
  intros Hh Hm Hs t. destruct (time_digits hour minute second ltac:(lia) Hm Hs) as (Hq1 & Hq2 & Hq3). fold t in Hq1, Hq2, Hq3.
  assert (forall negative : bool, cell_Time (p ++ server_time (if negative then - t else t) ++ q) (zlen p) =
    cell Type_TIME (time_text (if negative then - hour else hour) minute second) 3) as Hread.
  { intros neg. unfold server_time. rewrite cell_Time_read by (apply Z.mod_pos_bound; lia). cbv zeta.
    set (z := if neg then - t else t).
    assert ((if 2 ^ 23 <=? z mod 2 ^ 24 then z mod 2 ^ 24 - 2 ^ 24 else z mod 2 ^ 24) = z) as ->.
    { assert (- 2 ^ 23 <= z < 2 ^ 23) as Hz by (unfold z, t; destruct neg; lia). pose proof (Z.div_mod z (2 ^ 24)).
      pose proof (Z.mod_pos_bound z (2 ^ 24)). destruct (Z.leb_spec (2 ^ 23) (z mod 2 ^ 24)); lia. }
    unfold z. destruct neg; rewrite ?Z.quot_opp_l, ?Z.rem_opp_l, ?Z.quot_opp_l, ?Hq1, ?Hq2, ?Hq3, ?Z.abs_opp, !Z.abs_eq by lia; done. }
  split; [apply Hread|]. intros ->. by rewrite (Hread true), (Hread false).
Qed.

(** -00:05:07 is read as 00:05:07. *)
Example Time_decode_witness :
  cell_Time ([] ++ server_time (-507) ++ []) 0 = cell Type_TIME (bs "00:05:07") 3.
Proof. apply (Time_decode true 0 5 7 [] []); lia. Defined.
