(* ===== verification/BinlogDump.v ===== *)
(** * Commands that start a replication stream

    [WriteComBinlogDump], [WriteComBinlogDumpGTID] and [SendSemiSyncAck] of [go/mysql/replication.go], the commands the flavors send, and the parsers a
    server uses for them ([go/mysql/binlog_dump.go], [go/mysql/register_replica.go]). *)

From S2P Require Import Prelude Intervals GoStd GtidTypes Gtid56 Mariadb FilePos Gtid56Block Encoding Position Packet OkPacket.

Definition ComBinlogDump : Z := 0x12.
Definition ComBinlogDumpGTID : Z := 0x1e.
Definition ComSemiSyncAck : Z := 0xef.
Definition BinlogDumpNonBlock : Z := 0x01.
Definition BinlogThroughGTID : Z := 0x04.

Inductive dump_error :=
| ReadPacketErr
| DumpEOF
| DumpPosition (e : gtid_error)
| WrongGTIDSet.

(** ** The commands *)

Section Pool.
Context (stale : Z -> list byte).

(** [WriteComBinlogDump]. *)
Definition WriteComBinlogDump (serverID : Z) (binlogFilename : list byte) (binlogPos flags : Z) : io unit :=
  _ ← update (set_sequence 0);
  wrapped ServerGone (write_ephemeral stale (1 + 4 + 2 + 4 + zlen binlogFilename) (fun data pos =>
    '(data, pos) ← writeByte data pos (z2b ComBinlogDump);
    '(data, pos) ← writeUint32 data pos binlogPos;
    '(data, pos) ← writeUint16 data pos flags;
    '(data, pos) ← writeUint32 data pos serverID;
    writeEOFString data pos binlogFilename)).

(** [WriteComBinlogDumpGTID]; the last [copy] is [writeEOFString] without its result. *)
Definition WriteComBinlogDumpGTID (serverID : Z) (binlogFilename : list byte) (binlogPos flags : Z) (gtidSet : list byte) : io unit :=
  _ ← update (set_sequence 0);
  wrapped ServerGone (write_ephemeral stale (1 + 2 + 4 + 4 + zlen binlogFilename + 8 + 4 + zlen gtidSet) (fun data pos =>
    '(data, pos) ← writeByte data pos (z2b ComBinlogDumpGTID);
    '(data, pos) ← writeUint16 data pos flags;
    '(data, pos) ← writeUint32 data pos serverID;
    '(data, pos) ← writeUint32 data pos (uint32 (zlen binlogFilename));
    '(data, pos) ← writeEOFString data pos binlogFilename;
    '(data, pos) ← writeUint64 data pos binlogPos;
    '(data, pos) ← writeUint32 data pos (uint32 (zlen gtidSet));
    writeEOFString data pos gtidSet)).

(** [SendSemiSyncAck]. *)
Definition SendSemiSyncAck (binlogFilename : list byte) (binlogPos : Z) : io unit :=
  _ ← update (set_sequence 0);
  wrapped ServerGone (write_ephemeral stale (1 + 8 + zlen binlogFilename) (fun data pos =>
    '(data, pos) ← writeByte data pos (z2b ComSemiSyncAck);
    '(data, pos) ← writeUint64 data pos binlogPos;
    writeEOFString data pos binlogFilename)).

(** [mysqlFlavor.sendBinlogDumpCommand] and [filePosFlavor.sendBinlogDumpCommand]: the command for a position, and the file the
    flavor remembers. *)
Definition mysql_sendBinlogDumpCommand (serverID : Z) (binlogFilename : list byte) (startPos : Position) : result dump_error (io unit) :=
  match startPos with
  | Some (Set56 gtidSet) => Ok (WriteComBinlogDumpGTID serverID binlogFilename 4 0 (SIDBlock gtidSet))
  | _ => Err WrongGTIDSet
  end.

Definition filePos_sendBinlogDumpCommand (serverID : Z) (startPos : Position) : result dump_error (io unit * list byte) :=
  match startPos with
  | Some (SetFilePos rpos) => Ok (WriteComBinlogDump serverID (file rpos) (uint32 (pos rpos)) 0, file rpos)
  | _ => Err WrongGTIDSet
  end.
End Pool.

(** ** The parsers *)

(** [parseComBinlogDump]. *)
Definition parseComBinlogDump (data : list byte) : outcome (result dump_error (list byte * Z)) :=
  '(binlogPos, pos, ok) ← readUint32 data 1;
  if negb ok then Ret (Err ReadPacketErr)
  else
    logFile ← slice_from data (pos + 2 + 4);
    Ret (Ok (logFile, binlogPos)).

(** [parseComBinlogDumpGTID]. *)
Definition parseComBinlogDumpGTID (data : list byte) : outcome (result dump_error (list byte * Z * Position)) :=
  s ← slice data 1 (1 + 2);
  let flags2 := binary.of_le s in
  let pos := 1 + 2 + 4 in
  '(fileNameLen, pos, ok) ← readUint32 data pos;
  if negb ok then Ret (Err ReadPacketErr)
  else
    logFile ← slice data pos (pos + fileNameLen);
    let pos := pos + fileNameLen in
    '(logPos, pos, ok) ← readUint64 data pos;
    if negb ok then Ret (Err ReadPacketErr)
    else if negb (Z.land flags2 BinlogDumpNonBlock =? 0) then Ret (Err DumpEOF)
    else if negb (Z.land flags2 BinlogThroughGTID =? 0) then
      '(dataSize, pos, ok) ← readUint32 data pos;
      if negb ok then Ret (Err ReadPacketErr)
      else
        gtid ← slice data pos (pos + dataSize);
        if decide (gtid = []) then Ret (Ok (logFile, logPos, None))
        else
          match DecodePosition gtid with
          | Err e => Ret (Err (DumpPosition e))
          | Ok position => Ret (Ok (logFile, logPos, position))
          end
    else Ret (Ok (logFile, logPos, None)).

(** A string after a length of one byte. *)
Definition read_short_string (data : list byte) (pos : Z) : outcome (result dump_error (list byte * Z)) :=
  '(n, pos, ok) ← readByte data pos;
  if negb ok then Ret (Err ReadPacketErr)
  else s ← slice data pos (pos + b2z n); Ret (Ok (s, pos + b2z n)).

(** [parseComRegisterReplica]: host, port, user and password. *)
Definition parseComRegisterReplica (data : list byte) : outcome (result dump_error (list byte * Z * list byte * list byte)) :=
  '(replicaHost, pos) ←? read_short_string data (1 + 4);
  '(replicaUser, pos) ←? read_short_string data pos;
  '(replicaPassword, pos) ←? read_short_string data pos;
  '(replicaPort, _, ok) ← readUint16 data pos;
  if negb ok then Ret (Err ReadPacketErr) else Ret (Ok (replicaHost, replicaPort, replicaUser, replicaPassword)).

(** ** Payloads *)

Definition dump_payload (serverID : Z) (name : list byte) (logPos flags : Z) : list byte :=
  [z2b ComBinlogDump] ++ binary.le_bytes 4 logPos ++ binary.le_bytes 2 flags ++ binary.le_bytes 4 serverID ++ name.

Definition dump_gtid_payload (serverID : Z) (name : list byte) (logPos flags : Z) (gtid : list byte) : list byte :=
  [z2b ComBinlogDumpGTID] ++ binary.le_bytes 2 flags ++ binary.le_bytes 4 serverID ++ binary.le_bytes 4 (zlen name) ++ name ++
  binary.le_bytes 8 logPos ++ binary.le_bytes 4 (zlen gtid) ++ gtid.

(** Strings whose length fits the command. *)
Definition short (s : list byte) : Prop := zlen s < 2 ^ 32.

Lemma uint32_short s : short s -> uint32 (zlen s) = zlen s.
Proof. intros Hs. apply Z.mod_small. pose proof (zlen_nonneg s). unfold short in Hs. lia. Qed.

(** A command that has been written is read by a server that waits for one. *)
Definition reaches (m : io unit) (c : Conn) (data : list byte) : Prop :=
  exists b c', m c = Ret (Ok tt, c') /\ output c' = output c ++ b /\ idle c' /\
    forall r q, sequence r = 0 -> input r = b ++ q -> currentEphemeralPolicy r = ephemeralUnused ->
    exists r', readEphemeralPacket r = Ret (Ok data, r') /\ input r' = q.

Lemma command_reaches stale n fill data c : idle c -> breaks c = None -> fills fill data -> zlen data = n -> n + 4 <= MaxInt64 ->
  reaches (_ ← update (set_sequence 0); wrapped ServerGone (write_ephemeral stale n fill)) c data.
Proof.
  intros Hi Hb Hfill Hl Hm. set (c0 := set_sequence 0 c).
  destruct (write_ephemeral_sends stale n fill data c0 Hi Hfill Hl Hm) as (b & s & Hf & Hw). apply sends_unbroken in Hw; [|done].
  exists b, (set_sequence s (set_output (output c ++ b) None c0)). split_and!; [|done|done|].
  - erewrite io_bind_ok; [|reflexivity]. by apply wrapped_ok.
  - intros r q Hr Hin Hu. destruct (readEphemeralPacket_framed _ _ _ _ r q Hf) as (buf & He); [done|done|done|done|]. by eexists.
Qed.

Lemma DumpGTID_reaches stale serverID name logPos flags gtid c : idle c -> breaks c = None -> short name -> short gtid ->
  reaches (WriteComBinlogDumpGTID stale serverID name logPos flags gtid) c (dump_gtid_payload serverID name logPos flags gtid).
Proof.
  intros Hi Hb Hn Hg. pose proof (zlen_nonneg name). pose proof (zlen_nonneg gtid). unfold short in *. apply command_reaches; [done|done| | |unfold_ints; lia].
  - rewrite !uint32_short by done. unfold dump_gtid_payload. do 7 fill. fill.
  - unfold dump_gtid_payload. len.
Qed.

Lemma Dump_reaches stale serverID name logPos flags c : idle c -> breaks c = None -> short name ->
  reaches (WriteComBinlogDump stale serverID name logPos flags) c (dump_payload serverID name logPos flags).
Proof.
  intros Hi Hb Hn. pose proof (zlen_nonneg name). unfold short in *. apply command_reaches; [done|done| | |unfold_ints; lia].
  - unfold dump_payload. do 4 fill. fill.
  - unfold dump_payload. len.
Qed.

(** Fixed-width numbers at a position. *)
Lemma readUintN_at D p n m v q i : D = p ++ binary.le_bytes m v ++ q -> zlen p = i -> n = Z.of_nat m -> 1 <= n -> 0 <= v < 256 ^ n -> buffer_ok D ->
  readUintN n D i = Ret (v, i + n, true).
Proof.
  intros -> <- -> Hn Hv HD. rewrite readUintN_here by (done || by rewrite zlen_le_bytes). by rewrite binary.of_le_le_bytes, Z.mod_small.
Qed.

Lemma parse_dump serverID name logPos flags : short name -> 0 <= logPos < 2 ^ 32 ->
  parseComBinlogDump (dump_payload serverID name logPos flags) = Ret (Ok (name, logPos)).
Proof.
  intros Hn Hl. set (D := dump_payload _ _ _ _). pose proof (zlen_nonneg name). unfold short in Hn.
  assert (zlen D = 11 + zlen name) as HD by (unfold D, dump_payload; len). unfold parseComBinlogDump, readUint32.
  rewrite (readUintN_at D [z2b ComBinlogDump] 4 4 logPos (binary.le_bytes 2 flags ++ binary.le_bytes 4 serverID ++ name)) by (done || (unfold buffer_ok; unfold_ints; lia)).
  cbn [mbind outcome_bind negb].
  rewrite (slice_from_at D ([z2b ComBinlogDump] ++ binary.le_bytes 4 logPos ++ binary.le_bytes 2 flags ++ binary.le_bytes 4 serverID)) with (q := name)
    by (len || (unfold D, dump_payload; by rewrite <- !app_assoc)). done.
Qed.

Lemma parse_dump_gtid serverID name logPos flags gtid : short name -> short gtid -> is_uint64 logPos -> is_uint16 flags ->
  parseComBinlogDumpGTID (dump_gtid_payload serverID name logPos flags gtid) =
  if negb (Z.land flags BinlogDumpNonBlock =? 0) then Ret (Err DumpEOF)
  else if negb (Z.land flags BinlogThroughGTID =? 0) then
    if decide (gtid = []) then Ret (Ok (name, logPos, None))
    else match DecodePosition gtid with Err e => Ret (Err (DumpPosition e)) | Ok position => Ret (Ok (name, logPos, position)) end
  else Ret (Ok (name, logPos, None)).
Proof.
  intros Hn Hg Hl Hf. set (D := dump_gtid_payload _ _ _ _ _). pose proof (zlen_nonneg name). pose proof (zlen_nonneg gtid). unfold short in *.
  set (h := [z2b ComBinlogDumpGTID] ++ binary.le_bytes 2 flags ++ binary.le_bytes 4 serverID). set (n := zlen name) in *.
  set (t := binary.le_bytes 4 (zlen gtid) ++ gtid).
  assert (D = h ++ binary.le_bytes 4 n ++ name ++ binary.le_bytes 8 logPos ++ t) as E by (unfold D, h, t, dump_gtid_payload; by rewrite <- !app_assoc).
  assert (zlen D <= 2 ^ 34) as HD by (unfold D, dump_gtid_payload; len). assert (buffer_ok D) as HB by (unfold buffer_ok; unfold_ints; lia).
  unfold parseComBinlogDumpGTID.
  rewrite (slice_at D [z2b ComBinlogDumpGTID] (binary.le_bytes 2 flags)) with (q := binary.le_bytes 4 serverID ++ binary.le_bytes 4 n ++ name ++ binary.le_bytes 8 logPos ++ t)
    by (done || (unfold D, dump_gtid_payload, t; by rewrite <- !app_assoc)).
  cbn [mbind outcome_bind]. rewrite binary.of_le_le_bytes, (Z.mod_small flags) by exact Hf. unfold readUint32, readUint64.
  rewrite (readUintN_at D h 4 4 n _ (1 + 2 + 4) E) by (done || lia || (unfold h; len)). cbn [mbind outcome_bind negb].
  rewrite (slice_at D (h ++ binary.le_bytes 4 n) name (binary.le_bytes 8 logPos ++ t)) by ((rewrite E; by rewrite <- !app_assoc) || (unfold h; len)).
  cbn [mbind outcome_bind].
  rewrite (readUintN_at D (h ++ binary.le_bytes 4 n ++ name) 8 8 logPos t) by (done || (unfold h, n; len) || (rewrite E; by rewrite <- !app_assoc) || (unfold_ints; lia)).
  cbn [mbind outcome_bind negb]. destruct (negb (Z.land flags BinlogDumpNonBlock =? 0)); [done|].
  destruct (negb (Z.land flags BinlogThroughGTID =? 0)); [|done].
  rewrite (readUintN_at D (h ++ binary.le_bytes 4 n ++ name ++ binary.le_bytes 8 logPos) 4 4 (zlen gtid) gtid)
    by (done || lia || (unfold h, n; len) || (rewrite E; by rewrite <- !app_assoc)).
  cbn [mbind outcome_bind negb].
  rewrite (slice_at D (h ++ binary.le_bytes 4 n ++ name ++ binary.le_bytes 8 logPos ++ binary.le_bytes 4 (zlen gtid)) gtid [])
    by ((rewrite E, app_nil_r; unfold t; by rewrite <- !app_assoc) || (unfold h, n; len)).
  done.
Qed.

Section Flavors.
Context {S : Type} `{Flavor S}.

(** A replica can start from any position.  The command that [WriteComBinlogDumpGTID] writes for the text of a position of any
    flavor, with the flag that tells that it is given by GTIDs, is read and parsed by the server as the same file, offset and
    position, whatever the buffers of the pool contained. *)
Theorem DumpGTID_roundtrip (stale : Z -> list byte) (serverID : Z) (name : list byte) (logPos flags : Z) (p : option S) (c : Conn) :
  idle c -> breaks c = None -> short name -> is_uint64 logPos -> is_uint16 flags ->
  Z.land flags BinlogDumpNonBlock = 0 -> Z.land flags BinlogThroughGTID <> 0 ->
  position_ok p -> short (EncodePosition (to_position p)) ->
  exists data, reaches (WriteComBinlogDumpGTID stale serverID name logPos flags (EncodePosition (to_position p))) c data /\
    parseComBinlogDumpGTID data = Ret (Ok (name, logPos, to_position p)).
Proof.
  intros Hi Hb Hn Hl Hf Hnb Hg Hp Hs. eexists. split; [by apply DumpGTID_reaches|].
  rewrite parse_dump_gtid, Hnb by done. rewrite (proj2 (Z.eqb_neq (Z.land flags BinlogThroughGTID) 0)) by done. cbn [Z.eqb negb].
  pose proof (Decode_Encode_position p Hp) as Hd. destruct (decide _) as [E|E]; [|by rewrite Hd]. rewrite E in Hd. by injection Hd as <-.
Qed.
End Flavors.

(** The position of the command that the MySQL flavor sends is not read by this server.  The flavor sends the set in
    binary form without the flag that announces it, and the parser returns the zero position for every set. *)
Theorem DumpGTID_ignored (stale : Z -> list byte) (serverID : Z) (name : list byte) (set : Mysql56GTIDSet) (c : Conn) :
  idle c -> breaks c = None -> short name -> short (SIDBlock set) ->
  exists m data, mysql_sendBinlogDumpCommand stale serverID name (Some (Set56 set)) = Ok m /\ reaches m c data /\
    parseComBinlogDumpGTID data = Ret (Ok (name, 4, None)).
Proof.
  intros Hi Hb Hn Hs. do 2 eexists. split; [done|]. split; [by apply DumpGTID_reaches|]. by rewrite parse_dump_gtid.
Qed.

Example DumpGTID_roundtrip_witness : exists data,
  reaches (WriteComBinlogDumpGTID (fun _ => bs "stale") 7 (bs "binlog.000003") 4 BinlogThroughGTID
    (EncodePosition (to_position (Some mdb_sample)))) new_conn data /\
  parseComBinlogDumpGTID data = Ret (Ok (bs "binlog.000003", 4, to_position (Some mdb_sample))).
Proof.
  apply (DumpGTID_roundtrip (fun _ => bs "stale") 7 (bs "binlog.000003") 4 BinlogThroughGTID (Some mdb_sample) new_conn);
    [by split|reflexivity|by vm_compute|by vm_compute|by vm_compute|reflexivity|discriminate|exact mdb_sample_ok|by vm_compute].
Defined.

Example DumpGTID_ignored_witness : exists m data,
  mysql_sendBinlogDumpCommand (fun _ => bs "stale") 7 (bs "binlog.000003") (Some (Set56 None)) = Ok m /\ reaches m new_conn data /\
  parseComBinlogDumpGTID data = Ret (Ok (bs "binlog.000003", 4, None)).
Proof.
  apply (DumpGTID_ignored (fun _ => bs "stale") 7 (bs "binlog.000003") None new_conn); [by split|reflexivity|by vm_compute|by vm_compute].
Defined.
