(* ===== verification/Commands.v ===== *)
(** * Commands of a connection

    [handleNextCommand] of [go/mysql/conn.go] with its remaining cases: the dispatch on the first byte of a packet, changes of the
    default database ([go/sqlescape]), pings, options, resets of the connection and the commands of replicas.  The
    theorems are about all sequences of packets a client may send. *)

From S2P Require Import Prelude Intervals GoStd GtidTypes Encoding SqlTypes Packet OkPacket ResultSet BinaryValue BinaryArgs Prepared Position BinlogDump.

Definition ComInitDB : Z := 0x02.
Definition ComPing : Z := 0x0e.
Definition ComRegisterReplica : Z := 0x15.
Definition ComSetOption : Z := 0x1b.
Definition ComResetConnection : Z := 0x1f.

(** [EscapeID]. *)
Definition EscapeID (name : list byte) : list byte :=
  z2b 96 :: mbind (fun c => if decide (c = z2b 96) then [c; z2b 96] else [c]) name ++ [z2b 96].

(** [parseComInitDB] and [parseComSetOption]. *)
Definition parseComInitDB (data : list byte) : outcome (list byte) := slice_from data 1.
Definition parseComSetOption (data : list byte) : outcome (Z * bool) := '(val, _, ok) ← readUint16 data 1; Ret (val, ok).

Definition set_Capabilities (flags : Z) (c : Conn) : Conn :=
  {| sequence := sequence c; Capabilities := flags; StatusFlags := StatusFlags c; enableQueryInfo := enableQueryInfo c;
     currentEphemeralPolicy := currentEphemeralPolicy c; currentEphemeralBuffer := currentEphemeralBuffer c;
     input := input c; input_end := input_end c; output := output c; breaks := breaks c |}.

(** A server: its handler, whether it shuts down, and how it serves replicas; a dump writes packets to the connection and tells whether it has ended
    without an error. *)
Record Server := {
  sv_handler : Handler;
  sv_shutdown : bool;
  sv_register : list byte -> Z -> list byte -> list byte -> option (SQLError + list byte);
  sv_dump : list byte -> Z -> Conn -> outcome (bool * Conn);
  sv_dump_gtid : list byte -> Z -> Position -> Conn -> outcome (bool * Conn)
}.

Section Server.
Context (ParseFloat32 ParseFloat64 : list byte -> option Z) (float32_chars float64_chars : Z -> list byte) (stale : Z -> list byte) (sv : Server).
(** The text of an error of the network. *)
Context (error_text : conn_error -> list byte).

(** [handleComSetOption]. *)
Definition handleComSetOption (data : list byte) : cmd bool :=
  '(operation, ok) ← calc (parseComSetOption data);
  _ ← recycled;
  let failed := writeErrorAndLog stale ERUnknownComError SSNetError (bs "error handling packet: " ++ bytes_text data) in
  if ok : bool then
    sent ←
      (if operation =? 0 then
         _ ← on_conn (update (fun c => set_Capabilities (Z.lor (Capabilities c) CapabilityClientMultiStatements) c)); mret true
       else if operation =? 1 then
         _ ← on_conn (update (fun c => set_Capabilities (Z.land (Capabilities c) (Z.lnot CapabilityClientMultiStatements)) c)); mret true
       else failed);
    if negb sent then mret false else written (writeEndResult stale false 0 0 0 [])
  else failed.

(** [handleComPing]. *)
Definition handleComPing : cmd bool :=
  _ ← recycled;
  if sv_shutdown sv then writeErrorAndLog stale ERServerShutdown SSNetError (bs "Server shutdown in progress")
  else s ← session; written (writeOKPacket stale (status_ok (StatusFlags (s_conn s)))).

(** An OK packet, or else the attempt to send the error. *)
Definition ok_or_error : cmd unit :=
  r ← on_conn (writeOKPacket stale (status_ok 0));
  match r with
  | Ok _ => mret tt
  | Err e => _ ← on_conn (writeErrorPacketFromError stale (inr (error_text e))); mret tt
  end.

(** [handleComResetConnection]. *)
Definition handleComResetConnection : cmd unit :=
  _ ← recycled;
  _ ← modify (set_prepared ∅);
  ok_or_error.

(** [handleComRegisterReplica]. *)
Definition handleComRegisterReplica (data : list byte) : cmd bool :=
  _ ← recycled;
  r ← calc (parseComRegisterReplica data);
  match r with
  | Err _ => mret false
  | Ok (host, port, user, password) =>
      match sv_register sv host port user password with
      | Some e => _ ← on_conn (writeErrorPacketFromError stale e); mret false
      | None => _ ← ok_or_error; mret true
      end
  end.

(** [handleComBinlogDump] and [handleComBinlogDumpGTID]. *)
Definition handleComBinlogDump (data : list byte) : cmd bool :=
  _ ← recycled;
  r ← calc (parseComBinlogDump data);
  match r with
  | Err _ => mret false
  | Ok (logfile, binlogPos) => on_conn (sv_dump sv logfile binlogPos)
  end.

Definition handleComBinlogDumpGTID (data : list byte) : cmd bool :=
  _ ← recycled;
  r ← calc (parseComBinlogDumpGTID data);
  match r with
  | Err _ => mret false
  | Ok (logFile, logPos, position) => on_conn (sv_dump_gtid sv logFile logPos position)
  end.

(** The case of [ComInitDB]. *)
Definition handleComInitDB (data : list byte) : cmd bool :=
  db ← calc (parseComInitDB data);
  _ ← recycled;
  let a := h_query (sv_handler sv) (bs "use " ++ EscapeID db) in
  r ← on_conn (execQuery stale (a_warnings a) false (a_results a) (a_err a));
  mret (match r with connErr => false | _ => true end).

(** The answer to [ComFieldList] and to a command that is not known. *)
Definition unknown_command (command : byte) : cmd bool :=
  _ ← recycled;
  writeErrorAndLog stale ERUnknownComError SSNetError (bs "command handling not implemented yet: " ++ strconv.FormatUint (b2z command)).

(** The switch of [handleNextCommand]. *)
Definition dispatch (command : byte) (data : list byte) : cmd bool :=
  let got x := b2z command =? x in
  let h := sv_handler sv in
  if got ComQuit then _ ← recycled; mret false
  else if got ComInitDB then handleComInitDB data
  else if got ComQuery then on_conn (handleComQuery stale (h_split h) (h_query h) data)
  else if got ComPing then handleComPing
  else if got ComSetOption then handleComSetOption data
  else if got ComPrepare then handleComPrepare stale h data
  else if got ComStmtExecute then handleComStmtExecute ParseFloat32 ParseFloat64 float32_chars float64_chars stale h data
  else if got ComStmtSendLongData then handleComStmtSendLongData stale data
  else if got ComStmtClose then handleComStmtClose data
  else if got ComStmtReset then handleComStmtReset stale data
  else if got ComResetConnection then _ ← handleComResetConnection; mret true
  else if got ComBinlogDump then handleComBinlogDump data
  else if got ComBinlogDumpGTID then handleComBinlogDumpGTID data
  else if got ComRegisterReplica then handleComRegisterReplica data
  else unknown_command command.

(** [handleNextCommand]; whether the connection goes on. *)
Definition handleNextCommand : cmd bool :=
  _ ← on_conn (update (set_sequence 0));
  r ← on_conn readEphemeralPacket;
  match r with
  | Err _ | Ok [] => mret false
  | Ok (command :: _ as data) => dispatch command data
  end.
End Server.

(** ** Writers give their buffer back *)

(** The connection has no buffer again, also after an error. *)
Definition returns_buffer {E A} (m : Conn -> outcome (result E A * Conn)) : Prop :=
  forall c r c', idle c -> m c = Ret (r, c') -> idle c'.

(** At least when there is no error. *)
Definition returns_buffer_ok {E A} (m : Conn -> outcome (result E A * Conn)) : Prop :=
  forall c a c', idle c -> m c = Ret (Ok a, c') -> idle c'.

Create HintDb buffers.

Lemma returns_ok {E A} (m : Conn -> outcome (result E A * Conn)) : returns_buffer m -> returns_buffer_ok m.
Proof. intros H c a c' Hi Hm. by eapply H. Qed.

#[local] Hint Resolve returns_ok : buffers.

Lemma bind_returns_ok {A B} (m : io A) (k : A -> io B) : returns_buffer_ok m -> (forall a, returns_buffer_ok (k a)) -> returns_buffer_ok (m ≫= k).
Proof.
  intros Hm Hk c b c' Hi. unfold mbind, io_bind. destruct (m c) as [[[a|e] c1]|] eqn:E; [|done..]. intros H. by apply (Hk a c1 b c'); [eapply Hm|].
Qed.

Lemma bind_returns {A B} (m : io A) (k : A -> io B) : returns_buffer m -> (forall a, returns_buffer (k a)) -> returns_buffer (m ≫= k).
Proof.
  intros Hm Hk c b c' Hi. unfold mbind, io_bind. destruct (m c) as [[[a|e] c1]|] eqn:E; [|intros [= <- <-]; by eapply Hm|done].
  intros H. by apply (Hk a c1 b c'); [eapply Hm|].
Qed.

Lemma state_returns : returns_buffer state.
Proof. by intros c r c' Hi [= <- <-]. Qed.

Lemma ret_returns {A} (a : A) : returns_buffer (mret (M := io) a).
Proof. by intros c r c' Hi [= <- <-]. Qed.

Lemma writeEphemeralPacket_returns c r c' : writeEphemeralPacket c = Ret (r, c') -> idle c'.
Proof.
  unfold writeEphemeralPacket. destruct (currentEphemeralPolicy c); try done. destruct (currentEphemeralBuffer c) as [buf|]; [|done].
  destruct (writePacket buf c) as [[r1 c1]|]; [|done]. unfold recycleWritePacket, mbind, io_bind, state. destruct (currentEphemeralPolicy c1); try done.
  intros [= <- <-]. done.
Qed.

Lemma write_ephemeral_returns stale n fill : returns_buffer (write_ephemeral stale n fill).
Proof.
  intros c r c' [Hp Hb] H. unfold write_ephemeral, startEphemeralPacketWithHeader in H. unfold mbind, io_bind, state, update, mret, io_ret in H. rewrite Hp in H.
  unfold pure in H. destruct (fill _ _) as [[data pos]|]; [|done]. unfold filled, update in H. by apply writeEphemeralPacket_returns in H.
Qed.

#[local] Hint Resolve state_returns ret_returns write_ephemeral_returns bind_returns bind_returns_ok : buffers.

Section Writers.
Context (stale : Z -> list byte).

Lemma writeOKPacketWithHeader_returns p h : returns_buffer (writeOKPacketWithHeader stale p h).
Proof. apply bind_returns; auto with buffers. Qed.

Lemma writeOKPacket_returns p : returns_buffer (writeOKPacket stale p).
Proof. apply writeOKPacketWithHeader_returns. Qed.

Lemma writeEOFPacket_returns flags warnings : returns_buffer (writeEOFPacket stale flags warnings).
Proof. apply write_ephemeral_returns. Qed.

Lemma writeErrorPacket_returns code st message : returns_buffer (writeErrorPacket stale code st message).
Proof. apply write_ephemeral_returns. Qed.

Lemma writeErrorPacketFromError_returns e : returns_buffer (writeErrorPacketFromError stale e).
Proof. destruct e; apply write_ephemeral_returns. Qed.

Lemma writeEndResult_returns more a l w i : returns_buffer (writeEndResult stale more a l w i).
Proof. apply bind_returns; [auto with buffers|]. intros c. case_match; [apply writeEOFPacket_returns|apply writeOKPacketWithHeader_returns]. Qed.

Lemma writeColumnDefinition_returns f : returns_buffer_ok (writeColumnDefinition stale f).
Proof.
  intros c a c' [Hp Hb] H. unfold writeColumnDefinition, startEphemeralPacketWithHeader in H. unfold mbind, io_bind, state, update, mret, io_ret in H. rewrite Hp in H.
  unfold pure in H. destruct (fill_column f _ _) as [[data pos]|]; [|done]. unfold filled, update in H.
  destruct (negb (pos =? zlen data)); [done|]. by apply writeEphemeralPacket_returns in H.
Qed.

#[local] Hint Resolve writeOKPacketWithHeader_returns writeOKPacket_returns writeEOFPacket_returns writeErrorPacket_returns writeErrorPacketFromError_returns
  writeEndResult_returns writeColumnDefinition_returns : buffers.

Lemma writeColumnDefinitions_returns fields : returns_buffer_ok (writeColumnDefinitions stale fields).
Proof. induction fields as [|f fields IH]; cbn [writeColumnDefinitions]; auto with buffers. Qed.

Lemma definitions_end_returns : returns_buffer (definitions_end stale).
Proof. apply bind_returns; [auto with buffers|]. intros c. case_match; auto with buffers. Qed.

Lemma writeFields_returns r : returns_buffer_ok (writeFields stale r).
Proof.
  apply bind_returns_ok; [apply returns_ok, write_ephemeral_returns|]. intros _. apply bind_returns_ok; [apply writeColumnDefinitions_returns|]. intros _.
  apply returns_ok, definitions_end_returns.
Qed.

Lemma writeRowList_returns rows : returns_buffer (writeRowList stale rows).
Proof. induction rows as [|row rows IH]; cbn [writeRowList]; [auto with buffers|]. apply bind_returns; [apply write_ephemeral_returns|done]. Qed.

#[local] Hint Resolve writeFields_returns writeRowList_returns : buffers.

Lemma stream_returns w more v results : returns_buffer_ok (stream stale w more v results).
Proof.
  revert v. induction results as [|r results IH]; intros v; cbn [stream]; [auto with buffers|]. apply bind_returns_ok; [|done]. apply bind_returns_ok; [auto with buffers|].
  intros c. destruct (sendFinished v); [done|]. destruct (negb (callbackCalled v)); [|apply returns_ok, writeRowList_returns].
  case_match; [auto with buffers|]. apply bind_returns_ok; [auto with buffers|]. intros _. apply returns_ok, writeRowList_returns.
Qed.

(** A query whose connection goes on leaves it without a buffer. *)
Lemma execQuery_returns w more results err c r c' : idle c -> execQuery stale w more results err c = Ret (r, c') -> r <> connErr -> idle c'.
Proof.
  intros Hi H Hr. unfold execQuery in H. destruct (stream _ _ _ _ _ c) as [[[v|e] c1]|] eqn:Es; [|by injection H as <- <-|done].
  apply (stream_returns w more _ results c v c1 Hi) in Es. destruct (negb (callbackCalled v)).
  - destruct (writeErrorPacketFromError _ _ c1) as [[[u|e] c2]|] eqn:Ew; [|by injection H as <- <-|done]. injection H as <- <-.
    by apply (writeErrorPacketFromError_returns _ c1 _ _ Es) in Ew.
  - destruct err; [by injection H as <- <-|]. destruct (sendFinished v); [by injection H as <- <-|].
    destruct (writeEndResult _ _ _ _ _ _ c1) as [[[u|e] c2]|] eqn:Ew; [|by injection H as <- <-|done]. injection H as <- <-.
    by apply (writeEndResult_returns _ _ _ _ _ c1 _ _ Es) in Ew.
Qed.

Lemma report_returns e c r c' : idle c -> writeErrorPacketFromErrorAndLog stale e c = Ret (r, c') -> idle c'.
Proof.
  intros Hi H. unfold writeErrorPacketFromErrorAndLog in H. destruct (writeErrorPacketFromError stale e c) as [[[u|err] c1]|] eqn:Ew; [..|done]; injection H as <- <-;
    by apply (writeErrorPacketFromError_returns e c _ _ Hi) in Ew.
Qed.

Lemma handle_queries_returns handler sqls c c' : idle c -> handle_queries stale handler sqls c = Ret (true, c') -> idle c'.
Proof.
  revert c. induction sqls as [|sql sqls IH]; intros c Hi H; cbn [handle_queries] in H; [by injection H as <-|].
  destruct (execQuery _ _ _ _ _ c) as [[r c1]|] eqn:E; [|done]. destruct r; [|injection H as <-|done];
    (assert (idle c1) as Hi1 by (by apply (execQuery_returns _ _ _ _ c _ c1 Hi) in E)); [by apply (IH c1)|done].
Qed.

(** *** Rows of the binary protocol *)

Section Binary.
Context (ParseFloat32 ParseFloat64 : list byte -> option Z).

Lemma writeBinaryRow_returns fields row : returns_buffer (writeBinaryRow ParseFloat32 ParseFloat64 stale fields row).
Proof.
  intros c r c' [Hp Hb] H. unfold writeBinaryRow in H. destruct (values_length row) as [n|e]; [|by injection H as <- <-].
  unfold startEphemeralPacketWithHeader, mbind, io_bind, state, update, mret, io_ret in H. rewrite Hp in H. cbv beta iota in H. unfold outcome_bind in H.
  destruct (writeByte _ _ _) as [[d1 p1]|]; [|done]. destruct (write_zeroes _ _ _) as [[d2 p2]|]; [|done]. destruct (fill_values _ _ _ _ _) as [[d3|e]|]; [| |done].
  - unfold filled, update in H. destruct (writeEphemeralPacket _) as [[[u|e] c1]|] eqn:Ew; [..|done]; apply writeEphemeralPacket_returns in Ew; by injection H as <- <-.
  - unfold recycleWritePacket, mbind, io_bind, state in H. cbn in H. by injection H as <- <-.
Qed.

Lemma row_bind_returns {A B} (m : row_io A) (k : A -> row_io B) : returns_buffer_ok m -> (forall a, returns_buffer_ok (k a)) -> returns_buffer_ok (m ≫= k).
Proof.
  intros Hm Hk c b c' Hi. unfold mbind, row_bind. destruct (m c) as [[[a|e] c1]|] eqn:E; [|done..]. intros H. by apply (Hk a c1 b c'); [eapply Hm|].
Qed.

Lemma row_lift_returns {A} (m : io A) : returns_buffer_ok m -> returns_buffer_ok (row_lift m).
Proof. intros Hm c a c' Hi. unfold row_lift. destruct (m c) as [[[x|e] c1]|] eqn:E; [|done..]. intros [= <- <-]. by eapply Hm. Qed.

Lemma writeBinaryRowList_returns fields rows : returns_buffer_ok (writeBinaryRowList ParseFloat32 ParseFloat64 stale fields rows).
Proof.
  induction rows as [|row rows IH]; cbn [writeBinaryRowList]; [by intros c a c' Hi [= <- <-]|]. apply row_bind_returns; [|done]. apply returns_ok, writeBinaryRow_returns.
Qed.

Lemma binary_stream_returns v results : returns_buffer_ok (binary_stream ParseFloat32 ParseFloat64 stale v results).
Proof.
  revert v. induction results as [|r results IH]; intros v; cbn [binary_stream]; [by intros c a c' Hi [= <- <-]|]. apply row_bind_returns; [|done].
  apply row_bind_returns; [apply row_lift_returns; auto with buffers|]. intros c. destruct (sendFinished v); [done|].
  destruct (negb (callbackCalled v)); [|apply writeBinaryRowList_returns]. case_match; [apply row_lift_returns; auto with buffers|].
  apply row_bind_returns; [apply row_lift_returns; auto with buffers|]. intros _. apply writeBinaryRowList_returns.
Qed.

Lemma execute_answer_returns a c c' : idle c -> execute_answer ParseFloat32 ParseFloat64 stale a c = Ret (true, c') -> idle c'.
Proof.
  intros Hi H. unfold execute_answer in H. destruct (binary_stream _ _ _ _ _ c) as [[[v|e] c1]|] eqn:Es; [|done..].
  apply (binary_stream_returns _ _ c v c1 Hi) in Es. destruct (negb (callbackCalled v)); [by apply (report_returns _ c1 _ _ Es) in H|].
  destruct (a_err a); [done|]. destruct (sendFinished v); [by injection H as <-|].
  destruct (writeEndResult _ _ _ _ _ _ c1) as [[[u|e] c2]|] eqn:Ew; [|done..]. injection H as <-. by apply (writeEndResult_returns _ _ _ _ _ c1 _ _ Es) in Ew.
Qed.
End Binary.
End Writers.

(** ** Statements stay well formed *)

(** Changes of a statement that keep it well formed. *)
Definition same_statement (p p' : PrepareData) : Prop :=
  ParamsCount p' = ParamsCount p /\ StatementID p' = StatementID p /\ length (ParamsType p') = length (ParamsType p) /\ (BindVars p' = None -> BindVars p = None).

Lemma same_statement_refl p : same_statement p p.
Proof. by repeat split. Qed.

Lemma same_statement_trans p p1 p2 : same_statement p p1 -> same_statement p1 p2 -> same_statement p p2.
Proof. intros (H1 & H2 & H3 & H4) (K1 & K2 & K3 & K4). repeat split; [congruence..|auto]. Qed.

Lemma same_statement_wf p p' : same_statement p p' -> prepare_wf p -> prepare_wf p'.
Proof. intros (H1 & _ & H3 & H4) (K1 & K2 & K3). unfold prepare_wf, zlen in *. rewrite H1, H3. split; [exact K1|]. split; [exact K2|]. auto. Qed.

Lemma statements_insert pd id p p' : statements_wf pd -> pd !! id = Some p -> same_statement p p' -> statements_wf (<[id := p']> pd).
Proof.
  intros Hwf Hp Hs. apply map_Forall_insert_2; [|done]. destruct (Hwf id p Hp) as (H1 & H2). split; [by eapply same_statement_wf|].
  destruct Hs as (_ & -> & _). done.
Qed.

Lemma store_length {A} (l : list A) i x l' : store l i x = Ret l' -> length l' = length l.
Proof. unfold store. case_match; [|done]. intros [= <-]. apply length_insert. Qed.

Lemma read_types_same n i payload pos p p' r : read_types n i payload pos p = Ret (p', r) -> same_statement p p'.
Proof.
  revert i pos p. induction n as [|n IH]; intros i pos p; cbn [read_types]; [intros [= <- _]; apply same_statement_refl|].
  destruct (readByte payload pos) as [[[t pos1] ok1]|]; [|done]. cbn [mbind outcome_bind]. destruct ok1; cbn [negb]; [|intros [= <- _]; apply same_statement_refl].
  destruct (readByte payload pos1) as [[[f pos2] ok2]|]; [|done]. cbn [mbind outcome_bind]. destruct ok2; cbn [negb]; [|intros [= <- _]; apply same_statement_refl].
  destruct (MySQLToType _ _) as [ty|e]; [|intros [= <- _]; apply same_statement_refl].
  destruct (store (ParamsType p) i ty) as [types|] eqn:Es; [|done]. cbn [mbind outcome_bind]. intros H. apply IH in H. eapply same_statement_trans; [|exact H].
  apply store_length in Es. by repeat split.
Qed.

Section Floats.
Context (ParseFloat32 ParseFloat64 : list byte -> option Z) (float32_chars float64_chars : Z -> list byte).

Lemma read_args_same n i payload bm pos p p' r : read_args float32_chars float64_chars n i payload bm pos p = Ret (p', r) -> same_statement p p'.
Proof.
  revert i pos p. induction n as [|n IH]; intros i pos p; cbn [read_args]; [intros [= <- _]; apply same_statement_refl|].
  set (rest := mbind _ _). assert (rest = Ret (p', r) -> same_statement p p') as Hrest.
  { unfold rest. destruct (index bm (i / 8)) as [b|]; [|done]. cbn [mbind outcome_bind]. destruct (index (ParamsType p) i) as [t|]; [|done]. cbn [mbind outcome_bind].
    destruct (if 0 <? _ then _ else _) as [[[val pos1] ok]|]; [|done]. cbn [mbind outcome_bind]. destruct ok; cbn [negb]; [|intros [= <- _]; apply same_statement_refl].
    destruct (assign _ _ _) as [vars|]; [|done]. cbn [mbind outcome_bind]. intros H. apply IH in H. eapply same_statement_trans; [|exact H]. by repeat split. }
  destruct (bound p (parameterID i)) as [[v|]|]; [apply IH|exact Hrest..].
Qed.

Lemma execute_args_same payload pos p p' r : execute_args float32_chars float64_chars payload pos p = Ret (p', r) -> same_statement p p'.
Proof.
  unfold execute_args. destruct (readByte payload pos) as [[[cur pos1] ok1]|]; [|done]. cbn [mbind outcome_bind]. destruct ok1; cbn [negb]; [|intros [= <- _]; apply same_statement_refl].
  destruct (readUint32 payload pos1) as [[[it pos2] ok2]|]; [|done]. cbn [mbind outcome_bind]. destruct ok2; cbn [negb]; [|intros [= <- _]; apply same_statement_refl].
  destruct (negb (it =? 1)); [intros [= <- _]; apply same_statement_refl|].
  destruct (if 0 <? ParamsCount p then _ else _) as [[[bm pos3] ok3]|]; [|done]. cbn [mbind outcome_bind]. destruct ok3; cbn [negb]; [|intros [= <- _]; apply same_statement_refl].
  destruct (readByte payload pos3) as [[[fl pos4] ok4]|]; [|done]. cbn [mbind outcome_bind].
  destruct (if ok4 && _ then _ else _) as [[p1 r1]|] eqn:Et; [|done]. cbn [mbind outcome_bind].
  assert (same_statement p p1) as H1 by (destruct (ok4 && _); [by eapply read_types_same|injection Et as <- _; apply same_statement_refl]).
  destruct r1 as [pos5|e]; [|by intros [= <- _]]. destruct (read_args _ _ _ _ _ _ _ p1) as [[p2 r2]|] eqn:Ea; [|done]. cbn [mbind outcome_bind]. intros [= <- _].
  eapply same_statement_trans; [exact H1|]. by eapply read_args_same.
Qed.

Lemma parse_execute_wf pd data pd' x : statements_wf pd -> parseComStmtExecute float32_chars float64_chars pd data = Ret (pd', x) -> statements_wf pd'.
Proof.
  intros Hwf. unfold parseComStmtExecute. destruct (slice_from data 1) as [payload|]; [|done]. cbn [mbind outcome_bind].
  destruct (readUint32 payload 0) as [[[id pos] ok]|]; [|done]. cbn [mbind outcome_bind]. destruct ok; cbn [negb]; [|by intros [= <- _]].
  destruct (pd !! id) as [p|] eqn:Hp; [|by intros [= <- _]]. destruct (execute_args _ _ payload pos p) as [[p' r]|] eqn:Ea; [|done]. cbn [mbind outcome_bind].
  intros [= <- _]. eapply statements_insert; [done|done|]. by eapply execute_args_same.
Qed.
End Floats.

(** ** The invariant of a session

    Triples of commands: what holds of the session before, and of the result and the session after it, unless the
    command panics. *)

Definition ensures {A} (P : Session -> Prop) (m : cmd A) (Q : A -> Session -> Prop) : Prop :=
  forall s, P s -> match m s with Panic => True | Ret (a, s') => Q a s' end.

Create HintDb triples.

Lemma ensures_bind {A B} P (m : cmd A) Q (k : A -> cmd B) R : ensures P m Q -> (forall a, ensures (Q a) (k a) R) -> ensures P (m ≫= k) R.
Proof. intros Hm Hk s Hs. unfold mbind, cmd_bind. specialize (Hm s Hs). destruct (m s) as [[a s1]|]; [|done]. by apply Hk. Qed.

Lemma ensures_ret {A} (P : Session -> Prop) (a : A) (Q : A -> Session -> Prop) : (forall s, P s -> Q a s) -> ensures P (mret a) Q.
Proof. intros H s Hs. by apply H. Qed.

Lemma ensures_any {A} P (m : cmd A) : ensures P m (fun _ _ => True).
Proof. intros s Hs. by destruct (m s) as [[a s']|]. Qed.

Lemma ensures_session P : ensures P session (fun a s => a = s /\ P s).
Proof. by intros s Hs. Qed.

Lemma ensures_modify P f (Q : unit -> Session -> Prop) : (forall s, P s -> Q tt (f s)) -> ensures P (modify f) Q.
Proof. intros H s Hs. by apply H. Qed.

Lemma ensures_calc {A} P (o : outcome A) : ensures P (calc o) (fun a s => o = Ret a /\ P s).
Proof. intros s Hs. unfold calc. by destruct o. Qed.

Lemma ensures_crash {A} P (Q : A -> Session -> Prop) : ensures P crash Q.
Proof. by intros s Hs. Qed.

Lemma ensures_pre {A} (P P' : Session -> Prop) (m : cmd A) Q : ensures P m Q -> (forall s, P' s -> P s) -> ensures P' m Q.
Proof. intros H HP s Hs. by apply H, HP. Qed.

Lemma ensures_post {A} P (m : cmd A) (Q Q' : A -> Session -> Prop) : ensures P m Q -> (forall a s, Q a s -> Q' a s) -> ensures P m Q'.
Proof. intros H HQ s Hs. specialize (H s Hs). destruct (m s) as [[a s1]|]; [|done]. by apply HQ. Qed.

(** Between two commands, and when a packet has been read. *)
Definition session_ok (s : Session) : Prop := idle (s_conn s) /\ statements_wf (s_PrepareData s).
Definition reading (s : Session) : Prop := (exists c, has_read s c) /\ statements_wf (s_PrepareData s).

(** The connection goes on only in a good state. *)
Definition goes_on (b : bool) (s : Session) : Prop := b = true -> session_ok s.

Lemma ensures_recycled : ensures reading recycled (fun _ s => session_ok s).
Proof. intros s [[c Hc] Hwf]. rewrite (recycled_ok s c Hc). split; [exact (proj1 Hc)|exact Hwf]. Qed.

(** A packet is parsed and given back. *)
Lemma ensures_given_back (P : Prop) : ensures (fun s => P /\ reading s) recycled (fun _ s => session_ok s).
Proof. eapply ensures_pre; [apply ensures_recycled|by intros s [_ Hs]]. Qed.

Lemma ensures_on_conn {A} (m : Conn -> outcome (A * Conn)) (Q : A -> Prop) : (forall c a c', idle c -> m c = Ret (a, c') -> Q a -> idle c') ->
  ensures session_ok (on_conn m) (fun a s => Q a -> session_ok s).
Proof.
  intros H s [Hi Hwf]. unfold on_conn. destruct (m (s_conn s)) as [[a c']|] eqn:E; [|done]. intros HQ. split; [by eapply H|exact Hwf].
Qed.

Lemma ensures_writer {A} (m : io A) : returns_buffer m -> ensures session_ok (on_conn m) (fun _ s => session_ok s).
Proof. intros H s Hs. pose proof (ensures_on_conn m (fun _ => True) (fun c a c' Hi Hm _ => H c a c' Hi Hm) s Hs) as H1. destruct (on_conn m s) as [[a s']|]; [|done]. by apply H1. Qed.

Lemma ensures_written {A} (m : io A) : returns_buffer m -> ensures session_ok (written m) (fun _ s => session_ok s).
Proof. intros H. eapply ensures_bind; [by apply ensures_writer|]. intros r. by apply ensures_ret. Qed.

Lemma ensures_goes_on (m : cmd bool) P : ensures P m (fun _ s => session_ok s) -> ensures P m goes_on.
Proof. intros H. eapply ensures_post; [exact H|]. by intros a s Hs _. Qed.

Lemma ensures_on b : ensures session_ok (mret b) goes_on.
Proof. apply ensures_ret. by intros s Hs _. Qed.

Lemma ensures_off P : ensures P (mret false) goes_on.
Proof. by apply ensures_ret. Qed.

Section Invariant.
Context (ParseFloat32 ParseFloat64 : list byte -> option Z) (float32_chars float64_chars : Z -> list byte) (stale : Z -> list byte) (sv : Server).
Context (error_text : conn_error -> list byte).

Lemma ensures_report e : ensures session_ok (report stale e) (fun _ s => session_ok s).
Proof.
  intros s Hs. pose proof (ensures_on_conn (writeErrorPacketFromErrorAndLog stale e) (fun _ => True)) as H. 
  specialize (H (fun c a c' Hi Hm _ => report_returns stale e c a c' Hi Hm) s Hs). unfold report. destruct (on_conn _ s) as [[a s']|]; [|done]. by apply H.
Qed.

Lemma ensures_error code st message : ensures session_ok (writeErrorAndLog stale code st message) (fun _ s => session_ok s).
Proof. apply ensures_written, writeErrorPacket_returns. Qed.

(** A statement of a good session is replaced. *)
Lemma session_ok_insert s id p p' : session_ok s -> s_PrepareData s !! id = Some p -> same_statement p p' ->
  session_ok (set_prepared (<[id := p']> (s_PrepareData s)) s).
Proof. intros [Hi Hwf] Hp Hs. split; [exact Hi|]. by eapply statements_insert. Qed.

Lemma reset_keeps data : ensures reading (handleComStmtReset stale data) goes_on.
Proof.
  unfold handleComStmtReset. eapply ensures_bind; [apply ensures_calc|]. intros [id ok]. eapply ensures_bind; [apply ensures_given_back|].
  intros []. eapply (ensures_bind _ _ (fun _ s => session_ok s)).
  { case_match; [apply ensures_error|by apply ensures_ret]. }
  intros sent. destruct (negb sent); [by apply ensures_ret|]. eapply ensures_bind; [apply ensures_session|]. intros s0. cbv zeta.
  destruct (s_PrepareData s0 !! id) as [p|] eqn:Hp.
  - rewrite bool_decide_eq_false_2 by done. eapply (ensures_bind _ _ (fun a s => s0 = s /\ session_ok s)); [by apply ensures_ret|]. intros sent2.
    destruct (negb sent2); [by apply ensures_ret|]. eapply (ensures_bind _ _ (fun _ s => session_ok s)).
    + apply ensures_modify. intros s [E Hs]. rewrite E in Hp |- *. eapply session_ok_insert; [done|done|]. repeat split. cbn. by destruct (BindVars p).
    + intros []. apply ensures_goes_on, ensures_written, writeOKPacket_returns.
  - eapply (ensures_bind _ _ (fun _ _ => True)); [apply ensures_any|]. intros sent2. destruct (negb sent2); [by apply ensures_ret|apply ensures_crash].
Qed.

Lemma long_data_keeps data : ensures reading (handleComStmtSendLongData stale data) goes_on.
Proof.
  unfold handleComStmtSendLongData. eapply ensures_bind; [apply ensures_calc|]. intros [[[id paramID] chunk] ok].
  eapply ensures_bind; [apply ensures_given_back|]. intros [].
  eapply ensures_bind; [apply ensures_session|]. intros s0. cbv zeta.
  assert (forall e, ensures (fun s => s0 = s /\ session_ok s) (report stale e) goes_on) as Hreport
    by (intros e; apply ensures_goes_on; eapply ensures_pre; [apply ensures_report|by intros s [_ Hs]]).
  destruct ok; cbn [negb]; [|apply Hreport]. destruct (s_PrepareData s0 !! id) as [p|] eqn:Hp; [|apply Hreport].
  destruct (BindVars p) as [vars|] eqn:Hv; [|apply Hreport]. destruct ((ParamsCount p =? 0) || _); [apply Hreport|].
  assert (forall v, ensures (fun s => s0 = s /\ session_ok s)
    (modify (set_prepared (<[id := set_BindVars (Some (<[parameterID paramID := Some v]> vars)) p]> (s_PrepareData s0))) ≫= fun _ => mret true) goes_on) as Hset.
  { intros v. eapply (ensures_bind _ _ (fun _ s => session_ok s)); [|intros []; apply ensures_on]. apply ensures_modify. intros s [E Hs]. rewrite E in Hp |- *.
    eapply session_ok_insert; [done|done|]. by repeat split. }
  destruct (vars !! parameterID paramID) as [[v|]|]; [apply Hset|apply ensures_crash|apply Hset].
Qed.

Lemma close_keeps data : ensures reading (handleComStmtClose data) goes_on.
Proof.
  unfold handleComStmtClose. eapply ensures_bind; [apply ensures_calc|]. intros [id ok]. eapply ensures_bind; [apply ensures_given_back|]. intros [].
  eapply (ensures_bind _ _ (fun _ s => session_ok s)); [|intros []; apply ensures_on].
  destruct ok; [|by apply ensures_ret]. apply ensures_modify. intros s [Hi Hwf]. split; [exact Hi|]. by apply map_Forall_delete.
Qed.

Lemma execute_keeps handler data : ensures reading (handleComStmtExecute ParseFloat32 ParseFloat64 float32_chars float64_chars stale handler data) goes_on.
Proof.
  unfold handleComStmtExecute. eapply ensures_bind; [apply ensures_session|]. intros s0. eapply ensures_bind; [apply ensures_calc|]. intros [pd [[id cur] err]].
  eapply (ensures_bind _ _ (fun _ => reading)).
  { apply ensures_modify. intros s (Hpd & -> & Hr & Hwf). split; [exact Hr|]. by eapply parse_execute_wf. }
  intros []. eapply ensures_bind; [apply ensures_recycled|]. intros []. eapply (ensures_bind _ _ goes_on).
  - destruct err as [e|]; [apply ensures_goes_on, ensures_report|]. destruct (pd !! id) as [p|]; [|apply ensures_crash].
    apply (ensures_on_conn (execute_answer ParseFloat32 ParseFloat64 stale (h_execute handler p)) (fun b => b = true)).
    intros c a c' Hi Hm ->. by eapply execute_answer_returns.
  - intros kontinue. eapply (ensures_bind _ _ (fun _ => goes_on kontinue)); [|intros []; by apply ensures_ret].
    destruct (id =? 0); [by apply ensures_ret|]. eapply ensures_bind; [apply ensures_session|]. intros s1.
    destruct (s_PrepareData s1 !! id) as [p|] eqn:Hp; [|apply ensures_crash]. apply ensures_modify. intros s [E Hs] Hk. rewrite E in Hp |- *.
    eapply session_ok_insert; [by apply Hs|done|]. by repeat split.
Qed.

(** Without an error, the session is good. *)
Definition if_ok {A} (r : result conn_error A) (s : Session) : Prop := match r with Ok _ => session_ok s | Err _ => True end.

Lemma ensures_writer_ok {A} (m : io A) : returns_buffer_ok m -> ensures session_ok (on_conn m) if_ok.
Proof.
  intros H s [Hi Hwf]. unfold on_conn. destruct (m (s_conn s)) as [[[a|e] c']|] eqn:E; [|done..]. split; [by eapply H|exact Hwf].
Qed.

Lemma write_columns_keeps id fld i : ensures session_ok (write_columns stale id i fld) if_ok.
Proof.
  revert i. induction fld as [|f fld IH]; intros i; cbn [write_columns]; [by apply ensures_ret|]. eapply ensures_bind; [apply ensures_session|]. intros s0. cbv zeta.
  destruct (s_PrepareData s0 !! id) as [p|] eqn:Hp; [|apply ensures_crash]. eapply ensures_bind; [apply ensures_calc|]. intros names.
  eapply (ensures_bind _ _ (fun _ s => session_ok s)).
  { apply ensures_modify. intros s (_ & E & Hs). rewrite E in Hp |- *. eapply session_ok_insert; [done|done|]. by repeat split. }
  intros []. eapply ensures_bind; [apply ensures_writer_ok, writeColumnDefinition_returns|]. intros [u|e]; [apply IH|by apply ensures_ret].
Qed.

Lemma writePrepare_keeps fld id : ensures session_ok (writePrepare stale fld id) if_ok.
Proof.
  unfold writePrepare. eapply ensures_bind; [apply ensures_session|]. intros s0. destruct (s_PrepareData s0 !! id) as [p|] eqn:Hp; [|apply ensures_crash]. cbv zeta.
  eapply (ensures_bind _ _ (fun _ s => session_ok s)).
  { apply ensures_modify. intros s [E Hs]. rewrite E in Hp |- *. eapply session_ok_insert; [done|done|]. case_match; by repeat split. }
  intros []. eapply ensures_bind; [apply ensures_writer_ok|].
  { apply bind_returns_ok; [apply returns_ok, write_ephemeral_returns|]. intros _. case_match; [|auto with buffers].
    apply bind_returns_ok; [apply writeColumnDefinitions_returns|]. intros _. apply returns_ok, definitions_end_returns. }
  intros [u|e]; [|by apply ensures_ret]. eapply ensures_bind; [apply write_columns_keeps|]. intros [u2|e]; [|by apply ensures_ret].
  case_match; [apply ensures_writer_ok, returns_ok, definitions_end_returns|by apply ensures_ret].
Qed.

Lemma prepare_keeps handler data : ensures reading (handleComPrepare stale handler data) goes_on.
Proof.
  unfold handleComPrepare. eapply ensures_bind; [apply ensures_calc|]. intros query. eapply ensures_bind; [apply ensures_given_back|]. intros [].
  assert (forall e P, (forall s, P s -> session_ok s) -> ensures P (report stale e) goes_on) as Hreport
    by (intros e P HP; apply ensures_goes_on; eapply ensures_pre; [apply ensures_report|done]).
  assert (forall stmt P, (forall s, P s -> session_ok s) -> ensures P (prepare_statement stale handler query stmt) goes_on) as Hprepare.
  { intros stmt P HP. unfold prepare_statement. eapply (ensures_bind _ _ (fun _ s => session_ok s)); [by apply ensures_modify|]. intros []. cbv zeta.
    eapply (ensures_bind _ _ (fun _ s => session_ok s)); [case_match; [by apply ensures_ret|apply ensures_report]|]. intros sent.
    destruct (negb sent); [apply ensures_off|]. eapply ensures_bind; [apply ensures_session|]. intros s0.
    eapply (ensures_bind _ _ (fun _ s => session_ok s)).
    - apply ensures_modify. intros s (-> & Hi & Hwf). split; [exact Hi|]. apply map_Forall_insert_2; [|exact Hwf].
      pose proof (count_params_range (match h_parse handler query with Ok names => names | Err _ => [] end)) as Hn.
      destruct (new_prepare_wf (s_StatementID s) stmt _ Hn) as (Hw & Hid & _). by split.
    - intros []. destruct (h_prepare handler stmt _) as [fld|e]; [|by apply Hreport]. eapply ensures_bind; [apply writePrepare_keeps|].
      intros [u|e]; [apply ensures_on|apply ensures_off]. }
  eapply ensures_bind; [apply ensures_session|]. intros s0. assert (forall s, s0 = s /\ session_ok s -> session_ok s) as HP by (by intros s [_ Hs]).
  case_match; [|by apply Hprepare]. case_match; [|by apply Hreport]. repeat case_match; by apply Hprepare || by apply Hreport.
Qed.

(** *** All commands *)

Lemma ok_or_error_keeps : ensures session_ok (ok_or_error stale error_text) (fun _ s => session_ok s).
Proof.
  unfold ok_or_error. eapply ensures_bind; [apply ensures_writer, writeOKPacket_returns|]. intros [u|e]; [by apply ensures_ret|].
  eapply ensures_bind; [apply ensures_writer, writeErrorPacketFromError_returns|]. intros r. by apply ensures_ret.
Qed.

Lemma set_option_keeps data : ensures reading (handleComSetOption stale data) goes_on.
Proof.
  unfold handleComSetOption. eapply ensures_bind; [apply ensures_calc|]. intros [op ok]. eapply ensures_bind; [apply ensures_given_back|]. intros []. cbv zeta.
  destruct ok; [|apply ensures_goes_on, ensures_error]. eapply (ensures_bind _ _ (fun _ s => session_ok s)).
  - assert (forall f, (forall c, idle c -> idle (f c)) -> ensures session_ok (on_conn (update f) ≫= fun _ => mret true) (fun _ s => session_ok s)) as Hup.
    { intros f Hf. eapply ensures_bind; [apply ensures_writer; intros c r c' Hi [= <- <-]; by apply Hf|]. intros r. by apply ensures_ret. }
    case_match; [by apply Hup|]. case_match; [by apply Hup|apply ensures_error].
  - intros sent. destruct (negb sent); [apply ensures_off|]. apply ensures_goes_on, ensures_written, writeEndResult_returns.
Qed.

Lemma init_db_keeps data : ensures reading (handleComInitDB stale sv data) goes_on.
Proof.
  unfold handleComInitDB. eapply ensures_bind; [apply ensures_calc|]. intros db. eapply ensures_bind; [apply ensures_given_back|]. intros []. cbv zeta.
  eapply ensures_bind; [apply (ensures_on_conn _ (fun r => r <> connErr)); intros c a c' Hi Hm Ha; by eapply execQuery_returns|].
  intros r. apply ensures_ret. intros s Hs Hr. apply Hs. by intros ->.
Qed.

Lemma query_keeps split handler data : ensures reading (on_conn (handleComQuery stale split handler data)) goes_on.
Proof.
  intros s [[c [Hi [buf E]]] Hwf]. unfold on_conn. rewrite E. destruct (handleComQuery _ _ _ _ _) as [[b c']|] eqn:H; [|done]. intros ->. split; [|exact Hwf]. cbn.
  unfold handleComQuery in H. destruct (parseComQuery data) as [query|]; [|done].
  erewrite io_bind_ok in H by (by apply pure_ok). erewrite io_bind_ok in H by (by apply recycleReadPacket_ok). cbv [mret io_ret] in H. cbv zeta beta iota in H.
  destruct (if negb _ then split query else Ok [query]) as [[|sql sqls]|e].
  - by apply (report_returns stale _ c _ c' Hi) in H.
  - by apply (handle_queries_returns stale handler (sql :: sqls) c c' Hi) in H.
  - by apply (report_returns stale _ c _ c' Hi) in H.
Qed.

(** A replica's handler writes whole packets. *)
Definition dumps_whole (sv : Server) : Prop :=
  (forall file pos c b c', idle c -> sv_dump sv file pos c = Ret (b, c') -> idle c') /\
  (forall file pos position c b c', idle c -> sv_dump_gtid sv file pos position c = Ret (b, c') -> idle c').

Lemma replica_keeps data : dumps_whole sv ->
  ensures reading (handleComRegisterReplica stale sv error_text data) goes_on /\ ensures reading (handleComBinlogDump sv data) goes_on /\
  ensures reading (handleComBinlogDumpGTID sv data) goes_on.
Proof.
  intros [H1 H2]. split; [|split].
  - unfold handleComRegisterReplica. eapply ensures_bind; [apply ensures_recycled|]. intros []. eapply ensures_bind; [apply ensures_calc|].
    intros [[[[host port] user] password]|e]; [|apply ensures_off]. destruct (sv_register sv host port user password) as [e|].
    + eapply (ensures_bind _ _ (fun _ _ => True)); [apply ensures_any|]. intros r. apply ensures_off.
    + eapply ensures_bind; [eapply ensures_pre; [apply ok_or_error_keeps|by intros s [_ Hs]]|]. intros []. apply ensures_on.
  - unfold handleComBinlogDump. eapply ensures_bind; [apply ensures_recycled|]. intros []. eapply ensures_bind; [apply ensures_calc|].
    intros [[file pos]|e]; [|apply ensures_off]. eapply ensures_pre; [apply (ensures_on_conn _ (fun b => b = true)); eauto|by intros s [_ Hs]].
  - unfold handleComBinlogDumpGTID. eapply ensures_bind; [apply ensures_recycled|]. intros []. eapply ensures_bind; [apply ensures_calc|].
    intros [[[file pos] position]|e]; [|apply ensures_off]. eapply ensures_pre; [apply (ensures_on_conn _ (fun b => b = true)); eauto|by intros s [_ Hs]].
Qed.

Lemma dispatch_keeps command data : dumps_whole sv ->
  ensures reading (dispatch ParseFloat32 ParseFloat64 float32_chars float64_chars stale sv error_text command data) goes_on.
Proof.
  intros Hd. destruct (replica_keeps data Hd) as (Hreg & Hdump & Hgtid). unfold dispatch. cbv zeta.
  case_match; [eapply ensures_bind; [apply ensures_recycled|intros []; apply ensures_off]|].
  case_match; [apply init_db_keeps|]. case_match; [apply query_keeps|]. case_match.
  { unfold handleComPing. eapply ensures_bind; [apply ensures_recycled|]. intros []. case_match; [apply ensures_goes_on, ensures_error|].
    eapply ensures_bind; [apply ensures_session|]. intros s0. apply ensures_goes_on. eapply ensures_pre; [apply ensures_written, writeOKPacket_returns|by intros s [_ Hs]]. }
  case_match; [apply set_option_keeps|]. case_match; [apply prepare_keeps|]. case_match; [apply execute_keeps|]. case_match; [apply long_data_keeps|].
  case_match; [apply close_keeps|]. case_match; [apply reset_keeps|]. case_match.
  { unfold handleComResetConnection. eapply (ensures_bind _ _ (fun _ s => session_ok s)); [|intros []; apply ensures_on].
    eapply ensures_bind; [apply ensures_recycled|]. intros []. eapply (ensures_bind _ _ (fun _ s => session_ok s)); [|intros []; apply ok_or_error_keeps].
    apply ensures_modify. intros s [Hi _]. split; [exact Hi|apply map_Forall_empty]. }
  case_match; [done|]. case_match; [done|]. case_match; [done|].
  unfold unknown_command. eapply ensures_bind; [apply ensures_recycled|]. intros []. apply ensures_goes_on, ensures_error.
Qed.

(** *** Reading a command *)

Definition keeps_policy {A} (m : io A) : Prop := forall c a c', m c = Ret (Ok a, c') -> currentEphemeralPolicy c' = currentEphemeralPolicy c.

Lemma ReadFull_policy n : keeps_policy (ReadFull n).
Proof. intros c a c'. unfold ReadFull. case_match; [|done]. by intros [= <- <-]. Qed.

Lemma readHeaderFrom_policy : keeps_policy readHeaderFrom.
Proof.
  intros c n c' H. unfold readHeaderFrom in H. apply io_bind_inv in H as (hdr & c1 & H1%wrapped_inv & H). apply ReadFull_policy in H1. rewrite <- H1.
  do 4 (apply io_bind_inv in H as (? & ? & [_ ->]%pure_inv & H)). apply io_bind_inv in H as (? & ? & [= <- <-] & H). destruct (negb _); [discriminate|].
  apply io_bind_inv in H as (? & ? & [= <- <-] & [= <- <-]). done.
Qed.

Lemma readOnePacket_policy : keeps_policy readOnePacket.
Proof.
  intros c d c' H. unfold readOnePacket in H. apply io_bind_inv in H as (n & c1 & H1%readHeaderFrom_policy & H). rewrite <- H1.
  case_match; [by injection H as <- <-|]. apply wrapped_inv in H. by apply ReadFull_policy in H.
Qed.

Lemma read_rest_policy data : keeps_policy (read_rest data).
Proof.
  intros c. revert data. induction c as [c IH] using (well_founded_induction (well_founded_ltof _ (fun c => length (input c)))).
  intros data a c' H. rewrite read_rest_eq in H. destruct (readOnePacket c) as [[[next|e] c1]|] eqn:E; [|done..]. pose proof (readOnePacket_policy _ _ _ E) as <-.
  case_match; [by injection H as <- <-|]. case_match; [by injection H as <- <-|]. by apply IH in H; [|apply readOnePacket_shrinks in E].
Qed.

Lemma readEphemeralPacket_policy c data c' : readEphemeralPacket c = Ret (Ok data, c') -> currentEphemeralPolicy c' = ephemeralRead.
Proof.
  intros H. unfold readEphemeralPacket, ephemeral_packet in H. apply io_bind_inv in H as (? & ? & [= <- <-] & H). destruct (currentEphemeralPolicy c); [|done..].
  apply io_bind_inv in H as (n & c1 & _ & H). apply io_bind_inv in H as (? & c2 & [= <- <-] & H). case_match; [by injection H as <- <-|]. case_match.
  - apply io_bind_inv in H as (? & c3 & [= <- <-] & H). apply io_bind_inv in H as (d & c4 & _ & H). apply io_bind_inv in H as (? & c5 & [= <- <-] & [= <- <-]). done.
  - apply io_bind_inv in H as (d & c3 & H3%wrapped_inv & H). apply ReadFull_policy in H3. apply read_rest_policy in H. by rewrite H, H3.
Qed.

Lemma next_keeps : dumps_whole sv -> ensures session_ok (handleNextCommand ParseFloat32 ParseFloat64 float32_chars float64_chars stale sv error_text) goes_on.
Proof.
  intros Hd. unfold handleNextCommand. eapply ensures_bind; [apply ensures_writer; by intros c r c' Hi [= <- <-]|]. intros r0.
  eapply (ensures_bind _ _ (fun r s => match r with Ok _ => reading s | Err _ => True end)).
  - intros s [Hi Hwf]. unfold on_conn. destruct (readEphemeralPacket (s_conn s)) as [[[data|e] c']|] eqn:E; [|done..]. apply readEphemeralPacket_policy in E.
    split; [|exact Hwf]. exists (set_ephemeral ephemeralUnused None c'). split; [done|]. exists (currentEphemeralBuffer c'). destruct c'. cbn in *. by subst.
  - intros [[|command data]|e]; [apply ensures_off|by apply dispatch_keeps|apply ensures_off].
Qed.

(** The sessions of a server whose client sends one command after the other. *)
Inductive serves : Session -> Session -> Prop :=
| serves_start s : serves s s
| serves_next s s1 s2 : serves s s1 ->
    handleNextCommand ParseFloat32 ParseFloat64 float32_chars float64_chars stale sv error_text s1 = Ret (true, s2) -> serves s s2.

(** C6: between two commands a session is in order.  Whatever packets a client sends, malformed ones and errors of the handler included, as long as the
    connection goes on no buffer of the pool is held, so that the next command is read without a panic, each
    statement is kept under its own identifier with one type for each of its parameters, and only statements without
    parameters lack the map of variables. *)
Theorem Session_invariant (s s' : Session) : dumps_whole sv -> idle (s_conn s) -> s_PrepareData s = ∅ -> serves s s' ->
  idle (s_conn s') /\ forall id p, s_PrepareData s' !! id = Some p ->
    StatementID p = id /\ Z.of_nat (length (ParamsType p)) = ParamsCount p /\ 0 <= ParamsCount p < 2 ^ 16 /\ (BindVars p = None -> ParamsCount p = 0).
Proof.
  intros Hd Hi Hempty Hs. assert (session_ok s') as [Hi' Hwf].
  { induction Hs as [s|s s1 s2 _ IH H]; [split; [done|rewrite Hempty; apply map_Forall_empty]|].
    pose proof (next_keeps Hd s1 (IH Hi Hempty)) as Hn. rewrite H in Hn. by apply Hn. }
  split; [done|]. intros id p Hp. destruct (Hwf id p Hp) as ((H1 & H2 & H3) & H4). done.
Qed.
End Invariant.

(** A server without replicas, and a client that closes a statement. *)
Definition sample_server : Server :=
  {| sv_handler := sample_handler; sv_shutdown := false; sv_register := fun _ _ _ _ => None; sv_dump := fun _ _ c => Ret (true, c);
     sv_dump_gtid := fun _ _ _ c => Ret (true, c) |}.

Definition closing_session : Session :=
  {| s_conn := set_input ([z2b 5; z2b 0; z2b 0; z2b 0] ++ [z2b ComStmtClose] ++ binary.le_bytes 4 3) new_conn; s_ConnectionID := 1; s_StatementID := 0;
     s_PrepareData := ∅ |}.

Example Session_invariant_witness :
  exists s', handleNextCommand no_float no_float no_chars no_chars (fun _ => bs "stale") sample_server (fun _ => bs "broken") closing_session = Ret (true, s') /\
    input (s_conn s') = [] /\ idle (s_conn s').
Proof.
  eexists. assert (handleNextCommand no_float no_float no_chars no_chars (fun _ => bs "stale") sample_server (fun _ => bs "broken") closing_session =
    Ret (true, set_conn (set_sequence 1 (set_input [] new_conn)) closing_session)) as H by (by vm_compute).
  split; [exact H|]. split; [reflexivity|].
  exact (proj1 (Session_invariant no_float no_float no_chars no_chars (fun _ => bs "stale") sample_server (fun _ => bs "broken") closing_session _
    ltac:(split; [by intros ? ? ? ? ? ? [= <- <-]|by intros ? ? ? ? ? ? ? [= <- <-]]) ltac:(by split) eq_refl (serves_next _ _ _ _ _ _ _ _ _ _ (serves_start _ _ _ _ _ _ _ _) H))).
Defined.
