(* ===== verification/Keywords.v ===== *)
(** * Keywords of SQL

    [go/vt/sqlparser/keywords.go]: the table of keywords and the hash table in which the tokenizer looks words up without regard to their case.
    The theorem is that the hash table finds a word exactly when it is in the list. *)

From S2P Require Import Prelude GoStd.

(** The token of words that are reserved for later; like the numbers of the other tokens, from [sql.go]. *)
Definition UNUSED : Z := 57879.

(** ** The code *)

Record keyword := { kw_name : list byte; kw_id : Z }.

(** [c += 'a' - 'A'], for the letters it is done for. *)
Definition lower (c : byte) : byte := if (65 <=? b2z c) && (b2z c <=? 90) then z2b (b2z c + 32) else c.

Fixpoint match_loop (input expected : list byte) : bool :=
  match input, expected with
  | c :: input, e :: expected => bool_decide (e = lower c) && match_loop input expected
  | _, _ => true
  end.

Definition keywordASCIIMatch (input expected : list byte) : bool :=
  (zlen input =? zlen expected) && match_loop input expected.

Definition offset64 : Z := 14695981039346656037.
Definition prime64 : Z := 1099511628211.

Definition fnv1aIstr (h : Z) (s : list byte) : Z :=
  fold_left (fun h c => uint64 (Z.lxor h (b2z (lower c)) * prime64)) s h.

(** [keywords]; the numbers are the tokens of [sql.go]. *)
Definition keyword_rows : list (string * Z) := [
  ("_armscii8", 57504); ("_ascii", 57505); ("_big5", 57506); ("_binary", 57507); ("_cp1250", 57508); ("_cp1251", 57509);
  ("_cp1256", 57510); ("_cp1257", 57511); ("_cp850", 57512); ("_cp852", 57513); ("_cp866", 57514); ("_cp932", 57515);
  ("_dec8", 57516); ("_eucjpms", 57517); ("_euckr", 57518); ("_gb18030", 57519); ("_gb2312", 57520); ("_gbk", 57521);
  ("_geostd8", 57522); ("_greek", 57523); ("_hebrew", 57524); ("_hp8", 57525); ("_keybcs2", 57526); ("_koi8r", 57527);
  ("_koi8u", 57528); ("_latin1", 57529); ("_latin2", 57530); ("_latin5", 57531); ("_latin7", 57532); ("_macce", 57533);
  ("_macroman", 57534); ("_sjis", 57535); ("_swe7", 57536); ("_tis620", 57537); ("_ucs2", 57538); ("_ujis", 57539);
  ("_utf16", 57540); ("_utf16le", 57541); ("_utf32", 57542); ("_utf8", 57543); ("_utf8mb4", 57544); ("_utf8mb3", 57545);
  ("accessible", 57879); ("action", 57577); ("add", 57555); ("after", 57626); ("against", 57871); ("algorithm", 57424);
  ("all", 57366); ("alter", 57551); ("always", 57384); ("analyze", 57554); ("and", 57480); ("array", 57880); ("as", 57368);
  ("asc", 57370); ("ascii", 57723); ("asensitive", 57879); ("auto_increment", 57726); ("autoextend_size", 57907);
  ("avg", 57842); ("avg_row_length", 58000); ("before", 57879); ("begin", 57667); ("between", 57482); ("bigint", 57683);
  ("binary", 57503); ("bit", 57677); ("bit_and", 57847); ("bit_or", 57848); ("bit_xor", 57849); ("blob", 57706);
  ("bool", 57698); ("boolean", 57872); ("both", 57469); ("by", 57362); ("byte", 57881); ("call", 57380); ("cancel", 57651);
  ("pause", 57660); ("resume", 57661); ("cascade", 57578); ("cascaded", 57614); ("case", 57483); ("cast", 57814);
  ("channel", 57994); ("change", 57557); ("char", 57696); ("character", 57699); ("charset", 57474); ("check", 57575);
  ("fast", 57778); ("quick", 57779); ("changed", 57780); ("medium", 57781); ("checksum", 58002); ("cleanup", 57655);
  ("coalesce", 57592); ("code", 57731); ("collate", 57502); ("collation", 57732); ("column", 57571); ("column_format", 57910);
  ("columns", 57733); ("comment", 57440); ("committed", 57775); ("commit", 57670); ("compact", 58015); ("complete", 57654);
  ("compressed", 58013); ("compression", 57443); ("condition", 57879); ("connection", 58001); ("consistent", 57675);
  ("constraint", 57579); ("continue", 57879); ("convert", 57813); ("copy", 57422); ("count", 57841); ("cume_dist", 57882);
  ("substr", 57816); ("subpartition", 58027); ("subpartitions", 58028); ("substring", 57816); ("srid", 57960);
  ("create", 57550); ("cross", 57415); ("csv", 57394); ("current", 57997); ("current_date", 57784); ("current_time", 57786);
  ("current_timestamp", 57782); ("current_user", 57789); ("cursor", 57879); ("data", 57387); ("database", 57783);
  ("databases", 57734); ("day", 57793); ("day_hour", 57794); ("day_microsecond", 57795); ("day_minute", 57796);
  ("day_second", 57797); ("date", 57587); ("datetime", 57694); ("deallocate", 57559); ("dec", 57879); ("decimal", 57690);
  ("declare", 57879); ("default", 57374); ("definer", 57615); ("delay_key_write", 58003); ("delayed", 57879); ("delete", 57356);
  ("dense_rank", 57884); ("desc", 57371); ("describe", 57585); ("deterministic", 57879); ("directory", 57608);
  ("disable", 57465); ("discard", 57462); ("disk", 58022); ("distinct", 57367); ("distinctrow", 57381); ("div", 57499);
  ("double", 57686); ("do", 57379); ("drop", 57552); ("dumpfile", 57393); ("duplicate", 57373); ("dynamic", 58012);
  ("each", 57879); ("else", 57486); ("elseif", 57879); ("empty", 57885); ("enable", 57464); ("enclosed", 57392);
  ("encryption", 58004); ("end", 57487); ("enforced", 57913); ("engine", 58005); ("engine_attribute", 57914);
  ("engines", 57735); ("enum", 57713); ("error", 57988); ("escape", 57588); ("escaped", 57391); ("event", 57736);
  ("exchange", 57593); ("exclusive", 57427); ("execute", 57598); ("exists", 57369); ("exit", 57879); ("explain", 57586);
  ("expansion", 57876); ("expire", 57658); ("export", 57996); ("extended", 57737); ("extract", 57457); ("extractvalue", 57861);
  ("false", 57460); ("fetch", 57879); ("fields", 57738); ("first", 57625); ("first_value", 57887); ("fixed", 58011);
  ("float", 57687); ("float4", 57688); ("float8", 57689); ("flush", 57556); ("following", 57916); ("for", 57365);
  ("force", 57418); ("foreign", 57580); ("format", 57975); ("format_bytes", 57967); ("format_pico_time", 57968);
  ("from", 57357); ("full", 57739); ("fulltext", 57573); ("function", 57740); ("general", 57989); ("generated", 57383);
  ("geometry", 57714); ("geomcollection", 57719); ("geometrycollection", 57719); ("get", 57879); ("get_lock", 57863);
  ("global", 57767); ("gtid_executed", 57741); ("gtid_subset", 57971); ("gtid_subtract", 57972); ("grant", 57879);
  ("group", 57359); ("grouping", 57879); ("groups", 57879); ("group_concat", 57846); ("hash", 58029); ("having", 57360);
  ("header", 57395); ("high_priority", 57879); ("hosts", 57990); ("hour", 57798); ("hour_microsecond", 57799);
  ("hour_minute", 57800); ("hour_second", 57801); ("if", 57569); ("ignore", 57568); ("import", 57463); ("in", 57496);
  ("index", 57565); ("indexes", 57576); ("infile", 57879); ("inout", 57879); ("inner", 57413); ("inplace", 57421);
  ("insensitive", 57879); ("insert", 57354); ("insert_method", 58006); ("instant", 57423); ("invisible", 57921); ("int", 57681);
  ("int1", 57879); ("int2", 57879); ("int3", 57879); ("int4", 57879); ("int8", 57879); ("integer", 57682); ("interval", 57546);
  ("into", 57372); ("io_after_gtids", 57879); ("is", 57492); ("is_free_lock", 57866); ("is_used_lock", 57867);
  ("isolation", 57769); ("iterate", 57879); ("invoker", 57623); ("join", 57409); ("json", 57710); ("json_array", 57824);
  ("json_array_append", 57831); ("json_array_insert", 57832); ("json_contains", 57450); ("json_contains_path", 57451);
  ("json_depth", 57827); ("json_extract", 57452); ("json_insert", 57833); ("json_length", 57829); ("json_keys", 57453);
  ("json_merge", 57834); ("json_merge_patch", 57835); ("json_merge_preserve", 57836); ("json_object", 57825);
  ("json_overlaps", 57454); ("json_pretty", 57447); ("json_remove", 57837); ("json_replace", 57838); ("json_search", 57455);
  ("json_schema_valid", 57711); ("json_schema_validation_report", 57712); ("json_set", 57839); ("json_storage_free", 57449);
  ("json_storage_size", 57448); ("json_quote", 57826); ("json_table", 57890); ("json_type", 57828); ("json_value", 57456);
  ("json_valid", 57830); ("json_unquote", 57840); ("key", 57476); ("keys", 57378); ("keyspaces", 57742);
  ("lastseengtid", 57762); ("failpoints", 57763); ("schema_migration", 57662); ("key_block_size", 57574); ("kill", 57984);
  ("reload", 57560); ("users", 57985); ("lag", 57891); ("language", 57873); ("last", 57627); ("last_value", 57892);
  ("last_insert_id", 57401); ("lateral", 57893); ("launch", 57653); ("lead", 57894); ("leading", 57470); ("leave", 57879);
  ("left", 57411); ("less", 57602); ("level", 57770); ("like", 57493); ("limit", 57363); ("linear", 58024); ("lines", 57389);
  ("linestring", 57716); ("list", 58026); ("load", 57388); ("local", 57982); ("localtime", 57787); ("localtimestamp", 57788);
  ("locate", 57868); ("lock", 57376); ("logs", 57987); ("long", 57879); ("longblob", 57709); ("longtext", 57705);
  ("loop", 57879); ("low_priority", 57983); ("ltrim", 57821); ("min", 57844); ("manifest", 57396); ("master_bind", 57879);
  ("match", 57870); ("max", 57843); ("max_rows", 58007); ("maxvalue", 57599); ("mediumblob", 57708); ("mediumint", 57680);
  ("mediumtext", 57704); ("memory", 58021); ("member", 57346); ("merge", 57620); ("microsecond", 57802); ("middleint", 57879);
  ("min_rows", 58008); ("minute", 57803); ("minute_microsecond", 57804); ("minute_second", 57805); ("mod", 57500);
  ("mode", 57405); ("modify", 57558); ("modifies", 57879); ("multilinestring", 57721); ("multipoint", 57720);
  ("multipolygon", 57722); ("month", 57806); ("name", 57609); ("names", 57766); ("natural", 57416); ("nchar", 57701);
  ("next", 57402); ("nested", 57927); ("no", 57581); ("none", 57425); ("not", 57481); ("now", 57785);
  ("no_write_to_binlog", 57986); ("nth_value", 57895); ("ntile", 57896); ("null", 57458); ("nulls", 57930); ("numeric", 57691);
  ("of", 57897); ("off", 57461); ("offset", 57364); ("on", 57419); ("only", 57773); ("open", 57743); ("optimize", 57590);
  ("optimizer_costs", 57991); ("option", 57616); ("optionally", 57399); ("or", 57478); ("order", 57361); ("ordinality", 57934);
  ("out", 57879); ("outer", 57414); ("outfile", 57385); ("over", 57898); ("overwrite", 57397); ("pack_keys", 58009);
  ("parser", 57382); ("partial", 57937); ("partition", 57600); ("partitions", 58023); ("partitioning", 57595);
  ("password", 58010); ("path", 57938); ("percent_rank", 57899); ("plan", 57981); ("plugins", 57744); ("point", 57715);
  ("polygon", 57717); ("position", 57869); ("preceding", 57941); ("precision", 57879); ("prepare", 57597); ("primary", 57570);
  ("privileges", 57745); ("processlist", 57746); ("procedure", 57604); ("ps_current_thread_id", 57969); ("ps_thread_id", 57970);
  ("queries", 57562); ("query", 57875); ("range", 58025); ("quarter", 57807); ("rank", 57900); ("ratio", 57659);
  ("read", 57771); ("reads", 57879); ("read_write", 57879); ("real", 57685); ("rebuild", 57594); ("recursive", 57901);
  ("redundant", 58014); ("references", 57582); ("regexp", 57494); ("regexp_instr", 57857); ("regexp_like", 57858);
  ("regexp_replace", 57859); ("regexp_substr", 57860); ("relay", 57995); ("release", 57673); ("release_all_locks", 57865);
  ("release_lock", 57864); ("remove", 57596); ("rename", 57553); ("reorganize", 57601); ("repair", 57589); ("repeat", 57879);
  ("repeatable", 57774); ("replace", 57812); ("require", 57879); ("resignal", 57879); ("respect", 57948); ("restrict", 57583);
  ("return", 57879); ("returning", 57966); ("retry", 57652); ("revert", 57561); ("revoke", 57879); ("right", 57412);
  ("rlike", 57495); ("rollback", 57671); ("row", 57998); ("row_format", 58016); ("row_number", 57902); ("rows", 57999);
  ("rtrim", 57822); ("s3", 57386); ("savepoint", 57672); ("schema", 57563); ("schemas", 57747); ("second", 57808);
  ("second_microsecond", 57809); ("secondary_engine_attribute", 57955); ("security", 57624); ("select", 57351);
  ("sensitive", 57879); ("separator", 57817); ("sequence", 57619); ("serializable", 57777); ("session", 57768); ("set", 57375);
  ("share", 57404); ("shared", 57426); ("show", 57584); ("signal", 57879); ("signed", 57728); ("simple", 57958);
  ("slow", 57993); ("smallint", 57679); ("snapshot", 57676); ("spatial", 57572); ("specific", 57879); ("sql", 57617);
  ("sqlexception", 57879); ("sqlstate", 57879); ("sqlwarning", 57879); ("sql_big_result", 57879); ("sql_cache", 57407);
  ("sql_calc_found_rows", 57408); ("sql_no_cache", 57406); ("sql_small_result", 57879); ("ssl", 57879); ("start", 57668);
  ("starting", 57398); ("stats_auto_recalc", 58017); ("stats_persistent", 58018); ("stats_sample_pages", 58019);
  ("status", 57611); ("std", 57850); ("stddev", 57851); ("stddev_pop", 57852); ("stddev_samp", 57853); ("storage", 58020);
  ("stored", 57468); ("straight_join", 57410); ("stream", 57352); ("sum", 57845); ("system", 57879); ("table", 57564);
  ("tables", 57748); ("tablespace", 57466); ("temporary", 57621); ("temptable", 57622); ("terminated", 57390); ("text", 57702);
  ("than", 57603); ("then", 57485); ("throttle", 57656); ("time", 57692); ("timestamp", 57693); ("timestampadd", 57818);
  ("timestampdiff", 57819); ("tinyblob", 57707); ("tinyint", 57678); ("tinytext", 57703); ("to", 57567); ("trailing", 57471);
  ("transaction", 57669); ("tree", 57976); ("traditional", 57978); ("trigger", 57605); ("triggers", 57749); ("true", 57459);
  ("truncate", 57591); ("trim", 57823); ("unbounded", 57963); ("uncommitted", 57776); ("undefined", 57618); ("undo", 57879);
  ("unicode", 57724); ("union", 57350); ("unique", 57475); ("unlock", 57377); ("unsigned", 57729); ("unthrottle", 57657);
  ("update", 57355); ("updatexml", 57862); ("upgrade", 57610); ("usage", 57879); ("use", 57417); ("user", 57750);
  ("user_resources", 57992); ("using", 57420); ("utc_date", 57790); ("utc_time", 57791); ("utc_timestamp", 57792);
  ("validation", 57878); ("values", 57400); ("var_pop", 57854); ("var_samp", 57855); ("variables", 57612); ("varbinary", 57700);
  ("varchar", 57697); ("varcharacter", 57879); ("variance", 57856); ("varying", 57879); ("vexplain", 57980);
  ("vgtid_executed", 57751); ("virtual", 57467); ("vindex", 57606); ("vindexes", 57607); ("view", 57566); ("vitess", 57977);
  ("vitess_keyspaces", 57752); ("vitess_metadata", 57753); ("vitess_migration", 57650); ("vitess_migrations", 57754);
  ("dml_job", 57664); ("dml_jobs", 57765); ("details", 57665); ("time_period", 57666); ("vitess_replication_status", 57755);
  ("vitess_shards", 57756); ("vitess_tablets", 57757); ("tablets_plans", 57764); ("workload", 57761); ("vitess_target", 57758);
  ("vitess_throttled_apps", 57760); ("vitess_throttler", 57663); ("vschema", 57759); ("vstream", 57353); ("vtexplain", 57979);
  ("warnings", 57613); ("wait_for_executed_gtid_set", 57973); ("wait_until_sql_thread_after_gtids", 57974);
  ("weight_string", 57820); ("when", 57484); ("where", 57358); ("while", 57879); ("window", 57904); ("with", 57874);
  ("without", 57877); ("work", 57674); ("write", 57772); ("visible", 57965); ("xor", 57479); ("year", 57695);
  ("year_month", 57810); ("zerofill", 57730); ("filter", 57628); ("filters", 57629); ("with_pattern", 57630);
  ("priority", 57631); ("plans", 57632); ("fully_qualified_table_names", 57633); ("query_regex", 57634);
  ("query_template", 57635); ("request_ip_regex", 57636); ("user_regex", 57637); ("leading_comment_regex", 57638);
  ("trailing_comment_regex", 57639); ("bind_var_conds", 57640); ("action_args", 57641); ("cdc", 57646); ("cdcs", 57647);
  ("env", 57649); ("wasm_binary_name", 57648); ("branch", 57642); ("merge_back", 57645); ("prepare_merge_back", 57644);
  ("diff", 57643)
]%string.

Definition keywords : list keyword := (fun '(name, id) => {| kw_name := bs name; kw_id := id |}) <$> keyword_rows.

(** [caseInsensitiveTable]. *)
Abbreviation table := (gmap Z keyword).

Definition add_keyword (h : table) (kw : keyword) : outcome table :=
  let hash := fnv1aIstr offset64 (kw_name kw) in
  match h !! hash with Some _ => Panic | None => Ret (<[hash := kw]> h) end.

Fixpoint build_loop (kws : list keyword) (h : table) : outcome table :=
  match kws with
  | [] => Ret h
  | kw :: kws => h ← add_keyword h kw; build_loop kws h
  end.

Definition buildCaseInsensitiveTable (kws : list keyword) : outcome table := build_loop kws ∅.

Definition LookupIn (h : table) (name : list byte) : Z * bool :=
  match h !! fnv1aIstr offset64 name with
  | Some candidate => (kw_id candidate, keywordASCIIMatch name (kw_name candidate))
  | None => (0, false)
  end.

(** [init]: the names of tokens, the tokens of names, and [keywordLookupTable]. *)
Fixpoint init_loop (kws : list keyword) (keywordStrings : gmap Z (list byte)) (keywordVals : gmap (list byte) Z)
  : outcome (gmap Z (list byte) * gmap (list byte) Z) :=
  match kws with
  | [] => Ret (keywordStrings, keywordVals)
  | kw :: kws =>
      if kw_id kw =? UNUSED then init_loop kws keywordStrings keywordVals
      else if bool_decide (kw_name kw = lower <$> kw_name kw) then
        init_loop kws (<[kw_id kw := kw_name kw]> keywordStrings) (<[kw_name kw := kw_id kw]> keywordVals)
      else Panic
  end.

Definition init (kws : list keyword) : outcome (gmap Z (list byte) * gmap (list byte) Z * table) :=
  '(names, vals) ← init_loop kws ∅ ∅; h ← buildCaseInsensitiveTable kws; Ret (names, vals, h).

(** The variables [init] has set. *)
Definition initialised (r : outcome (gmap Z (list byte) * gmap (list byte) Z * table)) : gmap Z (list byte) * gmap (list byte) Z * table :=
  match r with Ret x => x | Panic => (∅, ∅, ∅) end.

Definition keywordLookupTable : table := (initialised (init keywords)).2.

Definition keywordStrings : gmap Z (list byte) := (initialised (init keywords)).1.1.

Definition LookupString (name : list byte) : Z * bool := LookupIn keywordLookupTable name.

Definition KeywordString (id : Z) : list byte := default [] (keywordStrings !! id).

(** ** The hash table has the keywords *)

Lemma match_loop_lower input expected :
  length input = length expected -> match_loop input expected = true <-> expected = lower <$> input.
Proof.
  revert expected. induction input as [|c input IH]; intros [|e expected] Hl; try done.
  injection Hl as Hl. simpl. rewrite andb_true_iff, bool_decide_eq_true, (IH _ Hl). split; [by intros [-> ->]|by intros [= -> ->]].
Qed.

Lemma keywordASCIIMatch_lower input expected : keywordASCIIMatch input expected = true <-> expected = lower <$> input.
Proof.
  unfold keywordASCIIMatch, zlen. rewrite andb_true_iff, Z.eqb_eq. split.
  - intros [Hl%Nat2Z.inj H]. by apply match_loop_lower.
  - intros ->. rewrite length_fmap. split; [done|]. apply match_loop_lower; [by rewrite length_fmap|done].
Qed.

Lemma lower_lower c : lower (lower c) = lower c.
Proof.
  unfold lower at 2. destruct ((65 <=? b2z c) && (b2z c <=? 90)) eqn:E; [|done].
  unfold lower. rewrite E, b2z_z2b. zify_tests. rewrite Z.mod_small by lia.
  replace (b2z c + 32 <=? 90) with false by (symmetry; apply Z.leb_gt; lia). by rewrite andb_false_r.
Qed.

(** The hash does not depend on the case. *)
Lemma fnv1aIstr_lower h s : fnv1aIstr h (lower <$> s) = fnv1aIstr h s.
Proof.
  revert h. induction s as [|c s IH]; intros h; [done|]. simpl. by rewrite lower_lower, <- IH.
Qed.

(** What the table of a list holds. *)
Definition holds (kws : list keyword) (h : table) : Prop :=
  forall hash kw, h !! hash = Some kw <-> kw ∈ kws /\ hash = fnv1aIstr offset64 (kw_name kw).

Lemma build_loop_holds kws done h h' :
  holds done h -> build_loop kws h = Ret h' -> holds (done ++ kws) h'.
Proof.
  unfold holds. revert done h. induction kws as [|kw kws IH]; intros seen h Hh; simpl.
  - intros [= <-]. by rewrite app_nil_r.
  - unfold add_keyword. destruct (h !! fnv1aIstr offset64 (kw_name kw)) eqn:E; [done|].
    intros H. rewrite cons_middle, app_assoc. eapply IH; [|exact H].
    intros hash k. rewrite lookup_insert_Some, (Hh hash k), elem_of_app, list_elem_of_singleton. split.
    + intros [[<- <-]|[? [??]]]; eauto.
    + intros [[Hk| ->] ->]; [|by left]. right. split; [|done]. intros Heq. rewrite Heq in E.
      assert (h !! fnv1aIstr offset64 (kw_name k) = Some k) by (by apply Hh). congruence.
Qed.

(** No two keywords have the same hash, and all of them are in lower case. *)
Lemma init_succeeds : (if init keywords is Ret _ then true else false) = true.
Proof. vm_compute. reflexivity. Qed.

Lemma init_builds kws : (if init kws is Ret _ then true else false) = true -> buildCaseInsensitiveTable kws = Ret (initialised (init kws)).2.
Proof.
  unfold init. destruct (init_loop kws ∅ ∅) as [[names vals]|]; simpl; [|done]. by destruct (buildCaseInsensitiveTable kws).
Qed.

Lemma build_holds kws h : buildCaseInsensitiveTable kws = Ret h -> holds kws h.
Proof.
  apply (build_loop_holds kws [] ∅). intros hash kw. rewrite lookup_empty. split; [done|]. by intros [H%elem_of_nil ?].
Qed.

(** In a table that holds a list, looking a word up is searching the list. *)
Lemma LookupIn_searches kws h name id : holds kws h ->
  LookupIn h name = (id, true) <-> exists kw, kw ∈ kws /\ kw_id kw = id /\ keywordASCIIMatch name (kw_name kw) = true.
Proof.
  intros Hh. unfold LookupIn. split.
  - destruct (h !! _) as [kw|] eqn:E; [|done]. intros [= <- Hm]. exists kw. by apply Hh in E as [? _].
  - intros (kw & Hin & <- & Hm). pose proof Hm as Hl%keywordASCIIMatch_lower.
    assert (h !! fnv1aIstr offset64 name = Some kw) as ->; [|by rewrite Hm].
    apply Hh. split; [done|]. by rewrite Hl, fnv1aIstr_lower.
Qed.

(** The names [init] gives to tokens are keywords in lower case. *)
Lemma init_loop_names kws names vals names' vals' id s :
  init_loop kws names vals = Ret (names', vals') -> names' !! id = Some s ->
  names !! id = Some s \/ exists kw, kw ∈ kws /\ kw_id kw = id /\ kw_name kw = s /\ s = lower <$> s.
Proof.
  revert names vals. induction kws as [|kw kws IH]; intros names vals; simpl.
  - intros [= <- <-] ?. by left.
  - intros H Hs. destruct (kw_id kw =? UNUSED).
    + destruct (IH _ _ H Hs) as [?|(k & ? & ?)]; [by left|]. right. exists k. split; [by right|done].
    + case_bool_decide as Hl; [|done].
      destruct (IH _ _ H Hs) as [Hn|(k & ? & ?)]; [|right; exists k; split; [by right|done]].
      apply lookup_insert_Some in Hn as [[<- <-]|[_ ?]]; [|by left]. right. exists kw. split; [by left|done].
Qed.

Lemma init_names kws id s : (initialised (init kws)).1.1 !! id = Some s ->
  exists kw, kw ∈ kws /\ kw_id kw = id /\ kw_name kw = s /\ s = lower <$> s.
Proof.
  unfold init. destruct (init_loop kws ∅ ∅) as [[names vals]|] eqn:E; simpl; [|by rewrite lookup_empty].
  destruct (buildCaseInsensitiveTable kws); simpl; [|by rewrite lookup_empty].
  intros H. destruct (init_loop_names _ _ _ _ _ _ _ E H) as [H'|?]; [by rewrite lookup_empty in H'|done].
Qed.

(** The lookup of a word is a search in the list of keywords.  The hash table finds a word, in any case, exactly when the
    list has it, and gives the token the list has for it. *)
Theorem LookupString_searches (name : list byte) (id : Z) :
  LookupString name = (id, true) <-> exists kw, kw ∈ keywords /\ kw_id kw = id /\ keywordASCIIMatch name (kw_name kw) = true.
Proof. apply LookupIn_searches. unfold keywordLookupTable. apply build_holds, init_builds, init_succeeds. Qed.

(** The name of a token is a keyword of this token. *)
Lemma KeywordString_lookup id s : keywordStrings !! id = Some s -> LookupString s = (id, true).
Proof.
  unfold keywordStrings. intros (kw & ? & ? & Hn & Hl)%init_names. apply LookupString_searches.
  exists kw. split; [done|]. split; [done|]. apply keywordASCIIMatch_lower. congruence.
Qed.
