(* ===== verification/Key.v ===== *)
(** * Key ranges

    [go/vt/key/key.go].  A keyspace id is a byte string; a key range holds the ids from
    its start up to, but not including, its end, an empty end being no bound; a nil
    range holds all ids ([KeyRangeContains]).  The theorems say what the operations on
    ranges compute in terms of the ids ranges hold, and that a sharding
    specification is parsed into ranges that partition the ids.

    [GenerateShardRanges] computes in [float64]; the model uses the binary64
    arithmetic of [SpecFloat]. *)

From Corelib Require SpecFloat.
From Equations Require Import Equations.
From S2P Require Import Prelude Intervals GoStd.

Inductive key_error :=
| ShardCountNotPositive
| ShardIndexTooLarge
| ShardCountNotPowerOfTwo
| KeyHex (e : hex.hex_error)
| NoOverlap
| NotARange
| EmptyInTheMiddle
| LimitsNotInOrder
| ShardsNotPositive
| TooManyShards.

#[export] Instance key_error_eq_dec : EqDecision key_error.
Proof. solve_decision. Defined.

(** [topodatapb.KeyRange]; a nil pointer is [None]. *)
Record KeyRange := { Start : list byte; End_ : list byte }.

#[export] Instance KeyRange_eq_dec : EqDecision KeyRange.
Proof. solve_decision. Defined.

(** ** The code *)

(** [len(s) == 0]. *)
Definition empty {A} (s : list A) : bool := if s is [] then true else false.

(** [Uint64Key.Bytes]. *)
Definition Uint64Key_Bytes (i : Z) : list byte := binary.be_bytes 8 i.

(** The loop that counts the bytes of [n - 1]. *)
Equations? count_bytes (nn : Z) : Z by wf (Z.to_nat nn) lt :=
  count_bytes nn with decide (0 < nn) => {
  | left _ => 1 + count_bytes (Z.shiftr nn 8);
  | right _ => 0 }.
Proof.
  rewrite Z.shiftr_div_pow2 by lia. pose proof (Z.div_lt nn (2 ^ 8)).
  pose proof (Z.div_pos nn (2 ^ 8)). lia.
Qed.

(** [EvenShardsKeyRange]. *)
Definition EvenShardsKeyRange (i n : Z) : outcome (result key_error KeyRange) :=
  if n <=? 0 then Ret (Err ShardCountNotPositive)
  else if n <=? i then Ret (Err ShardIndexTooLarge)
  else if negb (Z.land n (sub64 n 1) =? 0) then Ret (Err ShardCountNotPowerOfTwo)
  else
    let minBytes := count_bytes (uint64 (sub64 n 1)) in
    let width := uint64 (MaxUint64 / uint64 n + 1) in
    let start := uint64 (uint64 i * width) in
    let stop := uint64 (start + width) in
    startBytes ← slice (Uint64Key_Bytes start) 0 minBytes;
    endBytes ← slice (Uint64Key_Bytes stop) 0 minBytes;
    Ret (Ok {| Start := if start =? 0 then [] else startBytes;
               End_ := if stop =? 0 then [] else endBytes |}).

(** [KeyRangeAdd]. *)
Definition KeyRangeAdd (first second : option KeyRange) : option KeyRange * bool :=
  match first, second with
  | Some f, Some s =>
      if negb (empty (End_ f)) && bool_decide (End_ f = Start s)
      then (Some {| Start := Start f; End_ := End_ s |}, true)
      else if negb (empty (End_ s)) && bool_decide (End_ s = Start f)
      then (Some {| Start := Start s; End_ := End_ f |}, true)
      else (None, false)
  | _, _ => (None, false)
  end.

(** [KeyRangeContains]. *)
Definition KeyRangeContains (kr : option KeyRange) (id : list byte) : bool :=
  match kr with
  | None => true
  | Some kr => bytes_le (Start kr) id && (empty (End_ kr) || bytes_lt id (End_ kr))
  end.

(** [ParseKeyRangeParts]. *)
Definition ParseKeyRangeParts (start stop : list byte) : result key_error KeyRange :=
  s ← wrap_err KeyHex (hex.Decode start);
  e ← wrap_err KeyHex (hex.Decode stop);
  Ok {| Start := s; End_ := e |}.

Definition key_dash : byte := z2b 45.

(** [KeyRangeString]. *)
Definition KeyRangeString (k : option KeyRange) : list byte :=
  match k with
  | None => [key_dash]
  | Some k => hex.Encode (Start k) ++ key_dash :: hex.Encode (End_ k)
  end.

(** [KeyRangeIsPartial]. *)
Definition KeyRangeIsPartial (kr : option KeyRange) : bool :=
  match kr with
  | None => false
  | Some kr => negb (empty (Start kr) && empty (End_ kr))
  end.

(** [addPadding]: eight zero bytes, the bytes, and zeros up to eight bytes. *)
Definition addPadding (kr : list byte) : list byte :=
  replicate 8 (z2b 0) ++ kr ++ replicate (8 - length kr) (z2b 0).

(** [KeyRangeEqual]. *)
Definition KeyRangeEqual (left right : option KeyRange) : bool :=
  match left, right with
  | None, None => true
  | None, Some r => empty (Start r) && empty (End_ r)
  | Some l, None => empty (Start l) && empty (End_ l)
  | Some l, Some r =>
      bool_decide (addPadding (Start l) = addPadding (Start r)) &&
      bool_decide (addPadding (End_ l) = addPadding (End_ r))
  end.

(** [KeyRangeStartSmaller]. *)
Definition KeyRangeStartSmaller (left right : option KeyRange) : bool :=
  match left, right with
  | None, None => false
  | None, Some _ => true
  | Some _, None => false
  | Some l, Some r => bytes_lt (Start l) (Start r)
  end.

(** [KeyRangeStartEqual]. *)
Definition KeyRangeStartEqual (left right : option KeyRange) : bool :=
  match left, right with
  | None, None => true
  | None, Some r => empty (Start r)
  | Some l, None => empty (Start l)
  | Some l, Some r => bool_decide (addPadding (Start l) = addPadding (Start r))
  end.

(** [KeyRangeContiguous]. *)
Definition KeyRangeContiguous (left right : option KeyRange) : bool :=
  match left, right with
  | None, None => true
  | None, Some r => empty (Start r) && empty (End_ r)
  | Some l, None => empty (Start l) && empty (End_ l)
  | Some l, Some r => bool_decide (addPadding (End_ l) = addPadding (Start r))
  end.

(** [KeyRangeEndEqual]. *)
Definition KeyRangeEndEqual (left right : option KeyRange) : bool :=
  match left, right with
  | None, None => true
  | None, Some r => empty (End_ r)
  | Some l, None => empty (End_ l)
  | Some l, Some r => bool_decide (addPadding (End_ l) = addPadding (End_ r))
  end.

(** [KeyRangesIntersect]. *)
Definition KeyRangesIntersect (first second : option KeyRange) : bool :=
  match first, second with
  | Some f, Some s =>
      (empty (End_ f) || bytes_lt (Start s) (End_ f)) &&
      (empty (End_ s) || bytes_lt (Start f) (End_ s))
  | _, _ => true
  end.

(** [KeyRangesOverlap]. *)
Definition KeyRangesOverlap (first second : option KeyRange) : result key_error (option KeyRange) :=
  if negb (KeyRangesIntersect first second) then Err NoOverlap
  else
    match first, second with
    | None, _ => Ok second
    | _, None => Ok first
    | Some f, Some s =>
        Ok (Some {|
          Start := if bytes_lt (Start f) (Start s) then Start s else Start f;
          End_ := if empty (End_ f) || (negb (empty (End_ s)) && bytes_lt (End_ s) (End_ f))
                  then End_ s else End_ f |})
    end.

(** [KeyRangeIncludes]. *)
Definition KeyRangeIncludes (big small : option KeyRange) : bool :=
  match big with
  | None => true
  | Some b =>
      match small with
      | None => empty (Start b) && empty (End_ b)
      | Some s =>
          if negb (empty (Start b)) && bytes_lt (Start s) (Start b) then false
          else if negb (empty (End_ b)) && (empty (End_ s) || bytes_lt (End_ b) (End_ s)) then false
          else true
      end
  end.

(** The loop of [ParseShardingSpec] over [parts[1:]]; the last part is the one with no
    parts behind it. *)
Fixpoint parse_shard_limits (old : list byte) (parts : list (list byte))
  : result key_error (list KeyRange) :=
  match parts with
  | [] => Ok []
  | p :: rest =>
      if empty p && negb (empty rest) then Err EmptyInTheMiddle
      else if negb (empty p) && bytes_le p old then Err LimitsNotInOrder
      else
        s ← wrap_err KeyHex (hex.Decode old);
        e ← wrap_err KeyHex (hex.Decode p);
        ranges ← parse_shard_limits p rest;
        Ok ({| Start := s; End_ := e |} :: ranges)
  end.

(** [ParseShardingSpec]. *)
Definition ParseShardingSpec (spec : list byte) : result key_error (list KeyRange) :=
  match strings.Split key_dash spec with
  | [] => Err NotARange
  | [_] => if bool_decide (spec = bs "0") then parse_shard_limits [] [[]] else Err NotARange
  | old :: parts => parse_shard_limits old parts
  end.

(** [IsKeyRange]: the regular expression asks for hex digits, a dash and hex digits. *)
Definition is_hex_char (c : byte) : bool := if hex.from_hex_char c is Some _ then true else false.

Definition IsKeyRange (kr : list byte) : bool :=
  let '(a, b, found) := strings.Cut key_dash kr in
  found && forallb is_hex_char a && forallb is_hex_char b.

(** *** Shard ranges in floating point *)
Module float64.
Import SpecFloat.

(** [float64(z)], [a / b] and [a * b] in binary64. *)
Definition of_int (z : Z) : spec_float := binary_normalize 53 1024 z 0 false.
Definition div : spec_float -> spec_float -> spec_float := SFdiv 53 1024.
Definition mul : spec_float -> spec_float -> spec_float := SFmul 53 1024.

(** [int(f)] for a finite [f] in range: truncation towards zero. *)
Definition to_int (f : spec_float) : Z :=
  match f with
  | S754_finite s m e =>
      let a := if 0 <=? e then Zpos m * 2 ^ e else Zpos m / 2 ^ (- e) in
      if s : bool then - a else a
  | _ => 0
  end.
End float64.

(** The verb [%0<width>x] for a non-negative integer below [16 ^ 16]. *)
Fixpoint hex_loop (fuel : nat) (z : Z) (acc : list byte) : list byte :=
  match fuel with
  | O => acc
  | S fuel =>
      let acc := hex.hex_digit (z mod 16) :: acc in
      if z <? 16 then acc else hex_loop fuel (z / 16) acc
  end.

Definition fmt_x (width : nat) (z : Z) : list byte :=
  let digits := hex_loop 16 z [] in
  replicate (width - length digits) (z2b 48) ++ digits.

(** [rangeFormatter]. *)
Definition rangeFormatter (width : nat) (maxShards start stop : Z) : list byte :=
  (if start =? 0 then [] else fmt_x width start) ++ key_dash ::
  (if stop =? maxShards then [] else fmt_x width stop).

(** The loop of [GenerateShardRanges] for the last [n] of [shards] shards. *)
Fixpoint shard_range_loop (width : nat) (maxShards shards : Z) (size : SpecFloat.spec_float)
    (n : nat) (start : Z) : list (list byte) :=
  match n with
  | O => []
  | S n' =>
      let i := shards - Z.of_nat n' in
      let stop := float64.to_int (float64.mul (float64.of_int i) size) in
      rangeFormatter width maxShards start stop ::
      shard_range_loop width maxShards shards size n' stop
  end.

(** [GenerateShardRanges]. *)
Definition GenerateShardRanges (shards : Z) : result key_error (list (list byte)) :=
  if shards <=? 0 then Err ShardsNotPositive
  else if shards <=? 65536 then
    let width := if shards <=? 256 then 2%nat else 4%nat in
    let maxShards := if shards <=? 256 then 256 else 65536 in
    let size := float64.div (float64.of_int maxShards) (float64.of_int shards) in
    Ok (shard_range_loop width maxShards shards size (Z.to_nat shards) 0)
  else Err TooManyShards.

(** ** What ranges hold *)

(** A range that holds an id: its start is below its end. *)
Definition proper_range (kr : option KeyRange) : Prop :=
  match kr with
  | None => True
  | Some kr => End_ kr = [] \/ bytes_lt (Start kr) (End_ kr) = true
  end.

(** [x] is below the end [e] of a range. *)
Definition below (e x : list byte) : bool := empty e || bytes_lt x e.

Lemma contains_Some kr id :
  KeyRangeContains (Some kr) id = true <-> bytes_le (Start kr) id = true /\ below (End_ kr) id = true.
Proof. cbn [KeyRangeContains]. fold (below (End_ kr) id). apply andb_true_iff. Qed.

Lemma empty_spec {A} (s : list A) : empty s = true <-> s = [].
Proof. by destruct s. Qed.

Lemma below_le e x y : bytes_le x y = true -> below e y = true -> below e x = true.
Proof.
  unfold below. intros Hxy [H|H]%orb_true_iff; [by rewrite H|].
  rewrite (bytes_le_lt_trans _ _ _ Hxy H). apply orb_true_r.
Qed.

Lemma below_ne e x : e <> [] -> below e x = true -> bytes_lt x e = true.
Proof. unfold below. by destruct e. Qed.

Lemma proper_below kr : proper_range (Some kr) -> below (End_ kr) (Start kr) = true.
Proof. unfold below. intros [-> | ->]; [done|apply orb_true_r]. Qed.

Lemma below_max e x y : below e (bytes_max x y) = true <-> below e x = true /\ below e y = true.
Proof.
  unfold below. destruct (empty e); [done|]. cbn [orb]. apply bytes_max_lt.
Qed.

(** A proper range holds its start. *)
Lemma proper_contains_start kr : proper_range (Some kr) -> KeyRangeContains (Some kr) (Start kr) = true.
Proof. intros H. apply contains_Some. split; [apply bytes_le_refl|by apply proper_below]. Qed.

Lemma KeyRangesIntersect_correct f s :
  proper_range f -> proper_range s ->
  KeyRangesIntersect f s = true <->
  exists id, KeyRangeContains f id = true /\ KeyRangeContains s id = true.
Proof.
  destruct f as [f|], s as [s|]; intros Hf Hs; cbn [KeyRangesIntersect].
  - fold (below (End_ f) (Start s)) (below (End_ s) (Start f)). rewrite andb_true_iff. split.
    + intros [H1 H2]. exists (bytes_max (Start f) (Start s)). rewrite !contains_Some, !below_max.
      pose proof (bytes_max_ge (Start f) (Start s)). pose proof (proper_below f Hf).
      pose proof (proper_below s Hs). tauto.
    + intros (id & [H1 H2]%contains_Some & [H3 H4]%contains_Some).
      split; [by apply (below_le _ _ id)|by apply (below_le _ _ id)].
  - split; [|done]. intros _. exists (Start f). split; [by apply proper_contains_start|done].
  - split; [|done]. intros _. exists (Start s). split; [done|by apply proper_contains_start].
  - split; [|done]. intros _. by exists [].
Qed.

(** The smaller of two ends, an empty end being the largest. *)
Lemma below_min e e' x :
  below (if empty e || (negb (empty e') && bytes_lt e' e) then e' else e) x =
  below e x && below e' x.
Proof.
  unfold below. destruct (empty e) eqn:Ee; cbn [orb andb]; [done|].
  destruct (empty e') eqn:Ee'; cbn [negb andb orb]; [by rewrite Ee, andb_true_r|].
  destruct (bytes_lt e' e) eqn:E; rewrite ?Ee, ?Ee'; cbn [orb].
  - destruct (bytes_lt x e') eqn:E1; [|by rewrite andb_false_r].
    by rewrite (bytes_lt_trans _ _ _ E1 E).
  - apply bytes_not_lt in E. destruct (bytes_lt x e) eqn:E1; [|done].
    by rewrite (bytes_lt_le_trans _ _ _ E1 E).
Qed.

Lemma Overlap_correct f s :
  proper_range f -> proper_range s ->
  match KeyRangesOverlap f s with
  | Ok r => proper_range r /\
      forall id, KeyRangeContains r id = KeyRangeContains f id && KeyRangeContains s id
  | Err _ => forall id, KeyRangeContains f id && KeyRangeContains s id = false
  end.
Proof.
  intros Hf Hs. unfold KeyRangesOverlap. pose proof (KeyRangesIntersect_correct f s Hf Hs) as Hi.
  destruct (KeyRangesIntersect f s) eqn:E; cbn [negb].
  2:{ intros id. apply not_true_is_false. intros [? ?]%andb_true_iff. enough (false = true) by done. apply Hi. eauto. }
  destruct f as [f|], s as [s|]; try (split; [done|]; intros id; by rewrite ?andb_true_r).
  set (r := Build_KeyRange _ _).
  assert (forall id, KeyRangeContains (Some r) id =
    KeyRangeContains (Some f) id && KeyRangeContains (Some s) id) as Hr.
  { intros id. apply eq_true_iff_eq. rewrite andb_true_iff, !contains_Some.
    unfold r. cbn [Start End_]. rewrite below_min, andb_true_iff. fold (bytes_max (Start f) (Start s)).
    rewrite bytes_max_le. tauto. }
  split; [|done]. destruct (proj1 Hi eq_refl) as (id & H1 & H2).
  assert (KeyRangeContains (Some r) id = true) as [H3 H4]%contains_Some by (by rewrite Hr, H1, H2).
  unfold proper_range. pose proof (below_le _ _ _ H3 H4) as [He|He]%orb_true_iff; [left|by right].
  by apply empty_spec.
Qed.

Lemma Includes_tests b s :
  KeyRangeIncludes (Some b) (Some s) = true <->
  bytes_le (Start b) (Start s) = true /\
  (empty (End_ b) = true \/ (empty (End_ s) = false /\ bytes_le (End_ s) (End_ b) = true)).
Proof.
  cbn [KeyRangeIncludes]. rewrite !bytes_le_lt.
  assert (negb (empty (Start b)) && bytes_lt (Start s) (Start b) = bytes_lt (Start s) (Start b)) as ->.
  { destruct (Start b); [by rewrite bytes_lt_nil|done]. }
  destruct (bytes_lt (Start s) (Start b)), (empty (End_ b)), (empty (End_ s)),
    (bytes_lt (End_ b) (End_ s)); cbn; intuition congruence.
Qed.

Lemma Includes_correct b s :
  proper_range s ->
  KeyRangeIncludes b s = true <->
  forall id, KeyRangeContains s id = true -> KeyRangeContains b id = true.
Proof.
  intros Hs. destruct b as [b|]; [|done]. destruct s as [s|].
  2:{ cbn [KeyRangeIncludes]. rewrite andb_true_iff, !empty_spec. split.
    - intros [H1 H2] id _. apply contains_Some. rewrite H1, H2. split; [apply bytes_le_nil|done].
    - intros H. pose proof (H [] eq_refl) as [H1 _]%contains_Some.
      pose proof (H (End_ b) eq_refl) as [_ H2]%contains_Some. unfold below in H2.
      rewrite bytes_lt_irrefl, orb_false_r in H2. apply empty_spec in H2. split; [|done].
      by destruct (Start b). }
  rewrite Includes_tests.
  split.
  - intros [H1 H2] id [H3 H4]%contains_Some. apply contains_Some.
    split; [by apply (bytes_le_trans _ (Start s))|]. unfold below in *.
    destruct H2 as [-> |[H2 H5]]; [done|]. rewrite H2 in H4. cbn [orb] in H4.
    rewrite (bytes_lt_le_trans _ _ _ H4 H5). apply orb_true_r.
  - intros H. split; [by apply (contains_Some b), H, proper_contains_start|].
    destruct (empty (End_ b)) eqn:Eb; [by left|right].
    assert (below (End_ s) (bytes_max (Start s) (End_ b)) = false) as Hm.
    { apply not_true_is_false. intros Hm. pose proof (bytes_max_ge (Start s) (End_ b)) as [G1 G2].
      assert (KeyRangeContains (Some s) (bytes_max (Start s) (End_ b)) = true) as Hin
        by (by apply contains_Some).
      apply H, contains_Some in Hin as [_ Hin]. unfold below in Hin. rewrite Eb in Hin.
      cbn [orb] in Hin. apply bytes_max_lt in Hin as [_ Hin]. by rewrite bytes_lt_irrefl in Hin. }
    apply proper_below in Hs. apply not_true_iff_false in Hm. rewrite below_max in Hm.
    unfold below in *. destruct (empty (End_ s)); [tauto|]. cbn [orb] in *. split; [done|].
    apply bytes_not_lt. destruct (bytes_lt (End_ b) (End_ s)); tauto.
Qed.

Lemma Add_correct f s r id :
  proper_range (Some f) -> proper_range (Some s) -> KeyRangeAdd (Some f) (Some s) = (r, true) ->
  KeyRangeContains r id = KeyRangeContains (Some f) id || KeyRangeContains (Some s) id.
Proof.
  cbn [KeyRangeAdd]. assert (forall a b, proper_range (Some a) -> proper_range (Some b) ->
    End_ a <> [] -> End_ a = Start b ->
    KeyRangeContains (Some {| Start := Start a; End_ := End_ b |}) id =
    KeyRangeContains (Some a) id || KeyRangeContains (Some b) id) as Hadd.
  { intros a b Ha Hb Hne E. destruct Ha as [?|Ha]; [done|].
    apply eq_true_iff_eq. rewrite orb_true_iff, !contains_Some. cbn [Start End_]. split.
    - intros [H1 H2]. destruct (bytes_lt id (End_ a)) eqn:El.
      + left. unfold below. rewrite El. split; [done|apply orb_true_r].
      + right. apply bytes_not_lt in El. by rewrite <- E.
    - intros [[H1 H2]|[H1 H2]].
      + split; [done|]. apply (below_le _ _ (Start b)); [|by apply proper_below].
        rewrite <- E. unfold below in H2. destruct (End_ a); [done|]. by apply bytes_lt_le.
      + split; [|done]. apply (bytes_le_trans _ (Start b)); [|done]. rewrite <- E.
        by apply bytes_lt_le. }
  intros Hf Hs. case_test; [|case_test; [|done]]; zify_tests; intros [= <-];
    match goal with H : bool_decide _ = true |- _ => apply bool_decide_eq_true in H end.
  - apply Hadd; [done..|by destruct (End_ f)|done].
  - rewrite Hadd; [apply orb_comm|done..|by destruct (End_ s)|done].
Qed.

(** ** Padding *)

(** Against ids of [8] bytes a shorter limit and its zero padding are the same. *)
Lemma compare_zeros n id : length id = n -> bytes_compare (replicate n (z2b 0)) id <> Gt.
Proof.
  intros <-. induction id as [|b id IH]; [done|]. cbn [length replicate bytes_compare].
  change (b2z (z2b 0)) with 0. pose proof (b2z_range b).
  destruct (Z.compare_spec 0 (b2z b)); [done|done|lia].
Qed.

Lemma le_padded s k id :
  (length s + k = length id)%nat -> bytes_le (s ++ replicate k (z2b 0)) id = bytes_le s id.
Proof.
  unfold bytes_le. revert id. induction s as [|b s IH]; intros id Hl.
  - cbn [app]. pose proof (compare_zeros k id ltac:(simpl in Hl; lia)) as H. destruct id as [|c id].
    + simpl in Hl. by destruct k.
    + by destruct (bytes_compare (replicate k _) (c :: id)).
  - destruct id as [|c id]; [done|]. cbn [app bytes_compare]. simpl in Hl.
    destruct (b2z b ?= b2z c); [apply IH; lia|done|done].
Qed.

Lemma addPadding_inj s t :
  (length s <= 8)%nat -> (length t <= 8)%nat -> addPadding s = addPadding t ->
  s ++ replicate (8 - length s) (z2b 0) = t ++ replicate (8 - length t) (z2b 0).
Proof. intros Hs Ht H. unfold addPadding in H. by apply app_inj_1 in H as [_ H]. Qed.

Lemma le_same_padding s t id :
  (length s <= 8)%nat -> (length t <= 8)%nat -> length id = 8%nat -> addPadding s = addPadding t ->
  bytes_le s id = bytes_le t id.
Proof.
  intros Hs Ht Hid H. rewrite <- (le_padded s (8 - length s) id), <- (le_padded t (8 - length t) id) by lia.
  by rewrite (addPadding_inj s t).
Qed.

Lemma Equal_correct l r id :
  (length (Start l) <= 8)%nat -> (length (Start r) <= 8)%nat ->
  (length (End_ l) <= 8)%nat -> (length (End_ r) <= 8)%nat ->
  empty (End_ l) = empty (End_ r) -> length id = 8%nat ->
  KeyRangeEqual (Some l) (Some r) = true ->
  KeyRangeContains (Some l) id = KeyRangeContains (Some r) id.
Proof.
  intros Hl1 Hr1 Hl2 Hr2 He Hid. cbn [KeyRangeEqual KeyRangeContains].
  rewrite andb_true_iff, !bool_decide_eq_true. intros [H1 H2].
  rewrite (le_same_padding _ _ id Hl1 Hr1 Hid H1), He. f_equal. f_equal.
  pose proof (le_same_padding _ _ id Hl2 Hr2 Hid H2) as H. rewrite !bytes_le_lt in H.
  by destruct (bytes_lt id (End_ l)), (bytes_lt id (End_ r)).
Qed.

(** ** Text forms *)

Lemma KeyRange_parts_String kr :
  let '(a, b, found) := strings.Cut key_dash (KeyRangeString (Some kr)) in
  found = true /\ ParseKeyRangeParts a b = Ok kr /\ IsKeyRange (KeyRangeString (Some kr)) = true.
Proof.
  assert (forall s, forallb is_hex_char (hex.Encode s) = true) as Hhex.
  { intros s. induction s as [|b s IH]; [done|]. cbn [hex.Encode forallb].
    destruct (hex.nibble_ranges b). unfold is_hex_char at 1 2. by rewrite !hex.from_hex_digit. }
  unfold IsKeyRange. cbn [KeyRangeString].
  rewrite strings.Cut_found by (by apply hex.Encode_not_in). split; [done|].
  unfold ParseKeyRangeParts. rewrite !hex.Decode_Encode. split; [by destruct kr|]. by rewrite !Hhex.
Qed.

Lemma hex_digit_compare a b :
  0 <= a < 16 -> 0 <= b < 16 -> (b2z (hex.hex_digit a) ?= b2z (hex.hex_digit b)) = (a ?= b).
Proof.
  intros Ha Hb. unfold hex.hex_digit. rewrite !b2z_z2b.
  destruct (Z.ltb_spec a 10), (Z.ltb_spec b 10); rewrite !Z.mod_small by lia;
    destruct (Z.compare_spec a b); first [apply Z.compare_eq_iff|apply Z.compare_lt_iff|apply Z.compare_gt_iff]; lia.
Qed.

(** Hex digits keep the order of bytes. *)
Lemma Encode_compare s t : bytes_compare (hex.Encode s) (hex.Encode t) = bytes_compare s t.
Proof.
  revert t. induction s as [|b s IH]; intros [|c t]; try done. cbn [hex.Encode bytes_compare].
  destruct (hex.nibble_ranges b), (hex.nibble_ranges c).
  rewrite !hex_digit_compare, IH by done.
  change 15 with (Z.ones 4) in *. rewrite !Z.land_ones, !Z.shiftr_div_pow2 in * by lia.
  change (2 ^ 4) with 16 in *.
  pose proof (Z.div_mod (b2z b) 16 ltac:(lia)). pose proof (Z.div_mod (b2z c) 16 ltac:(lia)).
  destruct (Z.compare_spec (b2z b / 16) (b2z c / 16)), (Z.compare_spec (b2z b mod 16) (b2z c mod 16)),
    (Z.compare_spec (b2z b) (b2z c)); done || lia.
Qed.

Lemma Encode_lt s t : bytes_lt (hex.Encode s) (hex.Encode t) = bytes_lt s t.
Proof. unfold bytes_lt. by rewrite Encode_compare. Qed.

(** ** Sharding specifications *)

(** Limits in strictly increasing order, all above [a]. *)
Fixpoint limits_above (a : list byte) (l : list (list byte)) : Prop :=
  match l with
  | [] => True
  | b :: l' => bytes_lt a b = true /\ limits_above b l'
  end.

(** Every id is in exactly one of the ranges. *)
Definition partition (ranges : list KeyRange) : Prop :=
  forall id, exists i, (i < length ranges)%nat /\
  forall j kr, ranges !! j = Some kr -> KeyRangeContains (Some kr) id = true <-> j = i.

(** The ranges from [a] through the limits [l] to [e]; an empty [a] or [e] is an open end. *)
Fixpoint ranges_between (a : list byte) (l : list (list byte)) (e : list byte) : list KeyRange :=
  match l with
  | [] => [{| Start := a; End_ := e |}]
  | b :: l' => {| Start := a; End_ := b |} :: ranges_between b l' e
  end.

(** The limits of such ranges, in strictly increasing order. *)
Definition limits_between (a : list byte) (l : list (list byte)) (e : list byte) : Prop :=
  limits_above a (if empty e then l else l ++ [e]).

Lemma limits_between_cons a b l e : limits_between a (b :: l) e -> bytes_lt a b = true /\ limits_between b l e.
Proof. unfold limits_between. by destruct (empty e). Qed.

Lemma limits_between_nil a e : limits_between a [] e -> empty e = true \/ bytes_lt a e = true.
Proof. unfold limits_between. destruct (empty e); [by left|]. intros [? _]. by right. Qed.

Lemma parse_shard_limits_between a l e :
  limits_between a l e ->
  parse_shard_limits (hex.Encode a) ((hex.Encode <$> l) ++ [hex.Encode e]) = Ok (ranges_between a l e).
Proof.
  revert a. induction l as [|b l IH]; intros a Hl.
  - apply limits_between_nil in Hl. cbn [fmap list_fmap app parse_shard_limits]. cbn [empty negb]. rewrite andb_false_r.
    assert (negb (empty (hex.Encode e)) && bytes_le (hex.Encode e) (hex.Encode a) = false) as ->.
    { destruct Hl as [He|Hlt]; [by destruct e|]. rewrite bytes_le_lt, Encode_lt, Hlt. apply andb_false_r. }
    rewrite !hex.Decode_Encode. done.
  - apply limits_between_cons in Hl as [Hab Hl]. rewrite fmap_cons. cbn [app parse_shard_limits].
    assert (empty (hex.Encode b) = false) as Hne by (destruct b; [by rewrite bytes_lt_nil in Hab|done]).
    rewrite Hne. cbn [andb negb]. rewrite bytes_le_lt, Encode_lt, Hab. cbn [negb].
    rewrite !hex.Decode_Encode. cbn [wrap_err mbind result_bind]. by rewrite IH.
Qed.

(** The text of a specification. *)
Definition spec_text (a : list byte) (l : list (list byte)) (e : list byte) : list byte :=
  strings.Join key_dash (hex.Encode a :: (hex.Encode <$> l) ++ [hex.Encode e]).

Lemma ParseShardingSpec_text a l e :
  limits_between a l e -> ParseShardingSpec (spec_text a l e) = Ok (ranges_between a l e).
Proof.
  intros Hl. unfold ParseShardingSpec, spec_text. rewrite strings.Split_Join; [|done|].
  - rewrite <- (parse_shard_limits_between a l e) by done. by destruct (hex.Encode <$> l).
  - constructor; [by apply hex.Encode_not_in|]. apply Forall_app.
    split; [|repeat constructor; by apply hex.Encode_not_in].
    apply Forall_fmap, Forall_forall. intros b _. by apply hex.Encode_not_in.
Qed.

Lemma ranges_between_above a l e j kr :
  limits_between a l e -> ranges_between a l e !! j = Some kr -> bytes_le a (Start kr) = true.
Proof.
  revert a j. induction l as [|b l IH]; intros a [|j] Hl; cbn [ranges_between lookup list_lookup]; try done;
    try (intros [= <-]; apply bytes_le_refl).
  apply limits_between_cons in Hl as [Hab Hl]. intros Hj. apply (bytes_le_trans _ b); [by apply bytes_lt_le|]. by apply (IH b j).
Qed.

(** The end is above all limits. *)
Lemma limits_between_end a l e : limits_between a l e -> empty e = false -> bytes_lt a e = true.
Proof.
  revert a. induction l as [|b l IH]; intros a Hl He.
  - apply limits_between_nil in Hl as [?|?]; congruence.
  - apply limits_between_cons in Hl as [Hab Hl]. apply (bytes_lt_trans _ b); [done|by apply IH].
Qed.

(** An id below the first range is in none of them. *)
Lemma ranges_between_below a l e id j kr :
  limits_between a l e -> bytes_lt id a = true -> ranges_between a l e !! j = Some kr -> KeyRangeContains (Some kr) id = false.
Proof.
  intros Hl Hid Hj. pose proof (ranges_between_above _ _ _ _ _ Hl Hj) as Ha. apply not_true_iff_false. intros [H _]%contains_Some.
  pose proof (bytes_le_trans _ _ _ Ha H) as H'. apply bytes_not_lt in H'. congruence.
Qed.

(** From [a] on, an id is in exactly one range, or, if the last range ends before it, in none. *)
Lemma ranges_between_partition a l e id :
  limits_between a l e -> bytes_le a id = true ->
  if empty e || bytes_lt id e then
    exists i, (i < length (ranges_between a l e))%nat /\
    forall j kr, ranges_between a l e !! j = Some kr -> KeyRangeContains (Some kr) id = true <-> j = i
  else forall j kr, ranges_between a l e !! j = Some kr -> KeyRangeContains (Some kr) id = false.
Proof.
  revert a. induction l as [|b l IH]; intros a Hl Ha.
  { destruct (empty e || bytes_lt id e) eqn:E.
    - exists 0%nat. split; [cbn; lia|]. intros [|j] kr [= <-]. cbn. by rewrite Ha, E.
    - intros [|j] kr [= <-]. cbn. by rewrite Ha, E. }
  apply limits_between_cons in Hl as [Hab Hl]. destruct (bytes_lt id b) eqn:E.
  - assert (empty e || bytes_lt id e = true) as ->.
    { destruct (empty e) eqn:Ee; [done|]. apply (bytes_lt_trans _ b); [done|]. by apply (limits_between_end b l e Hl). }
    exists 0%nat. split; [cbn; lia|]. intros [|j] kr; cbn [ranges_between lookup list_lookup].
    + intros [= <-]. split; [done|]. intros _. apply contains_Some. cbn [Start End_].
      split; [done|]. unfold below. rewrite E. apply orb_true_r.
    + intros Hj. by rewrite (ranges_between_below b l e id j kr).
  - assert (KeyRangeContains (Some {| Start := a; End_ := b |}) id = false) as Hfirst.
    { cbn. rewrite E. destruct b; [by rewrite bytes_lt_nil in Hab|]. cbn. apply andb_false_r. }
    apply bytes_not_lt in E. specialize (IH b Hl E). destruct (empty e || bytes_lt id e).
    + destruct IH as (i & Hi & H). exists (S i). split; [cbn; lia|]. intros [|j] kr; cbn [ranges_between lookup list_lookup].
      * intros [= <-]. by rewrite Hfirst.
      * intros Hj. rewrite (H j kr Hj). lia.
    + intros [|j] kr; cbn [ranges_between lookup list_lookup]; [by intros [= <-]|apply IH].
Qed.

Lemma ranges_partition l : limits_above [] l -> partition (ranges_between [] l []).
Proof. intros Hl id. apply (ranges_between_partition [] l [] id); [done|apply bytes_le_nil]. Qed.

Lemma length_ranges_between a l e : length (ranges_between a l e) = S (length l).
Proof. revert a. induction l as [|b l IH]; intros a; [done|]. cbn [ranges_between length]. by rewrite IH. Qed.

(** ** Theorems *)

(** For ranges whose start is below their end, [KeyRangesIntersect] says whether some
    id is in both; [KeyRangesOverlap] returns a range with exactly the common ids, and
    its error means that there are none. *)
Theorem KeyRanges_intersect_overlap (f s : option KeyRange) :
  proper_range f -> proper_range s ->
  (KeyRangesIntersect f s = true <->
   exists id, KeyRangeContains f id = true /\ KeyRangeContains s id = true) /\
  match KeyRangesOverlap f s with
  | Ok r => proper_range r /\
      forall id, KeyRangeContains r id = KeyRangeContains f id && KeyRangeContains s id
  | Err _ => forall id, KeyRangeContains f id && KeyRangeContains s id = false
  end.
Proof. intros Hf Hs. split; [by apply KeyRangesIntersect_correct|by apply Overlap_correct]. Qed.

Definition range_40_80 : option KeyRange := Some {| Start := [z2b 64]; End_ := [z2b 128] |}.
Definition range_60_ : option KeyRange := Some {| Start := [z2b 96]; End_ := [] |}.

Lemma KeyRanges_intersect_overlap_witness :
  (KeyRangesIntersect range_40_80 range_60_ = true <->
   exists id, KeyRangeContains range_40_80 id = true /\ KeyRangeContains range_60_ id = true) /\
  match KeyRangesOverlap range_40_80 range_60_ with
  | Ok r => proper_range r /\
      forall id, KeyRangeContains r id = KeyRangeContains range_40_80 id && KeyRangeContains range_60_ id
  | Err _ => forall id, KeyRangeContains range_40_80 id && KeyRangeContains range_60_ id = false
  end.
Proof. apply (KeyRanges_intersect_overlap range_40_80 range_60_); [by right|by left]. Defined.

(** [KeyRangeIncludes] says whether every id of the small range is in the big one, and
    [KeyRangeAdd] of adjacent ranges is the range with the ids of both. *)
Theorem KeyRange_includes_add (f s : KeyRange) (b : option KeyRange) :
  proper_range (Some f) -> proper_range (Some s) ->
  (KeyRangeIncludes b (Some s) = true <->
   forall id, KeyRangeContains (Some s) id = true -> KeyRangeContains b id = true) /\
  (forall r, KeyRangeAdd (Some f) (Some s) = (r, true) -> forall id,
     KeyRangeContains r id = KeyRangeContains (Some f) id || KeyRangeContains (Some s) id).
Proof.
  intros Hf Hs. split; [by apply Includes_correct|]. intros r Hr id. by apply Add_correct.
Qed.

Lemma KeyRange_includes_add_witness :
  let f := {| Start := [z2b 64]; End_ := [z2b 128] |} in
  let s := {| Start := [z2b 128]; End_ := [z2b 192] |} in
  (KeyRangeIncludes range_60_ (Some s) = true <->
   forall id, KeyRangeContains (Some s) id = true -> KeyRangeContains range_60_ id = true) /\
  (forall r, KeyRangeAdd (Some f) (Some s) = (r, true) -> forall id,
     KeyRangeContains r id = KeyRangeContains (Some f) id || KeyRangeContains (Some s) id).
Proof.
  intros f s. apply (KeyRange_includes_add f s range_60_); by right.
Defined.

(** C38: a sharding specification of strictly increasing limits in lower case, open or closed at either end, parses to the ranges between
    neighbouring limits.  Every id between the first and the last limit is in exactly one of the ranges, and any other id is in none. *)
Theorem ParseShardingSpec_partition (a : list byte) (l : list (list byte)) (e : list byte) :
  limits_between a l e ->
  exists ranges, ParseShardingSpec (spec_text a l e) = Ok ranges /\ length ranges = S (length l) /\
  forall id,
    if KeyRangeContains (Some {| Start := a; End_ := e |}) id then
      exists i, (i < length ranges)%nat /\ forall j kr, ranges !! j = Some kr -> KeyRangeContains (Some kr) id = true <-> j = i
    else forall j kr, ranges !! j = Some kr -> KeyRangeContains (Some kr) id = false.
Proof.
  intros Hl. exists (ranges_between a l e). split_and!.
  - by apply ParseShardingSpec_text.
  - apply length_ranges_between.
  - intros id. cbn [KeyRangeContains Start End_]. destruct (bytes_le a id) eqn:E; cbn [andb].
    + by apply ranges_between_partition.
    + intros j kr. apply ranges_between_below; [done|by apply bytes_not_le].
Qed.

Lemma ParseShardingSpec_partition_witness :
  exists ranges, ParseShardingSpec (bs "40-80-c0") = Ok ranges /\ length ranges = 2%nat /\
  forall id,
    if KeyRangeContains (Some {| Start := [z2b 64]; End_ := [z2b 192] |}) id then
      exists i, (i < length ranges)%nat /\ forall j kr, ranges !! j = Some kr -> KeyRangeContains (Some kr) id = true <-> j = i
    else forall j kr, ranges !! j = Some kr -> KeyRangeContains (Some kr) id = false.
Proof. apply (ParseShardingSpec_partition [z2b 64] [[z2b 128]] [z2b 192]). done. Defined.

(** Limits are compared as texts: hex digits in different cases may come in the wrong order, so that ids are in two ranges. *)
Lemma ParseShardingSpec_mixed_case :
  exists r1 r2 r3, ParseShardingSpec (bs "-B0-a0-") = Ok [r1; r2; r3] /\
  KeyRangeContains (Some r1) [z2b 168] = true /\ KeyRangeContains (Some r3) [z2b 168] = true.
Proof. do 3 eexists. split; [vm_compute; reflexivity|]. by vm_compute. Qed.

(** Ranges with limits of at most eight bytes that [KeyRangeEqual] calls equal hold the
    same eight-byte ids, provided both or neither of their ends are open. *)
Theorem KeyRangeEqual_same_ids (l r : KeyRange) (id : list byte) :
  (length (Start l) <= 8)%nat -> (length (Start r) <= 8)%nat ->
  (length (End_ l) <= 8)%nat -> (length (End_ r) <= 8)%nat ->
  empty (End_ l) = empty (End_ r) -> length id = 8%nat ->
  KeyRangeEqual (Some l) (Some r) = true ->
  KeyRangeContains (Some l) id = KeyRangeContains (Some r) id.
Proof. apply Equal_correct. Qed.

Lemma KeyRangeEqual_same_ids_witness :
  KeyRangeContains (Some {| Start := []; End_ := [z2b 128] |}) (bs "keyspace") =
  KeyRangeContains (Some {| Start := [z2b 0]; End_ := [z2b 128; z2b 0] |}) (bs "keyspace").
Proof.
  apply (KeyRangeEqual_same_ids {| Start := []; End_ := [z2b 128] |}
    {| Start := [z2b 0]; End_ := [z2b 128; z2b 0] |} (bs "keyspace"));
    first [cbn; lia|reflexivity|vm_compute; reflexivity].
Defined.

(** With one open end the answer is wrong: [-] and [-00] count as equal, although the
    first holds every id and the second no eight-byte id. *)
Example KeyRangeEqual_open_end :
  KeyRangeEqual (Some {| Start := []; End_ := [] |}) (Some {| Start := []; End_ := [z2b 0] |}) = true /\
  KeyRangeContains (Some {| Start := []; End_ := [] |}) (bs "keyspace") = true /\
  KeyRangeContains (Some {| Start := []; End_ := [z2b 0] |}) (bs "keyspace") = false.
Proof. by vm_compute. Qed.

Definition even_shard_text (n i : Z) : option (list byte) :=
  match EvenShardsKeyRange i n with
  | Ret (Ok kr) => Some (KeyRangeString (Some kr))
  | _ => None
  end.

(** For a power of two of at most 256 shards, [GenerateShardRanges] prints exactly the
    ranges of [EvenShardsKeyRange], in order. *)
Theorem GenerateShardRanges_even (k : Z) :
  0 <= k <= 8 ->
  exists rs, GenerateShardRanges (2 ^ k) = Ok rs /\
  Some <$> rs = even_shard_text (2 ^ k) <$> seqZ 0 (2 ^ k).
Proof.
  intros Hk.
  assert (forallb (fun k => match GenerateShardRanges (2 ^ k) with
    | Ok rs => bool_decide (Some <$> rs = even_shard_text (2 ^ k) <$> seqZ 0 (2 ^ k))
    | Err _ => false end) (seqZ 0 9) = true) as Hall by (vm_compute; reflexivity).
  rewrite forallb_elem_of in Hall. specialize (Hall k). rewrite elem_of_seqZ in Hall.
  specialize (Hall ltac:(lia)).
  destruct (GenerateShardRanges (2 ^ k)) as [rs|]; [|done]. exists rs. split; [done|].
  by apply bool_decide_eq_true in Hall.
Qed.

Lemma GenerateShardRanges_even_witness :
  exists rs, GenerateShardRanges (2 ^ 3) = Ok rs /\
  Some <$> rs = even_shard_text (2 ^ 3) <$> seqZ 0 (2 ^ 3).
Proof. apply (GenerateShardRanges_even 3). lia. Defined.

(** The range a printed range stands for. *)
Definition parse_range_text (text : list byte) : option KeyRange :=
  let '(a, b, _) := strings.Cut key_dash text in
  match ParseKeyRangeParts a b with Ok kr => Some kr | Err _ => None end.

Definition ranges_49 : list (list byte) :=
  match GenerateShardRanges 49 with Ok rs => rs | Err _ => [] end.

(** For 49 shards the product [49 * (256 / 49)] rounds below 256 in [float64], so the
    last range ends at [ff] instead of being open: no shard holds the id [ff]. *)
Theorem GenerateShardRanges_49 :
  exists rs, GenerateShardRanges 49 = Ok rs /\ length rs = 49%nat /\
  last rs = Some (bs "fa-ff") /\
  forall r, r ∈ rs -> KeyRangeContains (parse_range_text r) [z2b 255] = false.
Proof.
  exists ranges_49. split_and!; [vm_compute; reflexivity..|].
  assert (forallb (fun r => negb (KeyRangeContains (parse_range_text r) [z2b 255])) ranges_49 = true)
    as Hall by (vm_compute; reflexivity).
  intros r Hr. rewrite forallb_elem_of in Hall. by apply negb_true_iff, Hall.
Qed.
