(* ===== verification/Destination.v ===== *)
(** * Query destinations

    [go/vt/key/destination.go]: how a destination (shard names, key ranges, keyspace ids,
    any shard, all shards) is resolved into shards.  [Resolve] calls a callback for every
    shard; the callback is a parameter, with a state and an error of its own.  The
    theorems say which shards are visited, over shards whose ranges partition the ids. *)

From S2P Require Import Prelude GoStd Key.

(** ** The code *)

(** [topodatapb.ShardReference]. *)
Record ShardReference := { Name : list byte; SKeyRange : option KeyRange }.

(** The implementations of the [Destination] interface. *)
Inductive Destination :=
| DestinationShard (shard : list byte)
| DestinationShards (shards : list (list byte))
| DestinationExactKeyRange (kr : option KeyRange)
| DestinationExactKeyRanges (krs : list (option KeyRange))
| DestinationKeyRange (kr : option KeyRange)
| DestinationKeyRanges (krs : list (option KeyRange))
| DestinationKeyspaceID (ksid : list byte)
| DestinationKeyspaceIDs (ksids : list (list byte))
| DestinationAnyShard
| DestinationAllShards
| DestinationNone.

(** The errors of [Resolve]: its own and the callback's. *)
Inductive dest_error (E : Type) :=
| Callback (e : E)
| NoShardInKeyspace
| NoShardForId
| NotExactlyShards.
Arguments Callback {E} e.
Arguments NoShardInKeyspace {E}.
Arguments NoShardForId {E}.
Arguments NotExactlyShards {E}.

(** [strings.Join(parts, ",")] and the buffer loops of the [String] methods. *)
Definition commas (parts : list (list byte)) : list byte := strings.Join (z2b 44) parts.

(** The [String] methods. *)
Definition DestinationShard_String (d : list byte) : list byte := bs "DestinationShard(" ++ d ++ bs ")".

Definition DestinationShards_String (d : list (list byte)) : list byte :=
  bs "DestinationShards(" ++ commas d ++ bs ")".

Definition DestinationExactKeyRange_String (d : option KeyRange) : list byte :=
  bs "DestinationExactKeyRange(" ++ KeyRangeString d ++ bs ")".

Definition DestinationExactKeyRanges_String (d : list (option KeyRange)) : list byte :=
  bs "DestinationExactKeyRanges(" ++ commas (KeyRangeString <$> d) ++ bs ")".

Definition DestinationKeyRange_String (d : option KeyRange) : list byte :=
  bs "DestinationKeyRange(" ++ KeyRangeString d ++ bs ")".

Definition DestinationKeyRanges_String (d : list (option KeyRange)) : list byte :=
  bs "DestinationKeyRanges(" ++ commas (KeyRangeString <$> d) ++ bs ")".

Definition DestinationKeyspaceID_String (d : list byte) : list byte :=
  bs "DestinationKeyspaceID(" ++ hex.Encode d ++ bs ")".

Definition DestinationKeyspaceIDs_String (d : list (list byte)) : list byte :=
  bs "DestinationKeyspaceIDs(" ++ commas (hex.Encode <$> d) ++ bs ")".

Definition DestinationAnyShard_String : list byte := bs "DestinationAnyShard()".

Definition DestinationAllShards_String : list byte := bs "DestinationAllShards()".

Definition DestinationNone_String : list byte := bs "DestinationNone()".

(** The call of [String] on a [Destination]. *)
Definition Destination_String (d : Destination) : list byte :=
  match d with
  | DestinationShard shard => DestinationShard_String shard
  | DestinationShards shards => DestinationShards_String shards
  | DestinationExactKeyRange kr => DestinationExactKeyRange_String kr
  | DestinationExactKeyRanges krs => DestinationExactKeyRanges_String krs
  | DestinationKeyRange kr => DestinationKeyRange_String kr
  | DestinationKeyRanges krs => DestinationKeyRanges_String krs
  | DestinationKeyspaceID ksid => DestinationKeyspaceID_String ksid
  | DestinationKeyspaceIDs ksids => DestinationKeyspaceIDs_String ksids
  | DestinationAnyShard => DestinationAnyShard_String
  | DestinationAllShards => DestinationAllShards_String
  | DestinationNone => DestinationNone_String
  end.

(** [DestinationsString]. *)
Definition DestinationsString (destinations : list Destination) : list byte :=
  bs "Destinations:" ++ commas (Destination_String <$> destinations).

(** [GetShardForKeyspaceID]. *)
Definition GetShardForKeyspaceID {E} (allShards : list ShardReference) (keyspaceID : list byte)
  : result (dest_error E) (list byte) :=
  match allShards with
  | [] => Err NoShardInKeyspace
  | _ =>
      match list_find (fun s => KeyRangeContains (SKeyRange s) keyspaceID = true) allShards with
      | Some (_, s) => Ok (Name s)
      | None => Err NoShardForId
      end
  end.

Section Resolve.
(** The callback: its state, its error, and one call for one shard. *)
Context {St E : Type} (addShard : St -> list byte -> St * option E).

(** [AnyShardPicker.PickShard]. *)
Context (PickShard : Z -> Z).

(** A run: the callback's state, the slice [allShards] and the error. *)
Abbreviation run := (St * option (dest_error E))%type.

(** [for _, name := range names { if err := addShard(name); err != nil { return err } }]. *)
Fixpoint add_all (names : list (list byte)) (st : St) : run :=
  match names with
  | [] => (st, None)
  | name :: names =>
      match addShard st name with
      | (st, Some e) => (st, Some (Callback e))
      | (st, None) => add_all names st
      end
  end.

(** The stable sort at the start of [processExactKeyRange]; it sorts the caller's slice. *)
Definition sort_shards (allShards : list ShardReference) : list ShardReference :=
  SortFunc (fun s t => KeyRangeStartSmaller (SKeyRange s) (SKeyRange t)) allShards.

(** Its first loop: the shards from the first one with the start of [kr] on. *)
Fixpoint seek_start (kr : option KeyRange) (shards : list ShardReference) : list ShardReference :=
  match shards with
  | [] => []
  | s :: rest => if KeyRangeStartEqual kr (SKeyRange s) then shards else seek_start kr rest
  end.

(** Its second loop. *)
Fixpoint exact_loop (kr : option KeyRange) (shards : list ShardReference) (st : St) : run :=
  match shards with
  | [] => (st, Some NotExactlyShards)
  | s :: rest =>
      if negb (KeyRangesIntersect kr (SKeyRange s)) then (st, Some NotExactlyShards)
      else
        match addShard st (Name s) with
        | (st, Some e) => (st, Some (Callback e))
        | (st, None) =>
            if KeyRangeEndEqual kr (SKeyRange s) then (st, None) else exact_loop kr rest st
        end
  end.

(** [processExactKeyRange]: the run and the sorted slice it leaves behind. *)
Definition processExactKeyRange (allShards : list ShardReference) (kr : option KeyRange) (st : St)
  : run * list ShardReference :=
  let allShards := sort_shards allShards in
  (exact_loop kr (seek_start kr allShards) st, allShards).

(** [DestinationExactKeyRanges.Resolve]. *)
Fixpoint DestinationExactKeyRanges_Resolve (allShards : list ShardReference) (krs : list (option KeyRange)) (st : St)
  : run * list ShardReference :=
  match krs with
  | [] => ((st, None), allShards)
  | kr :: krs =>
      match processExactKeyRange allShards kr st with
      | ((st, Some e), allShards) => ((st, Some e), allShards)
      | ((st, None), allShards) => DestinationExactKeyRanges_Resolve allShards krs st
      end
  end.

(** [processKeyRange]. *)
Fixpoint processKeyRange (allShards : list ShardReference) (kr : option KeyRange) (st : St) : run :=
  match allShards with
  | [] => (st, None)
  | s :: rest =>
      if negb (KeyRangesIntersect kr (SKeyRange s)) then processKeyRange rest kr st
      else
        match addShard st (Name s) with
        | (st, Some e) => (st, Some (Callback e))
        | (st, None) => processKeyRange rest kr st
        end
  end.

(** [DestinationKeyRanges.Resolve]. *)
Fixpoint DestinationKeyRanges_Resolve (allShards : list ShardReference) (krs : list (option KeyRange)) (st : St) : run :=
  match krs with
  | [] => (st, None)
  | kr :: krs =>
      match processKeyRange allShards kr st with
      | (st, Some e) => (st, Some e)
      | (st, None) => DestinationKeyRanges_Resolve allShards krs st
      end
  end.

(** [DestinationKeyspaceIDs.Resolve]. *)
Fixpoint DestinationKeyspaceIDs_Resolve (allShards : list ShardReference) (ksids : list (list byte)) (st : St) : run :=
  match ksids with
  | [] => (st, None)
  | ksid :: ksids =>
      match GetShardForKeyspaceID allShards ksid with
      | Err e => (st, Some e)
      | Ok shard =>
          match addShard st shard with
          | (st, Some e) => (st, Some (Callback e))
          | (st, None) => DestinationKeyspaceIDs_Resolve allShards ksids st
          end
      end
  end.

(** [DestinationShard.Resolve]. *)
Definition DestinationShard_Resolve (d : list byte) (st : St) : run := add_all [d] st.

(** [DestinationShards.Resolve]. *)
Definition DestinationShards_Resolve (d : list (list byte)) (st : St) : run := add_all d st.

(** [DestinationKeyspaceID.Resolve]. *)
Definition DestinationKeyspaceID_Resolve (d : list byte) (allShards : list ShardReference) (st : St) : run :=
  match GetShardForKeyspaceID allShards d with
  | Err e => (st, Some e)
  | Ok shard => add_all [shard] st
  end.

(** [DestinationAnyShard.Resolve]: it panics when the picker gives an index out of range. *)
Definition DestinationAnyShard_Resolve (allShards : list ShardReference) (st : St) : outcome run :=
  match allShards with
  | [] => Ret (st, Some NoShardInKeyspace)
  | _ =>
      s ← index allShards (PickShard (zlen allShards));
      Ret (add_all [Name s] st)
  end.

(** [DestinationAllShards.Resolve]. *)
Definition DestinationAllShards_Resolve (allShards : list ShardReference) (st : St) : run :=
  add_all (Name <$> allShards) st.

(** [DestinationNone.Resolve]. *)
Definition DestinationNone_Resolve (st : St) : run := (st, None).

(** The call of [Resolve] on a [Destination]: the run and the caller's slice afterwards. *)
Definition Resolve (d : Destination) (allShards : list ShardReference) (st : St)
  : outcome (run * list ShardReference) :=
  match d with
  | DestinationShard shard => Ret (DestinationShard_Resolve shard st, allShards)
  | DestinationShards shards => Ret (DestinationShards_Resolve shards st, allShards)
  | DestinationExactKeyRange kr => Ret (processExactKeyRange allShards kr st)
  | DestinationExactKeyRanges krs => Ret (DestinationExactKeyRanges_Resolve allShards krs st)
  | DestinationKeyRange kr => Ret (processKeyRange allShards kr st, allShards)
  | DestinationKeyRanges krs => Ret (DestinationKeyRanges_Resolve allShards krs st, allShards)
  | DestinationKeyspaceID ksid => Ret (DestinationKeyspaceID_Resolve ksid allShards st, allShards)
  | DestinationKeyspaceIDs ksids => Ret (DestinationKeyspaceIDs_Resolve allShards ksids st, allShards)
  | DestinationAnyShard => r ← DestinationAnyShard_Resolve allShards st; Ret (r, allShards)
  | DestinationAllShards => Ret (DestinationAllShards_Resolve allShards st, allShards)
  | DestinationNone => Ret (DestinationNone_Resolve st, allShards)
  end.

(** ** Which shards are visited

    A run that visits the shards [names]: the callback is called for them in order
    until it fails. *)

Lemma processKeyRange_visits allShards kr st :
  processKeyRange allShards kr st =
  add_all (Name <$> filter (fun s => KeyRangesIntersect kr (SKeyRange s) = true) allShards) st.
Proof.
  revert st. induction allShards as [|s rest IH]; intros st; [done|]. cbn [processKeyRange].
  rewrite filter_cons. destruct (KeyRangesIntersect kr (SKeyRange s)); cbn [negb].
  - rewrite decide_True by done. rewrite fmap_cons. cbn [add_all]. by destruct (addShard st (Name s)) as [? [|]].
  - rewrite decide_False by done. apply IH.
Qed.

(** The second loop of [processExactKeyRange] on shards [mid] that end where [kr] does. *)
Lemma exact_loop_visits kr mid lst post st :
  Forall (fun s => KeyRangesIntersect kr (SKeyRange s) = true) (mid ++ [lst]) ->
  Forall (fun s => KeyRangeEndEqual kr (SKeyRange s) = false) mid ->
  KeyRangeEndEqual kr (SKeyRange lst) = true ->
  exact_loop kr (mid ++ lst :: post) st = add_all (Name <$> mid ++ [lst]) st.
Proof.
  revert st. induction mid as [|s mid IH]; intros st Hi He Hl; cbn [app exact_loop].
  - cbn [app] in Hi. rewrite Forall_singleton in Hi. rewrite Hi, Hl. cbn. by destruct (addShard st (Name lst)) as [? [|]].
  - cbn [app] in Hi. apply Forall_cons in Hi as [Hi1 Hi2]. apply Forall_cons in He as [He1 He2].
    cbv beta in Hi1, He1. rewrite Hi1, He1. cbn. destruct (addShard st (Name s)) as [st' [e|]]; [done|]. by apply IH.
Qed.

Lemma seek_start_skips kr pre s rest :
  Forall (fun s => KeyRangeStartEqual kr (SKeyRange s) = false) pre ->
  KeyRangeStartEqual kr (SKeyRange s) = true ->
  seek_start kr (pre ++ s :: rest) = s :: rest.
Proof.
  induction 1 as [|t pre Ht Hpre IH]; intros Hs; cbn [app seek_start]; [by rewrite Hs|].
  rewrite Ht. by apply IH.
Qed.
End Resolve.

(** ** Shards that partition the ids *)

(** The shards named [names] between the limits [l], in order. *)
Definition shards_of (names l : list (list byte)) : list ShardReference :=
  zip_with (fun n kr => {| Name := n; SKeyRange := Some kr |}) names (ranges_between [] l []).

Lemma shards_of_lookup names l i s :
  shards_of names l !! i = Some s -> exists kr, ranges_between [] l [] !! i = Some kr /\ SKeyRange s = Some kr.
Proof.
  unfold shards_of. rewrite lookup_zip_with_Some. intros (n & kr & -> & _ & Hkr). by exists kr.
Qed.

Lemma shards_of_total names l i :
  length names = S (length l) -> (i < S (length l))%nat -> is_Some (shards_of names l !! i).
Proof.
  intros Hn Hi. apply lookup_lt_is_Some_2. unfold shards_of.
  rewrite length_zip_with, length_ranges_between. lia.
Qed.

(** Every id belongs to exactly one of the shards. *)
Lemma shards_of_unique names l id :
  limits_above [] l -> length names = S (length l) ->
  exists s, s ∈ shards_of names l /\ KeyRangeContains (SKeyRange s) id = true /\
  forall t, t ∈ shards_of names l -> KeyRangeContains (SKeyRange t) id = true -> t = s.
Proof.
  intros Hl Hn. destruct (ranges_partition l Hl id) as (i & Hi & Huniq).
  rewrite length_ranges_between in Hi. destruct (shards_of_total names l i Hn Hi) as [s Hs].
  exists s. destruct (shards_of_lookup _ _ _ _ Hs) as (kr & Hkr & Es). split_and!.
  - by apply list_elem_of_lookup_2 in Hs.
  - rewrite Es. by apply (Huniq i).
  - intros t [j Hj]%list_elem_of_lookup_1 Ht. destruct (shards_of_lookup _ _ _ _ Hj) as (kr' & Hkr' & Et).
    rewrite Et in Ht. apply (Huniq j kr' Hkr') in Ht as ->. congruence.
Qed.

Lemma GetShard_unique {E} allShards names l id :
  limits_above [] l -> length names = S (length l) -> allShards ≡ₚ shards_of names l ->
  exists s, s ∈ allShards /\ GetShardForKeyspaceID (E := E) allShards id = Ok (Name s) /\
  forall t, t ∈ allShards -> KeyRangeContains (SKeyRange t) id = true <-> t = s.
Proof.
  intros Hl Hn Hp. destruct (shards_of_unique names l id Hl Hn) as (s & Hs & Hc & Hu).
  exists s. rewrite <- Hp in Hs. split; [done|]. split.
  - unfold GetShardForKeyspaceID. destruct (list_find _ allShards) as [[i t]|] eqn:E1.
    + apply list_find_Some in E1 as (Ht & Hct & _). apply list_elem_of_lookup_2 in Ht.
      assert (t = s) as -> by (apply Hu; [by rewrite <- Hp|done]).
      destruct allShards; [by apply not_elem_of_nil in Ht|done].
    + rewrite list_find_None, Forall_forall in E1. by destruct (E1 s Hs).
  - intros t Ht. split; [|by intros ->]. apply Hu. by rewrite <- Hp.
Qed.

(** ** Exact ranges *)

(** A limit that does not end in a zero byte, so that padding keeps limits apart. *)
Definition trimmed (s : list byte) : Prop := last s <> Some (z2b 0).

Lemma trimmed_padding_inj s t a b :
  trimmed s -> trimmed t -> s ++ replicate a (z2b 0) = t ++ replicate b (z2b 0) -> s = t.
Proof.
  unfold trimmed. revert b. induction a as [|a IH]; intros b Hs Ht H.
  - rewrite app_nil_r in H. destruct b as [|b]; [by rewrite app_nil_r in H|].
    rewrite replicate_S_end, app_assoc in H. subst s. by rewrite last_snoc in Hs.
  - destruct b as [|b].
    + rewrite app_nil_r, replicate_S_end, app_assoc in H. subst t. by rewrite last_snoc in Ht.
    + rewrite !replicate_S_end, !app_assoc in H. apply app_inj_2 in H as [H _]; [|done]. by apply (IH b).
Qed.

Lemma addPadding_trimmed s t : trimmed s -> trimmed t -> addPadding s = addPadding t <-> s = t.
Proof.
  intros Hs Ht. split; [|by intros ->]. unfold addPadding. intros H.
  apply app_inj_1 in H as [_ H]; [|done]. by apply trimmed_padding_inj in H.
Qed.

Lemma ranges_between_facts a l i kr :
  limits_above a l -> trimmed a -> Forall trimmed l -> ranges_between a l [] !! i = Some kr ->
  proper_range (Some kr) /\ trimmed (Start kr) /\ trimmed (End_ kr).
Proof.
  revert a i. induction l as [|b l IH]; intros a [|i] Hl Ha Ht; cbn [ranges_between lookup list_lookup].
  - intros [= <-]. split_and!; [by left|done|done].
  - done.
  - intros [= <-]. destruct Hl as [Hab _]. apply Forall_cons in Ht as [Hb _]. split_and!; [by right|done..].
  - destruct Hl as [_ Hl]. apply Forall_cons in Ht as [Hb Ht]. by apply IH.
Qed.

(** A later range starts at or after the end of an earlier one. *)
Lemma ranges_between_order a l i j r s :
  limits_above a l -> (i < j)%nat -> ranges_between a l [] !! i = Some r -> ranges_between a l [] !! j = Some s ->
  End_ r <> [] /\ bytes_lt (Start r) (End_ r) = true /\ bytes_le (End_ r) (Start s) = true.
Proof.
  revert a i j. induction l as [|b l IH]; intros a i j Hl Hij.
  - destruct j as [|j]; [lia|]. by destruct j.
  - destruct Hl as [Hab Hl]. destruct j as [|j]; [lia|].
    destruct i as [|i]; cbn [ranges_between lookup list_lookup].
    + intros [= <-] Hs. cbn [Start End_]. split_and!; [|done|by apply (ranges_between_above _ _ [] _ _ Hl Hs)].
      intros ->. by rewrite bytes_lt_nil in Hab.
    + intros Hr Hs. apply (IH b i j); [done|lia|done..].
Qed.

Lemma StartSmaller_trans a b c :
  KeyRangeStartSmaller a b = true -> KeyRangeStartSmaller b c = true -> KeyRangeStartSmaller a c = true.
Proof.
  destruct a, b, c; cbn [KeyRangeStartSmaller]; try done. intros H1 H2.
  apply bytes_lt_le in H2. by apply (bytes_lt_le_trans _ _ _ H1).
Qed.

Lemma StartSmaller_irrefl a : KeyRangeStartSmaller a a = false.
Proof. destruct a; [|done]. apply bytes_lt_irrefl. Qed.

(** The starts of the shards increase strictly. *)
Lemma shards_of_starts names l i j s t :
  limits_above [] l -> (i < j)%nat -> shards_of names l !! i = Some s -> shards_of names l !! j = Some t ->
  KeyRangeStartSmaller (SKeyRange s) (SKeyRange t) = true.
Proof.
  intros Hl Hij Hs Ht. destruct (shards_of_lookup _ _ _ _ Hs) as (q & Hq & ->).
  destruct (shards_of_lookup _ _ _ _ Ht) as (r & Hr & ->).
  destruct (ranges_between_order _ _ _ _ _ _ Hl Hij Hq Hr) as (_ & H1 & H2).
  by apply (bytes_lt_le_trans _ _ _ H1).
Qed.

Lemma StronglySorted_lookup {A} (R : relation A) l :
  (forall i j x y, (i < j)%nat -> l !! i = Some x -> l !! j = Some y -> R x y) -> StronglySorted R l.
Proof.
  induction l as [|x l IH]; intros H; constructor.
  - apply IH. intros i j y z Hij Hy Hz. apply (H (S i) (S j)); [lia|done..].
  - apply Forall_lookup. intros i y Hy. apply (H 0 (S i))%nat; [lia|done..].
Qed.

(** Sorting any arrangement of the shards by their starts gives them in order. *)
Lemma sort_shards_of allShards names l :
  limits_above [] l -> allShards ≡ₚ shards_of names l -> sort_shards allShards = shards_of names l.
Proof.
  intros Hl Hp. set (R s t := KeyRangeStartSmaller (SKeyRange t) (SKeyRange s) = false).
  assert (forall i j s t, (i < j)%nat -> shards_of names l !! i = Some s -> shards_of names l !! j = Some t ->
    R s t /\ ~ R t s) as Hlt.
  { unfold R. intros i j s t Hij Hs Ht. pose proof (shards_of_starts _ _ _ _ _ _ Hl Hij Hs Ht) as H.
    rewrite H. split; [|done]. apply not_true_is_false. intros H'.
    pose proof (StartSmaller_trans _ _ _ H H') as H''. by rewrite StartSmaller_irrefl in H''. }
  assert (sort_shards allShards ≡ₚ shards_of names l) as Hs by (unfold sort_shards; by rewrite SortFunc_perm).
  apply (StronglySorted_unique_strong R); [| | |done].
  - intros x y Hx [j Hj]%list_elem_of_lookup_1 Hxy Hyx. rewrite Hs in Hx.
    apply list_elem_of_lookup_1 in Hx as [i Hi].
    destruct (lt_eq_lt_dec i j) as [[Hij| ->]|Hij]; [|congruence|].
    + by destruct (Hlt _ _ _ _ Hij Hi Hj).
    + by destruct (Hlt _ _ _ _ Hij Hj Hi).
  - apply SortFunc_is_ordered; intros *; [apply StartSmaller_trans|apply StartSmaller_irrefl].
  - apply StronglySorted_lookup. intros i j s t Hij Hi Hj. by apply (Hlt i j).
Qed.

(** The shards [i] to [j] of a list. *)
Definition between {A} (i j : nat) (l : list A) : list A := take (S j - i) (drop i l).

Lemma between_split {A} (l : list A) i j x :
  (i <= j)%nat -> l !! j = Some x ->
  drop i l = take (j - i) (drop i l) ++ x :: drop (S j) l /\
  between i j l = take (j - i) (drop i l) ++ [x].
Proof.
  intros Hij Hx. assert (drop i l !! (j - i)%nat = Some x) as Hd.
  { rewrite lookup_drop. by replace (i + (j - i))%nat with j by lia. }
  split.
  - rewrite <- (take_drop_middle _ _ _ Hd) at 1. rewrite drop_drop.
    by replace (i + S (j - i))%nat with (S j) by lia.
  - unfold between. replace (S j - i)%nat with (S (j - i)) by lia. by apply take_S_r.
Qed.

(** What the exact loop meets among the shards between the limits [l]. *)
Section Exact.
Context (names l : list (list byte)) (i j : nat) (r q : KeyRange).
Hypothesis Hl : limits_above [] l.
Hypothesis Ht : Forall trimmed l.
Hypothesis Hij : (i <= j)%nat.
Hypothesis Hr : ranges_between [] l [] !! i = Some r.
Hypothesis Hq : ranges_between [] l [] !! j = Some q.

Definition exact_range : option KeyRange := Some {| Start := Start r; End_ := End_ q |}.

Lemma range_facts k s :
  ranges_between [] l [] !! k = Some s -> proper_range (Some s) /\ trimmed (Start s) /\ trimmed (End_ s).
Proof. by apply ranges_between_facts. Qed.

Lemma exact_start k s :
  ranges_between [] l [] !! k = Some s -> KeyRangeStartEqual exact_range (Some s) = bool_decide (Start r = Start s).
Proof.
  intros Hs. cbn. apply bool_decide_ext. apply addPadding_trimmed; by eapply range_facts.
Qed.

Lemma exact_end k s :
  ranges_between [] l [] !! k = Some s -> KeyRangeEndEqual exact_range (Some s) = bool_decide (End_ q = End_ s).
Proof.
  intros Hs. cbn. apply bool_decide_ext. apply addPadding_trimmed; by eapply range_facts.
Qed.

Lemma exact_before k s :
  (k < i)%nat -> ranges_between [] l [] !! k = Some s -> KeyRangeStartEqual exact_range (Some s) = false.
Proof.
  intros Hk Hs. rewrite (exact_start k s Hs). apply bool_decide_eq_false. intros E.
  destruct (ranges_between_order _ _ _ _ _ _ Hl Hk Hs Hr) as (_ & H1 & H2).
  pose proof (bytes_lt_le_trans _ _ _ H1 H2) as H. by rewrite E, bytes_lt_irrefl in H.
Qed.

Lemma exact_inside k s :
  (k < j)%nat -> ranges_between [] l [] !! k = Some s -> KeyRangeEndEqual exact_range (Some s) = false.
Proof.
  intros Hk Hs. rewrite (exact_end k s Hs). apply bool_decide_eq_false. intros E.
  destruct (ranges_between_order _ _ _ _ _ _ Hl Hk Hs Hq) as (Hne & H1 & H2).
  destruct (range_facts j q Hq) as ([Hq'|Hq'] & _ & _); [congruence|].
  pose proof (bytes_lt_le_trans _ _ _ Hq' (eq_ind_r (fun e => bytes_le e _ = true) H2 E)) as H.
  by rewrite bytes_lt_irrefl in H.
Qed.

Lemma starts_le k k' s s' :
  (k <= k')%nat -> ranges_between [] l [] !! k = Some s -> ranges_between [] l [] !! k' = Some s' ->
  bytes_le (Start s) (Start s') = true.
Proof.
  intros Hk Hs Hs'. destruct (decide (k = k')) as [->|Hne].
  - assert (s = s') as -> by congruence. apply bytes_le_refl.
  - destruct (ranges_between_order _ _ _ _ _ _ Hl (ltac:(lia) : (k < k')%nat) Hs Hs') as (_ & H1 & H2).
    by apply bytes_lt_le, (bytes_lt_le_trans _ _ _ H1).
Qed.

Lemma exact_meets k s :
  (i <= k <= j)%nat -> ranges_between [] l [] !! k = Some s -> KeyRangesIntersect exact_range (Some s) = true.
Proof.
  intros Hk Hs. destruct (range_facts k s Hs) as (H1%proper_below & _ & _).
  destruct (range_facts j q Hq) as (H2%proper_below & _ & _).
  unfold KeyRangesIntersect, exact_range. cbn [Start End_]. apply andb_true_iff. split.
  - apply (below_le _ _ (Start q)); [apply (starts_le k j); [lia|done..]|done].
  - apply (below_le _ _ (Start s)); [apply (starts_le i k); [lia|done..]|done].
Qed.

(** The whole of [processExactKeyRange]. *)
Lemma processExactKeyRange_visits {St E} (addShard : St -> list byte -> St * option E) allShards st :
  length names = S (length l) -> allShards ≡ₚ shards_of names l ->
  processExactKeyRange addShard allShards exact_range st =
  (add_all addShard (Name <$> between i j (shards_of names l)) st, shards_of names l).
Proof.
  intros Hn Hp. unfold processExactKeyRange. rewrite (sort_shards_of _ _ _ Hl Hp). f_equal.
  set (S := shards_of names l).
  destruct (shards_of_total names l j Hn) as [t Hj]; [rewrite <- (length_ranges_between [] l []); by eapply lookup_lt_Some|].
  destruct (shards_of_total names l i Hn) as [s Hi]; [rewrite <- (length_ranges_between [] l []); by eapply lookup_lt_Some|].
  assert (SKeyRange s = Some r) as Es by (destruct (shards_of_lookup _ _ _ _ Hi) as (? & ? & ->); congruence).
  assert (SKeyRange t = Some q) as Et by (destruct (shards_of_lookup _ _ _ _ Hj) as (? & ? & ->); congruence).
  assert (seek_start exact_range S = drop i S) as ->.
  { rewrite <- (take_drop_middle S i s Hi) at 1. rewrite (drop_S S s i Hi). apply seek_start_skips.
    - apply Forall_lookup. intros k x [Hx Hk]%lookup_take_Some.
      destruct (shards_of_lookup _ _ _ _ Hx) as (u & Hu & ->). by apply (exact_before k).
    - rewrite Es, (exact_start i r Hr). by apply bool_decide_eq_true. }
  destruct (between_split S i j t Hij Hj) as [Hd ->]. rewrite Hd at 1. apply exact_loop_visits.
  - destruct (between_split S i j t Hij Hj) as [_ <-]. apply Forall_lookup. unfold between.
    intros k x [Hx Hk]%lookup_take_Some. rewrite lookup_drop in Hx.
    destruct (shards_of_lookup _ _ _ _ Hx) as (u & Hu & ->). apply (exact_meets (i + k)); [lia|done].
  - apply Forall_lookup. intros k x [Hx Hk]%lookup_take_Some. rewrite lookup_drop in Hx.
    destruct (shards_of_lookup _ _ _ _ Hx) as (u & Hu & ->). apply (exact_inside (i + k)); [lia|done].
  - rewrite Et, (exact_end j q Hq). by apply bool_decide_eq_true.
Qed.
(** The ranges [i] to [j] hold together the ids of the exact range. *)
Lemma exact_range_ids id :
  KeyRangeContains exact_range id = true <->
  exists k s, (i <= k <= j)%nat /\ ranges_between [] l [] !! k = Some s /\ KeyRangeContains (Some s) id = true.
Proof.
  destruct (range_facts j q Hq) as (Hp%proper_below & _ & _). unfold exact_range. split.
  - rewrite contains_Some. cbn [Start End_]. intros [H1 H2].
    destruct (ranges_partition l Hl id) as (k & Hk & Hu). apply lookup_lt_is_Some_2 in Hk as [s Hs].
    pose proof (proj2 (Hu k s Hs) eq_refl) as Hc. exists k, s. split_and!; [| |done..].
    all: apply contains_Some in Hc as [H3 H4]; apply Nat.nlt_ge; intros Hlt.
    + destruct (ranges_between_order _ _ _ _ _ _ Hl Hlt Hs Hr) as (Hne & _ & H5).
      apply below_ne in H4; [|done]. pose proof (bytes_lt_le_trans _ _ _ H4 (bytes_le_trans _ _ _ H5 H1)) as H.
      by rewrite bytes_lt_irrefl in H.
    + destruct (ranges_between_order _ _ _ _ _ _ Hl Hlt Hq Hs) as (Hne & _ & H5).
      apply below_ne in H2; [|done]. pose proof (bytes_lt_le_trans _ _ _ H2 (bytes_le_trans _ _ _ H5 H3)) as H.
      by rewrite bytes_lt_irrefl in H.
  - intros (k & s & Hk & Hs & Hc). apply contains_Some in Hc as [H1 H2]. apply contains_Some. cbn [Start End_].
    split; [apply (bytes_le_trans _ (Start s)); [by apply (starts_le i k); [lia|..]|done]|].
    destruct (decide (k = j)) as [->|Hne]; [congruence|].
    destruct (ranges_between_order _ _ _ _ _ _ Hl (ltac:(lia) : (k < j)%nat) Hs Hq) as (He & _ & H5).
    apply below_ne in H2; [|done]. apply (below_le _ _ (Start q)); [|done].
    by apply bytes_lt_le, (bytes_lt_le_trans _ _ _ H2).
Qed.
End Exact.

(** ** What [Resolve] promises *)

(** On shards that split the ids at increasing limits, listed in any order,
    resolving an id calls the callback for exactly the one shard whose range holds it
    and leaves the list of shards alone. *)
Theorem Resolve_KeyspaceID {St E} (addShard : St -> list byte -> St * option E) pick allShards names l id st :
  limits_above [] l -> length names = S (length l) -> allShards ≡ₚ shards_of names l ->
  exists s, s ∈ allShards /\ (forall t, t ∈ allShards -> KeyRangeContains (SKeyRange t) id = true <-> t = s) /\
  Resolve addShard pick (DestinationKeyspaceID id) allShards st = Ret (add_all addShard [Name s] st, allShards).
Proof.
  intros Hl Hn Hp. destruct (GetShard_unique (E := E) allShards names l id Hl Hn Hp) as (s & Hs & Hg & Hu).
  exists s. split_and!; [done..|]. cbn [Resolve]. unfold DestinationKeyspaceID_Resolve. by rewrite Hg.
Qed.

(** Resolving a range calls the callback, in the order of the list, for exactly
    the shards that share an id with the range, until it fails. *)
Theorem Resolve_KeyRange {St E} (addShard : St -> list byte -> St * option E) pick allShards kr st :
  proper_range kr -> Forall (fun s => proper_range (SKeyRange s)) allShards ->
  exists visited, sublist visited allShards /\
  (forall s, s ∈ visited <-> s ∈ allShards /\
     exists id, KeyRangeContains kr id = true /\ KeyRangeContains (SKeyRange s) id = true) /\
  Resolve addShard pick (DestinationKeyRange kr) allShards st = Ret (add_all addShard (Name <$> visited) st, allShards).
Proof.
  intros Hkr Hall. exists (filter (fun s => KeyRangesIntersect kr (SKeyRange s) = true) allShards). split_and!.
  - apply sublist_filter.
  - intros s. rewrite list_elem_of_filter. rewrite Forall_forall in Hall. split.
    + intros [Hi Hs]. split; [done|]. apply KeyRangesIntersect_correct; auto.
    + intros [Hs Hi]. split; [|done]. apply KeyRangesIntersect_correct; auto.
  - cbn [Resolve]. by rewrite processKeyRange_visits.
Qed.

(** On shards that split the ids at increasing limits without trailing zero
    bytes, listed in any order, resolving the range from the start of shard [i] to the
    end of shard [j] calls the callback for exactly the shards [i] to [j] in order, until it
    fails; these hold exactly the ids of the range. The caller's list is left sorted. *)
Theorem Resolve_ExactKeyRange {St E} (addShard : St -> list byte -> St * option E) pick
    allShards names l i j r q st :
  limits_above [] l -> Forall trimmed l -> length names = S (length l) -> allShards ≡ₚ shards_of names l ->
  (i <= j)%nat -> ranges_between [] l [] !! i = Some r -> ranges_between [] l [] !! j = Some q ->
  Resolve addShard pick (DestinationExactKeyRange (exact_range r q)) allShards st =
    Ret (add_all addShard (Name <$> between i j (shards_of names l)) st, shards_of names l) /\
  forall id, KeyRangeContains (exact_range r q) id = true <->
    exists s, s ∈ between i j (shards_of names l) /\ KeyRangeContains (SKeyRange s) id = true.
Proof.
  intros Hl Ht Hn Hp Hij Hr Hq. split.
  - cbn [Resolve]. by rewrite (processExactKeyRange_visits names l i j r q Hl Ht Hij Hr Hq addShard allShards st Hn Hp).
  - intros id. rewrite (exact_range_ids l i j r q Hl Ht Hij Hr Hq). unfold between. split.
    + intros (k & s & Hk & Hs & Hc).
      destruct (shards_of_total names l k Hn) as [t Ht'];
        [rewrite <- (length_ranges_between [] l []); by eapply lookup_lt_Some|].
      exists t. split.
      * apply list_elem_of_lookup. exists (k - i)%nat. apply lookup_take_Some. rewrite lookup_drop.
        replace (i + (k - i))%nat with k by lia. split; [done|lia].
      * destruct (shards_of_lookup _ _ _ _ Ht') as (u & Hu & ->). by simplify_eq.
    + intros (t & [k [Hk Hlt]%lookup_take_Some]%list_elem_of_lookup_1 & Hc). rewrite lookup_drop in Hk.
      destruct (shards_of_lookup _ _ _ _ Hk) as (u & Hu & Eu). exists (i + k)%nat, u.
      rewrite Eu in Hc. split_and!; [lia|lia|done..].
Qed.

(** Four shards listed out of order, and a callback that records the names. *)
Definition limits4 : list (list byte) := [[z2b 64]; [z2b 128]; [z2b 192]].
Definition names4 : list (list byte) := [bs "-40"; bs "40-80"; bs "80-c0"; bs "c0-"].
Definition listed4 : list ShardReference := reverse (shards_of names4 limits4).
Definition record_name (st : list (list byte)) (n : list byte) : list (list byte) * option unit := (st ++ [n], None).

Lemma limits4_above : limits_above [] limits4.
Proof. by vm_compute. Qed.

Lemma listed4_shards : listed4 ≡ₚ shards_of names4 limits4.
Proof. apply reverse_Permutation. Qed.

Lemma Resolve_KeyspaceID_witness :
  exists s, s ∈ listed4 /\ (forall t, t ∈ listed4 -> KeyRangeContains (SKeyRange t) [z2b 130] = true <-> t = s) /\
  Resolve record_name (fun _ => 0) (DestinationKeyspaceID [z2b 130]) listed4 [] =
  Ret (add_all record_name [Name s] [], listed4).
Proof.
  apply (Resolve_KeyspaceID record_name (fun _ => 0) listed4 names4 limits4 [z2b 130] []);
    [exact limits4_above|reflexivity|exact listed4_shards].
Defined.

Lemma Resolve_KeyRange_witness :
  exists visited, sublist visited listed4 /\
  (forall s, s ∈ visited <-> s ∈ listed4 /\
     exists id, KeyRangeContains (Some {| Start := [z2b 48]; End_ := [z2b 129] |}) id = true /\
       KeyRangeContains (SKeyRange s) id = true) /\
  Resolve record_name (fun _ => 0) (DestinationKeyRange (Some {| Start := [z2b 48]; End_ := [z2b 129] |})) listed4 [] =
  Ret (add_all record_name (Name <$> visited) [], listed4).
Proof.
  apply (Resolve_KeyRange record_name (fun _ => 0) listed4); [by right|].
  repeat constructor; (by left) || by right.
Defined.

Lemma Resolve_ExactKeyRange_witness :
  Resolve record_name (fun _ => 0)
    (DestinationExactKeyRange (exact_range {| Start := [z2b 64]; End_ := [z2b 128] |}
       {| Start := [z2b 128]; End_ := [z2b 192] |})) listed4 [] =
  Ret (([bs "40-80"; bs "80-c0"], None), shards_of names4 limits4).
Proof.
  apply (Resolve_ExactKeyRange record_name (fun _ => 0) listed4 names4 limits4 1 2);
    [exact limits4_above| |reflexivity|exact listed4_shards|lia|reflexivity|reflexivity].
  repeat constructor; discriminate.
Defined.
