(* ===== verification/LruCache.v ===== *)
(** * The LRU cache

    [go/cache/lru_cache.go].  The list elements live in a store of their own, so that the
    table and the list share them as the pointers of the source do; a dangling or nil
    element panics.  [LRU_refines] relates every run of the cache to a plain list of
    pairs, the most recently used first. *)

From S2P Require Import Prelude.

(** ** The code *)

Section LRU.
Context {V : Type} (cost : V -> Z).

(** [entry]. *)
Record entry := { e_key : list byte; e_value : V; e_size : Z; timeAccessed : Z }.

(** [LRUCache]: [l_list] holds the elements from front to back, [l_elems] what they point
    to; [l_next] is the next fresh element. *)
Record LRUCache := {
  l_list : list nat;
  l_elems : gmap nat entry;
  l_next : nat;
  l_table : gmap (list byte) nat;
  l_size : Z;
  l_capacity : Z;
  l_evictions : Z;
  l_hits : Z;
  l_misses : Z
}.

(** [NewLRUCache]. *)
Definition NewLRUCache (capacity : Z) : LRUCache :=
  {| l_list := []; l_elems := ∅; l_next := 0; l_table := ∅; l_size := 0; l_capacity := capacity;
     l_evictions := 0; l_hits := 0; l_misses := 0 |}.

(** Updates of single fields. *)
Definition with_list (l : list nat) (c : LRUCache) : LRUCache :=
  {| l_list := l; l_elems := l_elems c; l_next := l_next c; l_table := l_table c; l_size := l_size c;
     l_capacity := l_capacity c; l_evictions := l_evictions c; l_hits := l_hits c; l_misses := l_misses c |}.

Definition with_elem (el : nat) (e : entry) (c : LRUCache) : LRUCache :=
  {| l_list := l_list c; l_elems := <[el := e]> (l_elems c); l_next := l_next c; l_table := l_table c;
     l_size := l_size c; l_capacity := l_capacity c; l_evictions := l_evictions c; l_hits := l_hits c;
     l_misses := l_misses c |}.

Definition with_table (t : gmap (list byte) nat) (c : LRUCache) : LRUCache :=
  {| l_list := l_list c; l_elems := l_elems c; l_next := l_next c; l_table := t; l_size := l_size c;
     l_capacity := l_capacity c; l_evictions := l_evictions c; l_hits := l_hits c; l_misses := l_misses c |}.

Definition with_size (n : Z) (c : LRUCache) : LRUCache :=
  {| l_list := l_list c; l_elems := l_elems c; l_next := l_next c; l_table := l_table c; l_size := n;
     l_capacity := l_capacity c; l_evictions := l_evictions c; l_hits := l_hits c; l_misses := l_misses c |}.

Definition with_counts (ev h m : Z) (c : LRUCache) : LRUCache :=
  {| l_list := l_list c; l_elems := l_elems c; l_next := l_next c; l_table := l_table c; l_size := l_size c;
     l_capacity := l_capacity c; l_evictions := ev; l_hits := h; l_misses := m |}.

(** [element.Value.( *entry)]. *)
Definition deref (c : LRUCache) (el : nat) : outcome entry :=
  match l_elems c !! el with Some e => Ret e | None => Panic end.

(** [container/list]: [Remove] and [MoveToFront] of an element. *)
Definition list_Remove (el : nat) (l : list nat) : list nat := filter (fun x => x <> el) l.

Definition list_MoveToFront (el : nat) (l : list nat) : list nat :=
  if bool_decide (el ∈ l) then el :: list_Remove el l else l.

(** [moveToFront]. *)
Definition moveToFront (el : nat) (now : Z) (c : LRUCache) : outcome LRUCache :=
  let c := with_list (list_MoveToFront el (l_list c)) c in
  e ← deref c el;
  Ret (with_elem el {| e_key := e_key e; e_value := e_value e; e_size := e_size e; timeAccessed := now |} c).

(** The loop of [checkCapacity], over the elements from the back; an empty list has no
    back element, whose value the loop reads. *)
Fixpoint evict_loop (back : list nat) (c : LRUCache) : outcome LRUCache :=
  if l_capacity c <? l_size c then
    match back with
    | [] => Panic
    | delElem :: back =>
        delValue ← deref c delElem;
        let c := with_list (list_Remove delElem (l_list c)) c in
        let c := with_table (delete (e_key delValue) (l_table c)) c in
        let c := with_size (sub64 (l_size c) (e_size delValue)) c in
        evict_loop back (with_counts (add64 (l_evictions c) 1) (l_hits c) (l_misses c) c)
    end
  else Ret c.

(** [checkCapacity]. *)
Definition checkCapacity (c : LRUCache) : outcome LRUCache := evict_loop (reverse (l_list c)) c.

(** [updateInplace]. *)
Definition updateInplace (el : nat) (value : V) (now : Z) (c : LRUCache) : outcome LRUCache :=
  let valueSize := cost value in
  e ← deref c el;
  let sizeDiff := sub64 valueSize (e_size e) in
  let c := with_elem el {| e_key := e_key e; e_value := value; e_size := valueSize; timeAccessed := timeAccessed e |} c in
  let c := with_size (add64 (l_size c) sizeDiff) c in
  c ← moveToFront el now c;
  checkCapacity c.

(** [addNew]: [PushFront] makes a fresh element. *)
Definition addNew (key : list byte) (value : V) (now : Z) (c : LRUCache) : outcome LRUCache :=
  let newEntry := {| e_key := key; e_value := value; e_size := cost value; timeAccessed := now |} in
  let el := l_next c in
  checkCapacity
    {| l_list := el :: l_list c; l_elems := <[el := newEntry]> (l_elems c); l_next := S el;
       l_table := <[key := el]> (l_table c); l_size := add64 (l_size c) (e_size newEntry);
       l_capacity := l_capacity c; l_evictions := l_evictions c; l_hits := l_hits c; l_misses := l_misses c |}.

(** [Get]. *)
Definition LRU_Get (key : list byte) (now : Z) (c : LRUCache) : outcome (option V * LRUCache) :=
  match l_table c !! key with
  | None => Ret (None, with_counts (l_evictions c) (l_hits c) (add64 (l_misses c) 1) c)
  | Some el =>
      c ← moveToFront el now c;
      let c := with_counts (l_evictions c) (add64 (l_hits c) 1) (l_misses c) c in
      e ← deref c el;
      Ret (Some (e_value e), c)
  end.

(** [Set]. *)
Definition LRU_Set (key : list byte) (value : V) (now : Z) (c : LRUCache) : outcome (bool * LRUCache) :=
  c ← match l_table c !! key with
      | Some el => updateInplace el value now c
      | None => addNew key value now c
      end;
  Ret (true, c).

(** [delete]. *)
Definition LRU_delete (key : list byte) (c : LRUCache) : outcome (bool * LRUCache) :=
  match l_table c !! key with
  | None => Ret (false, c)
  | Some el =>
      let c := with_list (list_Remove el (l_list c)) c in
      let c := with_table (delete key (l_table c)) c in
      e ← deref c el;
      Ret (true, with_size (sub64 (l_size c) (e_size e)) c)
  end.

(** [Delete]. *)
Definition LRU_Delete (key : list byte) (c : LRUCache) : outcome LRUCache :=
  '(_, c) ← LRU_delete key c; Ret c.

(** [Clear]. *)
Definition LRU_Clear (c : LRUCache) : LRUCache := with_size 0 (with_table ∅ (with_list [] c)).

(** [SetCapacity]. *)
Definition LRU_SetCapacity (capacity : Z) (c : LRUCache) : outcome LRUCache :=
  checkCapacity
    {| l_list := l_list c; l_elems := l_elems c; l_next := l_next c; l_table := l_table c; l_size := l_size c;
       l_capacity := capacity; l_evictions := l_evictions c; l_hits := l_hits c; l_misses := l_misses c |}.

(** The readers. *)
Definition LRU_Len (c : LRUCache) : Z := zlen (l_list c).
Definition LRU_UsedCapacity (c : LRUCache) : Z := l_size c.
Definition LRU_MaxCapacity (c : LRUCache) : Z := l_capacity c.
Definition LRU_Evictions (c : LRUCache) : Z := l_evictions c.
Definition LRU_Hits (c : LRUCache) : Z := l_hits c.
Definition LRU_Misses (c : LRUCache) : Z := l_misses c.

(** [ForEach]: the callback threads a state and says whether to go on. *)
Fixpoint each_loop {St} (callback : St -> V -> St * bool) (c : LRUCache) (els : list nat) (st : St) : outcome St :=
  match els with
  | [] => Ret st
  | el :: els =>
      e ← deref c el;
      match callback st (e_value e) with
      | (st, false) => Ret st
      | (st, true) => each_loop callback c els st
      end
  end.

Definition LRU_ForEach {St} (callback : St -> V -> St * bool) (c : LRUCache) (st : St) : outcome St :=
  each_loop callback c (l_list c) st.

(** [Items]. *)
Fixpoint items_loop (c : LRUCache) (els : list nat) : outcome (list (list byte * V)) :=
  match els with
  | [] => Ret []
  | el :: els =>
      v ← deref c el;
      items ← items_loop c els;
      Ret ((e_key v, e_value v) :: items)
  end.

Definition LRU_Items (c : LRUCache) : outcome (list (list byte * V)) := items_loop c (l_list c).

(** ** The cache as a list of pairs

    What the cache promises, on the pairs of keys and values from the most to the least
    recently used. *)

(** The cost of all values. *)
Definition total (l : list (list byte * V)) : Z := foldr (fun kv n => cost kv.2 + n) 0 l.

(** The value of a key. *)
Fixpoint assoc (k : list byte) (l : list (list byte * V)) : option V :=
  match l with
  | [] => None
  | (k', v) :: l => if bool_decide (k = k') then Some v else assoc k l
  end.

Definition remove (k : list byte) (l : list (list byte * V)) : list (list byte * V) := filter (fun kv => kv.1 <> k) l.

(** The longest prefix that costs at most [cap]. *)
Fixpoint keep (cap : Z) (l : list (list byte * V)) : list (list byte * V) :=
  match l with
  | [] => []
  | kv :: l => if cost kv.2 <=? cap then kv :: keep (cap - cost kv.2) l else []
  end.

(** A use of the cache and its answer. *)
Inductive lru_op :=
| OpGet (k : list byte) (now : Z)
| OpSet (k : list byte) (v : V) (now : Z)
| OpDelete (k : list byte)
| OpClear
| OpSetCapacity (n : Z).

Inductive lru_answer :=
| Found (v : option V)
| Stored (b : bool)
| Done.

Definition lru_step (op : lru_op) (c : LRUCache) : outcome (lru_answer * LRUCache) :=
  match op with
  | OpGet k now => '(v, c) ← LRU_Get k now c; Ret (Found v, c)
  | OpSet k v now => '(b, c) ← LRU_Set k v now c; Ret (Stored b, c)
  | OpDelete k => c ← LRU_Delete k c; Ret (Done, c)
  | OpClear => Ret (Done, LRU_Clear c)
  | OpSetCapacity n => c ← LRU_SetCapacity n c; Ret (Done, c)
  end.

Fixpoint lru_run (ops : list lru_op) (c : LRUCache) : outcome (list lru_answer * LRUCache) :=
  match ops with
  | [] => Ret ([], c)
  | op :: ops =>
      '(a, c) ← lru_step op c;
      '(al, c) ← lru_run ops c;
      Ret (a :: al, c)
  end.

(** The same uses of a capacity and a list of pairs. *)
Definition spec_step (op : lru_op) (s : Z * list (list byte * V)) : lru_answer * (Z * list (list byte * V)) :=
  let '(cap, l) := s in
  match op with
  | OpGet k _ =>
      (Found (assoc k l), (cap, match assoc k l with Some v => (k, v) :: remove k l | None => l end))
  | OpSet k v _ => (Stored true, (cap, keep cap ((k, v) :: remove k l)))
  | OpDelete k => (Done, (cap, remove k l))
  | OpClear => (Done, (cap, []))
  | OpSetCapacity n => (Done, (n, keep n l))
  end.

Fixpoint spec_run (ops : list lru_op) (s : Z * list (list byte * V)) : list lru_answer * (Z * list (list byte * V)) :=
  match ops with
  | [] => ([], s)
  | op :: ops =>
      let '(a, s) := spec_step op s in
      let '(al, s) := spec_run ops s in
      (a :: al, s)
  end.

(** ** The store behind the list

    The elements of the cache with their pairs; [owns] does not depend on their order. *)
Definition cells := list (nat * (list byte * V)).

Record owns (c : LRUCache) (cs : cells) : Prop := {
  owns_elems : NoDup cs.*1;
  owns_keys : NoDup cs.*2.*1;
  owns_fresh : forall el, el ∈ cs.*1 -> (el < l_next c)%nat;
  owns_entry : forall el k v, (el, (k, v)) ∈ cs ->
    exists t, l_elems c !! el = Some {| e_key := k; e_value := v; e_size := cost v; timeAccessed := t |};
  owns_table : forall k el, l_table c !! k = Some el <-> exists v, (el, (k, v)) ∈ cs;
  owns_size : l_size c = total cs.*2
}.

Definition rep (c : LRUCache) (cs : cells) : Prop := l_list c = cs.*1 /\ owns c cs.

Lemma total_app l l' : total (l ++ l') = total l + total l'.
Proof. unfold total. induction l as [|kv l IH]; cbn; [done|]. fold (total l') in *. lia. Qed.

#[local] Instance total_perm : Proper ((≡ₚ) ==> eq) total.
Proof. intros l l'. induction 1; cbn; unfold total in *; cbn; lia. Qed.

#[local] Instance owns_perm c : Proper ((≡ₚ) ==> iff) (owns c).
Proof.
  assert (forall cs cs', cs ≡ₚ cs' -> owns c cs -> owns c cs') as H.
  { intros cs cs' Hp [H1 H2 H3 H4 H5 H6]. split.
    - by rewrite <- Hp.
    - by rewrite <- Hp.
    - intros el. rewrite <- Hp. apply H3.
    - intros el k v. rewrite <- Hp. apply H4.
    - intros k el. rewrite H5. by setoid_rewrite Hp.
    - by rewrite <- Hp. }
  intros cs cs' Hp. split; by apply H.
Qed.

Lemma filter_key_mid {A B} `{EqDecision B} (f : A -> B) p x q :
  NoDup (f <$> p ++ x :: q) -> filter (fun y => f y <> f x) (p ++ x :: q) = p ++ q.
Proof.
  rewrite fmap_app, fmap_cons. intros (H1 & H2 & H3)%NoDup_app. apply NoDup_cons in H3 as [H3 _].
  assert (forall l : list A, f x ∉ f <$> l -> filter (fun y => f y <> f x) l = l) as Hl.
  { intros l Hx. induction l as [|y l IH]; [done|]. rewrite fmap_cons, not_elem_of_cons in Hx.
    destruct Hx as [Hy Hx]. rewrite filter_cons, decide_True by congruence. by rewrite IH. }
  rewrite filter_app, filter_cons, decide_False by (intros H; by apply H).
  rewrite !Hl; [done|done|]. intros Hx. apply (H2 _ Hx). by left.
Qed.

(** A key in the table splits the cells at its element. *)
Lemma rep_split c cs k el :
  rep c cs -> l_table c !! k = Some el ->
  exists p v q, cs = p ++ (el, (k, v)) :: q /\ owns c ((el, (k, v)) :: p ++ q) /\
  list_Remove el (l_list c) = (p ++ q).*1 /\ remove k cs.*2 = (p ++ q).*2.
Proof.
  intros [Hl Ho] Ht. apply (owns_table _ _ Ho) in Ht as [v Hin].
  apply list_elem_of_split in Hin as (p & q & ->). exists p, v, q. split; [done|]. split_and!.
  - by rewrite Permutation_middle.
  - unfold list_Remove. rewrite Hl, !fmap_app, fmap_cons.
    apply (filter_key_mid id). rewrite list_fmap_id. pose proof (owns_elems _ _ Ho) as H.
    by rewrite fmap_app, fmap_cons in H.
  - unfold remove. rewrite !fmap_app, fmap_cons.
    apply (filter_key_mid fst p.*2 (k, v)). pose proof (owns_keys _ _ Ho) as H. by rewrite fmap_app, fmap_cons in H.
Qed.

(** A key outside the table is not in the list. *)
Lemma rep_absent c cs k :
  owns c cs -> l_table c !! k = None -> k ∉ cs.*2.*1.
Proof.
  intros Ho Ht Hk. rewrite <- list_fmap_compose in Hk. apply list_elem_of_fmap in Hk as ([el [k' v]] & -> & Hin).
  assert (l_table c !! k' = Some el) as H by (apply (owns_table _ _ Ho); eauto). cbn in Ht. congruence.
Qed.

Lemma assoc_absent k l : k ∉ l.*1 -> assoc k l = None /\ remove k l = l.
Proof.
  induction l as [|[k' v] l IH]; [done|]. rewrite fmap_cons, not_elem_of_cons. cbn [fst]. intros [Hk Hl].
  destruct (IH Hl) as [IH1 IH2]. cbn [assoc]. rewrite bool_decide_eq_false_2 by done.
  split; [done|]. unfold remove in *. rewrite filter_cons, decide_True by (cbn; congruence). by rewrite IH2.
Qed.

Lemma assoc_mid k v p q : k ∉ p.*1 -> assoc k (p ++ (k, v) :: q) = Some v.
Proof.
  induction p as [|[k' v'] p IH]; cbn; intros Hk; [by rewrite bool_decide_eq_true_2|].
  apply not_elem_of_cons in Hk as [Hk Hp]. rewrite bool_decide_eq_false_2 by done. by apply IH.
Qed.

(** ** What the steps do to the cells *)

Lemma owns_deref c el k v cs :
  owns c ((el, (k, v)) :: cs) ->
  exists t, deref c el = Ret {| e_key := k; e_value := v; e_size := cost v; timeAccessed := t |}.
Proof. intros Ho. destruct (owns_entry _ _ Ho el k v) as [t Ht]; [by left|]. exists t. unfold deref. by rewrite Ht. Qed.

(** Forgetting the element at the head. *)
Lemma owns_forget c c' el k v cs :
  owns c ((el, (k, v)) :: cs) -> l_elems c' = l_elems c -> l_next c' = l_next c ->
  l_table c' = delete k (l_table c) -> l_size c' = l_size c - cost v -> owns c' cs.
Proof.
  intros [H1 H2 H3 H4 H5 H6] E1 E2 E3 E4. apply NoDup_cons in H1 as [H1 H1'], H2 as [H2 H2']. split.
  - done.
  - done.
  - intros x Hx. rewrite E2. apply H3. by right.
  - intros x k' v' Hx. rewrite E1. apply H4. by right.
  - intros k' x. rewrite E3, lookup_delete_Some, H5. split.
    + intros [Hne [v' [Hx|Hx]%elem_of_cons]]; [congruence|eauto].
    + intros [v' Hx]. split; [|exists v'; by right]. intros ->. apply H2.
      apply list_elem_of_fmap. exists (k', v'). split; [done|]. apply list_elem_of_fmap. by exists (x, (k', v')).
  - rewrite E4, H6. cbn. unfold total. lia.
Qed.

(** Storing a new value and time in the element at the head. *)
Lemma owns_update c c' el k v v' t cs :
  owns c ((el, (k, v)) :: cs) ->
  l_elems c' = <[el := {| e_key := k; e_value := v'; e_size := cost v'; timeAccessed := t |}]> (l_elems c) ->
  l_next c' = l_next c -> l_table c' = l_table c -> l_size c' = l_size c - cost v + cost v' ->
  owns c' ((el, (k, v')) :: cs).
Proof.
  intros [H1 H2 H3 H4 H5 H6] E1 E2 E3 E4. split.
  - done.
  - done.
  - intros x Hx. rewrite E2. by apply H3.
  - intros x k1 v1 [Hx|Hx]%elem_of_cons; rewrite E1.
    + simplify_eq. exists t. apply lookup_insert_eq.
    + rewrite lookup_insert_ne; [apply H4; by right|]. intros ->. apply NoDup_cons in H1 as [H1 _].
      apply H1. apply list_elem_of_fmap. by exists (x, (k1, v1)).
  - intros k1 x. rewrite E3, H5. split; intros [v1 [Hx|Hx]%elem_of_cons]; simplify_eq;
      (by eexists; left) || by eexists; right.
  - rewrite E4, H6. cbn. unfold total. lia.
Qed.

(** A fresh element for an absent key. *)
Lemma owns_add c c' k v t cs :
  owns c cs -> l_table c !! k = None ->
  l_elems c' = <[l_next c := {| e_key := k; e_value := v; e_size := cost v; timeAccessed := t |}]> (l_elems c) ->
  l_next c' = S (l_next c) -> l_table c' = <[k := l_next c]> (l_table c) -> l_size c' = l_size c + cost v ->
  owns c' ((l_next c, (k, v)) :: cs).
Proof.
  intros Ho Hk E1 E2 E3 E4. pose proof (rep_absent _ _ _ Ho Hk) as Hnk. destruct Ho as [H1 H2 H3 H4 H5 H6].
  assert (l_next c ∉ cs.*1) as Hnx by (intros H%H3; lia). split.
  - by apply NoDup_cons.
  - by apply NoDup_cons.
  - intros x [->|Hx]%elem_of_cons; rewrite E2; [cbn; lia|]. apply H3 in Hx. lia.
  - intros x k1 v1 [Hx|Hx]%elem_of_cons; rewrite E1.
    + simplify_eq. exists t. apply lookup_insert_eq.
    + rewrite lookup_insert_ne; [by apply H4|]. intros <-. apply Hnx. apply list_elem_of_fmap. by exists (l_next c, (k1, v1)).
  - intros k1 x. rewrite E3, lookup_insert_Some, H5. split.
    + intros [[-> ->]|[Hne [v1 Hx]]]; [by exists v; left|by exists v1; right].
    + intros [v1 [Hx|Hx]%elem_of_cons]; [left; by simplify_eq|]. right. split; [|eauto].
      intros ->. apply Hnk. rewrite <- list_fmap_compose. apply list_elem_of_fmap. by exists (x, (k1, v1)).
  - rewrite E4, H6. cbn. unfold total. lia.
Qed.

(** Dropping the last element, whatever happens to the capacity and the counters. *)
Lemma rep_pop c c' el k v cs :
  rep c (cs ++ [(el, (k, v))]) -> l_list c' = list_Remove el (l_list c) -> l_elems c' = l_elems c ->
  l_next c' = l_next c -> l_table c' = delete k (l_table c) -> l_size c' = l_size c - cost v -> rep c' cs.
Proof.
  intros [Hl Ho] E1 E2 E3 E4 E5. rewrite Permutation_app_comm in Ho. cbn [app] in Ho. split.
  - rewrite E1, Hl, fmap_app. pose proof (filter_key_mid id cs.*1 el []) as Hf. rewrite app_nil_r in Hf. apply Hf.
    rewrite list_fmap_id, Permutation_app_comm. apply (owns_elems _ _ Ho).
  - by apply (owns_forget c _ el k v).
Qed.

Lemma rep_last c cs el k v :
  rep c (cs ++ [(el, (k, v))]) ->
  l_size c = total cs.*2 + cost v /\
  exists t, deref c el = Ret {| e_key := k; e_value := v; e_size := cost v; timeAccessed := t |}.
Proof.
  intros [_ Ho]. rewrite Permutation_app_comm in Ho. split; [|by eapply owns_deref].
  rewrite (owns_size _ _ Ho). cbn. unfold total. lia.
Qed.

Section Bounded.
Context (M : Z).
Hypothesis cost_bounds : forall v, 0 <= cost v <= M.

Lemma total_nonneg l : 0 <= total l.
Proof. unfold total. induction l as [|[k v] l IH]; cbn; [lia|]. pose proof (cost_bounds v). lia. Qed.

Lemma keep_all cap l : total l <= cap -> keep cap l = l.
Proof.
  revert cap. induction l as [|[k v] l IH]; intros cap; cbn; [done|]. fold (total l). intros H.
  pose proof (total_nonneg l). destruct (Z.leb_spec (cost v) cap); [|lia]. by rewrite IH by lia.
Qed.

Lemma keep_snoc cap l kv : cap < total (l ++ [kv]) -> keep cap (l ++ [kv]) = keep cap l.
Proof.
  revert cap. induction l as [|[k v] l IH]; intros cap; cbn.
  - destruct (Z.leb_spec (cost kv.2) cap); [lia|done].
  - intros H. destruct (Z.leb_spec (cost v) cap); [|done]. f_equal. apply IH. unfold total. lia.
Qed.

Lemma keep_total cap l : 0 <= cap -> total (keep cap l) <= cap.
Proof.
  revert cap. induction l as [|[k v] l IH]; intros cap Hc; cbn; [done|].
  destruct (Z.leb_spec (cost v) cap); cbn; [|done]. fold (total (keep (cap - cost v) l)).
  specialize (IH (cap - cost v)). lia.
Qed.

(** The eviction loop ends with the longest prefix that fits, or panics when not even the
    empty cache does. *)
Lemma evict_loop_keep c cs :
  rep c cs -> total cs.*2 <= MaxInt64 -> 0 <= l_capacity c ->
  exists c' cs', evict_loop (reverse cs.*1) c = Ret c' /\ rep c' cs' /\
  cs'.*2 = keep (l_capacity c) cs.*2 /\ l_capacity c' = l_capacity c.
Proof.
  revert c. induction cs as [|[el [k v]] cs IH] using rev_ind; intros c Hr Hm Hc.
  - exists c, []. cbn. rewrite (owns_size _ _ (proj2 Hr)). cbn.
    destruct (Z.ltb_spec (l_capacity c) 0); [lia|]. done.
  - destruct (rep_last _ _ _ _ _ Hr) as (Hs & t & Hd). rewrite !fmap_app in *.
    cbn [fmap list_fmap fst snd] in *. rewrite reverse_app, reverse_singleton. cbn [app evict_loop]. rewrite total_app in Hm. cbn in Hm.
    pose proof (total_nonneg cs.*2). pose proof (cost_bounds v).
    destruct (Z.ltb_spec (l_capacity c) (l_size c)) as [Hlt|Hge].
    + rewrite Hd. cbn [mbind outcome_bind e_key e_size].
      match goal with |- context [evict_loop _ ?c'] => destruct (IH c') as (c2 & cs2 & E & Hr2 & Hk & Hcap) end.
      * apply (rep_pop c _ el k v); [done..|]. cbn. apply sub64_small. unfold_ints. lia.
      * lia.
      * done.
      * exists c2, cs2. split_and!; [done|done| |done]. rewrite Hk. cbn. symmetry. apply keep_snoc.
        rewrite total_app. cbn. lia.
    + exists c, (cs ++ [(el, (k, v))]). split_and!; [done|done| |done].
      rewrite fmap_app. symmetry. apply keep_all. rewrite total_app. cbn. lia.
Qed.

Lemma checkCapacity_keep c cs :
  rep c cs -> total cs.*2 <= MaxInt64 -> 0 <= l_capacity c ->
  exists c' cs', checkCapacity c = Ret c' /\ rep c' cs' /\
  cs'.*2 = keep (l_capacity c) cs.*2 /\ l_capacity c' = l_capacity c.
Proof. intros [Hl Ho]. unfold checkCapacity. rewrite Hl. by apply evict_loop_keep. Qed.

Lemma moveToFront_front c el k v r now :
  owns c ((el, (k, v)) :: r) -> el ∈ l_list c -> list_Remove el (l_list c) = r.*1 ->
  exists c', moveToFront el now c = Ret c' /\ rep c' ((el, (k, v)) :: r) /\ l_capacity c' = l_capacity c.
Proof.
  intros Ho Hin Hr. destruct (owns_deref _ _ _ _ _ Ho) as [t Ht]. unfold moveToFront, deref in *. cbn [with_list l_elems].
  destruct (l_elems c !! el) as [e|]; [|done]. injection Ht as ->. cbn [mbind outcome_bind e_key e_value e_size].
  eexists. split; [done|]. split; [split|done].
  - cbn. unfold list_MoveToFront. by rewrite bool_decide_eq_true_2, Hr.
  - apply (owns_update c _ el k v v now r Ho); [done..|]. cbn. lia.
Qed.

(** The invariant of a cache whose values cost at most [M]: no sum overflows. *)
Definition lru_inv (c : LRUCache) (cs : cells) : Prop :=
  rep c cs /\ total cs.*2 <= l_capacity c /\ 0 <= l_capacity c <= MaxInt64 - M.

Definition op_ok (op : lru_op) : Prop :=
  match op with OpSetCapacity n => 0 <= n <= MaxInt64 - M | _ => True end.

Abbreviation refines_step op c cs :=
  (exists a c' cs', lru_step op c = Ret (a, c') /\ lru_inv c' cs' /\
   spec_step op (l_capacity c, cs.*2) = (a, (l_capacity c', cs'.*2))).

Lemma Get_refines k now c cs : lru_inv c cs -> refines_step (OpGet k now) c cs.
Proof.
  intros (Hr & Ht & Hc). cbn [lru_step spec_step]. unfold LRU_Get. destruct (l_table c !! k) as [el|] eqn:E.
  - destruct (rep_split _ _ _ _ Hr E) as (p & v & q & -> & Ho & Hrem & Hk). rewrite Hk.
    assert (el ∈ l_list c) as Hin. { destruct Hr as [-> _]. rewrite fmap_app, fmap_cons. apply elem_of_app. right. by left. }
    destruct (moveToFront_front _ _ _ _ _ now Ho Hin Hrem) as (c' & -> & Hr' & Hcap). cbn [mbind outcome_bind].
    assert (assoc k (p ++ (el, (k, v)) :: q).*2 = Some v) as ->.
    { rewrite fmap_app, fmap_cons. apply assoc_mid. destruct Hr as [_ Ho']. pose proof (owns_keys _ _ Ho') as Hn.
      rewrite !fmap_app, !fmap_cons in Hn. cbn [fst snd] in Hn. apply NoDup_app in Hn as (_ & Hn & _).
      intros H. apply (Hn _ H). by left. }
    destruct (owns_deref _ _ _ _ _ (proj2 Hr')) as [t Hd].
    replace (deref _ el) with (deref c' el) by done. rewrite Hd. cbn [mbind outcome_bind e_value].
    do 2 eexists. exists ((el, (k, v)) :: p ++ q). split; [done|]. split; [|cbn; by rewrite Hcap].
    split; [destruct Hr' as [? [? ? ? ? ? ?]]; by split|]. cbn [with_counts l_capacity]. rewrite Hcap. split; [|done].
    rewrite <- (Permutation_middle p q) in Ht. exact Ht.
  - destruct (assoc_absent k cs.*2 (rep_absent _ _ _ (proj2 Hr) E)) as [-> _]. cbn.
    do 3 eexists. split; [done|]. split; [|done]. split; [|done]. destruct Hr as [? [? ? ? ? ? ?]]. by split.
Qed.

Lemma Set_refines k v now c cs : lru_inv c cs -> refines_step (OpSet k v now) c cs.
Proof.
  intros (Hr & Ht & Hc). cbn [lru_step spec_step]. unfold LRU_Set. pose proof (cost_bounds v) as Hv.
  pose proof (total_nonneg cs.*2) as Htn. pose proof (owns_size _ _ (proj2 Hr)) as Hs.
  destruct (l_table c !! k) as [el|] eqn:E.
  - destruct (rep_split _ _ _ _ Hr E) as (p & w & q & -> & Ho & Hrem & Hk). rewrite Hk.
    unfold updateInplace. destruct (owns_deref _ _ _ _ _ Ho) as [t ->]. cbn [mbind outcome_bind e_key e_size].
    assert (el ∈ l_list c) as Hin. { destruct Hr as [-> _]. rewrite fmap_app, fmap_cons. apply elem_of_app. right. by left. }
    rewrite <- (Permutation_middle p q) in Ht, Hs, Htn. cbn in Ht, Hs, Htn. fold (total (p ++ q).*2) in Ht, Hs, Htn.
    pose proof (cost_bounds w) as Hw. pose proof (total_nonneg (p ++ q).*2) as Htp.
    match goal with |- context [moveToFront el now ?c1] =>
      destruct (moveToFront_front c1 el k v (p ++ q) now) as (c2 & -> & Hr2 & Hcap2) end; [|done|done|].
    { eapply (owns_update c _ el k w v); [done..|]. cbn. rewrite (sub64_small (cost v)) by (unfold_ints; lia).
      rewrite add64_small; unfold_ints; lia. }
    cbn [mbind outcome_bind]. cbn in Hcap2.
    destruct (checkCapacity_keep c2 _ Hr2) as (c3 & cs3 & -> & Hr3 & Hk3 & Hcap3); [cbn; fold (total (p ++ q).*2); lia|lia|].
    do 2 eexists. exists cs3. split; [done|]. rewrite Hk3, Hcap3, Hcap2. split; [|done].
    split; [done|]. rewrite Hk3, Hcap3, Hcap2. split; [apply keep_total; lia|done].
  - destruct (assoc_absent k cs.*2 (rep_absent _ _ _ (proj2 Hr) E)) as [_ ->]. unfold addNew.
    match goal with |- context [checkCapacity ?c1] =>
      destruct (checkCapacity_keep c1 ((l_next c, (k, v)) :: cs)) as (c3 & cs3 & -> & Hr3 & Hk3 & Hcap3) end.
    { split; [cbn; f_equal; apply Hr|]. eapply owns_add; [apply Hr|done..|]. cbn. apply add64_small. unfold_ints. lia. }
    { cbn. fold (total cs.*2). lia. }
    { cbn. lia. }
    cbn in Hk3, Hcap3. do 2 eexists. exists cs3. split; [done|]. rewrite Hk3, Hcap3. split; [|done].
    split; [done|]. rewrite Hk3, Hcap3. split; [apply (keep_total _ ((k, v) :: cs.*2)); lia|done].
Qed.

Lemma Delete_refines k c cs : lru_inv c cs -> refines_step (OpDelete k) c cs.
Proof.
  intros (Hr & Ht & Hc). cbn [lru_step spec_step]. unfold LRU_Delete, LRU_delete.
  destruct (l_table c !! k) as [el|] eqn:E.
  - destruct (rep_split _ _ _ _ Hr E) as (p & v & q & -> & Ho & Hrem & Hk). rewrite Hk.
    destruct (owns_deref _ _ _ _ _ Ho) as [t Hd].
    replace (deref _ el) with (deref c el) by done. rewrite Hd. cbn [mbind outcome_bind e_size].
    pose proof (owns_size _ _ Ho) as Hs. cbn in Hs. fold (total (p ++ q).*2) in Hs.
    rewrite <- (Permutation_middle p q) in Ht. cbn in Ht. fold (total (p ++ q).*2) in Ht.
    pose proof (cost_bounds v). pose proof (total_nonneg (p ++ q).*2).
    do 2 eexists. exists (p ++ q). split; [done|]. split; [|done]. split; [split; [done|]|].
    + eapply (owns_forget c _ el k v); [done..|]. cbn. apply sub64_small. unfold_ints. lia.
    + cbn. lia.
  - destruct (assoc_absent k cs.*2 (rep_absent _ _ _ (proj2 Hr) E)) as [_ ->].
    do 3 eexists. split; [done|]. split; [|done]. done.
Qed.

Lemma Clear_refines c cs : lru_inv c cs -> refines_step OpClear c cs.
Proof.
  intros (Hr & Ht & Hc). do 2 eexists. exists []. split; [done|]. split; [|done].
  split; [split; [done|]|cbn; lia]. split.
  - constructor.
  - constructor.
  - intros el H. by apply not_elem_of_nil in H.
  - intros el k v H. by apply not_elem_of_nil in H.
  - intros k el. cbn. rewrite lookup_empty. split; [done|]. intros [v H]. by apply not_elem_of_nil in H.
  - done.
Qed.

Lemma SetCapacity_refines n c cs : lru_inv c cs -> op_ok (OpSetCapacity n) -> refines_step (OpSetCapacity n) c cs.
Proof.
  intros (Hr & Ht & Hc) Hn. cbn in Hn. cbn [lru_step spec_step]. unfold LRU_SetCapacity.
  pose proof (cost_bounds) as Hb.
  match goal with |- context [checkCapacity ?c1] =>
    destruct (checkCapacity_keep c1 cs) as (c3 & cs3 & -> & Hr3 & Hk3 & Hcap3) end.
  { destruct Hr as [? [? ? ? ? ? ?]]. by split. }
  { assert (0 <= M \/ cs.*2 = []) as [HM| ->]; [|lia|cbn; unfold MaxInt64; lia].
    destruct cs as [|[el [k v]] cs]; [by right|]. left. specialize (Hb v). lia. }
  { cbn. lia. }
  cbn in Hk3, Hcap3. do 2 eexists. exists cs3. split; [done|]. rewrite Hk3, Hcap3. split; [|done].
  split; [done|]. rewrite Hk3, Hcap3. split; [apply keep_total; lia|done].
Qed.

(** [Get] and [Set] as their clients use them. *)
Lemma LRU_Get_spec k now c cs :
  lru_inv c cs -> exists c' cs', LRU_Get k now c = Ret (assoc k cs.*2, c') /\ lru_inv c' cs' /\
  l_capacity c' = l_capacity c /\ cs'.*2 = match assoc k cs.*2 with Some v => (k, v) :: remove k cs.*2 | None => cs.*2 end.
Proof.
  intros Hi. destruct (Get_refines k now c cs Hi) as (a & c' & cs' & E & Hi' & Es). cbn [lru_step spec_step] in E, Es.
  destruct (LRU_Get k now c) as [[v c1]|]; cbn [mbind outcome_bind] in E; [|done]. simplify_eq. by exists c', cs'.
Qed.

Lemma LRU_Set_spec k v now c cs :
  lru_inv c cs -> exists c' cs', LRU_Set k v now c = Ret (true, c') /\ lru_inv c' cs' /\
  l_capacity c' = l_capacity c /\ cs'.*2 = keep (l_capacity c) ((k, v) :: remove k cs.*2).
Proof.
  intros Hi. destruct (Set_refines k v now c cs Hi) as (a & c' & cs' & E & Hi' & Es). cbn [lru_step spec_step] in E, Es.
  destruct (LRU_Set k v now c) as [[b c1]|]; cbn [mbind outcome_bind] in E; [|done]. simplify_eq. by exists c', cs'.
Qed.

Lemma step_refines op c cs : lru_inv c cs -> op_ok op -> refines_step op c cs.
Proof.
  intros Hi Ho. destruct op.
  - by apply Get_refines.
  - by apply Set_refines.
  - by apply Delete_refines.
  - by apply Clear_refines.
  - by apply SetCapacity_refines.
Qed.

Lemma run_refines ops c cs :
  lru_inv c cs -> Forall op_ok ops ->
  exists al c' cs', lru_run ops c = Ret (al, c') /\ lru_inv c' cs' /\
  spec_run ops (l_capacity c, cs.*2) = (al, (l_capacity c', cs'.*2)).
Proof.
  intros Hi Ho. revert c cs Hi. induction Ho as [|op ops Hop Hops IH]; intros c cs Hi; [by exists [], c, cs|].
  destruct (step_refines op c cs Hi Hop) as (a & c1 & cs1 & E1 & Hi1 & Es1).
  destruct (IH c1 cs1 Hi1) as (al & c2 & cs2 & E2 & Hi2 & Es2). exists (a :: al), c2, cs2.
  cbn [lru_run spec_run]. rewrite E1, Es1. cbn [mbind outcome_bind]. rewrite E2, Es2. done.
Qed.

Lemma lru_inv_new cap : 0 <= cap <= MaxInt64 - M -> lru_inv (NewLRUCache cap) [].
Proof.
  intros Hc. split; [split; [done|]|cbn; lia]. split.
  - constructor.
  - constructor.
  - intros el H. by apply not_elem_of_nil in H.
  - intros el k v H. by apply not_elem_of_nil in H.
  - intros k el. cbn. rewrite lookup_empty. split; [done|]. intros [v H]. by apply not_elem_of_nil in H.
  - done.
Qed.

Lemma rep_items c cs : rep c cs -> LRU_Items c = Ret cs.*2.
Proof.
  intros [Hl Ho]. unfold LRU_Items. rewrite Hl. pose proof (owns_entry _ _ Ho) as He. clear Hl Ho.
  induction cs as [|[el [k v]] cs IH]; [done|]. cbn [fmap list_fmap fst items_loop].
  destruct (He el k v) as [t Ht]; [by left|]. unfold deref. rewrite Ht. cbn [mbind outcome_bind e_key e_value].
  rewrite IH; [done|]. intros el' k' v' H. apply He. by right.
Qed.
End Bounded.

(** Below a capacity of zero the eviction loop empties the cache and then reads the
    back of the empty list. *)
Lemma evict_loop_negative c cs :
  (forall v, 0 <= cost v) -> rep c cs -> total cs.*2 <= MaxInt64 -> l_capacity c < 0 ->
  evict_loop (reverse cs.*1) c = Panic.
Proof.
  intros Hcost. assert (forall l, 0 <= total l) as Hpos.
  { induction l as [|[k v] l IH]; cbn; [lia|]. fold (total l). specialize (Hcost v). lia. }
  revert c. induction cs as [|[el [k v]] cs IH] using rev_ind; intros c Hr Hm Hc.
  - cbn. rewrite (owns_size _ _ (proj2 Hr)). cbn. destruct (Z.ltb_spec (l_capacity c) 0); [done|lia].
  - destruct (rep_last _ _ _ _ _ Hr) as (Hs & t & Hd). rewrite !fmap_app in *.
    cbn [fmap list_fmap fst snd] in *. rewrite reverse_app, reverse_singleton. cbn [app evict_loop]. rewrite total_app in Hm. cbn in Hm.
    pose proof (Hpos cs.*2). pose proof (Hcost v). destruct (Z.ltb_spec (l_capacity c) (l_size c)); [|lia].
    rewrite Hd. cbn [mbind outcome_bind e_key e_size]. apply IH; [|lia|done].
    apply (rep_pop c _ el k v); [done..|]. cbn. apply sub64_small. unfold_ints. lia.
Qed.
End LRU.

Arguments entry V : clear implicits.
Arguments LRUCache V : clear implicits.
Arguments lru_op V : clear implicits.
Arguments lru_answer V : clear implicits.

(** ** What the cache promises *)

(** C12: with values of a cost between 0 and [M] and capacities that leave room for one more
    value below the largest [int64], every sequence of uses of a new cache runs without
    panic and answers as the list of pairs does: a found or stored pair moves to the front,
    and what no longer fits is dropped from the back.  [Items] lists the pairs, [Len] and
    [UsedCapacity] count them, and the used capacity never exceeds the capacity. *)
Theorem LRU_refines {V} (cost : V -> Z) M cap ops :
  (forall v, 0 <= cost v <= M) -> 0 <= cap <= MaxInt64 - M -> Forall (op_ok M) ops ->
  exists al c l, lru_run cost ops (NewLRUCache cap) = Ret (al, c) /\
  spec_run cost ops (cap, []) = (al, (LRU_MaxCapacity c, l)) /\
  LRU_Items c = Ret l /\ LRU_Len c = zlen l /\
  LRU_UsedCapacity c = total cost l /\ total cost l <= LRU_MaxCapacity c.
Proof.
  intros Hb Hc Ho. destruct (run_refines cost M Hb ops _ [] (lru_inv_new cost M cap Hc) Ho) as (al & c & cs & E & Hi & Es).
  exists al, c, cs.*2. destruct Hi as (Hr & Ht & _). split_and!; [done|done|by apply (rep_items cost)| |apply Hr|done].
  unfold LRU_Len, zlen. destruct Hr as [-> _]. by rewrite !length_fmap.
Qed.

(** A negative capacity, given to [SetCapacity] after any such uses, makes the eviction
    loop run past the last element: it panics. *)
Theorem LRU_negative_capacity {V} (cost : V -> Z) M cap ops n :
  (forall v, 0 <= cost v <= M) -> 0 <= cap <= MaxInt64 - M -> Forall (op_ok M) ops -> n < 0 ->
  exists al c, lru_run cost ops (NewLRUCache cap) = Ret (al, c) /\ LRU_SetCapacity n c = Panic.
Proof.
  intros Hb Hc Ho Hn. destruct (run_refines cost M Hb ops _ [] (lru_inv_new cost M cap Hc) Ho) as (al & c & cs & E & Hi & _).
  exists al, c. split; [done|]. destruct Hi as (Hr & Ht & Hcap). unfold LRU_SetCapacity, checkCapacity. cbn [l_list].
  destruct Hr as [Hl How]. rewrite Hl. apply (evict_loop_negative cost); [intros v; apply Hb| | |done].
  - split; [done|]. by destruct How.
  - destruct cs as [|[el [k v]] cs]; [done|]. pose proof (Hb v). lia.
Qed.

(** Three large values in a cache for one and a half of them. *)
Definition cost_flag (b : bool) : Z := if b then 4 else 1.

Definition ops_flag : list (lru_op bool) :=
  [OpSet (bs "a") true 1; OpSet (bs "b") false 2; OpGet (bs "a") 3; OpSet (bs "c") false 4; OpGet (bs "b") 5;
   OpSetCapacity 2].

Lemma cost_flag_bounds v : 0 <= cost_flag v <= 4.
Proof. destruct v; cbn; lia. Qed.

Lemma ops_flag_ok : Forall (op_ok 4) ops_flag.
Proof. repeat constructor; unfold MaxInt64; lia. Qed.

Lemma LRU_refines_witness :
  exists al c l, lru_run cost_flag ops_flag (NewLRUCache 5) = Ret (al, c) /\
  spec_run cost_flag ops_flag (5, []) = (al, (LRU_MaxCapacity c, l)) /\
  LRU_Items c = Ret l /\ LRU_Len c = zlen l /\
  LRU_UsedCapacity c = total cost_flag l /\ total cost_flag l <= LRU_MaxCapacity c.
Proof.
  apply (LRU_refines cost_flag 4 5 ops_flag); [exact cost_flag_bounds|unfold MaxInt64; lia|exact ops_flag_ok].
Defined.

Lemma LRU_negative_capacity_witness :
  exists al c, lru_run cost_flag ops_flag (NewLRUCache 5) = Ret (al, c) /\ LRU_SetCapacity (-1) c = Panic.
Proof.
  apply (LRU_negative_capacity cost_flag 4 5 ops_flag (-1));
    [exact cost_flag_bounds|unfold MaxInt64; lia|exact ops_flag_ok|lia].
Defined.

(** The answers of that run: [b] is pushed out by [c], [a] by the smaller capacity. *)
Example ops_flag_answers :
  (al ← lru_run cost_flag ops_flag (NewLRUCache 5); items ← LRU_Items al.2; Ret (al.1, items)) =
  Ret ([Stored true; Stored true; Found (Some true); Stored true; Found None; Done], [(bs "c", false)]).
Proof. vm_compute. reflexivity. Qed.
