(* ===== verification/Consolidator.v ===== *)
(** * The query consolidator

    [go/sync2/consolidator.go]: the cache that counts consolidated queries, on top of the
    LRU cache, and the consolidator that lets one execution answer all duplicates of
    a query.  The clients of the consolidator are a step relation; its reachable states
    share each result correctly and do not get stuck. *)

From S2P Require Import Prelude LruCache.

(** ** The cache of counts *)

(** [ConsolidatorCache]: the LRU cache holds pointers to counters. *)
Record ConsolidatorCache := {
  cc_lru : LRUCache nat;
  cc_counts : gmap nat Z;
  cc_next : nat
}.

(** The cost function of [NewConsolidatorCache]. *)
Definition unit_cost {A} (_ : A) : Z := 1.

Definition NewConsolidatorCache (capacity : Z) : ConsolidatorCache :=
  {| cc_lru := NewLRUCache capacity; cc_counts := ∅; cc_next := 0 |}.

(** [ccount.get] and [ccount.add]. *)
Definition ccount_get (cc : ConsolidatorCache) (p : nat) : outcome Z :=
  match cc_counts cc !! p with Some n => Ret n | None => Panic end.

Definition ccount_add (cc : ConsolidatorCache) (p : nat) (n : Z) : outcome ConsolidatorCache :=
  k ← ccount_get cc p;
  Ret {| cc_lru := cc_lru cc; cc_counts := <[p := add64 k n]> (cc_counts cc); cc_next := cc_next cc |}.

(** The two halves of [Record]: the lookup, and what follows it.  The mutex of the LRU
    cache is released in between. *)
Definition record_lookup (query : list byte) (now : Z) (cc : ConsolidatorCache)
  : outcome (option nat * ConsolidatorCache) :=
  '(v, lru) ← LRU_Get query now (cc_lru cc);
  Ret (v, {| cc_lru := lru; cc_counts := cc_counts cc; cc_next := cc_next cc |}).

Definition record_update (query : list byte) (now : Z) (v : option nat) (cc : ConsolidatorCache)
  : outcome ConsolidatorCache :=
  match v with
  | Some p => ccount_add cc p 1
  | None =>
      let c := cc_next cc in
      '(_, lru) ← LRU_Set unit_cost query c now (cc_lru cc);
      Ret {| cc_lru := lru; cc_counts := <[c := 1]> (cc_counts cc); cc_next := S c |}
  end.

(** [ConsolidatorCache.Record]. *)
Definition CC_Record (query : list byte) (now : Z) (cc : ConsolidatorCache) : outcome ConsolidatorCache :=
  '(v, cc) ← record_lookup query now cc;
  record_update query now v cc.

(** [ConsolidatorCache.Items]. *)
Fixpoint cc_items_loop (cc : ConsolidatorCache) (items : list (list byte * nat)) : outcome (list (list byte * Z)) :=
  match items with
  | [] => Ret []
  | (query, p) :: items =>
      n ← ccount_get cc p;
      ret ← cc_items_loop cc items;
      Ret ((query, n) :: ret)
  end.

Definition CC_Items (cc : ConsolidatorCache) : outcome (list (list byte * Z)) :=
  items ← LRU_Items (cc_lru cc);
  cc_items_loop cc items.

(** ** The counts as a list

    The promise of the cache on a list of queries and counts, the latest first. *)
Definition spec_record (cap : Z) (q : list byte) (l : list (list byte * Z)) : list (list byte * Z) :=
  match assoc q l with
  | Some n => (q, add64 n 1) :: remove q l
  | None => keep unit_cost cap ((q, 1) :: l)
  end.

(** The counter a pointer of the LRU cache leads to. *)
Definition counted (m : gmap nat Z) (kp : list byte * nat) (kn : list byte * Z) : Prop :=
  kp.1 = kn.1 /\ m !! kp.2 = Some kn.2.

Record cc_rep (cc : ConsolidatorCache) (l : list (list byte * Z)) : Prop := {
  cc_cells : exists cs, lru_inv unit_cost 1 (cc_lru cc) cs /\ NoDup cs.*2.*2 /\
    (forall p, p ∈ cs.*2.*2 -> (p < cc_next cc)%nat) /\ Forall2 (counted (cc_counts cc)) cs.*2 l
}.

Lemma unit_bounds {A} (v : A) : 0 <= unit_cost v <= 1.
Proof. unfold unit_cost. lia. Qed.

Lemma counted_assoc m q ps l :
  Forall2 (counted m) ps l ->
  match assoc q ps with
  | Some p => exists n, assoc q l = Some n /\ m !! p = Some n
  | None => assoc q l = None
  end.
Proof.
  induction 1 as [|[k p] [k' n] ps l [E Hp] _ IH]; [done|]. cbn in E, Hp. subst k'. cbn [assoc].
  case_bool_decide; [|done]. by exists n.
Qed.

Lemma counted_remove m q ps l : Forall2 (counted m) ps l -> Forall2 (counted m) (remove q ps) (remove q l).
Proof.
  unfold remove. induction 1 as [|[k p] [k' n] ps l [E Hp] H IH]; [constructor|]. cbn in E, Hp. subst k'.
  rewrite !filter_cons. cbn [fst]. case_decide; [by constructor|done].
Qed.

Lemma counted_keep m cap ps l :
  Forall2 (counted m) ps l -> Forall2 (counted m) (keep unit_cost cap ps) (keep unit_cost cap l).
Proof.
  intros H. revert cap. induction H as [|[k p] [k' n] ps l Hc H IH]; intros cap; [constructor|].
  cbn [keep snd]. replace (unit_cost n) with (unit_cost p) by done. case_match; constructor; [done|]. apply IH.
Qed.

Lemma counted_insert m p n ps l :
  p ∉ ps.*2 -> Forall2 (counted m) ps l -> Forall2 (counted (<[p := n]> m)) ps l.
Proof.
  intros Hp H. induction H as [|[k p'] [k' n'] ps l [E Hc] H IH]; [constructor|].
  cbn in Hp. apply not_elem_of_cons in Hp as [Hne Hp]. constructor; [|by apply IH].
  split; [done|]. cbn in *. by rewrite lookup_insert_ne.
Qed.

Lemma remove_sublist {V} q (l : list (list byte * V)) : sublist (remove q l) l.
Proof. apply sublist_filter. Qed.

Lemma keep_sublist {V} (cost : V -> Z) cap (l : list (list byte * V)) : sublist (keep cost cap l) l.
Proof.
  revert cap. induction l as [|kv l IH]; intros cap; [done|]. cbn [keep]. case_match; [by constructor|apply sublist_nil_l].
Qed.

Lemma assoc_remove_None {V} q (l : list (list byte * V)) : assoc q l = None -> remove q l = l.
Proof.
  unfold remove. induction l as [|[k w] l IH]; [done|]. cbn [assoc]. case_bool_decide as E; [done|]. intros Ha.
  rewrite filter_cons, decide_True by (cbn; congruence). by rewrite IH.
Qed.

Lemma assoc_remove {V} q v (l : list (list byte * V)) :
  NoDup l.*2 -> assoc q l = Some v -> (v ∉ (remove q l).*2) /\ v ∈ l.*2.
Proof.
  induction l as [|[k w] l IH]; [done|]. cbn [fmap list_fmap snd assoc]. intros [Hw Hn]%NoDup_cons.
  unfold remove. rewrite filter_cons. cbn [fst]. case_bool_decide as E.
  - intros [= ->]. rewrite decide_False by (intros H; by apply H). split; [|by left].
    intros H. apply Hw. eapply sublist_subseteq; [|exact H]. apply fmap_sublist, sublist_filter.
  - intros Ha. destruct (IH Hn Ha) as [H1 H2]. rewrite decide_True by congruence. cbn [fmap list_fmap snd].
    split; [|by right]. apply not_elem_of_cons. split; [|done]. congruence.
Qed.

Lemma cc_rep_new cap : 0 <= cap <= MaxInt64 - 1 -> cc_rep (NewConsolidatorCache cap) [].
Proof.
  intros Hc. split. exists []. split; [by apply lru_inv_new|]. split; [constructor|]. split; [|constructor].
  intros p H. by apply not_elem_of_nil in H.
Qed.

(** [Record] refines the list. *)
Lemma CC_Record_refines q now cc l :
  cc_rep cc l -> exists cc', CC_Record q now cc = Ret cc' /\
  cc_rep cc' (spec_record (l_capacity (cc_lru cc)) q l) /\ l_capacity (cc_lru cc') = l_capacity (cc_lru cc).
Proof.
  intros [(cs & Hi & Hnd & Hlt & Hcnt)].
  destruct (LRU_Get_spec unit_cost 1 q now _ _ Hi) as (lru & cs1 & Eg & Hi1 & Hcap1 & Hcs1).
  unfold CC_Record, record_lookup. rewrite Eg. cbn [mbind outcome_bind].
  pose proof (counted_assoc _ q _ _ Hcnt) as Ha. unfold spec_record. destruct (assoc q cs.*2) as [p|] eqn:Ep.
  - destruct Ha as (n & -> & Hp). destruct (assoc_remove _ _ _ Hnd Ep) as [Hp1 Hp2].
    cbn [record_update]. unfold ccount_add, ccount_get. cbn [cc_counts]. rewrite Hp. cbn [mbind outcome_bind].
    eexists. split; [done|]. split; [|done]. split. exists cs1. split; [done|].
    rewrite Hcs1. cbn [fmap list_fmap snd cc_next cc_counts]. split_and!.
    + apply NoDup_cons. split; [done|]. eapply sublist_NoDup; [exact Hnd|]. apply fmap_sublist, remove_sublist.
    + intros x [->|Hx]%elem_of_cons; apply Hlt; [done|]. eapply sublist_subseteq; [|exact Hx].
      apply fmap_sublist, remove_sublist.
    + constructor; [split; [done|apply lookup_insert_eq]|]. apply counted_insert; [done|]. by apply counted_remove.
  - rewrite Ha. cbn [record_update cc_next].
    destruct (LRU_Set_spec unit_cost 1 (@unit_bounds nat) q (cc_next cc) now _ _ Hi1) as (lru2 & cs2 & Es & Hi2 & Hcap2 & Hcs2).
    cbn [cc_lru]. rewrite Es. cbn [mbind outcome_bind]. eexists. split; [done|]. cbn [cc_lru cc_next cc_counts].
    split; [|congruence]. split. exists cs2. split; [done|].
    rewrite Hcs2, Hcs1, Hcap1, (assoc_remove_None _ _ Ep). cbn [cc_next cc_counts]. split_and!.
    + eapply sublist_NoDup; [|apply fmap_sublist, keep_sublist]. apply NoDup_cons. split; [|done].
      intros Hn%Hlt. cbn in Hn. lia.
    + intros x Hx. assert (x ∈ ((q, cc_next cc) :: cs.*2).*2) as Hx'.
      { eapply sublist_subseteq; [|exact Hx]. apply fmap_sublist, keep_sublist. }
      cbn in Hx'. apply elem_of_cons in Hx' as [->|Hx']; cbn; [lia|]. apply Hlt in Hx'. lia.
    + apply counted_keep. constructor; [split; [done|apply lookup_insert_eq]|].
      apply counted_insert; [|done]. intros Hn%Hlt. lia.
Qed.

Lemma cc_rep_items cc l : cc_rep cc l -> CC_Items cc = Ret l.
Proof.
  intros [(cs & (Hr & _) & _ & _ & Hcnt)]. unfold CC_Items. rewrite (rep_items unit_cost _ _ Hr). cbn [mbind outcome_bind].
  clear Hr. induction Hcnt as [|[k p] [k' n] ps l [E Hp] _ IH]; [done|]. cbn in E, Hp. subst k'.
  cbn [cc_items_loop]. unfold ccount_get. rewrite Hp. cbn [mbind outcome_bind]. by rewrite IH.
Qed.

(** Calls of [Record] one after the other. *)
Fixpoint record_all (qs : list (list byte * Z)) (cc : ConsolidatorCache) : outcome ConsolidatorCache :=
  match qs with
  | [] => Ret cc
  | (q, now) :: qs => cc ← CC_Record q now cc; record_all qs cc
  end.

Lemma record_all_refines qs cc l :
  cc_rep cc l -> exists cc', record_all qs cc = Ret cc' /\
  cc_rep cc' (foldl (fun l q => spec_record (l_capacity (cc_lru cc)) q.1 l) l qs).
Proof.
  revert cc l. induction qs as [|[q now] qs IH]; intros cc l H; [by exists cc|]. cbn [record_all foldl].
  destruct (CC_Record_refines q now cc l H) as (cc1 & -> & H1 & Hcap). cbn [mbind outcome_bind].
  rewrite <- Hcap in H1. destruct (IH cc1 _ H1) as (cc2 & -> & H2). exists cc2. split; [done|]. by rewrite Hcap in H2.
Qed.

(** ** The consolidator *)

Section Consolidator.
Context {R E : Type}.

(** [Result], with the state of its lock: held for writing, and the number of readers. *)
Record Result := {
  r_writing : bool;
  r_readers : nat;
  r_query : list byte;
  r_Result : option R;
  r_Err : option E
}.

(** [Consolidator]; [co_results] is what the pointers to results point to. *)
Record Consolidator := {
  co_cache : ConsolidatorCache;
  co_queries : gmap (list byte) nat;
  co_results : gmap nat Result;
  co_next : nat
}.

(** [NewConsolidator]. *)
Definition NewConsolidator : Consolidator :=
  {| co_cache := NewConsolidatorCache 1000; co_queries := ∅; co_results := ∅; co_next := 0 |}.

(** [Create]. *)
Definition Create (query : list byte) (co : Consolidator) : (nat * bool) * Consolidator :=
  match co_queries co !! query with
  | Some r => ((r, false), co)
  | None =>
      let r := co_next co in
      let res := {| r_writing := true; r_readers := 0; r_query := query; r_Result := None; r_Err := None |} in
      ((r, true),
       {| co_cache := co_cache co; co_queries := <[query := r]> (co_queries co);
          co_results := <[r := res]> (co_results co); co_next := S r |})
  end.

(** The caller of the original query fills in the fields [Result] and [Err]. *)
Definition set_result (r : nat) (v : option R) (e : option E) (co : Consolidator) : outcome Consolidator :=
  match co_results co !! r with
  | None => Panic
  | Some res =>
      let res := {| r_writing := r_writing res; r_readers := r_readers res; r_query := r_query res;
                    r_Result := v; r_Err := e |} in
      Ret {| co_cache := co_cache co; co_queries := co_queries co;
             co_results := <[r := res]> (co_results co); co_next := co_next co |}
  end.

(** [Broadcast]; unlocking a lock that is not held for writing stops the program. *)
Definition Broadcast (r : nat) (co : Consolidator) : outcome Consolidator :=
  match co_results co !! r with
  | None => Panic
  | Some res =>
      if r_writing res then
        let res' := {| r_writing := false; r_readers := r_readers res; r_query := r_query res;
                       r_Result := r_Result res; r_Err := r_Err res |} in
        Ret {| co_cache := co_cache co; co_queries := delete (r_query res) (co_queries co);
               co_results := <[r := res']> (co_results co); co_next := co_next co |}
      else Panic
  end.

(** The two halves of [Wait]: the count, and the read lock, which blocks ([None]) while
    the result is locked for writing.  [Record] locks the cache twice; the lookup and the store are one
    step here, and [Record_lost_count] shows what comes between them. *)
Definition wait_record (r : nat) (now : Z) (co : Consolidator) : outcome Consolidator :=
  match co_results co !! r with
  | None => Panic
  | Some res =>
      cc ← CC_Record (r_query res) now (co_cache co);
      Ret {| co_cache := cc; co_queries := co_queries co; co_results := co_results co; co_next := co_next co |}
  end.

Definition wait_rlock (r : nat) (co : Consolidator) : outcome (option Consolidator) :=
  match co_results co !! r with
  | None => Panic
  | Some res =>
      if r_writing res then Ret None
      else
        let res := {| r_writing := false; r_readers := S (r_readers res); r_query := r_query res;
                      r_Result := r_Result res; r_Err := r_Err res |} in
        Ret (Some {| co_cache := co_cache co; co_queries := co_queries co;
                     co_results := <[r := res]> (co_results co); co_next := co_next co |})
  end.

(** ** Clients

    A client asks for a query and is the original, which executes it, sets the result
    and broadcasts, or a duplicate, which counts itself and waits for the lock. *)
Inductive client :=
| Executing (q : list byte) (r : nat)
| Duplicate (q : list byte) (r : nat)
| Waiting (q : list byte) (r : nat)
| Got (q : list byte) (r : nat) (v : option R) (e : option E).

Record system := { sys_co : Consolidator; sys_clients : gmap nat client }.

Definition sys_init : system := {| sys_co := NewConsolidator; sys_clients := ∅ |}.

Inductive step (t : nat) : system -> system -> Prop :=
| step_original co cl q r co' :
    cl !! t = None -> Create q co = ((r, true), co') ->
    step t {| sys_co := co; sys_clients := cl |} {| sys_co := co'; sys_clients := <[t := Executing q r]> cl |}
| step_duplicate co cl q r co' :
    cl !! t = None -> Create q co = ((r, false), co') ->
    step t {| sys_co := co; sys_clients := cl |} {| sys_co := co'; sys_clients := <[t := Duplicate q r]> cl |}
| step_count co cl q r now co' :
    cl !! t = Some (Duplicate q r) -> wait_record r now co = Ret co' ->
    step t {| sys_co := co; sys_clients := cl |} {| sys_co := co'; sys_clients := <[t := Waiting q r]> cl |}
| step_broadcast co cl q r v e co1 co2 :
    cl !! t = Some (Executing q r) -> set_result r v e co = Ret co1 -> Broadcast r co1 = Ret co2 ->
    step t {| sys_co := co; sys_clients := cl |} {| sys_co := co2; sys_clients := <[t := Got q r v e]> cl |}
| step_rlock co cl q r res co' :
    cl !! t = Some (Waiting q r) -> wait_rlock r co = Ret (Some co') -> co_results co' !! r = Some res ->
    step t {| sys_co := co; sys_clients := cl |}
         {| sys_co := co'; sys_clients := <[t := Got q r (r_Result res) (r_Err res)]> cl |}.

(** The result a client is concerned with, and its query. *)
Definition concerns (c : client) : list byte * nat :=
  match c with Executing q r | Duplicate q r | Waiting q r | Got q r _ _ => (q, r) end.

Definition executes (c : client) (r : nat) : bool :=
  match c with Executing _ r' => bool_decide (r = r') | _ => false end.

Record sys_ok (s : system) : Prop := {
  ok_fresh : forall r res, co_results (sys_co s) !! r = Some res -> (r < co_next (sys_co s))%nat;
  ok_queries : forall q r, co_queries (sys_co s) !! q = Some r <->
    exists res, co_results (sys_co s) !! r = Some res /\ r_query res = q /\ r_writing res = true;
  ok_clients : forall t c, sys_clients s !! t = Some c ->
    exists res, co_results (sys_co s) !! (concerns c).2 = Some res /\ r_query res = (concerns c).1;
  ok_executor : forall r res, co_results (sys_co s) !! r = Some res -> r_writing res = true ->
    exists t, sys_clients s !! t = Some (Executing (r_query res) r);
  ok_executing : forall t q r, sys_clients s !! t = Some (Executing q r) ->
    (exists res, co_results (sys_co s) !! r = Some res /\ r_writing res = true) /\
    forall t', sys_clients s !! t' = Some (Executing q r) -> t' = t;
  ok_got : forall t q r v e, sys_clients s !! t = Some (Got q r v e) ->
    exists res, co_results (sys_co s) !! r = Some res /\ r_writing res = false /\ r_Result res = v /\ r_Err res = e
}.

Lemma sys_ok_init : sys_ok sys_init.
Proof.
  split; cbn.
  - intros r res. by rewrite lookup_empty.
  - intros q r. rewrite lookup_empty. split; [done|]. intros (res & H & _). by rewrite lookup_empty in H.
  - intros t c. by rewrite lookup_empty.
  - intros r res. by rewrite lookup_empty.
  - intros t q r. by rewrite lookup_empty.
  - intros t q r v e. by rewrite lookup_empty.
Qed.

Lemma original_ok co cl t q r co' :
  sys_ok {| sys_co := co; sys_clients := cl |} -> cl !! t = None -> Create q co = ((r, true), co') ->
  sys_ok {| sys_co := co'; sys_clients := <[t := Executing q r]> cl |}.
Proof.
  intros [H1 H2 H3 H4 H5 H6] Ht Hc. cbn [sys_co sys_clients] in *. unfold Create in Hc.
  destruct (co_queries co !! q) as [r0|] eqn:Eq; [done|]. injection Hc as <- <-. set (r := co_next co).
  assert (forall r' res, co_results co !! r' = Some res -> r <> r') as Hne by (intros r' res H%H1; unfold r; lia).
  split; cbn.
  - intros r' res [[<- <-]|[_ Hr]]%lookup_insert_Some; [lia|]. apply H1 in Hr. lia.
  - intros q' r'. rewrite lookup_insert_Some. split.
    + intros [[<- <-]|[Hq (res & Hr & Hrest)%H2]].
      * eexists. by rewrite lookup_insert_eq.
      * exists res. rewrite lookup_insert_ne by (by eapply Hne). done.
    + intros (res & [[<- <-]|[Hr' Hr]]%lookup_insert_Some & Hq & Hw); [by left|]. right.
      assert (co_queries co !! q' = Some r') as H by (apply H2; eauto). split; [congruence|done].
  - intros t' c [[<- <-]|[Hne' Hc]]%lookup_insert_Some; cbn [concerns fst snd].
    + eexists. by rewrite lookup_insert_eq.
    + destruct (H3 t' c Hc) as (res & Hr & Hq). exists res. rewrite lookup_insert_ne by (by eapply Hne). done.
  - intros r' res [[<- <-]|[Hr' Hr]]%lookup_insert_Some Hw; cbn [r_query].
    + exists t. by rewrite lookup_insert_eq.
    + destruct (H4 r' res Hr Hw) as [t' Ht']. exists t'. rewrite lookup_insert_ne by congruence. done.
  - intros t' q' r' [[<- Hx]|[Hne' Hx]]%lookup_insert_Some.
    + injection Hx as <- <-. split; [eexists; by rewrite lookup_insert_eq|].
      intros t' [[<- _]|[_ Hx]]%lookup_insert_Some; [done|].
      destruct (H3 _ _ Hx) as (res & Hr & _). by destruct (Hne _ _ Hr).
    + destruct (H5 t' q' r' Hx) as [(res & Hr & Hw) Hu]. split.
      * exists res. rewrite lookup_insert_ne by (by eapply Hne). done.
      * intros t2 [[<- Hx2]|[_ Hx2]]%lookup_insert_Some; [|by apply Hu].
        injection Hx2 as <- <-. by destruct (Hne _ _ Hr).
  - intros t' q' r' v e [[_ ?]|[_ Hx]]%lookup_insert_Some; [done|].
    destruct (H6 _ _ _ _ _ Hx) as (res & Hr & Hrest). exists res. rewrite lookup_insert_ne by (by eapply Hne). done.
Qed.

(** A step of client [t] that leaves every result's query, lock, value and error as they are. *)
Lemma client_ok co cl t c c' co' :
  sys_ok {| sys_co := co; sys_clients := cl |} ->
  co_queries co' = co_queries co -> co_next co' = co_next co ->
  (forall r, (fun res => (r_query res, r_writing res, r_Result res, r_Err res)) <$> co_results co' !! r =
             (fun res => (r_query res, r_writing res, r_Result res, r_Err res)) <$> co_results co !! r) ->
  cl !! t = c -> (forall q r, c <> Some (Executing q r)) -> (forall q r, c' <> Executing q r) ->
  (exists res, co_results co !! (concerns c').2 = Some res /\ r_query res = (concerns c').1) ->
  (forall q r v e, c' = Got q r v e -> exists res, co_results co !! r = Some res /\ r_writing res = false /\
     r_Result res = v /\ r_Err res = e) ->
  sys_ok {| sys_co := co'; sys_clients := <[t := c']> cl |}.
Proof.
  intros [H1 H2 H3 H4 H5 H6] Eq En Er Ht Hc Hc' Hcon Hgot. cbn [sys_co sys_clients] in *.
  assert (forall r res, co_results co' !! r = Some res -> exists res0, co_results co !! r = Some res0 /\
    r_query res0 = r_query res /\ r_writing res0 = r_writing res /\ r_Result res0 = r_Result res /\ r_Err res0 = r_Err res) as Hback.
  { intros r res Hr. specialize (Er r). rewrite Hr in Er. destruct (co_results co !! r) as [res0|]; [|done].
    exists res0. cbn in Er. simplify_eq. done. }
  assert (forall r res, co_results co !! r = Some res -> exists res0, co_results co' !! r = Some res0 /\
    r_query res0 = r_query res /\ r_writing res0 = r_writing res /\ r_Result res0 = r_Result res /\ r_Err res0 = r_Err res) as Hfwd.
  { intros r res Hr. specialize (Er r). rewrite Hr in Er. destruct (co_results co' !! r) as [res0|]; [|done].
    exists res0. cbn in Er. simplify_eq. done. }
  split; cbn.
  - intros r res Hr. rewrite En. apply Hback in Hr as (res0 & Hr & _). eauto.
  - intros q r. rewrite Eq, H2. split; intros (res & Hr & Hq & Hw).
    + apply Hfwd in Hr as (res0 & Hr & Hq0 & Hw0 & _). exists res0. by rewrite Hq0, Hw0.
    + apply Hback in Hr as (res0 & Hr & Hq0 & Hw0 & _). exists res0. by rewrite Hq0, Hw0.
  - assert (forall x, (exists res, co_results co !! (concerns x).2 = Some res /\ r_query res = (concerns x).1) ->
      exists res, co_results co' !! (concerns x).2 = Some res /\ r_query res = (concerns x).1) as Hx.
    { intros x (res & Hr & Hq). apply Hfwd in Hr as (res0 & Hr & Hq0 & _). exists res0. by rewrite Hq0. }
    intros t' x [[<- <-]|[_ Hx']]%lookup_insert_Some; apply Hx; [done|by apply (H3 t')].
  - intros r res Hr Hw. apply Hback in Hr as (res0 & Hr & Hq0 & Hw0 & _). rewrite <- Hw0 in Hw.
    destruct (H4 r res0 Hr Hw) as [t' Ht']. exists t'. rewrite Hq0 in Ht'. rewrite lookup_insert_ne; [done|].
    intros ->. apply (Hc (r_query res) r). congruence.
  - intros t' q r [[_ Hx]|[_ Hx]]%lookup_insert_Some; [by destruct (Hc' q r)|].
    destruct (H5 _ _ _ Hx) as [(res & Hr & Hw) Hu]. split.
    + apply Hfwd in Hr as (res0 & Hr & _ & Hw0 & _). exists res0. by rewrite Hw0.
    + intros t2 [[_ Hx2]|[_ Hx2]]%lookup_insert_Some; [by destruct (Hc' q r)|by apply Hu].
  - assert (forall r v e, (exists res, co_results co !! r = Some res /\ r_writing res = false /\ r_Result res = v /\ r_Err res = e) ->
      exists res, co_results co' !! r = Some res /\ r_writing res = false /\ r_Result res = v /\ r_Err res = e) as Hx.
    { intros r v e (res & Hr & Hrest). apply Hfwd in Hr as (res0 & Hr & _ & E2 & E3 & E4). exists res0.
      by rewrite E2, E3, E4. }
    intros t' q r v e [[_ Hc2]|[_ Hx']]%lookup_insert_Some; apply Hx; [by eapply Hgot|by eapply H6].
Qed.

Lemma broadcast_ok co cl t q r v e :
  sys_ok {| sys_co := co; sys_clients := cl |} -> cl !! t = Some (Executing q r) ->
  exists co1 co2, set_result r v e co = Ret co1 /\ Broadcast r co1 = Ret co2 /\ co_cache co2 = co_cache co /\
  sys_ok {| sys_co := co2; sys_clients := <[t := Got q r v e]> cl |}.
Proof.
  intros Hok Ht. pose proof (ok_executing _ Hok _ _ _ Ht) as [(res & Hr & Hw) Hu].
  pose proof (ok_clients _ Hok _ _ Ht) as (res' & Hr' & Hq). cbn in *. simplify_eq.
  destruct Hok as [H1 H2 H3 H4 H5 H6]. cbn [sys_co sys_clients] in *.
  unfold set_result. rewrite Hr. do 2 eexists. split; [done|]. unfold Broadcast. cbn [co_results].
  rewrite lookup_insert_eq. cbn [r_writing r_query]. rewrite Hw. split; [done|]. split; [done|].
  rewrite insert_insert_eq. set (res' := {| r_writing := false |}).
  assert (forall r' res0, <[r := res']> (co_results co) !! r' = Some res0 -> r_writing res0 = true ->
    r <> r' /\ co_results co !! r' = Some res0) as Hold.
  { intros r' res0 [[<- <-]|[Hne Hx]]%lookup_insert_Some Hw0; [done|done]. }
  split; cbn.
  - intros r' res0 [[<- _]|[_ Hx]]%lookup_insert_Some; by eapply H1.
  - intros q' r'. rewrite lookup_delete_Some, H2. split.
    + intros (Hne & res0 & Hx & Hq0 & Hw0). exists res0. rewrite lookup_insert_ne; [done|]. intros ->. congruence.
    + intros (res0 & Hx & Hq0 & Hw0). destruct (Hold _ _ Hx Hw0) as [Hne Hx0]. split; [|by exists res0].
      intros Heq. assert (co_queries co !! q' = Some r') as Hr1 by (apply H2; eauto).
      assert (co_queries co !! q' = Some r) as Hr2 by (apply H2; eauto). congruence.
  - intros t' c Hc. assert (exists res0, co_results co !! (concerns c).2 = Some res0 /\ r_query res0 = (concerns c).1)
      as (res0 & Hx & Hq0).
    { apply lookup_insert_Some in Hc as [[_ <-]|[_ Hc]]; [by exists res|by apply (H3 t')]. }
    destruct (decide (r = (concerns c).2)) as [E'|Hne].
    + exists res'. rewrite <- E' in *. rewrite lookup_insert_eq. split; [done|]. cbn. congruence.
    + exists res0. by rewrite lookup_insert_ne.
  - intros r' res0 Hx Hw0. destruct (Hold _ _ Hx Hw0) as [Hne Hx0]. destruct (H4 _ _ Hx0 Hw0) as [t' Ht'].
    exists t'. rewrite lookup_insert_ne; [done|]. intros ->. congruence.
  - intros t' q' r' [[_ ?]|[Hne Hx]]%lookup_insert_Some; [done|]. destruct (H5 _ _ _ Hx) as [(res0 & Hx0 & Hw0) Hu0].
    split.
    + exists res0. rewrite lookup_insert_ne; [done|]. intros <-. apply Hne. symmetry. apply Hu.
      destruct (H3 _ _ Hx) as (res1 & Hr1 & Hq1). cbn in *. congruence.
    + intros t2 [[_ ?]|[_ Hx2]]%lookup_insert_Some; [done|by apply Hu0].
  - intros t' q' r' v' e' [[_ Hx]|[_ Hx]]%lookup_insert_Some.
    + simplify_eq. exists res'. by rewrite lookup_insert_eq.
    + destruct (H6 _ _ _ _ _ Hx) as (res0 & Hx0 & Hrest). exists res0. rewrite lookup_insert_ne; [done|].
      intros <-. destruct Hrest as (? & _). congruence.
Qed.

(** The invariant of the clients and of the cache of counts. *)
Definition sys_inv (s : system) : Prop := sys_ok s /\ exists l, cc_rep (co_cache (sys_co s)) l.

Lemma sys_inv_init : sys_inv sys_init.
Proof. split; [apply sys_ok_init|]. exists []. apply cc_rep_new. unfold MaxInt64. lia. Qed.

Lemma count_ok co cl t q r now :
  sys_inv {| sys_co := co; sys_clients := cl |} -> cl !! t = Some (Duplicate q r) ->
  exists co', wait_record r now co = Ret co' /\ sys_inv {| sys_co := co'; sys_clients := <[t := Waiting q r]> cl |}.
Proof.
  intros [Hok [l Hl]] Ht. destruct (ok_clients _ Hok _ _ Ht) as (res & Hr & Hq). cbn in Hr, Hq, Hl.
  unfold wait_record. rewrite Hr. destruct (CC_Record_refines (r_query res) now _ _ Hl) as (cc & -> & Hcc & _).
  cbn [mbind outcome_bind]. eexists. split; [done|]. split; [|by eexists].
  apply (client_ok co cl t (Some (Duplicate q r))); try done. cbn. by exists res.
Qed.

(** The read lock is free once nobody executes the query. *)
Lemma rlock_ok co cl t q r :
  sys_inv {| sys_co := co; sys_clients := cl |} -> cl !! t = Some (Waiting q r) ->
  (wait_rlock r co = Ret None /\ exists t', cl !! t' = Some (Executing q r)) \/
  exists co' res, wait_rlock r co = Ret (Some co') /\ co_results co' !! r = Some res /\
  sys_inv {| sys_co := co'; sys_clients := <[t := Got q r (r_Result res) (r_Err res)]> cl |}.
Proof.
  intros [Hok [l Hl]] Ht. destruct (ok_clients _ Hok _ _ Ht) as (res & Hr & Hq). cbn in Hr, Hq, Hl.
  unfold wait_rlock. rewrite Hr. destruct (r_writing res) eqn:Hw.
  - left. split; [done|]. destruct (ok_executor _ Hok r res Hr Hw) as [t' Ht']. exists t'. by rewrite Hq in Ht'.
  - right. do 2 eexists. split; [done|]. cbn [co_results]. rewrite lookup_insert_eq. split; [done|].
    split; [|by eexists]. apply (client_ok co cl t (Some (Waiting q r))); try done; cbn [co_results].
    + intros r'. destruct (decide (r = r')) as [<-|Hne]; [by rewrite lookup_insert_eq, Hr; cbn; rewrite Hw|].
      by rewrite lookup_insert_ne.
    + cbn. by exists res.
    + intros q' r' v e [= <- <- <- <-]. by exists res.
Qed.

Lemma step_inv t s s' : sys_inv s -> step t s s' -> sys_inv s'.
Proof.
  intros Hi Hs. pose proof Hi as [Hok [l Hl]]. inversion Hs; subst; cbn in Hl.
  - split; [by apply (original_ok co)|]. exists l. cbn. unfold Create in *. case_match; by simplify_eq.
  - split; [|exists l; cbn; unfold Create in *; case_match; by simplify_eq].
    unfold Create in *. destruct (co_queries co !! q) as [r0|] eqn:Eq; [|done]. simplify_eq.
    apply (client_ok co' cl t None); try done. apply (ok_queries _ Hok) in Eq as (res & Hr & Hq & _). cbn. by exists res.
  - destruct (count_ok co cl t q r now Hi) as (co2 & Eq2 & Hi2); [done|]. congruence.
  - destruct (broadcast_ok co cl t q r v e Hok) as (co3 & co4 & E3 & E4 & Ec & Hok2); [done|].
    assert (co3 = co1) as -> by congruence. assert (co4 = co2) as -> by congruence. split; [done|]. exists l. cbn. congruence.
  - destruct (rlock_ok co cl t q r Hi) as [[Eq2 _]|(co2 & res2 & Eq2 & Hr & Hi2)]; [done|congruence|]. congruence.
Qed.

Definition any_step (s s' : system) : Prop := exists t, step t s s'.

Lemma reachable_inv s : rtc any_step sys_init s -> sys_inv s.
Proof.
  apply rtc_keeps; [apply sys_inv_init|]. intros s1 s2 Hi [t Ht]. by apply (step_inv t s1).
Qed.

(** How many steps a client is away from its result. *)
Definition client_work (c : client) : Z :=
  match c with Executing _ _ => 1 | Duplicate _ _ => 2 | Waiting _ _ => 1 | Got _ _ _ _ => 0 end.

(** Some client can always go on. *)
Lemma sys_progress s :
  sys_inv s -> 0 < msum client_work (sys_clients s) ->
  exists s', any_step s s' /\ sys_inv s' /\ dom (sys_clients s') = dom (sys_clients s) /\
  msum client_work (sys_clients s') < msum client_work (sys_clients s).
Proof.
  destruct s as [co cl]. cbn [sys_clients]. intros Hi Hw.
  assert (forall t q r, cl !! t = Some (Executing q r) ->
    exists s', any_step {| sys_co := co; sys_clients := cl |} s' /\ sys_inv s' /\ dom (sys_clients s') = dom cl /\
    msum client_work (sys_clients s') < msum client_work cl) as Hexec.
  { intros t q r Ht. destruct (broadcast_ok co cl t q r None None (proj1 Hi) Ht) as (co1 & co2 & E1 & E2 & _ & _).
    assert (step t {| sys_co := co; sys_clients := cl |} {| sys_co := co2; sys_clients := <[t := Got q r None None]> cl |})
      as Hst by (by eapply step_broadcast). eexists. split; [by exists t|]. split; [by eapply step_inv|]. cbn.
    split; [by apply dom_insert_lookup_L|]. rewrite (msum_replace _ _ _ _ _ Ht). cbn. lia. }
  destruct (msum_pos client_work cl) as (t & c & Ht & Hc); [intros k [] _; cbn; lia|done|].
  destruct c as [q r|q r|q r|q r v e]; cbn in Hc; [by eapply Hexec| | |lia].
  - destruct (count_ok co cl t q r 0 Hi Ht) as (co' & Eq2 & Hi'). eexists. split; [exists t; by eapply step_count|].
    split; [done|]. cbn. split; [by apply dom_insert_lookup_L|]. rewrite (msum_replace _ _ _ _ _ Ht). cbn. lia.
  - destruct (rlock_ok co cl t q r Hi Ht) as [[_ [t' Ht']]|(co' & res & Eq2 & Hr & Hi')]; [by eapply Hexec|].
    eexists. split; [exists t; by eapply step_rlock|]. split; [done|]. cbn.
    split; [by apply dom_insert_lookup_L|]. rewrite (msum_replace _ _ _ _ _ Ht). cbn. lia.
Qed.
End Consolidator.

Arguments Result R E : clear implicits.
Arguments Consolidator R E : clear implicits.
Arguments client R E : clear implicits.
Arguments system R E : clear implicits.

(** ** What the consolidator promises *)

(** [Record] called on a new cache for one query after the other does not panic, and
    [Items] then lists the most recent queries, as many as the capacity allows, each with
    the number of its calls since it entered the cache (in 64-bit arithmetic). *)
Theorem ConsolidatorCache_counts cap qs :
  0 <= cap <= MaxInt64 - 1 ->
  exists cc, record_all qs (NewConsolidatorCache cap) = Ret cc /\
  CC_Items cc = Ret (foldl (fun l q => spec_record cap q.1 l) [] qs).
Proof.
  intros Hc. destruct (record_all_refines qs _ _ (cc_rep_new cap Hc)) as (cc & E & Hcc).
  exists cc. split; [done|]. by apply cc_rep_items.
Qed.

(** C10: however clients interleave, two clients never execute the same query at the same
    time, nobody has an answer of a result that is still executing, and all clients of
    one result got the same value and error, for the query they asked. *)
Theorem Consolidator_shares {R E} (s : system R E) :
  rtc any_step sys_init s ->
  (forall t t' q r r', sys_clients s !! t = Some (Executing q r) -> sys_clients s !! t' = Some (Executing q r') -> t = t') /\
  (forall t t' q q' r v v' e e', sys_clients s !! t = Some (Got q r v e) -> sys_clients s !! t' = Some (Got q' r v' e') ->
     q = q' /\ v = v' /\ e = e') /\
  (forall t t' q q' r v e, sys_clients s !! t = Some (Got q r v e) -> sys_clients s !! t' <> Some (Executing q' r)).
Proof.
  intros [Hok _]%reachable_inv. split_and!.
  - intros t t' q r r' Ht Ht'. assert (r' = r) as ->.
    { destruct (ok_executing _ Hok _ _ _ Ht) as [(res & Hr & Hw) _], (ok_executing _ Hok _ _ _ Ht') as [(res' & Hr' & Hw') _].
      destruct (ok_clients _ Hok _ _ Ht) as (res1 & Hr1 & Hq1), (ok_clients _ Hok _ _ Ht') as (res2 & Hr2 & Hq2).
      cbn in *. assert (co_queries (sys_co s) !! q = Some r) by (apply (ok_queries _ Hok); exists res; split_and!; congruence).
      assert (co_queries (sys_co s) !! q = Some r') by (apply (ok_queries _ Hok); exists res'; split_and!; congruence).
      congruence. }
    symmetry. by apply (ok_executing _ Hok _ _ _ Ht).
  - intros t t' q q' r v v' e e' Ht Ht'.
    destruct (ok_got _ Hok _ _ _ _ _ Ht) as (res & Hr & _ & Hv & He), (ok_got _ Hok _ _ _ _ _ Ht') as (res' & Hr' & _ & Hv' & He').
    destruct (ok_clients _ Hok _ _ Ht) as (res1 & Hr1 & Hq1), (ok_clients _ Hok _ _ Ht') as (res2 & Hr2 & Hq2).
    cbn in *. split_and!; congruence.
  - intros t t' q q' r v e Ht Ht'. destruct (ok_got _ Hok _ _ _ _ _ Ht) as (res & Hr & Hw & _).
    destruct (ok_executing _ Hok _ _ _ Ht') as [(res' & Hr' & Hw') _]. congruence.
Qed.

(** C11: from every reachable state the clients that are there can all run to their answer,
    without panic and without a new client: nobody waits for a lock that is never released. *)
Theorem Consolidator_drains {R E} (s : system R E) :
  rtc any_step sys_init s ->
  exists s', rtc any_step s s' /\ dom (sys_clients s') = dom (sys_clients s) /\
  forall t c, sys_clients s' !! t = Some c -> exists q r v e, c = Got q r v e.
Proof.
  intros Hr. apply reachable_inv in Hr.
  destruct (drain any_step (fun s' => sys_inv s' /\ dom (sys_clients s') = dom (sys_clients s))
    (fun s' => msum client_work (sys_clients s')) s) as (s' & Hs & [_ Hd] & Hw).
  - intros s1 _. apply msum_nonneg. intros k [] _; cbn; lia.
  - intros s1 [Hi Hd] Hpos. destruct (sys_progress s1 Hi Hpos) as (s2 & H1 & H2 & H3 & H4).
    exists s2. split; [done|]. split; [|done]. split; [done|congruence].
  - done.
  - exists s'. split_and!; [done..|]. intros t c Ht.
    assert (client_work c <= 0) as Hc.
    { rewrite <- Hw. apply (msum_le client_work _ t); [|done]. intros k [] _; cbn; lia. }
    destruct c; cbn in Hc; try lia. eauto.
Qed.

(** A duplicate that waits while the original executes. *)
Definition demo_query : list byte := bs "select 1".

Definition demo1 : system Z unit :=
  {| sys_co := (Create demo_query NewConsolidator).2; sys_clients := <[0%nat := Executing demo_query 0]> ∅ |}.

Definition demo2 : system Z unit :=
  {| sys_co := (Create demo_query (sys_co demo1)).2; sys_clients := <[1%nat := Duplicate demo_query 0]> (sys_clients demo1) |}.

Lemma demo2_reachable : rtc any_step sys_init demo2.
Proof.
  apply (rtc_l _ _ demo1); [exists 0%nat; by apply step_original|].
  apply rtc_once. exists 1%nat. by apply step_duplicate.
Qed.

Lemma ConsolidatorCache_counts_witness :
  exists cc, record_all [(bs "a", 1); (bs "b", 2); (bs "a", 3); (bs "c", 4)] (NewConsolidatorCache 2) = Ret cc /\
  CC_Items cc = Ret [(bs "c", 1); (bs "a", 2)].
Proof.
  apply (ConsolidatorCache_counts 2 [(bs "a", 1); (bs "b", 2); (bs "a", 3); (bs "c", 4)]). unfold MaxInt64. lia.
Defined.

Lemma Consolidator_shares_witness :
  (forall t t' q r r', sys_clients demo2 !! t = Some (Executing q r) -> sys_clients demo2 !! t' = Some (Executing q r') -> t = t') /\
  (forall t t' q q' r v v' e e', sys_clients demo2 !! t = Some (Got q r v e) ->
     sys_clients demo2 !! t' = Some (Got q' r v' e') -> q = q' /\ v = v' /\ e = e') /\
  (forall t t' q q' r v e, sys_clients demo2 !! t = Some (Got q r v e) -> sys_clients demo2 !! t' <> Some (Executing q' r)).
Proof. apply (Consolidator_shares demo2). exact demo2_reachable. Defined.

Lemma Consolidator_drains_witness :
  exists s', rtc any_step demo2 s' /\ dom (sys_clients s') = dom (sys_clients demo2) /\
  forall t c, sys_clients s' !! t = Some c -> exists q r v e, c = Got q r v e.
Proof. apply (Consolidator_drains demo2). exact demo2_reachable. Defined.

(** Two concurrent calls of [Record] for a new query that both look it up first: the second
    counter replaces the first and one of the two calls is lost. *)
Example Record_lost_count :
  ('(v1, cc) ← record_lookup (bs "a") 1 (NewConsolidatorCache 1000);
   '(v2, cc) ← record_lookup (bs "a") 2 cc;
   cc ← record_update (bs "a") 3 v1 cc;
   cc ← record_update (bs "a") 4 v2 cc;
   CC_Items cc) = Ret [(bs "a", 1)].
Proof. vm_compute. reflexivity. Qed.
