(* ===== verification/TabletEnv.v ===== *)
(** * Tablet configuration and counters

    The part of [tabletenv.TabletConfig] that the transaction limiter and the hot row
    protection read, with its verification
    ([go/vt/vttablet/tabletserver/tabletenv/config.go]), the labelled counters both of
    them update ([go/stats/counters.go]) and the caller ids ([go/vt/callerid/callerid.go]). *)

From Corelib Require Import Floats.SpecFloat.
From S2P Require Import Prelude Key.

(** ** Counters *)

(** [CountersWithSingleLabel]: its counts, and whether its dimension is combined. *)
Record CountersWithSingleLabel := { counts : gmap (list byte) Z; labelCombined : bool }.

Definition StatsAllStr : list byte := bs "all".

(** [NewCountersWithSingleLabel] without tags. *)
Definition NewCountersWithSingleLabel (combined : bool) : CountersWithSingleLabel :=
  {| counts := if combined then {[StatsAllStr := 0]} else ∅; labelCombined := combined |}.

(** [counters.add] and [counters.set]. *)
Definition counters_add (name : list byte) (value : Z) (m : gmap (list byte) Z) : gmap (list byte) Z :=
  <[name := add64 (default 0 (m !! name)) value]> m.

Definition counters_set (name : list byte) (value : Z) (m : gmap (list byte) Z) : gmap (list byte) Z :=
  <[name := value]> m.

(** [CountersWithSingleLabel.Add], [Reset] and [ResetAll]. *)
Definition Counters_Add (name : list byte) (value : Z) (c : CountersWithSingleLabel) : CountersWithSingleLabel :=
  {| counts := counters_add (if labelCombined c then StatsAllStr else name) value (counts c);
     labelCombined := labelCombined c |}.

Definition Counters_Reset (name : list byte) (c : CountersWithSingleLabel) : CountersWithSingleLabel :=
  {| counts := counters_set (if labelCombined c then StatsAllStr else name) 0 (counts c);
     labelCombined := labelCombined c |}.

Definition Counters_ResetAll (c : CountersWithSingleLabel) : CountersWithSingleLabel :=
  {| counts := ∅; labelCombined := labelCombined c |}.

(** ** Caller ids *)

(** [querypb.VTGateCallerID] and [vtrpcpb.CallerID]. *)
Record VTGateCallerID := { Username : list byte }.
Record CallerID := { Principal : list byte; Component : list byte; Subcomponent : list byte }.

Definition GetUsername (im : option VTGateCallerID) : list byte :=
  match im with None => [] | Some im => Username im end.

Definition GetPrincipal (ef : option CallerID) : list byte :=
  match ef with None => [] | Some ef => Principal ef end.

Definition GetComponent (ef : option CallerID) : list byte :=
  match ef with None => [] | Some ef => Component ef end.

Definition GetSubcomponent (ef : option CallerID) : list byte :=
  match ef with None => [] | Some ef => Subcomponent ef end.

(** ** Configuration *)

(** [HotRowProtectionConfig]. *)
Record HotRowProtectionConfig := {
  Mode : list byte;
  MaxQueueSize : Z;
  MaxGlobalQueueSize : Z;
  MaxConcurrency : Z
}.

(** The fields of [TabletConfig] used here, those of [TransactionLimitConfig] included;
    [TxPoolSize] is [TxPool.Size]. *)
Record TabletConfig := {
  EnableTransactionLimit : bool;
  EnableTransactionLimitDryRun : bool;
  TransactionLimitPerUser : spec_float;
  TransactionLimitByUsername : bool;
  TransactionLimitByPrincipal : bool;
  TransactionLimitByComponent : bool;
  TransactionLimitBySubcomponent : bool;
  TxPoolSize : Z;
  HotRowProtection : HotRowProtectionConfig;
  TerseErrors : bool;
  SanitizeLogMessages : bool
}.

(** The errors of [Verify]. *)
Inductive config_error :=
| BothLimitFlags
| NoDiscriminatingField
| FractionOutOfRange
| LimitRoundsToZero
| QueueSizeNotPositive
| GlobalQueueSizeNotPositive
| GlobalQueueSmaller
| ConcurrencyNotPositive.

(** [verifyTransactionLimitConfig]. *)
Definition verifyTransactionLimitConfig (c : TabletConfig) : result config_error unit :=
  let actual := EnableTransactionLimit c in
  let dryRun := EnableTransactionLimitDryRun c in
  if actual && dryRun then Err BothLimitFlags
  else if negb actual && negb dryRun then Ok tt
  else if negb (TransactionLimitByUsername c || TransactionLimitByPrincipal c
                || TransactionLimitByComponent c || TransactionLimitBySubcomponent c)
  then Err NoDiscriminatingField
  else
    let v := TransactionLimitPerUser c in
    if SFleb v (float64.of_int 0) || SFleb (float64.of_int 1) v then Err FractionOutOfRange
    else if float64.to_int (float64.mul v (float64.of_int (TxPoolSize c))) =? 0 then Err LimitRoundsToZero
    else Ok tt.

(** [Verify]. *)
Definition Verify (c : TabletConfig) : result config_error unit :=
  let h := HotRowProtection c in
  match verifyTransactionLimitConfig c with
  | Err e => Err e
  | Ok _ =>
      if MaxQueueSize h <=? 0 then Err QueueSizeNotPositive
      else if MaxGlobalQueueSize h <=? 0 then Err GlobalQueueSizeNotPositive
      else if MaxGlobalQueueSize h <? MaxQueueSize h then Err GlobalQueueSmaller
      else if MaxConcurrency h <=? 0 then Err ConcurrencyNotPositive
      else Ok tt
  end.

(** What a verified configuration guarantees to the hot row protection. *)
Lemma Verify_hot_row c :
  Verify c = Ok tt ->
  0 < MaxQueueSize (HotRowProtection c) <= MaxGlobalQueueSize (HotRowProtection c) /\
  0 < MaxConcurrency (HotRowProtection c).
Proof.
  unfold Verify. destruct (verifyTransactionLimitConfig c); [|done]. repeat case_test; try done. intros _.
  zify_tests. lia.
Qed.
