(* ===== verification/TxLimiter.v ===== *)
(** * The transaction limiter

    [go/vt/vttablet/tabletserver/txlimiter/tx_limiter.go]: how many transactions of the
    pool one user may hold.  A history of grants and releases is an inductive relation
    between the limiter and the keys of the transactions that are still open. *)

From Corelib Require Import Floats.SpecFloat.
From S2P Require Import Prelude GoStd Key TabletEnv.

(** ** The code *)

(** [Impl]. *)
Record Impl := {
  maxPerUser : Z;
  usageMap : gmap (list byte) Z;
  dryRun : bool;
  byUsername : bool;
  byPrincipal : bool;
  byComponent : bool;
  bySubcomponent : bool;
  byEffectiveUser : bool;
  rejections : CountersWithSingleLabel;
  rejectionsDryRun : CountersWithSingleLabel
}.

(** The implementations of [TxLimiter]. *)
Inductive TxLimiter :=
| TxAllowAll
| TxImpl (txl : Impl).

(** [New]; [combined] is whether the dimension [user] of the counters is combined. *)
Definition New (config : TabletConfig) (combined : bool) : TxLimiter :=
  if negb (EnableTransactionLimit config) && negb (EnableTransactionLimitDryRun config) then TxAllowAll
  else TxImpl {|
    maxPerUser := float64.to_int (float64.mul (float64.of_int (TxPoolSize config)) (TransactionLimitPerUser config));
    usageMap := ∅;
    dryRun := EnableTransactionLimitDryRun config;
    byUsername := TransactionLimitByUsername config;
    byPrincipal := TransactionLimitByPrincipal config;
    byComponent := TransactionLimitByComponent config;
    bySubcomponent := TransactionLimitBySubcomponent config;
    byEffectiveUser := TransactionLimitByPrincipal config || TransactionLimitByComponent config
                       || TransactionLimitBySubcomponent config;
    rejections := NewCountersWithSingleLabel combined;
    rejectionsDryRun := NewCountersWithSingleLabel combined |}.

(** The constant [unknown]. *)
Definition unknown : list byte := bs "unknown".

(** [extractKey]. *)
Definition extractKey (txl : Impl) (immediate : option VTGateCallerID) (effective : option CallerID) : list byte :=
  let parts := [] in
  let parts :=
    if byUsername txl then
      match immediate with
      | Some _ => parts ++ [GetUsername immediate]
      | None => parts ++ [unknown]
      end
    else parts in
  let parts :=
    if byEffectiveUser txl then
      match effective with
      | Some _ =>
          let parts := if byPrincipal txl then parts ++ [GetPrincipal effective] else parts in
          let parts := if byComponent txl then parts ++ [GetComponent effective] else parts in
          if bySubcomponent txl then parts ++ [GetSubcomponent effective] else parts
      | None => parts ++ [unknown]
      end
    else parts in
  strings.Join (z2b 47) parts.

(** Updates of the usage map and of the counters. *)
Definition with_usage (m : gmap (list byte) Z) (txl : Impl) : Impl :=
  {| maxPerUser := maxPerUser txl; usageMap := m; dryRun := dryRun txl; byUsername := byUsername txl;
     byPrincipal := byPrincipal txl; byComponent := byComponent txl; bySubcomponent := bySubcomponent txl;
     byEffectiveUser := byEffectiveUser txl; rejections := rejections txl; rejectionsDryRun := rejectionsDryRun txl |}.

Definition with_rejections (r rd : CountersWithSingleLabel) (txl : Impl) : Impl :=
  {| maxPerUser := maxPerUser txl; usageMap := usageMap txl; dryRun := dryRun txl; byUsername := byUsername txl;
     byPrincipal := byPrincipal txl; byComponent := byComponent txl; bySubcomponent := bySubcomponent txl;
     byEffectiveUser := byEffectiveUser txl; rejections := r; rejectionsDryRun := rd |}.

(** [Impl.Get]. *)
Definition Impl_Get (immediate : option VTGateCallerID) (effective : option CallerID) (txl : Impl) : bool * Impl :=
  let key := extractKey txl immediate effective in
  let usage := default 0 (usageMap txl !! key) in
  if usage <? maxPerUser txl then (true, with_usage (<[key := add64 usage 1]> (usageMap txl)) txl)
  else if dryRun txl then (true, with_rejections (rejections txl) (Counters_Add key 1 (rejectionsDryRun txl)) txl)
  else (false, with_rejections (Counters_Add key 1 (rejections txl)) (rejectionsDryRun txl) txl).

(** [Impl.Release]. *)
Definition Impl_Release (immediate : option VTGateCallerID) (effective : option CallerID) (txl : Impl) : Impl :=
  let key := extractKey txl immediate effective in
  match usageMap txl !! key with
  | None => txl
  | Some usage =>
      if usage =? 1 then with_usage (delete key (usageMap txl)) txl
      else with_usage (<[key := sub64 usage 1]> (usageMap txl)) txl
  end.

(** The calls on a [TxLimiter]. *)
Definition Limiter_Get (immediate : option VTGateCallerID) (effective : option CallerID) (l : TxLimiter) : bool * TxLimiter :=
  match l with
  | TxAllowAll => (true, TxAllowAll)
  | TxImpl txl => let '(ok, txl) := Impl_Get immediate effective txl in (ok, TxImpl txl)
  end.

Definition Limiter_Release (immediate : option VTGateCallerID) (effective : option CallerID) (l : TxLimiter) : TxLimiter :=
  match l with
  | TxAllowAll => TxAllowAll
  | TxImpl txl => TxImpl (Impl_Release immediate effective txl)
  end.

(** ** Histories *)

(** The transactions of a key among the open ones. *)
Definition open_of (k : list byte) (ks : list (list byte)) : Z := zlen (filter (fun k' => k' = k) ks).

(** [history txl0 txl ks]: from [txl0] the limiter became [txl] and the transactions with
    the keys [ks] are open; only an open transaction is released. *)
Inductive history (txl0 : Impl) : Impl -> list (list byte) -> Prop :=
| history_start : history txl0 txl0 []
| history_grant txl ks im ef txl' :
    history txl0 txl ks -> Impl_Get im ef txl = (true, txl') ->
    history txl0 txl' (extractKey txl im ef :: ks)
| history_refuse txl ks im ef txl' :
    history txl0 txl ks -> Impl_Get im ef txl = (false, txl') -> history txl0 txl' ks
| history_release txl ks im ef ks' :
    history txl0 txl ks -> ks ≡ₚ extractKey txl im ef :: ks' -> history txl0 (Impl_Release im ef txl) ks'.

(** What no call changes. *)
Definition same_config (a b : Impl) : Prop :=
  maxPerUser a = maxPerUser b /\ dryRun a = dryRun b /\ forall im ef, extractKey a im ef = extractKey b im ef.

Lemma history_config txl0 txl ks : history txl0 txl ks -> same_config txl txl0.
Proof.
  induction 1 as [|txl ks im ef txl' _ IH Hg|txl ks im ef txl' _ IH Hg|txl ks im ef ks' _ IH _]; [by split_and!|..].
  - unfold Impl_Get in Hg. repeat case_test; simplify_eq; exact IH.
  - unfold Impl_Get in Hg. repeat case_test; simplify_eq; exact IH.
  - unfold Impl_Release. case_match; [case_test|]; exact IH.
Qed.

Lemma open_of_cons k k' ks : open_of k (k' :: ks) = (if bool_decide (k' = k) then 1 else 0) + open_of k ks.
Proof.
  unfold open_of. rewrite filter_cons. case_bool_decide as E.
  - rewrite decide_True by done. by rewrite zlen_cons.
  - by rewrite decide_False.
Qed.

#[local] Instance open_of_perm k : Proper ((≡ₚ) ==> eq) (open_of k).
Proof. intros ks ks' H. unfold open_of, zlen. by rewrite H. Qed.

Lemma open_of_nonneg k ks : 0 <= open_of k ks.
Proof. apply zlen_nonneg. Qed.

(** The usage of a key. *)
Definition usage_of (txl : Impl) (k : list byte) : Z := default 0 (usageMap txl !! k).

Record usage_ok (txl : Impl) (ks : list (list byte)) : Prop := {
  usage_counts : forall k, usage_of txl k = open_of k ks;
  usage_positive : forall k n, usageMap txl !! k = Some n -> 0 < n;
  usage_bounded : forall k, open_of k ks <= Z.max 0 (maxPerUser txl)
}.

Lemma usage_insert txl m k n k' :
  usage_of (with_usage (<[k := n]> m) txl) k' = if bool_decide (k = k') then n else default 0 (m !! k').
Proof.
  unfold usage_of. cbn. case_bool_decide as E; [subst; by rewrite lookup_insert_eq|by rewrite lookup_insert_ne].
Qed.

Lemma grant_ok im ef txl ks txl' :
  is_int64 (maxPerUser txl) -> dryRun txl = false -> usage_ok txl ks -> Impl_Get im ef txl = (true, txl') ->
  usage_ok txl' (extractKey txl im ef :: ks).
Proof.
  intros Hm Hd [H1 H2 H3] Hg. unfold Impl_Get in Hg. rewrite Hd in Hg. case_test; [|done]. simplify_eq.
  set (k := extractKey txl im ef) in *. fold (usage_of txl k) in *. zify_tests. rewrite H1 in *.
  pose proof (open_of_nonneg k ks). rewrite add64_small by (unfold_ints; lia). split.
  - intros k'. rewrite usage_insert, open_of_cons. case_bool_decide as E; [subst; lia|]. apply H1.
  - intros k' n. cbn. intros [[<- <-]|[_ Hn]]%lookup_insert_Some; [lia|by apply (H2 k')].
  - intros k'. rewrite open_of_cons. cbn. case_bool_decide as E; [subst; lia|]. apply H3.
Qed.

Lemma release_ok im ef txl ks :
  is_int64 (maxPerUser txl) -> usage_ok txl (extractKey txl im ef :: ks) -> usage_ok (Impl_Release im ef txl) ks.
Proof.
  set (k := extractKey txl im ef). intros Hm [H1 H2 H3]. pose proof (open_of_nonneg k ks) as Hpos.
  specialize (H1 k) as Hk. rewrite open_of_cons, bool_decide_eq_true_2 in Hk by done.
  specialize (H3 k) as Hb. rewrite open_of_cons, bool_decide_eq_true_2 in Hb by done.
  unfold Impl_Release. fold k. unfold usage_of in Hk. destruct (usageMap txl !! k) as [n|] eqn:En; cbn in Hk; [|lia].
  assert (forall k', open_of k' ks <= Z.max 0 (maxPerUser txl)) as H3'.
  { intros k'. specialize (H3 k'). rewrite open_of_cons in H3. case_bool_decide; lia. }
  assert (forall k', k <> k' -> default 0 (usageMap txl !! k') = open_of k' ks) as H1'.
  { intros k' Hne. specialize (H1 k'). by rewrite open_of_cons, bool_decide_eq_false_2 in H1 by done. }
  destruct (Z.eqb_spec n 1) as [->|Hn]; split; try done.
  - intros k'. unfold usage_of. cbn. destruct (decide (k = k')) as [<-|Hne].
    + rewrite lookup_delete_eq. cbn. lia.
    + rewrite lookup_delete_ne by done. by apply H1'.
  - intros k' m. cbn. intros [_ Hm']%lookup_delete_Some. by apply (H2 k').
  - intros k'. rewrite usage_insert. rewrite sub64_small by (unfold_ints; lia).
    case_bool_decide as E; [subst; lia|by apply H1'].
  - intros k' m. cbn. rewrite sub64_small by (unfold_ints; lia).
    intros [[<- <-]|[_ Hm']]%lookup_insert_Some; [lia|by apply (H2 k')].
Qed.

#[local] Instance usage_ok_perm txl : Proper ((≡ₚ) ==> iff) (usage_ok txl).
Proof.
  assert (forall ks ks', ks ≡ₚ ks' -> usage_ok txl ks -> usage_ok txl ks') as H.
  { intros ks ks' Hp [H1 H2 H3]. split; [|done|]; intros k; rewrite <- Hp; [apply H1|apply H3]. }
  intros ks ks' Hp. split; by apply H.
Qed.

Lemma history_ok txl0 txl ks :
  is_int64 (maxPerUser txl0) -> dryRun txl0 = false -> usageMap txl0 = ∅ -> history txl0 txl ks -> usage_ok txl ks.
Proof.
  intros Hm Hd Hu H. induction H as [|txl ks im ef txl' Hh IH Hg|txl ks im ef txl' Hh IH Hg|txl ks im ef ks' Hh IH Hp].
  - split; [|by rewrite Hu|].
    + intros k. unfold usage_of. by rewrite Hu.
    + intros k. change (open_of k []) with 0. lia.
  - destruct (history_config _ _ _ Hh) as (E1 & E2 & _). apply grant_ok; [congruence..|done|done].
  - unfold Impl_Get in Hg. repeat case_test; simplify_eq. by destruct IH.
  - destruct (history_config _ _ _ Hh) as (E1 & E2 & _). apply release_ok; [congruence|]. by rewrite <- Hp.
Qed.

(** ** Verified limits *)

Lemma SFmul_comm a b : float64.mul a b = float64.mul b a.
Proof.
  unfold float64.mul. destruct a as [s|s| |s m e], b as [s'|s'| |s' m' e']; cbn; try done; try by rewrite xorb_comm.
  by rewrite xorb_comm, Pos.mul_comm, Z.add_comm.
Qed.

(** Not negative, as a sign bit. *)
Definition unsigned (f : spec_float) : Prop :=
  match f with S754_zero s | S754_infinity s | S754_finite s _ _ => s = false | S754_nan => True end.

Lemma unsigned_to_int f : unsigned f -> 0 <= float64.to_int f.
Proof.
  destruct f as [s|s| |s m e]; cbn; try lia. intros ->. case_test; [zify_tests; lia|].
  apply Z.div_pos; [lia|]. zify_tests. apply Z.pow_pos_nonneg; lia.
Qed.

Lemma round_unsigned p x m e l : unsigned (binary_round_aux p x false m e l).
Proof. unfold binary_round_aux. repeat (case_match; try done). Qed.

Lemma of_int_unsigned z : 0 <= z -> unsigned (float64.of_int z).
Proof.
  intros Hz. unfold float64.of_int, binary_normalize. destruct z as [|m|m]; [done| |lia].
  unfold binary_round. case_match. apply round_unsigned.
Qed.

Lemma mul_unsigned a b : unsigned a -> unsigned b -> unsigned (float64.mul a b).
Proof.
  unfold float64.mul. destruct a as [s|s| |s m e], b as [s'|s'| |s' m' e']; cbn; try done; try (by intros -> ->).
  intros -> ->. apply round_unsigned.
Qed.

(** A verified and enabled limit lets every user have at least one transaction. *)
Lemma Verify_limit c combined :
  Verify c = Ok tt -> EnableTransactionLimit c = true -> 0 <= TxPoolSize c ->
  exists txl, New c combined = TxImpl txl /\ 0 < maxPerUser txl /\ dryRun txl = false /\ usageMap txl = ∅.
Proof.
  unfold Verify, verifyTransactionLimitConfig, New. intros Hv He Hs. rewrite He in *. cbn [negb andb] in *.
  destruct (EnableTransactionLimitDryRun c); [done|]. cbn [negb andb] in *. eexists. split; [done|]. cbn.
  repeat case_test; try done. zify_tests. split; [|done]. rewrite SFmul_comm. apply Z.le_neq. split; [|done].
  apply unsigned_to_int, mul_unsigned; [|by apply of_int_unsigned].
  destruct (TransactionLimitPerUser c) as [[]|[]| |[] m e]; done.
Qed.

(** ** What the limiter promises *)

(** C31: under a verified configuration with the limit enabled, not only in dry run, whatever transactions are
    granted, refused and released, a user never has more than [maxPerUser] open
    transactions, the usage map counts exactly the open ones, and the next request of a
    user is granted exactly when fewer than [maxPerUser], which is at least one, are open.  A refusal is
    counted for the user. *)
Theorem TxLimiter_limits c combined txl0 txl ks im ef :
  Verify c = Ok tt -> EnableTransactionLimit c = true -> 0 <= TxPoolSize c ->
  New c combined = TxImpl txl0 -> maxPerUser txl0 <= MaxInt64 -> history txl0 txl ks ->
  0 < maxPerUser txl /\
  (forall k, open_of k ks <= maxPerUser txl /\ default 0 (usageMap txl !! k) = open_of k ks) /\
  ((Impl_Get im ef txl).1 = true <-> open_of (extractKey txl im ef) ks < maxPerUser txl) /\
  ((Impl_Get im ef txl).1 = false ->
   rejections (Impl_Get im ef txl).2 = Counters_Add (extractKey txl im ef) 1 (rejections txl)).
Proof.
  intros Hv He Hs Hn Hmax Hh. destruct (Verify_limit c combined Hv He Hs) as (txl1 & Hn' & Hpos & Hd & Hu).
  rewrite Hn in Hn'. injection Hn' as <-. destruct (history_config _ _ _ Hh) as (E1 & E2 & _).
  destruct (history_ok txl0 txl ks) as [H1 H2 H3]; [unfold_ints; lia|done..|]. split; [lia|]. split.
  - intros k. specialize (H3 k). split; [lia|apply H1].
  - unfold Impl_Get. fold (usage_of txl (extractKey txl im ef)). rewrite H1, E2, Hd.
    destruct (Z.ltb_spec (open_of (extractKey txl im ef) ks) (maxPerUser txl)); cbn; split; try done; split; (done || lia).
Qed.

(** In dry run mode a request over the limit is granted without being counted in the
    usage, but its release is counted.  With a limit of one, after two grants and the
    release of the second, a third request is granted without a recorded rejection
    although one transaction is still open. *)
Theorem TxLimiter_dry_run_undercounts txl u :
  dryRun txl = true -> maxPerUser txl = 1 -> usageMap txl = ∅ ->
  let '(ok1, t1) := Impl_Get u None txl in
  let '(ok2, t2) := Impl_Get u None t1 in
  let t3 := Impl_Release u None t2 in
  let '(ok3, t4) := Impl_Get u None t3 in
  ok1 = true /\ ok2 = true /\ ok3 = true /\
  rejectionsDryRun t2 = Counters_Add (extractKey txl u None) 1 (rejectionsDryRun t1) /\
  rejectionsDryRun t4 = rejectionsDryRun t2.
Proof.
  intros Hd Hm Hu. assert (forall m txl', same_config (with_usage m txl') txl') as Hw by done.
  unfold Impl_Get at 1. rewrite Hu, lookup_empty, Hm. cbn [default]. change (0 <? 1) with true. cbn match.
  set (k := extractKey txl u None). unfold Impl_Get at 1. change (extractKey (with_usage _ txl) u None) with k.
  cbn [with_usage usageMap maxPerUser dryRun]. rewrite lookup_insert_eq, Hm, Hd. change (add64 0 1) with 1. cbn.
  unfold Impl_Release. cbn [with_rejections with_usage usageMap].
  change (extractKey _ u None) with k. rewrite lookup_insert_eq. cbn.
  unfold Impl_Get. cbn [with_rejections with_usage usageMap maxPerUser].
  change (extractKey _ u None) with k. rewrite lookup_delete_eq, Hm. done.
Qed.

(** A fifth of a pool of twenty per user name. *)
Definition fifth : spec_float := float64.div (float64.of_int 1) (float64.of_int 5).

Definition config_fifth : TabletConfig :=
  {| EnableTransactionLimit := true; EnableTransactionLimitDryRun := false; TransactionLimitPerUser := fifth;
     TransactionLimitByUsername := true; TransactionLimitByPrincipal := false; TransactionLimitByComponent := false;
     TransactionLimitBySubcomponent := false; TxPoolSize := 20;
     HotRowProtection := {| Mode := bs "enable"; MaxQueueSize := 20; MaxGlobalQueueSize := 1000; MaxConcurrency := 5 |};
     TerseErrors := false; SanitizeLogMessages := false |}.

Definition impl_of (l : TxLimiter) (d : Impl) : Impl := match l with TxImpl txl => txl | TxAllowAll => d end.

Definition plain_impl (dry : bool) (n : Z) : Impl :=
  {| maxPerUser := n; usageMap := ∅; dryRun := dry; byUsername := true; byPrincipal := false; byComponent := false;
     bySubcomponent := false; byEffectiveUser := false; rejections := NewCountersWithSingleLabel false;
     rejectionsDryRun := NewCountersWithSingleLabel false |}.

Definition limiter_fifth : Impl := impl_of (New config_fifth false) (plain_impl false 0).

Definition alice : option VTGateCallerID := Some {| Username := bs "alice" |}.

(** Four transactions of a user whose limit is four; a request has been refused, and one of them has been released. *)
Definition granted (n : nat) : Impl := Nat.iter n (fun txl => (Impl_Get alice None txl).2) limiter_fifth.

Definition limiter_three : Impl := Impl_Release alice None (Impl_Get alice None (granted 4)).2.

Definition alice_key : list byte := extractKey limiter_fifth alice None.

Lemma granted_history (n : nat) ks :
  history limiter_fifth (granted n) ks -> (Impl_Get alice None (granted n)).1 = true -> extractKey (granted n) alice None = alice_key ->
  history limiter_fifth (granted (S n)) (alice_key :: ks).
Proof.
  intros H Hg <-. apply (history_grant limiter_fifth (granted n) ks alice None); [done|]. change (granted (S n)) with (Impl_Get alice None (granted n)).2.
  rewrite <- Hg. apply surjective_pairing.
Qed.

Lemma limiter_three_history : history limiter_fifth limiter_three [alice_key; alice_key; alice_key].
Proof.
  apply (history_release limiter_fifth (Impl_Get alice None (granted 4)).2 [alice_key; alice_key; alice_key; alice_key] alice None).
  - apply (history_refuse limiter_fifth (granted 4) [alice_key; alice_key; alice_key; alice_key] alice None); [|vm_compute; reflexivity].
    do 4 (apply granted_history; [|vm_compute; reflexivity..]). apply history_start.
  - vm_compute. reflexivity.
Qed.

Lemma TxLimiter_limits_witness :
  (Impl_Get alice None limiter_three).1 = true <-> open_of (extractKey limiter_three alice None) [alice_key; alice_key; alice_key] < 4.
Proof.
  apply (TxLimiter_limits config_fifth false limiter_fifth limiter_three [alice_key; alice_key; alice_key] alice None);
    [vm_compute; reflexivity|reflexivity|vm_compute; discriminate|vm_compute; reflexivity|vm_compute; discriminate|
     exact limiter_three_history].
Defined.

Lemma TxLimiter_dry_run_undercounts_witness :
  let '(ok1, t1) := Impl_Get alice None (plain_impl true 1) in
  let '(ok2, t2) := Impl_Get alice None t1 in
  let t3 := Impl_Release alice None t2 in
  let '(ok3, t4) := Impl_Get alice None t3 in
  ok1 = true /\ ok2 = true /\ ok3 = true /\
  rejectionsDryRun t2 = Counters_Add (extractKey (plain_impl true 1) alice None) 1 (rejectionsDryRun t1) /\
  rejectionsDryRun t4 = rejectionsDryRun t2.
Proof. apply (TxLimiter_dry_run_undercounts (plain_impl true 1) alice); reflexivity. Defined.
