(* ===== verification/TxSerializer.v ===== *)
(** * Hot row protection

    [go/vt/vttablet/tabletserver/txserializer/tx_serializer.go]: transactions on the same
    row range queue up.  The code holds a mutex except while it waits for a slot, so a
    transaction is a sequence of atomic steps; the steps of all transactions interleave in
    the relation [tx_step].  The queues are a store with pointers: a waiting transaction keeps
    its queue while the map may change.  Of the messages only the
    keys they show are modelled; which waiting transaction gets a free slot first is left open. *)

From S2P Require Import Prelude GoStd LruCache Consolidator TabletEnv.

(** ** Keys in messages *)

(** [strings.Index]. *)
Fixpoint Index (sub s : list byte) : Z :=
  if strings.strip_prefix sub s is Some _ then 0
  else
    match s with
    | [] => -1
    | _ :: s => let r := Index sub s in if r <? 0 then -1 else r + 1
    end.

Definition where_word : list byte := bs "where".
Definition redacted : list byte := bs "... [REDACTED]".

(** [sanitizeKey]; [ToLower] is [strings.ToLower], which maps letters of any script. *)
Definition sanitizeKey (ToLower : list byte -> list byte) (key : list byte) : outcome (list byte) :=
  let whereLoc := Index where_word (ToLower key) in
  if negb (whereLoc =? -1) then
    p ← slice key 0 whereLoc;
    Ret (p ++ redacted)
  else Ret key.

(** An ASCII character in lower case. *)
Definition lower (b : byte) : byte := if (65 <=? b2z b) && (b2z b <=? 90) then z2b (b2z b + 32) else b.

Definition ascii (s : list byte) : Prop := Forall (fun b => b2z b < 128) s.

(** [key] has the word [where], in any case, right after [p]. *)
Definition where_at (key p : list byte) : Prop := exists w rest, key = p ++ w ++ rest /\ lower <$> w = where_word.

Lemma strip_prefix_Some p s r : strings.strip_prefix p s = Some r <-> s = p ++ r.
Proof.
  revert s. induction p as [|a p IH]; intros s; cbn; [split; [by intros [= ->]|by intros ->]|].
  destruct s as [|c s]; [done|]. destruct (decide (a = c)) as [->|Hne].
  - rewrite IH. split; [by intros ->|by intros [= ->]].
  - split; [done|]. intros [= -> _]. done.
Qed.

Lemma Index_spec key :
  let n := Index where_word (lower <$> key) in
  (n = -1 /\ forall p, ~ where_at key p) \/
  (exists p, n = zlen p /\ where_at key p /\ forall p', zlen p' < zlen p -> ~ where_at key p').
Proof.
  assert (forall key, (exists r, lower <$> key = where_word ++ r) <-> where_at key []) as H0.
  { intros k. unfold where_at. cbn [app]. split.
    - intros [r Hr]. apply fmap_app_inv in Hr as (w & rest & Hw & _ & ->). by exists w, rest.
    - intros (w & rest & -> & Hw). rewrite fmap_app, Hw. by eexists. }
  assert (forall c k p, where_at (c :: k) (c :: p) <-> where_at k p) as Hcons.
  { intros c k p. unfold where_at. cbn [app]. split; intros (w & rest & E & Hw); exists w, rest; by simplify_eq. }
  assert (forall c k c' p, where_at (c :: k) (c' :: p) -> c' = c) as Hhead.
  { intros c k c' p (w & rest & E & _). by simplify_eq/=. }
  induction key as [|c key IH]; cbn [fmap list_fmap Index].
  - left. split; [done|]. intros p (w & rest & E & Hw). destruct p, w; done.
  - destruct (strings.strip_prefix where_word (lower c :: (lower <$> key))) as [r|] eqn:Es.
    + right. exists []. apply strip_prefix_Some in Es. split; [done|]. split; [apply H0; by exists r|].
      intros p' Hp'. pose proof (zlen_nonneg p'). change (zlen []) with 0 in Hp'. lia.
    + assert (~ where_at (c :: key) []) as Hn.
      { intros [r Hr]%H0. rewrite fmap_cons in Hr. apply strip_prefix_Some in Hr. congruence. }
      cbv zeta in IH. destruct IH as [[E Hno]|(p & E & Hat & Hmin)].
      * left. cbn [fmap] in *. rewrite E. split; [done|]. intros [|c' p] Hp; [done|].
        rewrite (Hhead _ _ _ _ Hp), Hcons in Hp. by apply (Hno p).
      * right. exists (c :: p). cbn [fmap] in *. rewrite E. pose proof (zlen_nonneg p). destruct (Z.ltb_spec (zlen p) 0); [lia|].
        split; [rewrite zlen_cons; lia|]. split; [by apply Hcons|]. intros [|c' p'] Hlt Hp; [done|].
        rewrite (Hhead _ _ _ _ Hp), Hcons in Hp. rewrite !zlen_cons in Hlt. apply (Hmin p'); [lia|done].
Qed.

(** An ASCII key is cut at its first [where]. *)
Lemma sanitizeKey_cuts ToLower key :
  (forall s, ascii s -> ToLower s = lower <$> s) -> ascii key ->
  (exists p, where_at key p /\ (forall p', zlen p' < zlen p -> ~ where_at key p') /\ sanitizeKey ToLower key = Ret (p ++ redacted)) \/
  ((forall p, ~ where_at key p) /\ sanitizeKey ToLower key = Ret key).
Proof.
  intros HL Ha. unfold sanitizeKey. rewrite (HL key Ha). destruct (Index_spec key) as [[E Hno]|(p & E & Hat & Hmin)]; rewrite E.
  - by right.
  - left. exists p. split_and!; [done..|]. pose proof (zlen_nonneg p).
    destruct (Z.eqb_spec (zlen p) (-1)); [lia|]. cbn [negb]. destruct Hat as (w & rest & -> & _).
    pose proof (slice_app_mid [] p (w ++ rest)) as Hs. cbn [app] in Hs. change (zlen []) with 0 in Hs.
    rewrite Z.add_0_l in Hs. by rewrite Hs.
Qed.

(** ** The code *)

(** [queue]; the channel [availableSlots] is its number of elements, its capacity is the
    constant [concurrentTransactions], and a nil channel is [None]. *)
Record queue := { q_size : Z; q_count : Z; q_max : Z; availableSlots : option Z }.

(** [newQueueForFirstTransaction]. *)
Definition newQueueForFirstTransaction : queue := {| q_size := 1; q_count := 1; q_max := 1; availableSlots := None |}.

(** The counters of the serializer. *)
Record tx_stats := {
  waits : CountersWithSingleLabel;
  waitsDryRun : CountersWithSingleLabel;
  queueExceeded : CountersWithSingleLabel;
  queueExceededDryRun : CountersWithSingleLabel;
  globalQueueExceeded : Z;
  globalQueueExceededDryRun : Z
}.

(** The immutable fields of [TxSerializer], with the two flags it reads from [env.Config()]. *)
Record tx_config := {
  tx_dryRun : bool;
  tx_terseErrors : bool;
  tx_sanitizeLog : bool;
  maxQueueSize : Z;
  maxGlobalQueueSize : Z;
  concurrentTransactions : Z
}.

(** The mutable fields; [ts_heap] is what the pointers of [ts_queues] point to. *)
Record TxSerializer := {
  ts_cache : ConsolidatorCache;
  ts_stats : tx_stats;
  ts_queues : gmap (list byte) nat;
  ts_heap : gmap nat queue;
  ts_next : nat;
  ts_globalSize : Z
}.

(** [New]: the configuration and the state. *)
Definition tx_config_of (config : TabletConfig) : tx_config :=
  let h := HotRowProtection config in
  {| tx_dryRun := bool_decide (Mode h = bs "dryRun"); tx_terseErrors := TerseErrors config;
     tx_sanitizeLog := SanitizeLogMessages config; maxQueueSize := MaxQueueSize h;
     maxGlobalQueueSize := MaxGlobalQueueSize h; concurrentTransactions := MaxConcurrency h |}.

Definition NewTxSerializer (combined : bool) : TxSerializer :=
  let c := NewCountersWithSingleLabel combined in
  {| ts_cache := NewConsolidatorCache 1000;
     ts_stats := {| waits := c; waitsDryRun := c; queueExceeded := c; queueExceededDryRun := c;
                    globalQueueExceeded := 0; globalQueueExceededDryRun := 0 |};
     ts_queues := ∅; ts_heap := ∅; ts_next := 0; ts_globalSize := 0 |}.

(** The errors of [Wait]: the size and the limit that was reached, with the key as it is
    shown, or the context's. *)
Inductive wait_error :=
| TooManyGlobal (size limit : Z)
| TooManyForRow (size limit : Z) (key : list byte)
| ContextDone.

(** Updates of single parts. *)
Definition with_stats (s : tx_stats) (ts : TxSerializer) : TxSerializer :=
  {| ts_cache := ts_cache ts; ts_stats := s; ts_queues := ts_queues ts; ts_heap := ts_heap ts;
     ts_next := ts_next ts; ts_globalSize := ts_globalSize ts |}.

Definition with_queue (q : nat) (qu : queue) (ts : TxSerializer) : TxSerializer :=
  {| ts_cache := ts_cache ts; ts_stats := ts_stats ts; ts_queues := ts_queues ts; ts_heap := <[q := qu]> (ts_heap ts);
     ts_next := ts_next ts; ts_globalSize := ts_globalSize ts |}.

Definition with_cache (cc : ConsolidatorCache) (ts : TxSerializer) : TxSerializer :=
  {| ts_cache := cc; ts_stats := ts_stats ts; ts_queues := ts_queues ts; ts_heap := ts_heap ts;
     ts_next := ts_next ts; ts_globalSize := ts_globalSize ts |}.

Definition add_waits (table : list byte) (s : tx_stats) : tx_stats :=
  {| waits := Counters_Add table 1 (waits s); waitsDryRun := waitsDryRun s; queueExceeded := queueExceeded s;
     queueExceededDryRun := queueExceededDryRun s; globalQueueExceeded := globalQueueExceeded s;
     globalQueueExceededDryRun := globalQueueExceededDryRun s |}.

Definition add_waitsDryRun (table : list byte) (s : tx_stats) : tx_stats :=
  {| waits := waits s; waitsDryRun := Counters_Add table 1 (waitsDryRun s); queueExceeded := queueExceeded s;
     queueExceededDryRun := queueExceededDryRun s; globalQueueExceeded := globalQueueExceeded s;
     globalQueueExceededDryRun := globalQueueExceededDryRun s |}.

Definition add_queueExceeded (dry : bool) (table : list byte) (s : tx_stats) : tx_stats :=
  {| waits := waits s; waitsDryRun := waitsDryRun s;
     queueExceeded := if dry then queueExceeded s else Counters_Add table 1 (queueExceeded s);
     queueExceededDryRun := if dry then Counters_Add table 1 (queueExceededDryRun s) else queueExceededDryRun s;
     globalQueueExceeded := globalQueueExceeded s; globalQueueExceededDryRun := globalQueueExceededDryRun s |}.

Definition add_globalExceeded (dry : bool) (s : tx_stats) : tx_stats :=
  {| waits := waits s; waitsDryRun := waitsDryRun s; queueExceeded := queueExceeded s;
     queueExceededDryRun := queueExceededDryRun s;
     globalQueueExceeded := if dry then globalQueueExceeded s else add64 (globalQueueExceeded s) 1;
     globalQueueExceededDryRun := if dry then add64 (globalQueueExceededDryRun s) 1 else globalQueueExceededDryRun s |}.

Section Serializer.
Context (cfg : tx_config) (ToLower : list byte -> list byte).

(** The key in a message. *)
Definition shown (sanitize : bool) (key : list byte) : outcome (list byte) :=
  if sanitize then sanitizeKey ToLower key else Ret key.

(** The key can be shown in every message: [sanitizeKey] does not panic on it, or is not called. *)
Definition showable (key : list byte) : Prop := shown (tx_sanitizeLog cfg) key <> Panic /\ shown (tx_terseErrors cfg) key <> Panic.

(** What [lockLocked] does before it gives up the mutex: it lets the transaction pass,
    refuses it, or leaves it with a queue to wait for. *)
Inductive entered :=
| Pass
| Refused (e : wait_error)
| MustWait (q : nat).

(** [q.availableSlots = make(chan struct{}, txs.concurrentTransactions)] followed by a send,
    and [txs.Record(key)].  A negative size panics; with size zero the send blocks for
    ever ([None]), the mutex held. *)
Definition make_slots (key : list byte) (now : Z) (q : nat) (qu : queue) (ts : TxSerializer) : outcome (option TxSerializer) :=
  if concurrentTransactions cfg <? 0 then Panic
  else if concurrentTransactions cfg =? 0 then Ret None
  else
    let qu := {| q_size := q_size qu; q_count := q_count qu; q_max := q_max qu; availableSlots := Some 1 |} in
    cc ← CC_Record key now (ts_cache ts);
    Ret (Some (with_cache cc (with_queue q qu ts))).

(** The queueing proper: the counts and [txs.Record(key)]. *)
Definition enqueue (key : list byte) (now : Z) (q : nat) (ts : TxSerializer) : outcome TxSerializer :=
  match ts_heap ts !! q with
  | None => Panic
  | Some qu =>
      let size := add64 (q_size qu) 1 in
      let qu := {| q_size := size; q_count := add64 (q_count qu) 1;
                   q_max := if q_max qu <? size then size else q_max qu; availableSlots := availableSlots qu |} in
      let ts := {| ts_cache := ts_cache ts; ts_stats := ts_stats ts; ts_queues := ts_queues ts;
                   ts_heap := <[q := qu]> (ts_heap ts); ts_next := ts_next ts;
                   ts_globalSize := add64 (ts_globalSize ts) 1 |} in
      cc ← CC_Record key now (ts_cache ts);
      Ret (with_cache cc ts)
  end.

(** The two limits: the error of the first one that is exceeded, and the counters.  In
    dry run the key is only logged. *)
Definition check_limits (key table : list byte) (qu : queue) (ts : TxSerializer) : outcome (option wait_error * TxSerializer) :=
  let dry := tx_dryRun cfg in
  let global := maxGlobalQueueSize cfg <=? ts_globalSize ts in
  let ts := if global then with_stats (add_globalExceeded dry (ts_stats ts)) ts else ts in
  if global && negb dry then Ret (Some (TooManyGlobal (ts_globalSize ts) (maxGlobalQueueSize cfg)), ts)
  else if maxQueueSize cfg <=? q_size qu then
    let ts := with_stats (add_queueExceeded dry table (ts_stats ts)) ts in
    if dry then
      _ ← shown (tx_sanitizeLog cfg) key;
      Ret (None, ts)
    else
      k ← shown (tx_terseErrors cfg) key;
      Ret (Some (TooManyForRow (q_size qu) (maxQueueSize cfg) k), ts)
  else Ret (None, ts).

(** [lockLocked] up to [txs.mu.Unlock()]; [None] when it blocks with the mutex held. *)
Definition lockLocked_enter (key table : list byte) (now : Z) (ts : TxSerializer) : outcome (option (entered * TxSerializer)) :=
  match ts_queues ts !! key with
  | None =>
      let q := ts_next ts in
      Ret (Some (Pass,
        {| ts_cache := ts_cache ts; ts_stats := ts_stats ts; ts_queues := <[key := q]> (ts_queues ts);
           ts_heap := <[q := newQueueForFirstTransaction]> (ts_heap ts); ts_next := S q;
           ts_globalSize := add64 (ts_globalSize ts) 1 |}))
  | Some q =>
      match ts_heap ts !! q with
      | None => Panic
      | Some qu =>
          limits ← check_limits key table qu ts;
          match limits with
          | (Some e, ts) => Ret (Some (Refused e, ts))
          | (None, ts) =>
              r ← match availableSlots qu with
                  | None => make_slots key now q qu ts
                  | Some _ => Ret (Some ts)
                  end;
              match r with
              | None => Ret None
              | Some ts =>
                  ts ← enqueue key now q ts;
                  if tx_dryRun cfg then
                    _ ← shown (tx_sanitizeLog cfg) key;
                    Ret (Some (Pass, with_stats (add_waitsDryRun table (ts_stats ts)) ts))
                  else Ret (Some (MustWait q, ts))
              end
          end
      end
  end.

(** [q.availableSlots <- struct{}{}]: [None] when the channel is full or nil. *)
Definition send_slot (q : nat) (ts : TxSerializer) : outcome (option TxSerializer) :=
  match ts_heap ts !! q with
  | None => Panic
  | Some qu =>
      match availableSlots qu with
      | None => Ret None
      | Some n =>
          if n <? concurrentTransactions cfg then
            Ret (Some (with_queue q {| q_size := q_size qu; q_count := q_count qu; q_max := q_max qu;
                                       availableSlots := Some (n + 1) |} ts))
          else Ret None
      end
  end.

(** [unlockLocked]: [None] when the receive from the channel would block. *)
Definition unlockLocked (key : list byte) (returnSlot : bool) (ts : TxSerializer) : outcome (option TxSerializer) :=
  match ts_queues ts !! key with
  | None => Panic
  | Some q =>
      match ts_heap ts !! q with
      | None => Panic
      | Some qu =>
          let size := sub64 (q_size qu) 1 in
          let qu := {| q_size := size; q_count := q_count qu; q_max := q_max qu; availableSlots := availableSlots qu |} in
          let ts := {| ts_cache := ts_cache ts; ts_stats := ts_stats ts; ts_queues := ts_queues ts;
                       ts_heap := <[q := qu]> (ts_heap ts); ts_next := ts_next ts;
                       ts_globalSize := sub64 (ts_globalSize ts) 1 |} in
          if size =? 0 then
            _ ← (if 1 <? q_max qu then shown (tx_sanitizeLog cfg) key else Ret key);
            Ret (Some {| ts_cache := ts_cache ts; ts_stats := ts_stats ts; ts_queues := delete key (ts_queues ts);
                         ts_heap := ts_heap ts; ts_next := ts_next ts; ts_globalSize := ts_globalSize ts |})
          else if tx_dryRun cfg then Ret (Some ts)
          else if negb returnSlot then Ret (Some ts)
          else
            match availableSlots qu with
            | None => Ret None
            | Some n =>
                if n <=? 0 then Ret None
                else Ret (Some (with_queue q {| q_size := size; q_count := q_count qu; q_max := q_max qu;
                                                availableSlots := Some (n - 1) |} ts))
            end
      end
  end.

(** [Pending]. *)
Definition Pending (key : list byte) (ts : TxSerializer) : outcome Z :=
  match ts_queues ts !! key with
  | None => Ret 0
  | Some q => match ts_heap ts !! q with None => Panic | Some qu => Ret (q_size qu) end
  end.

(** ** Transactions *)

(** Where a transaction is: before the first attempt to take a slot, blocked on the
    channel, about to give up after its context is done, or returned from [Wait] with a
    function [done] that is still to be called. *)
Inductive tx :=
| Trying (key table : list byte) (q : nat)
| Blocked (key : list byte) (q : nat)
| Cancelling (key : list byte)
| Holding (key : list byte).

Record tx_system := { sys_ts : TxSerializer; sys_txs : gmap nat tx }.

Definition tx_sys_init (combined : bool) : tx_system := {| sys_ts := NewTxSerializer combined; sys_txs := ∅ |}.

(** The steps of transaction [t], with any key; there are fewer than [2^63] transactions at a time.  A call that panics makes
    no step. *)
Inductive tx_step (t : nat) : tx_system -> tx_system -> Prop :=
| step_pass ts l key table now ts' :
    l !! t = None -> Z.of_nat (size l) < MaxInt64 ->
    lockLocked_enter key table now ts = Ret (Some (Pass, ts')) ->
    tx_step t {| sys_ts := ts; sys_txs := l |} {| sys_ts := ts'; sys_txs := <[t := Holding key]> l |}
| step_refused ts l key table now e ts' :
    l !! t = None -> Z.of_nat (size l) < MaxInt64 ->
    lockLocked_enter key table now ts = Ret (Some (Refused e, ts')) ->
    tx_step t {| sys_ts := ts; sys_txs := l |} {| sys_ts := ts'; sys_txs := l |}
| step_wait ts l key table now q ts' :
    l !! t = None -> Z.of_nat (size l) < MaxInt64 ->
    lockLocked_enter key table now ts = Ret (Some (MustWait q, ts')) ->
    tx_step t {| sys_ts := ts; sys_txs := l |} {| sys_ts := ts'; sys_txs := <[t := Trying key table q]> l |}
| step_try ts l key table q ts' :
    l !! t = Some (Trying key table q) -> send_slot q ts = Ret (Some ts') ->
    tx_step t {| sys_ts := ts; sys_txs := l |} {| sys_ts := ts'; sys_txs := <[t := Holding key]> l |}
| step_full ts l key table q :
    l !! t = Some (Trying key table q) -> send_slot q ts = Ret None ->
    tx_step t {| sys_ts := ts; sys_txs := l |}
      {| sys_ts := with_stats (add_waits table (ts_stats ts)) ts; sys_txs := <[t := Blocked key q]> l |}
| step_wake ts l key q ts' :
    l !! t = Some (Blocked key q) -> send_slot q ts = Ret (Some ts') ->
    tx_step t {| sys_ts := ts; sys_txs := l |} {| sys_ts := ts'; sys_txs := <[t := Holding key]> l |}
| step_cancel ts l key q :
    l !! t = Some (Blocked key q) ->
    tx_step t {| sys_ts := ts; sys_txs := l |} {| sys_ts := ts; sys_txs := <[t := Cancelling key]> l |}
| step_abort ts l key ts' :
    l !! t = Some (Cancelling key) -> unlockLocked key false ts = Ret (Some ts') ->
    tx_step t {| sys_ts := ts; sys_txs := l |} {| sys_ts := ts'; sys_txs := delete t l |}
| step_done ts l key ts' :
    l !! t = Some (Holding key) -> unlockLocked key true ts = Ret (Some ts') ->
    tx_step t {| sys_ts := ts; sys_txs := l |} {| sys_ts := ts'; sys_txs := delete t l |}.

Definition tx_any_step (s s' : tx_system) : Prop := exists t, tx_step t s s'.

(** ** The invariant *)

Definition tx_key (x : tx) : list byte :=
  match x with Trying k _ _ | Blocked k _ | Cancelling k | Holding k => k end.

(** A transaction of key [k], one of key [k] that passed. *)
Definition keyed (k : list byte) (x : tx) : Z := if bool_decide (tx_key x = k) then 1 else 0.

Definition held (k : list byte) (x : tx) : Z := match x with Holding k' => if bool_decide (k' = k) then 1 else 0 | _ => 0 end.

Definition members (k : list byte) (l : gmap nat tx) : Z := msum (keyed k) l.
Definition holders (k : list byte) (l : gmap nat tx) : Z := msum (held k) l.

(** The queue of key [k]: its size counts the transactions of the key, and the elements of
    its channel those that passed. *)
Record queue_ok (k : list byte) (qu : queue) (l : gmap nat tx) : Prop := {
  qok_size : q_size qu = members k l;
  qok_positive : 1 <= members k l;
  qok_max : q_size qu <= q_max qu;
  qok_limit : tx_dryRun cfg = false -> members k l <= Z.max 1 (maxQueueSize cfg);
  qok_slots : tx_dryRun cfg = false ->
    match availableSlots qu with
    | None => members k l = 1 /\ holders k l = 1
    | Some n => n = holders k l /\ n <= concurrentTransactions cfg
    end
}.

Definition key_ok (ts : TxSerializer) (l : gmap nat tx) (k : list byte) : Prop :=
  match ts_queues ts !! k with
  | None => members k l = 0
  | Some q => exists qu, ts_heap ts !! q = Some qu /\ queue_ok k qu l
  end.

Definition tx_ok (ts : TxSerializer) (x : tx) : Prop :=
  match x with
  | Trying k _ q | Blocked k q => ts_queues ts !! k = Some q /\ tx_dryRun cfg = false
  | Cancelling _ => tx_dryRun cfg = false
  | Holding _ => True
  end.

Record tx_sys_ok (ts : TxSerializer) (l : gmap nat tx) : Prop := {
  sok_keys : forall k, key_ok ts l k;
  sok_pointers : forall k q, ts_queues ts !! k = Some q ->
    (q < ts_next ts)%nat /\ forall k', ts_queues ts !! k' = Some q -> k' = k;
  sok_txs : forall t x, l !! t = Some x -> tx_ok ts x;
  sok_global : ts_globalSize ts = Z.of_nat (size l);
  sok_bound : Z.of_nat (size l) <= MaxInt64;
  sok_cache : exists c, cc_rep (ts_cache ts) c
}.

Lemma keyed_bounds k x : 0 <= keyed k x <= 1.
Proof. unfold keyed. case_bool_decide; lia. Qed.

Lemma held_bounds k x : 0 <= held k x <= keyed k x.
Proof. unfold held, keyed. destruct x; cbn; case_bool_decide; lia. Qed.

Lemma members_size k l : members k l <= Z.of_nat (size l).
Proof. apply msum_size. intros x. apply keyed_bounds. Qed.

Lemma members_nonneg k l : 0 <= members k l.
Proof. apply msum_nonneg. intros t x _. apply keyed_bounds. Qed.

Lemma holders_nonneg k l : 0 <= holders k l.
Proof. apply msum_nonneg. intros t x _. apply held_bounds. Qed.

(** A transaction that did not pass is a member besides the holders. *)
Lemma waiter_counts k l t x :
  l !! t = Some x -> tx_key x = k -> held k x = 0 -> holders k l + 1 <= members k l.
Proof.
  intros Ht Hk Hh. unfold holders, members. pose proof (msum_delete (held k) l t x Ht) as H1.
  pose proof (msum_delete (keyed k) l t x Ht) as H2. unfold keyed at 3 in H2. rewrite bool_decide_eq_true_2 in H2 by done.
  assert (msum (held k) (delete t l) <= msum (keyed k) (delete t l)) by (apply msum_mono; intros; apply held_bounds). lia.
Qed.

Lemma holder_counts k l t : l !! t = Some (Holding k) -> 1 <= holders k l.
Proof.
  intros Ht. pose proof (msum_le (held k) l t _ (fun _ _ _ => proj1 (held_bounds k _)) Ht) as H.
  unfold held at 1 in H. rewrite bool_decide_eq_true_2 in H by done. done.
Qed.

(** The queue of a transaction. *)
Lemma tx_queue ts l t x :
  tx_sys_ok ts l -> l !! t = Some x ->
  exists q qu, ts_queues ts !! tx_key x = Some q /\ ts_heap ts !! q = Some qu /\ queue_ok (tx_key x) qu l.
Proof.
  intros Hok Ht. pose proof (sok_keys _ _ Hok (tx_key x)) as Hk. unfold key_ok in Hk.
  destruct (ts_queues ts !! tx_key x) as [q|].
  - destruct Hk as (qu & Hq & Hqu). by exists q, qu.
  - assert (keyed (tx_key x) x <= 0) as H.
    { rewrite <- Hk. apply (msum_le _ l t); [|done]. intros t' y _. apply keyed_bounds. }
    unfold keyed in H. rewrite bool_decide_eq_true_2 in H by done. lia.
Qed.

(** Keys that a step does not touch. *)
Lemma key_frame ts ts' l l' k :
  key_ok ts l k -> ts_queues ts' !! k = ts_queues ts !! k ->
  (forall q, ts_queues ts !! k = Some q -> ts_heap ts' !! q = ts_heap ts !! q) ->
  members k l' = members k l -> holders k l' = holders k l -> key_ok ts' l' k.
Proof.
  unfold key_ok. intros Hk Eq Eh Em Ehl. rewrite Eq. destruct (ts_queues ts !! k) as [q|]; [|congruence].
  destruct Hk as (qu & Hq & [H1 H2 H3 H4 H5]). exists qu. rewrite (Eh q eq_refl). split; [done|].
  split; rewrite ?Em, ?Ehl; done.
Qed.

Lemma other_key k x : tx_key x <> k -> keyed k x = 0 /\ held k x = 0.
Proof.
  intros Hne. assert (keyed k x = 0) as H by (unfold keyed; by rewrite bool_decide_eq_false_2).
  split; [done|]. pose proof (held_bounds k x). lia.
Qed.

Lemma own_key x : keyed (tx_key x) x = 1.
Proof. unfold keyed. by rewrite bool_decide_eq_true_2. Qed.

(** A step that updates the queue [q] of key [k] and transactions of that key only. *)
Lemma update_ok ts l ts' l' k q qu' :
  tx_sys_ok ts l -> ts_queues ts !! k = Some q -> ts_queues ts' = ts_queues ts -> ts_next ts' = ts_next ts ->
  ts_heap ts' = <[q := qu']> (ts_heap ts) -> queue_ok k qu' l' ->
  (forall k', k <> k' -> members k' l' = members k' l /\ holders k' l' = holders k' l) ->
  (forall t x, l' !! t = Some x -> tx_ok ts x) -> ts_globalSize ts' = Z.of_nat (size l') ->
  Z.of_nat (size l') <= MaxInt64 -> (exists c, cc_rep (ts_cache ts') c) -> tx_sys_ok ts' l'.
Proof.
  intros Hok Hk Eq En Eh Hqu Hother Htx Hg Hb Hc. split; try done.
  - intros k'. destruct (decide (k = k')) as [<-|Hne].
    + unfold key_ok. rewrite Eq, Hk. exists qu'. by rewrite Eh, lookup_insert_eq.
    + destruct (Hother k' Hne) as [Hm Hh].
      apply (key_frame ts ts' l l' k' (sok_keys _ _ Hok k')); [by rewrite Eq| |done|done].
      intros q' Hq'. rewrite Eh, lookup_insert_ne; [done|]. intros <-.
      destruct (sok_pointers _ _ Hok k q Hk) as [_ Hu]. by specialize (Hu k' Hq').
  - intros k' q'. rewrite Eq, En. apply (sok_pointers _ _ Hok).
  - intros t x Hx. apply Htx in Hx. unfold tx_ok in *. by rewrite Eq.
Qed.

Lemma tx_sys_init_ok combined : tx_sys_ok (NewTxSerializer combined) ∅.
Proof.
  split; cbn.
  - intros k. unfold key_ok. cbn. rewrite lookup_empty. unfold members. apply msum_empty.
  - intros k q. by rewrite lookup_empty.
  - intros t x. by rewrite lookup_empty.
  - done.
  - unfold MaxInt64. rewrite map_size_empty. lia.
  - exists []. apply cc_rep_new. unfold MaxInt64. lia.
Qed.

(** Counters do not matter. *)
Lemma stats_ok st ts l : tx_sys_ok ts l -> tx_sys_ok (with_stats st ts) l.
Proof. intros [H1 H2 H3 H4 H5 H6]. by split. Qed.

Section Steps.
Hypothesis slots_positive : 1 <= concurrentTransactions cfg.
(** Taking a slot: it is there, or all of them are held. *)
Lemma send_ok ts l t x q :
  tx_sys_ok ts l -> l !! t = Some x -> (x = Blocked (tx_key x) q \/ exists table, x = Trying (tx_key x) table q) ->
  (send_slot q ts = Ret None /\ holders (tx_key x) l = concurrentTransactions cfg) \/
  exists ts', send_slot q ts = Ret (Some ts') /\ tx_sys_ok ts' (<[t := Holding (tx_key x)]> l).
Proof.
  set (k := tx_key x). intros Hok Ht Hx.
  pose proof (sok_txs _ _ Hok t x Ht) as Htx.
  assert (ts_queues ts !! k = Some q /\ tx_dryRun cfg = false /\ held k x = 0) as (Hq & Hd & Hh).
  { destruct Hx as [E|[table E]]; rewrite E in Htx; destruct Htx; by rewrite E. }
  destruct (tx_queue ts l t x Hok Ht) as (q' & qu & Hq' & Hqu & Hok'). fold k in Hq', Hok'.
  assert (q' = q) as -> by congruence. unfold send_slot. rewrite Hqu. destruct Hok' as [H1 H2 H3 H4 H5].
  specialize (H5 Hd). pose proof (waiter_counts k l t x Ht eq_refl Hh) as Hw.
  destruct (availableSlots qu) as [n|]; [|lia]. destruct H5 as [-> H5].
  destruct (Z.ltb_spec (holders k l) (concurrentTransactions cfg)) as [Hlt|Hge]; [|left; split; [done|lia]].
  right. eexists. split; [done|].
  assert (members k (<[t := Holding k]> l) = members k l) as Em.
  { unfold members. rewrite (msum_replace _ _ _ _ _ Ht), (own_key x : keyed k x = 1), (own_key (Holding k) : keyed k (Holding k) = 1). lia. }
  assert (holders k (<[t := Holding k]> l) = holders k l + 1) as Eh.
  { unfold holders. rewrite (msum_replace _ _ _ _ _ Ht), Hh. unfold held at 2. rewrite bool_decide_eq_true_2 by done. lia. }
  eapply (update_ok ts l _ _ k q); try done; cbn [with_queue ts_globalSize ts_cache].
  - split; cbn; rewrite ?Em, ?Eh; try done. intros _. split; [done|lia].
  - intros k' Hne. unfold members, holders. rewrite !(msum_replace _ _ _ _ _ Ht).
    destruct (other_key k' x Hne) as [-> ->], (other_key k' (Holding k) Hne) as [-> ->]. lia.
  - intros t' y [[<- <-]|[_ Hy]]%lookup_insert_Some; [done|by apply (sok_txs _ _ Hok t')].
  - rewrite map_size_insert_Some by (by eexists). apply (sok_global _ _ Hok).
  - rewrite map_size_insert_Some by (by eexists). apply (sok_bound _ _ Hok).
  - apply (sok_cache _ _ Hok).
Qed.

Lemma delete_counts l t x :
  l !! t = Some x ->
  Z.of_nat (size (delete t l)) = Z.of_nat (size l) - 1 /\
  forall k, members k (delete t l) = members k l - keyed k x /\ holders k (delete t l) = holders k l - held k x.
Proof.
  intros Ht. split.
  - rewrite map_size_delete_Some by (by eexists). assert (size l <> 0%nat); [|lia].
    intros E. apply map_size_empty_inv in E. subst l. by rewrite lookup_empty in Ht.
  - intros k. unfold members, holders. by rewrite !(msum_delete _ _ _ _ Ht).
Qed.

Lemma delete_other l t x k' :
  l !! t = Some x -> tx_key x <> k' -> members k' (delete t l) = members k' l /\ holders k' (delete t l) = holders k' l.
Proof.
  intros Ht Hne. destruct (delete_counts l t x Ht) as [_ Hk]. specialize (Hk k').
  destruct (other_key k' x Hne) as [E1 E2]. lia.
Qed.

(** The last transaction of a key takes the queue with it. *)
Lemma last_ok ts l t x ts' :
  tx_sys_ok ts l -> l !! t = Some x -> members (tx_key x) l = 1 ->
  ts_queues ts' = delete (tx_key x) (ts_queues ts) -> ts_next ts' = ts_next ts ->
  (forall k q, k <> tx_key x -> ts_queues ts !! k = Some q -> ts_heap ts' !! q = ts_heap ts !! q) ->
  ts_globalSize ts' = ts_globalSize ts - 1 -> ts_cache ts' = ts_cache ts -> tx_sys_ok ts' (delete t l).
Proof.
  intros Hok Ht Hm Eq En Eh Eg Ec. destruct (delete_counts l t x Ht) as [Esz Hk].
  pose proof (sok_bound _ _ Hok). pose proof (sok_global _ _ Hok). split.
  - intros k'. destruct (decide (tx_key x = k')) as [<-|Hne].
    + unfold key_ok. rewrite Eq, lookup_delete_eq. destruct (Hk (tx_key x)) as [-> _]. rewrite own_key. lia.
    + destruct (delete_other l t x k' Ht Hne).
      apply (key_frame ts _ l _ k' (sok_keys _ _ Hok k')); [by rewrite Eq, lookup_delete_ne| |done|done].
      intros q' Hq'. by apply (Eh k').
  - intros k' q'. rewrite Eq, En. intros [_ Hk']%lookup_delete_Some.
    destruct (sok_pointers _ _ Hok k' q' Hk') as [Hlt Hu]. split; [done|].
    intros k2. intros [_ Hk2]%lookup_delete_Some. by apply Hu.
  - intros t' y [Hne Hy]%lookup_delete_Some. pose proof (sok_txs _ _ Hok t' y Hy) as Hty.
    assert (tx_key x <> tx_key y) as Hky.
    { intros Hky. assert (delete t l !! t' = Some y) as Hy' by (by rewrite lookup_delete_ne).
      pose proof (msum_le (keyed (tx_key x)) (delete t l) t' y (fun _ _ _ => proj1 (keyed_bounds _ _)) Hy') as Hle.
      fold (members (tx_key x) (delete t l)) in Hle. destruct (Hk (tx_key x)) as [Em _].
      rewrite Em, own_key in Hle. rewrite Hky, own_key in Hle. rewrite <- Hky in Hle. lia. }
    destruct y; cbn in *; try done; (destruct Hty; split; [by rewrite Eq, lookup_delete_ne|done]).
  - lia.
  - lia.
  - rewrite Ec. apply (sok_cache _ _ Hok).
Qed.

(** Another transaction of the key stays; [sl] is what remains of the channel. *)
Lemma leave_ok ts l t x q qu sl :
  tx_sys_ok ts l -> l !! t = Some x -> ts_queues ts !! tx_key x = Some q -> ts_heap ts !! q = Some qu ->
  queue_ok (tx_key x) qu l -> q_size qu - 1 <> 0 ->
  (tx_dryRun cfg = false ->
   match sl with
   | None => members (tx_key x) l - 1 = 1 /\ holders (tx_key x) l - held (tx_key x) x = 1
   | Some n => n = holders (tx_key x) l - held (tx_key x) x /\ n <= concurrentTransactions cfg
   end) ->
  tx_sys_ok {| ts_cache := ts_cache ts; ts_stats := ts_stats ts; ts_queues := ts_queues ts;
    ts_heap := <[q := {| q_size := q_size qu - 1; q_count := q_count qu; q_max := q_max qu; availableSlots := sl |}]> (ts_heap ts);
    ts_next := ts_next ts; ts_globalSize := ts_globalSize ts - 1 |} (delete t l).
Proof.
  intros Hok Ht Hq Hqu [H1 H2 H3 H4 H5] Hne Hsl. destruct (delete_counts l t x Ht) as [Esz Hk].
  destruct (Hk (tx_key x)) as [Em Eh]. rewrite own_key in Em.
  pose proof (sok_bound _ _ Hok). pose proof (sok_global _ _ Hok).
  eapply (update_ok ts l _ _ (tx_key x) q); try done; cbn [ts_globalSize ts_cache].
  - split; cbn; rewrite ?Em, ?Eh; try lia; [|done]. intros Hd. specialize (H4 Hd). lia.
  - intros k' Hk'. by apply (delete_other l t x).
  - intros t' y [_ Hy]%lookup_delete_Some. by apply (sok_txs _ _ Hok t').
  - lia.
  - lia.
  - apply (sok_cache _ _ Hok).
Qed.

(** Leaving: it panics only when the key cannot be shown, and the receive from the channel does not block. *)
Lemma unlock_ok ts l t x (returnSlot : bool) :
  tx_sys_ok ts l -> l !! t = Some x -> x = (if returnSlot then Holding (tx_key x) else Cancelling (tx_key x)) ->
  (unlockLocked (tx_key x) returnSlot ts = Panic /\ ~ showable (tx_key x)) \/
  exists ts', unlockLocked (tx_key x) returnSlot ts = Ret (Some ts') /\ tx_sys_ok ts' (delete t l).
Proof.
  intros Hok Ht Hx. destruct (tx_queue ts l t x Hok Ht) as (q & qu & Hq & Hqu & Hqok).
  pose proof Hqok as [H1 H2 H3 H4 H5]. unfold unlockLocked. rewrite Hq, Hqu.
  pose proof (members_size (tx_key x) l). pose proof (sok_bound _ _ Hok). pose proof (sok_global _ _ Hok).
  rewrite (sub64_small (q_size qu)), (sub64_small (ts_globalSize ts)) by (unfold_ints; lia).
  destruct (Z.eqb_spec (q_size qu - 1) 0) as [E0|E0].
  { cbn [q_max]. destruct (if 1 <? q_max qu then shown (tx_sanitizeLog cfg) (tx_key x) else Ret (tx_key x)) as [k0|] eqn:Ek.
    2:{ left. split; [done|]. intros [Hs _]. by destruct (1 <? q_max qu). }
    right. cbn [mbind outcome_bind]. eexists. split; [done|]. apply (last_ok ts l t x); try done; cbn; [lia|]. intros k q' Hne Hq'.
    rewrite lookup_insert_ne; [done|]. intros <-. by destruct (sok_pointers _ _ Hok _ _ Hq) as [_ Hu%(fun H => H k Hq')]. }
  right. pose proof (fun sl => leave_ok ts l t x q qu sl Hok Ht Hq Hqu Hqok E0) as Hleave.
  destruct (tx_dryRun cfg) eqn:Hd; [eexists; split; [done|by apply Hleave]|]. specialize (H5 eq_refl).
  assert (held (tx_key x) x = if returnSlot then 1 else 0) as Hh.
  { rewrite Hx at 2. destruct returnSlot; cbn; [by rewrite bool_decide_eq_true_2|done]. }
  rewrite Hh in Hleave. destruct returnSlot; cbn [negb].
  - rewrite Hx in Ht. pose proof (holder_counts _ l t Ht) as Hhc. cbn [availableSlots].
    destruct (availableSlots qu) as [n|]; [|lia]. destruct H5 as [-> H5].
    destruct (Z.leb_spec (holders (tx_key x) l) 0); [lia|]. eexists. split; [done|]. unfold with_queue. cbn.
    rewrite insert_insert_eq. apply Hleave. intros _. split; [done|lia].
  - eexists. split; [done|]. apply Hleave. intros _. pose proof (waiter_counts _ l t x Ht eq_refl Hh) as Hw.
    destruct (availableSlots qu) as [n|]; lia.
Qed.

Lemma check_limits_stats key table qu ts :
  (check_limits key table qu ts = Panic /\ ~ showable key) \/
  exists o st, check_limits key table qu ts = Ret (o, with_stats st ts) /\
  (o = None -> tx_dryRun cfg = false -> q_size qu < maxQueueSize cfg).
Proof.
  unfold check_limits, showable. destruct ts as [cc st qs h nx g]. cbn [ts_globalSize ts_stats with_stats].
  destruct (shown (tx_sanitizeLog cfg) key) as [k1|], (shown (tx_terseErrors cfg) key) as [k2|];
    destruct (maxGlobalQueueSize cfg <=? g); destruct (Z.leb_spec (maxQueueSize cfg) (q_size qu)); destruct (tx_dryRun cfg);
    cbn; first [by left; split; [done|intros [??]] | right; do 2 eexists; (split; [reflexivity|]); intros; done || lia].
Qed.

(** The channel is there after [make_slots], with the slot of the first transaction. *)
Lemma make_slots_ok key now q qu ts c :
  cc_rep (ts_cache ts) c ->
  exists cc c', make_slots key now q qu ts =
    Ret (Some (with_cache cc (with_queue q {| q_size := q_size qu; q_count := q_count qu; q_max := q_max qu;
                                              availableSlots := Some 1 |} ts))) /\ cc_rep cc c'.
Proof.
  intros Hc. unfold make_slots. destruct (Z.ltb_spec (concurrentTransactions cfg) 0); [lia|].
  destruct (Z.eqb_spec (concurrentTransactions cfg) 0); [lia|].
  destruct (CC_Record_refines key now _ _ Hc) as (cc & -> & Hcc & _). cbn. by do 2 eexists.
Qed.

Definition enqueued (qu : queue) : queue :=
  {| q_size := q_size qu + 1; q_count := add64 (q_count qu) 1;
     q_max := if q_max qu <? q_size qu + 1 then q_size qu + 1 else q_max qu; availableSlots := availableSlots qu |}.

Lemma enqueue_ok key now q qu ts c :
  cc_rep (ts_cache ts) c -> ts_heap ts !! q = Some qu -> 0 <= q_size qu < MaxInt64 -> 0 <= ts_globalSize ts < MaxInt64 ->
  exists cc c', cc_rep cc c' /\ enqueue key now q ts =
    Ret {| ts_cache := cc; ts_stats := ts_stats ts; ts_queues := ts_queues ts; ts_heap := <[q := enqueued qu]> (ts_heap ts);
           ts_next := ts_next ts; ts_globalSize := ts_globalSize ts + 1 |}.
Proof.
  intros Hc Hq Hs Hg. unfold enqueue. rewrite Hq.
  rewrite (add64_small (q_size qu)), (add64_small (ts_globalSize ts)) by (unfold_ints; lia).
  destruct (CC_Record_refines key now _ _ Hc) as (cc & E & Hcc & _). cbn [ts_cache]. rewrite E. by do 2 eexists.
Qed.

Lemma insert_counts l t x :
  l !! t = None ->
  Z.of_nat (size (<[t := x]> l)) = Z.of_nat (size l) + 1 /\
  forall k, members k (<[t := x]> l) = members k l + keyed k x /\ holders k (<[t := x]> l) = holders k l + held k x.
Proof.
  intros Ht. split; [rewrite map_size_insert_None by done; lia|].
  intros k. unfold members, holders. rewrite !msum_insert by done. lia.
Qed.

(** A further transaction of a key that is already queued. *)
Lemma join_ok ts l t x q qu qu' cc c st :
  tx_sys_ok ts l -> l !! t = None -> Z.of_nat (size l) < MaxInt64 ->
  ts_queues ts !! tx_key x = Some q -> queue_ok (tx_key x) qu l -> q_size qu' = q_size qu -> q_max qu' = q_max qu ->
  (tx_dryRun cfg = false -> availableSlots qu' = Some (holders (tx_key x) l) /\ q_size qu < maxQueueSize cfg /\
    held (tx_key x) x = 0 /\ holders (tx_key x) l <= concurrentTransactions cfg) ->
  cc_rep cc c -> tx_ok ts x ->
  tx_sys_ok {| ts_cache := cc; ts_stats := st; ts_queues := ts_queues ts; ts_heap := <[q := enqueued qu']> (ts_heap ts);
            ts_next := ts_next ts; ts_globalSize := ts_globalSize ts + 1 |} (<[t := x]> l).
Proof.
  intros Hok Ht Hsz Hq [H1 H2 H3 H4 H5] Es Emx Hlive Hcc Hx. destruct (insert_counts l t x Ht) as [Esz Hk].
  destruct (Hk (tx_key x)) as [Em Eh]. rewrite own_key in Em. pose proof (sok_global _ _ Hok).
  eapply (update_ok ts l _ _ (tx_key x) q); try done; cbn [ts_globalSize ts_cache].
  - split; cbn; rewrite ?Em, ?Eh, ?Es, ?Emx; try lia.
    + destruct (Z.ltb_spec (q_max qu) (q_size qu + 1)); lia.
    + intros Hd. destruct (Hlive Hd) as (_ & Hlt & _). lia.
    + intros Hd. destruct (Hlive Hd) as (-> & _ & -> & Hle). lia.
  - intros k' Hne. destruct (Hk k') as [-> ->], (other_key k' x Hne) as [-> ->]. lia.
  - intros t' y [[<- <-]|[_ Hy]]%lookup_insert_Some; [done|by apply (sok_txs _ _ Hok t')].
  - lia.
  - lia.
  - by exists c.
Qed.

(** The first transaction of a key. *)
Lemma first_ok ts l t key :
  tx_sys_ok ts l -> l !! t = None -> Z.of_nat (size l) < MaxInt64 -> ts_queues ts !! key = None ->
  tx_sys_ok {| ts_cache := ts_cache ts; ts_stats := ts_stats ts; ts_queues := <[key := ts_next ts]> (ts_queues ts);
            ts_heap := <[ts_next ts := newQueueForFirstTransaction]> (ts_heap ts); ts_next := S (ts_next ts);
            ts_globalSize := ts_globalSize ts + 1 |} (<[t := Holding key]> l).
Proof.
  intros Hok Ht Hsz Hq. destruct (insert_counts l t (Holding key) Ht) as [Esz Hk]. pose proof (sok_global _ _ Hok).
  assert (members key l = 0) as Hm by (pose proof (sok_keys _ _ Hok key) as H'; unfold key_ok in H'; by rewrite Hq in H').
  assert (holders key l = 0) as Hh.
  { pose proof (holders_nonneg key l). pose proof (msum_mono (held key) (keyed key) l (fun v => proj2 (held_bounds key v))).
    unfold holders, members in *. lia. }
  destruct (Hk key) as [Em Eh]. rewrite (own_key (Holding key) : keyed key _ = 1) in Em.
  cbn in Eh. rewrite bool_decide_eq_true_2 in Eh by done.
  split; cbn [ts_queues ts_heap ts_next ts_globalSize ts_cache].
  - intros k'. destruct (decide (key = k')) as [<-|Hne].
    + unfold key_ok. cbn. rewrite lookup_insert_eq. eexists. rewrite lookup_insert_eq. split; [done|].
      split; cbn; rewrite ?Em, ?Eh; try lia.
    + apply (key_frame ts _ l _ k' (sok_keys _ _ Hok k')); cbn; [by rewrite lookup_insert_ne| | |].
      * intros q' Hq'. destruct (sok_pointers _ _ Hok k' q' Hq') as [Hlt _]. rewrite lookup_insert_ne; [done|lia].
      * destruct (Hk k') as [-> _]. destruct (other_key k' (Holding key) Hne) as [-> _]. lia.
      * destruct (Hk k') as [_ ->]. destruct (other_key k' (Holding key) Hne) as [_ ->]. lia.
  - intros k' q'. rewrite lookup_insert_Some. intros [[<- <-]|[Hne Hk']].
    + split; [lia|]. intros k2 [[<- _]|[_ Hk2]]%lookup_insert_Some; [done|].
      destruct (sok_pointers _ _ Hok k2 _ Hk2). lia.
    + destruct (sok_pointers _ _ Hok k' q' Hk') as [Hlt Hu]. split; [lia|].
      intros k2 [[_ E]|[_ Hk2]]%lookup_insert_Some; [lia|by apply Hu].
  - intros t' y [[<- <-]|[_ Hy]]%lookup_insert_Some; [done|]. pose proof (sok_txs _ _ Hok t' y Hy) as Hty.
    destruct y; cbn in *; try done; (rewrite lookup_insert_ne; [done|]); intros <-; rewrite Hq in Hty; by destruct Hty.
  - lia.
  - lia.
  - apply (sok_cache _ _ Hok).
Qed.

Lemma enter_ok ts l t key table now :
  tx_sys_ok ts l -> l !! t = None -> Z.of_nat (size l) < MaxInt64 ->
  (lockLocked_enter key table now ts = Panic /\ ~ showable key) \/
  exists r ts', lockLocked_enter key table now ts = Ret (Some (r, ts')) /\
  tx_sys_ok ts' (match r with Refused _ => l | Pass => <[t := Holding key]> l | MustWait q => <[t := Trying key table q]> l end).
Proof.
  intros Hok Ht Hsz. pose proof (sok_global _ _ Hok) as Hg. unfold lockLocked_enter.
  destruct (ts_queues ts !! key) as [q|] eqn:Hq.
  2:{ right. do 2 eexists. split; [done|]. rewrite add64_small by (unfold_ints; lia). by apply first_ok. }
  pose proof (sok_keys _ _ Hok key) as Hk. unfold key_ok in Hk. rewrite Hq in Hk. destruct Hk as (qu & Hqu & Hqok).
  rewrite Hqu. destruct (check_limits_stats key table qu ts) as [[-> ?]|(o & st & -> & Hlim)]; [by left|]. cbn [mbind outcome_bind].
  destruct o as [e|]; [right; do 2 eexists; split; [done|]; by apply stats_ok|]. specialize (Hlim eq_refl).
  destruct (sok_cache _ _ Hok) as [c Hc]. pose proof (members_size key l). pose proof Hqok as [H1 H2 H3 H4 H5].
  assert (exists ts1 qu1 cc1 c1, (match availableSlots qu with
    | None => make_slots key now q qu (with_stats st ts) | Some _ => Ret (Some (with_stats st ts)) end) = Ret (Some ts1) /\
    ts1 = with_cache cc1 (with_queue q qu1 (with_stats st ts)) /\ cc_rep cc1 c1 /\ q_size qu1 = q_size qu /\
    q_max qu1 = q_max qu /\ (tx_dryRun cfg = false -> availableSlots qu1 = Some (holders key l) /\
      holders key l <= concurrentTransactions cfg)) as (ts1 & qu1 & cc1 & c1 & E & -> & Hc1 & Es & Emx & Hsl).
  { destruct (availableSlots qu) as [n|] eqn:Esl.
    - exists (with_stats st ts), qu, (ts_cache ts), c. split_and!; try done.
      + destruct ts. unfold with_cache, with_queue, with_stats. cbn in *. by rewrite insert_id.
      + intros Hd. rewrite Esl. destruct (H5 Hd) as [-> Hle]. done.
    - destruct (make_slots_ok key now q qu (with_stats st ts) c Hc) as (cc & c' & -> & Hcc).
      do 4 eexists. split; [done|]. split_and!; try done. intros Hd. destruct (H5 Hd) as [_ ->]. done. }
  rewrite E. cbn [mbind outcome_bind].
  destruct (enqueue_ok key now q qu1 (with_cache cc1 (with_queue q qu1 (with_stats st ts))) c1) as (cc2 & c2 & Hc2 & ->);
    [done|apply lookup_insert_eq|lia|cbn; lia|].
  cbn [mbind outcome_bind with_cache with_queue with_stats ts_heap ts_queues ts_next ts_globalSize ts_stats ts_cache].
  rewrite insert_insert_eq. destruct (tx_dryRun cfg) eqn:Hd.
  - destruct (shown (tx_sanitizeLog cfg) key) as [k0|] eqn:Ek; [|left; split; [done|]; by intros [? _]].
    right. do 2 eexists. split; [done|]. eapply (join_ok ts l t (Holding key) q qu qu1); try done. congruence.
  - right. do 2 eexists. split; [done|]. eapply (join_ok ts l t (Trying key table q) q qu qu1); try done. intros _. destruct (Hsl eq_refl). split_and!; auto.
Qed.

Lemma full_ok ts l t k table q :
  tx_sys_ok ts l -> l !! t = Some (Trying k table q) -> tx_sys_ok (with_stats (add_waits table (ts_stats ts)) ts) (<[t := Blocked k q]> l).
Proof.
  intros Hok Ht. apply stats_ok. pose proof (sok_txs _ _ Hok t _ Ht) as Hx.
  assert (forall k', members k' (<[t := Blocked k q]> l) = members k' l /\ holders k' (<[t := Blocked k q]> l) = holders k' l) as Hk.
  { intros k'. unfold members, holders. rewrite !(msum_replace _ _ _ _ _ Ht). unfold keyed, held. cbn. lia. }
  destruct Hok as [H1 H2 H3 H4 H5 H6]. split; try done.
  - intros k'. destruct (Hk k'). by apply (key_frame ts _ l).
  - intros t' y [[<- <-]|[_ Hy]]%lookup_insert_Some; [done|by apply (H3 t')].
  - by rewrite map_size_insert_Some by (by eexists).
  - by rewrite map_size_insert_Some by (by eexists).
Qed.

Lemma cancel_ok ts l t k q :
  tx_sys_ok ts l -> l !! t = Some (Blocked k q) -> tx_sys_ok ts (<[t := Cancelling k]> l).
Proof.
  intros Hok Ht. pose proof (sok_txs _ _ Hok t _ Ht) as Hx.
  assert (forall k', members k' (<[t := Cancelling k]> l) = members k' l /\ holders k' (<[t := Cancelling k]> l) = holders k' l) as Hk.
  { intros k'. unfold members, holders. rewrite !(msum_replace _ _ _ _ _ Ht). unfold keyed, held. cbn. lia. }
  destruct Hok as [H1 H2 H3 H4 H5 H6]. split; try done.
  - intros k'. destruct (Hk k'). by apply (key_frame ts _ l).
  - intros t' y [[<- <-]|[_ Hy]]%lookup_insert_Some; [by destruct Hx|by apply (H3 t')].
  - by rewrite map_size_insert_Some by (by eexists).
  - by rewrite map_size_insert_Some by (by eexists).
Qed.

Definition tx_inv (s : tx_system) : Prop := tx_sys_ok (sys_ts s) (sys_txs s).

Lemma tx_step_inv t s s' : tx_inv s -> tx_step t s s' -> tx_inv s'.
Proof.
  unfold tx_inv. intros Hok Hs. inversion Hs; subst; cbn [sys_ts sys_txs] in *.
  1-3: destruct (enter_ok ts l t key table now Hok) as [[E _]|(r & ts2 & E & Hok2)]; [done|done|congruence|];
    match goal with H : lockLocked_enter _ _ _ _ = _ |- _ => rewrite E in H; injection H as -> -> end; exact Hok2.
  - destruct (send_ok ts l t (Trying key table q) q Hok) as [[E _]|(ts2 & E & Hok2)]; [done|right; by eexists|congruence|].
    cbn in Hok2. congruence.
  - by apply full_ok.
  - destruct (send_ok ts l t (Blocked key q) q Hok) as [[E _]|(ts2 & E & Hok2)]; [done|by left|congruence|].
    cbn in Hok2. congruence.
  - by apply (cancel_ok ts l t key q).
  - destruct (unlock_ok ts l t (Cancelling key) false Hok) as [[E _]|(ts2 & E & Hok2)]; [done|done|cbn in E; congruence|]. cbn in E. congruence.
  - destruct (unlock_ok ts l t (Holding key) true Hok) as [[E _]|(ts2 & E & Hok2)]; [done|done|cbn in E; congruence|]. cbn in E. congruence.
Qed.

Lemma tx_reachable_inv combined s : rtc tx_any_step (tx_sys_init combined) s -> tx_inv s.
Proof. apply rtc_keeps; [apply tx_sys_init_ok|]. intros s1 s2 Hi [t Ht]. by apply (tx_step_inv t s1). Qed.

(** ** Progress *)

(** Steps of transactions that are there, and that nobody cancels. *)
Definition proceeds (s s' : tx_system) : Prop :=
  exists t x, tx_step t s s' /\ sys_txs s !! t = Some x /\ forall k, sys_txs s' !! t <> Some (Cancelling k).

(** How far a transaction is from its end. *)
Definition tx_work (x : tx) : Z :=
  match x with Trying _ _ _ => 3 | Blocked _ _ => 2 | Cancelling _ => 1 | Holding _ => 1 end.

Lemma tx_work_pos x : 0 < tx_work x.
Proof. destruct x; cbn; lia. Qed.

Abbreviation work s := (msum tx_work (sys_txs s)).

(** The keys of the transactions that are there can be shown; steps that take a slot or leave add no key. *)
Definition all_showable (l : gmap nat tx) : Prop := forall t x, l !! t = Some x -> showable (tx_key x).

Lemma showable_delete l t : all_showable l -> all_showable (delete t l).
Proof. intros H t' x [_ Hx]%lookup_delete_Some. by apply (H t'). Qed.

Lemma showable_replace l t x y : all_showable l -> l !! t = Some x -> tx_key y = tx_key x -> all_showable (<[t := y]> l).
Proof. intros H Ht Hk t' z [[<- <-]|[_ Hz]]%lookup_insert_Some; [rewrite Hk; by apply (H t)|by apply (H t')]. Qed.

Definition tx_good (s : tx_system) : Prop := tx_inv s /\ all_showable (sys_txs s).

Lemma done_progress ts l t x (returnSlot : bool) :
  tx_sys_ok ts l -> all_showable l -> l !! t = Some x -> x = (if returnSlot then Holding (tx_key x) else Cancelling (tx_key x)) ->
  exists s', proceeds {| sys_ts := ts; sys_txs := l |} s' /\ tx_good s' /\ work s' < msum tx_work l.
Proof.
  intros Hok Hsh Ht Hx. destruct (unlock_ok ts l t x returnSlot Hok Ht Hx) as [[_ Hn]|(ts' & E & H')]; [by destruct (Hn (Hsh t x Ht))|].
  exists {| sys_ts := ts'; sys_txs := delete t l |}. split; [|split; [split; [done|by apply showable_delete]|]].
  - exists t, x. split_and!; [|done|by cbn; rewrite lookup_delete_eq].
    destruct returnSlot; [apply (step_done t ts l (tx_key x))|apply (step_abort t ts l (tx_key x))]; congruence.
  - cbn. rewrite (msum_delete _ _ _ _ Ht). pose proof (tx_work_pos x). lia.
Qed.

Lemma slot_progress ts l t x q :
  tx_sys_ok ts l -> all_showable l -> l !! t = Some x -> (x = Blocked (tx_key x) q \/ exists table, x = Trying (tx_key x) table q) ->
  exists s', proceeds {| sys_ts := ts; sys_txs := l |} s' /\ tx_good s' /\ work s' < msum tx_work l.
Proof.
  intros Hok Hsh Ht Hx. destruct (send_ok ts l t x q Hok Ht Hx) as [[E Hfull]|(ts' & E & H')].
  - destruct Hx as [Hx|[table Hx]].
    + destruct (msum_pos (held (tx_key x)) l) as (t' & y & Hy & Hpos).
      { intros t' y _. apply held_bounds. }
      { fold (holders (tx_key x) l). lia. }
      destruct y as [| | |k]; cbn in Hpos; try lia. by apply (done_progress ts l t' (Holding k) true).
    + eexists. split; [exists t, x; split_and!; [apply (step_full t ts l (tx_key x) table q); congruence|done|]|].
      * cbn. rewrite lookup_insert_eq. done.
      * split; [split; [apply (full_ok ts l t (tx_key x)); congruence|by apply (showable_replace l t x)]|]. cbn.
        rewrite (msum_replace _ _ _ _ _ Ht). rewrite Hx at 1. cbn. lia.
  - exists {| sys_ts := ts'; sys_txs := <[t := Holding (tx_key x)]> l |}. split; [|split; [split; [done|by apply (showable_replace l t x)]|]].
    + exists t, x. split_and!; [|done|by cbn; rewrite lookup_insert_eq].
      destruct Hx as [Hx|[table Hx]]; [eapply (step_wake t ts l _ q)|eapply (step_try t ts l _ table q)]; congruence.
    + cbn. rewrite (msum_replace _ _ _ _ _ Ht). destruct Hx as [Hx|[table Hx]]; rewrite Hx at 1; cbn; lia.
Qed.

Lemma progress s : tx_good s -> 0 < work s -> exists s', proceeds s s' /\ tx_good s' /\ work s' < work s.
Proof.
  destruct s as [ts l]. intros [Hi Hsh] Hw. cbn in Hi, Hsh, Hw.
  destruct (msum_pos tx_work l) as (t & x & Ht & _); [intros k v _; pose proof (tx_work_pos v); lia|done|].
  destruct x as [k table q|k q|k|k].
  - apply (slot_progress ts l t (Trying k table q) q Hi Hsh Ht). right. by exists table.
  - apply (slot_progress ts l t (Blocked k q) q Hi Hsh Ht). by left.
  - by apply (done_progress ts l t (Cancelling k) false).
  - by apply (done_progress ts l t (Holding k) true).
Qed.
End Steps.
End Serializer.

Lemma ascii_showable cfg ToLower key :
  (forall s, ascii s -> ToLower s = lower <$> s) -> ascii key -> showable cfg ToLower key.
Proof.
  intros HL Ha. assert (sanitizeKey ToLower key <> Panic) as H.
  { destruct (sanitizeKey_cuts ToLower key HL Ha) as [(p & _ & _ & ->)|[_ ->]]; done. }
  unfold showable, shown. split; by case_match.
Qed.

(** ** What the hot row protection promises *)

(** C7: under a verified configuration, not in dry run, in every state that transactions with any keys can reach without a panic, at
    most [MaxConcurrency] transactions of a key have passed and not finished, at most [MaxQueueSize] are queued or running,
    [Pending] counts these, and the global size is the number of all transactions. *)
Theorem TxSerializer_limits c ToLower combined s key :
  Verify c = Ok tt -> Mode (HotRowProtection c) <> bs "dryRun" ->
  rtc (tx_any_step (tx_config_of c) ToLower) (tx_sys_init combined) s ->
  holders key (sys_txs s) <= MaxConcurrency (HotRowProtection c) /\
  members key (sys_txs s) <= MaxQueueSize (HotRowProtection c) /\
  Pending key (sys_ts s) = Ret (members key (sys_txs s)) /\
  ts_globalSize (sys_ts s) = Z.of_nat (size (sys_txs s)).
Proof.
  intros [Hq Hc]%Verify_hot_row Hm Hr. apply tx_reachable_inv in Hr as Hok; [|cbn; lia].
  assert (tx_dryRun (tx_config_of c) = false) as Hd by (by apply bool_decide_eq_false).
  pose proof (sok_keys _ _ _ Hok key) as Hk. pose proof (holders_nonneg key (sys_txs s)) as Hn.
  pose proof (msum_mono (held key) (keyed key) (sys_txs s) (fun v => proj2 (held_bounds key v))) as Hle.
  fold (holders key (sys_txs s)) (members key (sys_txs s)) in Hle. unfold key_ok in Hk. unfold Pending.
  destruct (ts_queues (sys_ts s) !! key) as [q|].
  - destruct Hk as (qu & -> & [H1 H2 H3 H4 H5]). specialize (H4 Hd). specialize (H5 Hd). cbn in H4, H5.
    split_and!; [destruct (availableSlots qu); lia|lia|by rewrite H1|apply (sok_global _ _ _ Hok)].
  - rewrite Hk. split_and!; [lia|lia|done|apply (sok_global _ _ _ Hok)].
Qed.

(** C8: under a verified configuration, in dry run or not, in every reachable state, a new transaction passes, is refused or
    queued without panic and without blocking the mutex for ever, and a transaction that
    calls [done] or gives up leaves: the receive from the channel does not block.  The condition is that [sanitizeKey] does not panic on the
    key of the transaction, where messages show it in this form; it never does on an ASCII key. *)
Theorem TxSerializer_never_stuck c ToLower combined s :
  Verify c = Ok tt -> rtc (tx_any_step (tx_config_of c) ToLower) (tx_sys_init combined) s ->
  (forall t key table now, sys_txs s !! t = None -> showable (tx_config_of c) ToLower key -> Z.of_nat (size (sys_txs s)) < MaxInt64 ->
     exists r ts', lockLocked_enter (tx_config_of c) ToLower key table now (sys_ts s) = Ret (Some (r, ts'))) /\
  (forall t key, sys_txs s !! t = Some (Holding key) -> showable (tx_config_of c) ToLower key ->
     exists ts', unlockLocked (tx_config_of c) ToLower key true (sys_ts s) = Ret (Some ts')) /\
  (forall t key, sys_txs s !! t = Some (Cancelling key) -> showable (tx_config_of c) ToLower key ->
     exists ts', unlockLocked (tx_config_of c) ToLower key false (sys_ts s) = Ret (Some ts')) /\
  ((forall s, ascii s -> ToLower s = lower <$> s) -> forall key, ascii key -> showable (tx_config_of c) ToLower key).
Proof.
  intros [Hq Hc]%Verify_hot_row Hr. apply tx_reachable_inv in Hr as Hok; [|cbn; lia]. split_and!.
  - intros t key table now Ht Ha Hsz.
    destruct (enter_ok (tx_config_of c) ToLower ltac:(cbn; lia) _ _ t key table now Hok Ht Hsz) as [[_ Hn]|(r & ts' & E & _)]; [done|eauto].
  - intros t key Ht Ha.
    destruct (unlock_ok (tx_config_of c) ToLower _ _ t (Holding key) true Hok Ht eq_refl) as [[_ Hn]|(ts' & E & _)]; [done|eauto].
  - intros t key Ht Ha.
    destruct (unlock_ok (tx_config_of c) ToLower _ _ t (Cancelling key) false Hok Ht eq_refl) as [[_ Hn]|(ts' & E & _)]; [done|eauto].
  - intros HL key Ha. by apply ascii_showable.
Qed.

(** C9: under a verified configuration, from every reachable state in which the keys of the transactions can be shown ([sanitizeKey] does
    not panic on them, or is not called), all transactions that are there can run to their end,
    the waiting ones with a slot of their own: nobody needs to be cancelled or to wait
    for a new transaction. *)
Theorem TxSerializer_drains c ToLower combined s :
  Verify c = Ok tt -> rtc (tx_any_step (tx_config_of c) ToLower) (tx_sys_init combined) s ->
  all_showable (tx_config_of c) ToLower (sys_txs s) ->
  exists s', rtc (proceeds (tx_config_of c) ToLower) s s' /\ sys_txs s' = ∅.
Proof.
  intros [Hq Hc]%Verify_hot_row Hr Hsh. apply tx_reachable_inv in Hr as Hok; [|cbn; lia].
  destruct (drain (proceeds (tx_config_of c) ToLower) (tx_good (tx_config_of c) ToLower) (fun s => msum tx_work (sys_txs s)) s)
    as (s' & Hs & _ & Hw).
  - intros s1 _. apply msum_nonneg. intros k v _. pose proof (tx_work_pos v). lia.
  - intros s1 Hi Hpos. apply progress; [cbn; lia|done..].
  - done.
  - exists s'. split; [done|]. apply map_eq. intros t. rewrite lookup_empty.
    destruct (sys_txs s' !! t) as [x|] eqn:Ht; [|done].
    pose proof (msum_le tx_work _ t x (fun _ v _ => Z.lt_le_incl _ _ (tx_work_pos v)) Ht). pose proof (tx_work_pos x). lia.
Qed.

(** An ASCII key is cut at the first [where] in any case, so that nothing from the
    condition on is shown; a key without it is shown as it is. *)
Theorem sanitizeKey_ascii ToLower key :
  (forall s, ascii s -> ToLower s = lower <$> s) -> ascii key ->
  (exists p, where_at key p /\ (forall p', zlen p' < zlen p -> ~ where_at key p') /\ sanitizeKey ToLower key = Ret (p ++ redacted)) \/
  ((forall p, ~ where_at key p) /\ sanitizeKey ToLower key = Ret key).
Proof. apply sanitizeKey_cuts. Qed.

(** The letter U+023A takes two bytes and its lower case U+2C65 three, so that the index
    into the lower case text is beyond the end of the key. *)
Definition wide : list byte := concat (replicate 6 [z2b 200; z2b 186]).
Definition wide_lower : list byte := concat (replicate 6 [z2b 226; z2b 177; z2b 165]).

Lemma sanitizeKey_panics ToLower :
  ToLower (wide ++ bs " where") = wide_lower ++ bs " where" -> sanitizeKey ToLower (wide ++ bs " where") = Panic.
Proof. intros E. unfold sanitizeKey. rewrite E. by vm_compute. Qed.

(** Two transactions of one key under a concurrency of one: the second has to wait. *)
Definition config_hot : TabletConfig :=
  {| EnableTransactionLimit := false; EnableTransactionLimitDryRun := false;
     TransactionLimitPerUser := SpecFloat.S754_zero false; TransactionLimitByUsername := true;
     TransactionLimitByPrincipal := false; TransactionLimitByComponent := false;
     TransactionLimitBySubcomponent := false; TxPoolSize := 20;
     HotRowProtection := {| Mode := bs "enable"; MaxQueueSize := 20; MaxGlobalQueueSize := 1000; MaxConcurrency := 1 |};
     TerseErrors := false; SanitizeLogMessages := true |}.

Definition hot_key : list byte := bs "t1 where id=1".

(** The result and the state of entering. *)
Definition enter_tag (o : outcome (option (entered * TxSerializer))) : option entered :=
  match o with Ret (Some (r, _)) => Some r | _ => None end.

Definition enter_state (o : outcome (option (entered * TxSerializer))) (d : TxSerializer) : TxSerializer :=
  match o with Ret (Some (_, ts)) => ts | _ => d end.

Lemma enter_tag_state o d r : enter_tag o = Some r -> o = Ret (Some (r, enter_state o d)).
Proof. destruct o as [[[r' ts]|]|]; cbn; by intros [= ->]. Qed.

Definition hot0 : TxSerializer := NewTxSerializer false.
Definition hot1 : TxSerializer := enter_state (lockLocked_enter (tx_config_of config_hot) (fmap lower) hot_key (bs "t1") 1 hot0) hot0.
Definition hot2 : TxSerializer := enter_state (lockLocked_enter (tx_config_of config_hot) (fmap lower) hot_key (bs "t1") 2 hot1) hot0.

Definition hot_sys : tx_system :=
  {| sys_ts := hot2; sys_txs := <[1%nat := Trying hot_key (bs "t1") 0]> (<[0%nat := Holding hot_key]> ∅) |}.

Lemma hot_key_ascii : ascii hot_key.
Proof. repeat constructor. Qed.

Lemma hot_sys_reachable : rtc (tx_any_step (tx_config_of config_hot) (fmap lower)) (tx_sys_init false) hot_sys.
Proof.
  apply (rtc_l _ _ {| sys_ts := hot1; sys_txs := <[0%nat := Holding hot_key]> ∅ |}).
  - exists 0%nat. apply (step_pass _ _ 0 hot0 ∅ hot_key (bs "t1") 1); [done|done|]. apply enter_tag_state. by vm_compute.
  - apply rtc_once. exists 1%nat. apply (step_wait _ _ 1 hot1 _ hot_key (bs "t1") 2); [done|done|].
    apply enter_tag_state. by vm_compute.
Qed.

Lemma TxSerializer_limits_witness :
  holders hot_key (sys_txs hot_sys) <= 1 /\ members hot_key (sys_txs hot_sys) <= 20 /\
  Pending hot_key hot2 = Ret (members hot_key (sys_txs hot_sys)) /\
  ts_globalSize hot2 = Z.of_nat (size (sys_txs hot_sys)).
Proof. apply (TxSerializer_limits config_hot (fmap lower) false hot_sys hot_key); [reflexivity|discriminate|exact hot_sys_reachable]. Defined.

Lemma TxSerializer_never_stuck_witness :
  exists ts', unlockLocked (tx_config_of config_hot) (fmap lower) hot_key true hot2 = Ret (Some ts').
Proof.
  apply (TxSerializer_never_stuck config_hot (fmap lower) false hot_sys) with (t := 0%nat);
    [reflexivity|exact hot_sys_reachable|reflexivity|apply ascii_showable; [reflexivity|exact hot_key_ascii]].
Defined.

Lemma TxSerializer_drains_witness :
  exists s', rtc (proceeds (tx_config_of config_hot) (fmap lower)) hot_sys s' /\ sys_txs s' = ∅.
Proof. 
  apply (TxSerializer_drains config_hot (fmap lower) false hot_sys); [reflexivity|exact hot_sys_reachable|].
  intros t x Hx. apply ascii_showable; [reflexivity|]. cbn in Hx.
  apply lookup_insert_Some in Hx as [[_ <-]|[_ [[_ <-]|[_ Hx]]%lookup_insert_Some]]; [exact hot_key_ascii..|done].
 Defined.

(** [lower] byte by byte is such a [ToLower]. *)
Lemma sanitizeKey_ascii_witness :
  (exists p, where_at (bs "t1 WHERE id=1") p /\ (forall p', zlen p' < zlen p -> ~ where_at (bs "t1 WHERE id=1") p') /\
     sanitizeKey (fmap lower) (bs "t1 WHERE id=1") = Ret (p ++ redacted)) \/
  ((forall p, ~ where_at (bs "t1 WHERE id=1") p) /\ sanitizeKey (fmap lower) (bs "t1 WHERE id=1") = Ret (bs "t1 WHERE id=1")).
Proof.
  apply (sanitizeKey_ascii (fmap lower) (bs "t1 WHERE id=1")); [reflexivity|]. repeat constructor.
Defined.
