(* ===== verification/Ccl.v ===== *)
(** * Concurrency control by rule

    [go/vt/vttablet/tabletserver/ccl/concurrency_controller.go] and the check of its arguments in
    [go/vt/vttablet/tabletserver/action_builtin.go]: queries that match a rule queue up.  A query first gets the
    queue of its rule and then waits in it; both hold a mutex, except while the query waits for
    a slot, so a query is a sequence of atomic steps that interleave with those of the others in
    the relation [ccl_step].  Queues are objects in a store: a query keeps the queue it got even when the map
    has dropped or replaced it.  Of log messages nothing is modelled. *)

From S2P Require Import Prelude GoStd LruCache Consolidator TabletEnv TxSerializer.

(** ** The code *)

(** The check of [ConcurrencyControlActionArgs.Parse]. *)
Definition args_valid (maxQueueSize maxConcurrency : Z) : bool :=
  (maxQueueSize =? 0) || ((0 <? maxConcurrency) && (maxConcurrency <=? maxQueueSize)).

(** The channel of a waiting query: its owner has not reached the [select] yet, is ready to send,
    or has closed the channel. *)
Inductive chan_state := NotReady | Sending | Closed.

(** [Queue]; the channels in [waitingRequest] are numbers, with what is known of them in [Q_chans]. *)
Record Queue := {
  Q_key : list byte;
  Q_maxQueueSize : Z;
  Q_maxConcurrency : Z;
  Q_size : Z;
  Q_count : Z;
  Q_max : Z;
  onTheFlySize : Z;
  waitingRequest : list nat;
  Q_chans : gmap nat chan_state;
  Q_nextchan : nat
}.

(** [ConcurrencyController], the mutable fields; the counters are those of hot row protection. *)
Record ConcurrencyController := {
  ccl_cache : ConsolidatorCache;
  ccl_stats : tx_stats;
  ccl_queues : gmap (list byte) nat;
  ccl_heap : gmap nat Queue;
  ccl_next : nat;
  ccl_globalSize : Z
}.

Definition NewConcurrencyController (combined : bool) : ConcurrencyController :=
  let c := NewCountersWithSingleLabel combined in
  {| ccl_cache := NewConsolidatorCache 1000;
     ccl_stats := {| waits := c; waitsDryRun := c; queueExceeded := c; queueExceededDryRun := c;
                     globalQueueExceeded := 0; globalQueueExceededDryRun := 0 |};
     ccl_queues := ∅; ccl_heap := ∅; ccl_next := 0; ccl_globalSize := 0 |}.

(** [newQueue]. *)
Definition newQueue (key : list byte) (maxQueueSize maxConcurrency : Z) : Queue :=
  {| Q_key := key; Q_maxQueueSize := maxQueueSize; Q_maxConcurrency := maxConcurrency; Q_size := 0; Q_count := 0;
     Q_max := 0; onTheFlySize := 0; waitingRequest := []; Q_chans := ∅; Q_nextchan := 0 |}.

(** Updates of single parts. *)
Definition with_waiting (fly : Z) (ws : list nat) (chans : gmap nat chan_state) (qu : Queue) : Queue :=
  {| Q_key := Q_key qu; Q_maxQueueSize := Q_maxQueueSize qu; Q_maxConcurrency := Q_maxConcurrency qu; Q_size := Q_size qu;
     Q_count := Q_count qu; Q_max := Q_max qu; onTheFlySize := fly; waitingRequest := ws; Q_chans := chans;
     Q_nextchan := Q_nextchan qu |}.

Definition with_fly (fly : Z) (qu : Queue) : Queue := with_waiting fly (waitingRequest qu) (Q_chans qu) qu.

Definition with_Qsize (size : Z) (qu : Queue) : Queue :=
  {| Q_key := Q_key qu; Q_maxQueueSize := Q_maxQueueSize qu; Q_maxConcurrency := Q_maxConcurrency qu; Q_size := size;
     Q_count := Q_count qu; Q_max := Q_max qu; onTheFlySize := onTheFlySize qu; waitingRequest := waitingRequest qu;
     Q_chans := Q_chans qu; Q_nextchan := Q_nextchan qu |}.

Definition with_Queue (q : nat) (qu : Queue) (cc : ConcurrencyController) : ConcurrencyController :=
  {| ccl_cache := ccl_cache cc; ccl_stats := ccl_stats cc; ccl_queues := ccl_queues cc; ccl_heap := <[q := qu]> (ccl_heap cc);
     ccl_next := ccl_next cc; ccl_globalSize := ccl_globalSize cc |}.

Definition with_ccl_stats (st : tx_stats) (cc : ConcurrencyController) : ConcurrencyController :=
  {| ccl_cache := ccl_cache cc; ccl_stats := st; ccl_queues := ccl_queues cc; ccl_heap := ccl_heap cc;
     ccl_next := ccl_next cc; ccl_globalSize := ccl_globalSize cc |}.

(** A loop over [tables] that adds to a counter. *)
Definition for_tables (add : list byte -> tx_stats -> tx_stats) (tables : list (list byte)) (cc : ConcurrencyController)
  : ConcurrencyController :=
  with_ccl_stats (foldl (fun st table => add table st) (ccl_stats cc) tables) cc.

(** The loop of [resizeQueueLocked]: the channels it received from, what is left of the list
    and the channels, and [onTheFlySize]; [None] when a receive blocks because the owner of the channel
    has not reached the [select]. *)
Fixpoint resize_loop (delta : Z) (ws : list nat) (chans : gmap nat chan_state) (fly : Z)
  : option (list nat * (list nat * gmap nat chan_state * Z)) :=
  if 0 <? delta then
    match ws with
    | [] => Some ([], ([], chans, fly))
    | ch :: ws =>
        match chans !! ch with
        | Some Sending =>
            '(woken, r) ← resize_loop (sub64 delta 1) ws (delete ch chans) (add64 fly 1);
            Some (ch :: woken, r)
        | Some Closed => resize_loop delta ws chans fly
        | _ => None
        end
    end
  else Some ([], (ws, chans, fly)).

(** [resizeQueueLocked]: the channels it received from and the queue. *)
Definition resizeQueueLocked (newMaxQueueSize newMaxConcurrency : Z) (qu : Queue) : option (list nat * Queue) :=
  '(woken, (ws, chans, fly)) ←
    (if Q_maxConcurrency qu <? newMaxConcurrency then
       resize_loop (sub64 newMaxConcurrency (Q_maxConcurrency qu)) (waitingRequest qu) (Q_chans qu) (onTheFlySize qu)
     else Some ([], (waitingRequest qu, Q_chans qu, onTheFlySize qu)));
  Some (woken,
    {| Q_key := Q_key qu; Q_maxQueueSize := newMaxQueueSize; Q_maxConcurrency := newMaxConcurrency; Q_size := Q_size qu;
       Q_count := Q_count qu; Q_max := Q_max qu; onTheFlySize := fly; waitingRequest := ws; Q_chans := chans;
       Q_nextchan := Q_nextchan qu |}).

(** [GetOrCreateQueue]: the queue, the channels it received from, and the controller. *)
Definition GetOrCreateQueue (key : list byte) (maxQueueSize maxConcurrency : Z) (cc : ConcurrencyController)
  : outcome (option (nat * list nat * ConcurrencyController)) :=
  let cc :=
    match ccl_queues cc !! key with
    | Some _ => cc
    | None =>
        {| ccl_cache := ccl_cache cc; ccl_stats := ccl_stats cc; ccl_queues := <[key := ccl_next cc]> (ccl_queues cc);
           ccl_heap := <[ccl_next cc := newQueue key maxQueueSize maxConcurrency]> (ccl_heap cc);
           ccl_next := S (ccl_next cc); ccl_globalSize := ccl_globalSize cc |}
    end in
  match ccl_queues cc !! key with
  | None => Panic
  | Some q =>
      match ccl_heap cc !! q with
      | None => Panic
      | Some qu =>
          if negb (Q_maxQueueSize qu =? maxQueueSize) || negb (Q_maxConcurrency qu =? maxConcurrency) then
            Ret ('(woken, qu) ← resizeQueueLocked maxQueueSize maxConcurrency qu; Some (q, woken, with_Queue q qu cc))
          else Ret (Some (q, [], cc))
      end
  end.

(** [DeleteQueue]. *)
Definition DeleteQueue (key : list byte) (cc : ConcurrencyController) : ConcurrencyController :=
  {| ccl_cache := ccl_cache cc; ccl_stats := ccl_stats cc; ccl_queues := delete key (ccl_queues cc); ccl_heap := ccl_heap cc;
     ccl_next := ccl_next cc; ccl_globalSize := ccl_globalSize cc |}.

(** What [lockLocked] does before it gives up the mutex. *)
Inductive ccl_entered :=
| EPass
| ERefused (global : bool) (size limit : Z)
| EWait (ch : nat).

(** The loop of [unlockLocked]: the first channel that is not closed, if there is one, and what
    is left of the list and the channels; [None] when the receive blocks. *)
Fixpoint release_loop (ws : list nat) (chans : gmap nat chan_state) : option (option nat * list nat * gmap nat chan_state) :=
  match ws with
  | [] => Some (None, [], chans)
  | ch :: ws =>
      match chans !! ch with
      | Some Sending => Some (Some ch, ws, delete ch chans)
      | Some Closed => release_loop ws chans
      | _ => None
      end
  end.

Section Controller.
(** The immutable fields. *)
Context (dry : bool) (ccl_maxGlobal : Z).

(** The two limits of [lockLocked]: the refusal, if any, and the counters. *)
Definition ccl_limits (tables : list (list byte)) (qu : Queue) (cc : ConcurrencyController)
  : option ccl_entered * ConcurrencyController :=
  let global := ccl_maxGlobal <=? ccl_globalSize cc in
  let cc := if global then with_ccl_stats (add_globalExceeded dry (ccl_stats cc)) cc else cc in
  if global && negb dry then (Some (ERefused true (ccl_globalSize cc) ccl_maxGlobal), cc)
  else if Q_maxQueueSize qu <=? Q_size qu then
    let cc := for_tables (add_queueExceeded dry) tables cc in
    if dry then (None, cc) else (Some (ERefused false (Q_size qu) (Q_maxQueueSize qu)), cc)
  else (None, cc).

(** [size], [count] and [max]. *)
Definition enter_queue (qu : Queue) : Queue :=
  let size := add64 (Q_size qu) 1 in
  {| Q_key := Q_key qu; Q_maxQueueSize := Q_maxQueueSize qu; Q_maxConcurrency := Q_maxConcurrency qu; Q_size := size;
     Q_count := add64 (Q_count qu) 1; Q_max := if Q_max qu <? size then size else Q_max qu; onTheFlySize := onTheFlySize qu;
     waitingRequest := waitingRequest qu; Q_chans := Q_chans qu; Q_nextchan := Q_nextchan qu |}.

(** [ch = make(chan struct{})] and [q.waitingRequest.PushBack(ch)]. *)
Definition push_chan (qu : Queue) : Queue :=
  {| Q_key := Q_key qu; Q_maxQueueSize := Q_maxQueueSize qu; Q_maxConcurrency := Q_maxConcurrency qu; Q_size := Q_size qu;
     Q_count := Q_count qu; Q_max := Q_max qu; onTheFlySize := onTheFlySize qu;
     waitingRequest := waitingRequest qu ++ [Q_nextchan qu]; Q_chans := <[Q_nextchan qu := NotReady]> (Q_chans qu);
     Q_nextchan := S (Q_nextchan qu) |}.

(** [lockLocked] up to [txs.mu.Unlock()]. *)
Definition ccl_lockLocked (q : nat) (tables : list (list byte)) (now : Z) (cc : ConcurrencyController)
  : outcome (ccl_entered * ConcurrencyController) :=
  match ccl_heap cc !! q with
  | None => Panic
  | Some qu =>
      match ccl_limits tables qu cc with
      | (Some e, cc) => Ret (e, cc)
      | (None, cc) =>
          let qu := enter_queue qu in
          cache ← CC_Record (Q_key qu) now (ccl_cache cc);
          let cc := {| ccl_cache := cache; ccl_stats := ccl_stats cc; ccl_queues := ccl_queues cc;
                       ccl_heap := <[q := qu]> (ccl_heap cc); ccl_next := ccl_next cc;
                       ccl_globalSize := add64 (ccl_globalSize cc) 1 |} in
          if dry then Ret (EPass, for_tables add_waitsDryRun tables cc)
          else if onTheFlySize qu <? Q_maxConcurrency qu then
            Ret (EPass, with_Queue q (with_fly (add64 (onTheFlySize qu) 1) qu) cc)
          else Ret (EWait (Q_nextchan qu), with_Queue q (push_chan qu) cc)
      end
  end.

(** [q.size--], which gave [qu], and [txs.currentGlobalSize--]. *)
Definition leave_queue (q : nat) (qu : Queue) (cc : ConcurrencyController) : ConcurrencyController :=
  {| ccl_cache := ccl_cache cc; ccl_stats := ccl_stats cc; ccl_queues := ccl_queues cc; ccl_heap := <[q := qu]> (ccl_heap cc);
     ccl_next := ccl_next cc; ccl_globalSize := sub64 (ccl_globalSize cc) 1 |}.

(** [unlockLocked]: the channel it received from, if any, and the controller; [None] when the
    receive blocks. *)
Definition ccl_unlockLocked (q : nat) (returnSlot : bool) (cc : ConcurrencyController)
  : outcome (option (option nat * ConcurrencyController)) :=
  match ccl_heap cc !! q with
  | None => Panic
  | Some qu =>
      let qu := with_Qsize (sub64 (Q_size qu) 1) qu in
      let cc := leave_queue q qu cc in
      if Q_size qu =? 0 then
        Ret (Some (None, DeleteQueue (Q_key qu) (with_Queue q (with_fly (sub64 (onTheFlySize qu) 1) qu) cc)))
      else if dry || negb returnSlot then Ret (Some (None, cc))
      else if Q_maxConcurrency qu <? onTheFlySize qu then
        Ret (Some (None, with_Queue q (with_fly (sub64 (onTheFlySize qu) 1) qu) cc))
      else
        match release_loop (waitingRequest qu) (Q_chans qu) with
        | None => Ret None
        | Some (Some ch, ws, chans) => Ret (Some (Some ch, with_Queue q (with_waiting (onTheFlySize qu) ws chans qu) cc))
        | Some (None, ws, chans) =>
            Ret (Some (None, with_Queue q (with_waiting (sub64 (onTheFlySize qu) 1) ws chans qu) cc))
        end
  end.

(** [Pending]. *)
Definition ccl_Pending (key : list byte) (cc : ConcurrencyController) : outcome Z :=
  match ccl_queues cc !! key with
  | None => Ret 0
  | Some q => match ccl_heap cc !! q with None => Panic | Some qu => Ret (Q_size qu) end
  end.
End Controller.

(** ** Queries *)

(** Where a query is: it got a queue, it waits but has not reached the [select], it is blocked in the
    [select], its context is done and it is about to leave, or [Wait] returned and its [DoneFunc]
    is still to be called. *)
Inductive client :=
| Got (q : nat)
| Parked (q ch : nat) (tables : list (list byte))
| Selecting (q ch : nat)
| Cancelled (q : nat)
| Running (q : nat).

Definition cl_queue (x : client) : nat :=
  match x with Got q | Parked q _ _ | Selecting q _ | Cancelled q | Running q => q end.

(** The sender of an unbuffered channel goes on together with the receiver. *)
Definition wake1 (q : nat) (l : gmap nat client) (ch : nat) : gmap nat client :=
  (fun x => match x with
            | Selecting q' ch' => if decide (q' = q /\ ch' = ch) then Running q else x
            | _ => x
            end) <$> l.

Definition wake (q : nat) (woken : list nat) (l : gmap nat client) : gmap nat client := foldl (wake1 q) l woken.

Record ccl_system := { sys_cc : ConcurrencyController; sys_cl : gmap nat client }.

Definition ccl_init (combined : bool) : ccl_system := {| sys_cc := NewConcurrencyController combined; sys_cl := ∅ |}.

(** [q.Q_chans[ch] = s]. *)
Definition set_chan (q ch : nat) (s : chan_state) (cc : ConcurrencyController) : ConcurrencyController :=
  match ccl_heap cc !! q with
  | None => cc
  | Some qu => with_Queue q (with_waiting (onTheFlySize qu) (waitingRequest qu) (<[ch := s]> (Q_chans qu)) qu) cc
  end.

Section Steps.
Context (dry : bool) (maxGlobal : Z).
(** The arguments the rules are configured with. *)
Context (args : list byte -> Z -> Z -> Prop).

(** The steps of query [t]; there are fewer than [2^63] queries at a time. *)
Inductive ccl_step (t : nat) : ccl_system -> ccl_system -> Prop :=
| ccl_get cc l key ms mc q woken cc' :
    l !! t = None -> Z.of_nat (size l) < MaxInt64 -> args key ms mc ->
    GetOrCreateQueue key ms mc cc = Ret (Some (q, woken, cc')) ->
    ccl_step t {| sys_cc := cc; sys_cl := l |} {| sys_cc := cc'; sys_cl := <[t := Got q]> (wake q woken l) |}
| ccl_pass cc l q tables now cc' :
    l !! t = Some (Got q) -> ccl_lockLocked dry maxGlobal q tables now cc = Ret (EPass, cc') ->
    ccl_step t {| sys_cc := cc; sys_cl := l |} {| sys_cc := cc'; sys_cl := <[t := Running q]> l |}
| ccl_refused cc l q tables now g size limit cc' :
    l !! t = Some (Got q) -> ccl_lockLocked dry maxGlobal q tables now cc = Ret (ERefused g size limit, cc') ->
    ccl_step t {| sys_cc := cc; sys_cl := l |} {| sys_cc := cc'; sys_cl := delete t l |}
| ccl_wait cc l q tables now ch cc' :
    l !! t = Some (Got q) -> ccl_lockLocked dry maxGlobal q tables now cc = Ret (EWait ch, cc') ->
    ccl_step t {| sys_cc := cc; sys_cl := l |} {| sys_cc := cc'; sys_cl := <[t := Parked q ch tables]> l |}
| ccl_arrive cc l q ch tables :
    l !! t = Some (Parked q ch tables) ->
    ccl_step t {| sys_cc := cc; sys_cl := l |}
      {| sys_cc := for_tables add_waits tables (set_chan q ch Sending cc); sys_cl := <[t := Selecting q ch]> l |}
| ccl_cancel cc l q ch :
    l !! t = Some (Selecting q ch) ->
    ccl_step t {| sys_cc := cc; sys_cl := l |} {| sys_cc := set_chan q ch Closed cc; sys_cl := <[t := Cancelled q]> l |}
| ccl_abort cc l q o cc' :
    l !! t = Some (Cancelled q) -> ccl_unlockLocked dry q false cc = Ret (Some (o, cc')) ->
    ccl_step t {| sys_cc := cc; sys_cl := l |} {| sys_cc := cc'; sys_cl := wake q (option_list o) (delete t l) |}
| ccl_done cc l q o cc' :
    l !! t = Some (Running q) -> ccl_unlockLocked dry q true cc = Ret (Some (o, cc')) ->
    ccl_step t {| sys_cc := cc; sys_cl := l |} {| sys_cc := cc'; sys_cl := wake q (option_list o) (delete t l) |}
| ccl_delete cc l key :
    ccl_step t {| sys_cc := cc; sys_cl := l |} {| sys_cc := DeleteQueue key cc; sys_cl := l |}.

Definition ccl_any_step (s s' : ccl_system) : Prop := exists t, ccl_step t s s'.
End Steps.

(** ** The invariant of a queue *)

(** What a query counts for: it entered the queue, it runs, it has not entered yet, it waits for a
    slot. *)
Definition entered_queue (x : client) : Z := match x with Got _ => 0 | _ => 1 end.
Definition runs (x : client) : Z := match x with Running _ => 1 | _ => 0 end.
Definition not_entered (x : client) : Z := match x with Got _ => 1 | _ => 0 end.
Definition waits_for_slot (x : client) : Z := match x with Parked _ _ _ | Selecting _ _ => 1 | _ => 0 end.

(** The queries of queue [q]. *)
Definition at_queue (q : nat) (l : gmap nat client) : gmap nat client := filter (fun p => cl_queue p.2 = q) l.

(** The channel a query owns and its state. *)
Definition owns_chan (x : client) : option (nat * chan_state) :=
  match x with Parked _ ch _ => Some (ch, NotReady) | Selecting _ ch => Some (ch, Sending) | _ => None end.

(** The waiting line [ws] with the channels [chans] and the queries [m]: each query that waits has a
    channel of its own in the line, and the channels of the line that nobody owns are closed. *)
Record line_ok (ws : list nat) (chans : gmap nat chan_state) (m : gmap nat client) : Prop := {
  ln_nodup : NoDup ws;
  ln_clients : forall t x ch s, m !! t = Some x -> owns_chan x = Some (ch, s) -> ch ∈ ws /\ chans !! ch = Some s;
  ln_owner : forall t t' x x' ch s s', m !! t = Some x -> m !! t' = Some x' ->
    owns_chan x = Some (ch, s) -> owns_chan x' = Some (ch, s') -> t = t';
  ln_line : forall ch, ch ∈ ws -> chans !! ch = Some Closed \/ exists t x s, m !! t = Some x /\ owns_chan x = Some (ch, s)
}.

(** *** The waiting line *)

Implicit Types (m l : gmap nat client) (t q ch : nat).

Lemma line_free ws chans m t y :
  line_ok ws chans m -> (forall x, m !! t = Some x -> owns_chan x = None) -> owns_chan y = None ->
  line_ok ws chans (<[t := y]> m) /\ line_ok ws chans (delete t m).
Proof.
  intros [H1 H2 H3 H4] Hx Hy.
  assert (forall t' x s ch, m !! t' = Some x -> owns_chan x = Some (ch, s) -> t' <> t) as Hne.
  { intros t' x s ch Hm Ho ->. by rewrite (Hx _ Hm) in Ho. }
  split; split; try done.
  - intros t' x ch s [[<- <-]|[Hn Hm]]%lookup_insert_Some Ho; [congruence|by apply (H2 t' x)].
  - intros t1 t2 x1 x2 ch s1 s2 [[<- <-]|[Hn1 Hm1]]%lookup_insert_Some [[<- <-]|[Hn2 Hm2]]%lookup_insert_Some Ho1 Ho2; try congruence.
    by apply (H3 t1 t2 x1 x2 ch s1 s2).
  - intros ch Hch. destruct (H4 ch Hch) as [Hc|(t' & x & s & Hm & Ho)]; [by left|right]. exists t', x, s.
    rewrite lookup_insert_ne; [done|]. apply not_eq_sym. by eapply Hne.
  - intros t' x ch s [Hn Hm]%lookup_delete_Some Ho. by apply (H2 t' x).
  - intros t1 t2 x1 x2 ch s1 s2 [Hn1 Hm1]%lookup_delete_Some [Hn2 Hm2]%lookup_delete_Some Ho1 Ho2.
    by apply (H3 t1 t2 x1 x2 ch s1 s2).
  - intros ch Hch. destruct (H4 ch Hch) as [Hc|(t' & x & s & Hm & Ho)]; [by left|right]. exists t', x, s.
    rewrite lookup_delete_ne; [done|]. apply not_eq_sym. by eapply Hne.
Qed.

(** The owner of a channel in state [s] gives it the state [s'], and keeps it unless it closes it. *)
Lemma line_state ws chans m t x ch s s' y :
  line_ok ws chans m -> m !! t = Some x -> owns_chan x = Some (ch, s) ->
  (owns_chan y = Some (ch, s') \/ owns_chan y = None /\ s' = Closed) ->
  line_ok ws (<[ch := s']> chans) (<[t := y]> m).
Proof.
  intros [H1 H2 H3 H4] Hx Ho Hy. split; [done| | |].
  - intros t' x' ch' st [[<- <-]|[Hn Hm]]%lookup_insert_Some Ho'.
    + destruct Hy as [Hy|[Hy _]]; [|congruence]. rewrite Hy in Ho'. injection Ho' as <- <-.
      rewrite lookup_insert_eq. split; [by apply (H2 t x ch s)|done].
    + destruct (H2 t' x' ch' st Hm Ho') as [Hin Hc]. split; [done|]. rewrite lookup_insert_ne; [done|].
      intros <-. by rewrite (H3 t t' x x' ch s st Hx Hm Ho Ho') in Hn.
  - intros t1 t2 x1 x2 ch' s1 s2 [[<- <-]|[Hn1 Hm1]]%lookup_insert_Some [[<- <-]|[Hn2 Hm2]]%lookup_insert_Some Ho1 Ho2; try done.
    + destruct Hy as [Hy|[Hy _]]; [|congruence]. rewrite Hy in Ho1. injection Ho1 as <- <-. by apply (H3 t t2 x x2 ch s s2).
    + destruct Hy as [Hy|[Hy _]]; [|congruence]. rewrite Hy in Ho2. injection Ho2 as <- <-. by apply (H3 t1 t x1 x ch s1 s).
    + by apply (H3 t1 t2 x1 x2 ch' s1 s2).
  - intros ch' Hch. destruct (decide (ch' = ch)) as [->|Hne].
    + rewrite lookup_insert_eq. destruct Hy as [Hy|[_ ->]]; [right|by left].
      exists t, y, s'. by rewrite lookup_insert_eq.
    + rewrite lookup_insert_ne by done. destruct (H4 ch' Hch) as [Hc|(t' & x' & st & Hm & Ho')]; [by left|right].
      exists t', x', st. rewrite lookup_insert_ne; [done|]. intros ->. congruence.
Qed.

Lemma line_push ws chans m t ch y :
  line_ok ws chans m -> (forall x, m !! t = Some x -> owns_chan x = None) -> ch ∉ ws -> owns_chan y = Some (ch, NotReady) ->
  line_ok (ws ++ [ch]) (<[ch := NotReady]> chans) (<[t := y]> m).
Proof.
  intros [H1 H2 H3 H4] Hx Hnew Hy.
  assert (forall t' x s ch', m !! t' = Some x -> owns_chan x = Some (ch', s) -> t' <> t /\ ch' <> ch) as Hne.
  { intros t' x s ch' Hm Ho. split; intros ->; [by rewrite (Hx _ Hm) in Ho|]. by destruct (H2 _ _ _ _ Hm Ho). }
  split.
  - apply NoDup_app. split_and!; [done|set_solver|apply NoDup_singleton].
  - intros t' x ch' s [[<- <-]|[Hn Hm]]%lookup_insert_Some Ho.
    + rewrite Hy in Ho. injection Ho as <- <-. rewrite lookup_insert_eq. set_solver.
    + destruct (H2 t' x ch' s Hm Ho) as [Hin Hc], (Hne t' x s ch' Hm Ho) as [_ Hch].
      split; [set_solver|by rewrite lookup_insert_ne].
  - intros t1 t2 x1 x2 ch' s1 s2 [[<- <-]|[Hn1 Hm1]]%lookup_insert_Some [[<- <-]|[Hn2 Hm2]]%lookup_insert_Some Ho1 Ho2; try done.
    + rewrite Hy in Ho1. injection Ho1 as <- <-. by destruct (Hne _ _ _ _ Hm2 Ho2).
    + rewrite Hy in Ho2. injection Ho2 as <- <-. by destruct (Hne _ _ _ _ Hm1 Ho1).
    + by apply (H3 t1 t2 x1 x2 ch' s1 s2).
  - intros ch' [Hch| ->%list_elem_of_singleton]%elem_of_app.
    + rewrite lookup_insert_ne by (by intros <-). destruct (H4 ch' Hch) as [Hc|(t' & x & s & Hm & Ho)]; [by left|right].
      exists t', x, s. rewrite lookup_insert_ne; [done|]. apply not_eq_sym. by eapply Hne.
    + right. exists t, y, NotReady. by rewrite lookup_insert_eq.
Qed.

(** Taking the first channel off the line. *)
Lemma line_pop_closed ch ws chans m :
  line_ok (ch :: ws) chans m -> chans !! ch = Some Closed -> line_ok ws chans m.
Proof.
  intros [H1 H2 H3 H4] Hc. apply NoDup_cons in H1 as [Hn H1]. split; [done| |done|].
  - intros t x ch' s Hm Ho. destruct (H2 t x ch' s Hm Ho) as [Hin Hs]. split; [|done].
    apply elem_of_cons in Hin as [->|Hin]; [|done]. destruct x; simplify_eq/=.
  - intros ch' Hch. apply H4. by right.
Qed.

Lemma line_pop ch ws chans m :
  line_ok (ch :: ws) chans m -> chans !! ch = Some Sending ->
  exists t q, m !! t = Some (Selecting q ch) /\
  forall y, owns_chan y = None -> line_ok ws (delete ch chans) (<[t := y]> m).
Proof.
  intros [H1 H2 H3 H4] Hc. apply NoDup_cons in H1 as [Hn H1].
  destruct (H4 ch) as [Hc'|(t & x & s & Hm & Ho)]; [by left|congruence|].
  destruct (H2 t x ch s Hm Ho) as [_ Hs]. assert (s = Sending) as -> by congruence.
  destruct x as [| |q ch'| |]; simplify_eq/=. exists t, q. split; [done|]. intros y Hy.
  assert (forall t' x' ch' s', m !! t' = Some x' -> owns_chan x' = Some (ch', s') -> t <> t' -> ch' <> ch) as Hne.
  { intros t' x' ch' s' Hm' Ho' Hn' ->. by rewrite (H3 t t' _ x' ch Sending s' Hm Hm' eq_refl Ho') in Hn'. }
  split; [done| | |].
  - intros t' x' ch' s [[<- <-]|[Hn' Hm']]%lookup_insert_Some Ho'; [congruence|].
    destruct (H2 t' x' ch' s Hm' Ho') as [Hin Hs']. pose proof (Hne _ _ _ _ Hm' Ho' Hn').
    apply elem_of_cons in Hin as [->|Hin]; [done|]. by rewrite lookup_delete_ne.
  - intros t1 t2 x1 x2 ch' s1 s2 [[<- <-]|[Hn1 Hm1]]%lookup_insert_Some [[<- <-]|[Hn2 Hm2]]%lookup_insert_Some Ho1 Ho2; try congruence.
    by apply (H3 t1 t2 x1 x2 ch' s1 s2).
  - intros ch' Hch. rewrite lookup_delete_ne by (by intros ->). destruct (H4 ch') as [Hc'|(t' & x' & s & Hm' & Ho')]; [by right|by left|right].
    exists t', x', s. rewrite lookup_insert_ne; [done|]. intros <-. rewrite Hm in Hm'. injection Hm' as <-. cbn in Ho'. by simplify_eq.
Qed.

(** A receive that blocks waits for a query that has not reached the [select]. *)
Lemma line_blocked ch ws chans m :
  line_ok (ch :: ws) chans m -> chans !! ch <> Some Sending -> chans !! ch <> Some Closed ->
  exists t q tables, m !! t = Some (Parked q ch tables).
Proof.
  intros Hl Hs Hc. destruct (ln_line _ _ _ Hl ch) as [?|(t & x & s & Hm & Ho)]; [by left|done|].
  destruct (ln_clients _ _ _ Hl t x ch s Hm Ho) as [_ Hst]. destruct x as [|q ch' tables| | |]; simplify_eq/=. by exists t, q, tables.
Qed.

Lemma line_empty chans m : line_ok [] chans m -> msum waits_for_slot m = 0.
Proof.
  intros [_ H2 _ _]. assert (0 <= msum waits_for_slot m) by (apply msum_nonneg; intros t x _; destruct x; cbn; lia).
  destruct (decide (0 < msum waits_for_slot m)) as [Hp|]; [|lia].
  apply msum_pos in Hp as (t & x & Hm & Hx); [|intros ? x _; destruct x; cbn; lia].
  destruct x as [|q ch tables|q ch| |]; cbn in Hx; try lia;
    [destruct (H2 t _ ch NotReady Hm eq_refl)|destruct (H2 t _ ch Sending Hm eq_refl)]; set_solver.
Qed.

(** A waiter is not counted among the running ones. *)
Lemma runs_waiter m t q ch :
  m !! t = Some (Selecting q ch) -> Z.of_nat (size m) <= MaxInt64 -> 0 <= msum runs m < MaxInt64.
Proof.
  intros Hm Hs. pose proof (msum_delete runs m t _ Hm) as H. cbn in H.
  assert (msum runs (delete t m) <= Z.of_nat (size (delete t m))) as Hle by (apply msum_size; intros []; cbn; lia).
  assert (0 <= msum runs m) by (apply msum_nonneg; intros ? [] _; cbn; lia).
  rewrite map_size_delete_Some in Hle by (by eexists). assert (size m <> 0%nat); [|lia].
  intros E%map_size_empty_iff. by rewrite E, lookup_empty in Hm.
Qed.

Lemma wake1_eq ws chans m t q ch :
  line_ok ws chans m -> m !! t = Some (Selecting q ch) -> wake1 q m ch = <[t := Running q]> m.
Proof.
  intros Hl Hm. apply map_eq. intros t'. unfold wake1. rewrite lookup_fmap. destruct (decide (t' = t)) as [->|Hne].
  - rewrite Hm, lookup_insert_eq. cbn. by rewrite decide_True.
  - rewrite lookup_insert_ne by done. destruct (m !! t') as [x|] eqn:Hx; [|done]. cbn. f_equal.
    destruct x as [| |q' ch'| |]; try done. destruct (decide (q' = q /\ ch' = ch)) as [[-> ->]|]; [|done].
    destruct Hne. by apply (ln_owner _ _ _ Hl t' t _ _ ch Sending Sending Hx Hm).
Qed.

(** What waking a query up does to the counts. *)
Lemma wake_counts m t q ch :
  m !! t = Some (Selecting q ch) ->
  let m' := <[t := Running q]> m in
  msum runs m' = msum runs m + 1 /\ msum entered_queue m' = msum entered_queue m /\
  msum not_entered m' = msum not_entered m /\ msum waits_for_slot m' = msum waits_for_slot m - 1 /\ size m' = size m.
Proof.
  intros Hm m'. subst m'. rewrite !(msum_replace _ _ _ _ _ Hm). cbn. rewrite map_size_insert_Some by (by eexists).
  split_and!; lia || done.
Qed.

Lemma ccl_release_ok ws chans m :
  line_ok ws chans m ->
  match release_loop ws chans with
  | None => exists t q ch tables, m !! t = Some (Parked q ch tables)
  | Some (None, ws', chans') => ws' = [] /\ line_ok ws' chans' m
  | Some (Some ch, ws', chans') => (forall c, c ∈ ws' -> c ∈ ws) /\
      exists t q, m !! t = Some (Selecting q ch) /\ forall y, owns_chan y = None -> line_ok ws' chans' (<[t := y]> m)
  end.
Proof.
  induction ws as [|ch ws IH]; intros Hl; cbn [release_loop]; [done|].
  destruct (chans !! ch) as [[]|] eqn:Hc.
  - destruct (line_blocked ch ws chans m Hl) as (t & q & tables & Hm); [congruence..|]. by exists t, q, ch, tables.
  - destruct (line_pop ch ws chans m Hl Hc) as (t & q & Hm & Hpop). split; [by right|]. by exists t, q.
  - pose proof (IH (line_pop_closed ch ws chans m Hl Hc)) as Hr. destruct (release_loop ws chans) as [[[[c|] ws'] chans']|]; [|done|done].
    destruct Hr as [Hsub Hr]. split; [|done]. intros c' Hc'. right. by apply Hsub.
  - destruct (line_blocked ch ws chans m Hl) as (t & q & tables & Hm); [congruence..|]. by exists t, q, ch, tables.
Qed.

Lemma resize_ok q delta ws chans fly m :
  line_ok ws chans m -> 0 <= delta <= MaxInt64 -> (forall t x, m !! t = Some x -> cl_queue x = q) ->
  Z.of_nat (size m) <= MaxInt64 -> - MaxInt64 <= fly <= msum runs m ->
  match resize_loop delta ws chans fly with
  | None => exists t q ch tables, m !! t = Some (Parked q ch tables)
  | Some (woken, (ws', chans', fly')) =>
      let m' := wake q woken m in
      line_ok ws' chans' m' /\ (forall c, c ∈ ws' -> c ∈ ws) /\ fly' - msum runs m' = fly - msum runs m /\
      msum entered_queue m' = msum entered_queue m /\ msum not_entered m' = msum not_entered m /\
      fly <= fly' /\ (msum waits_for_slot m' = 0 \/ fly' = fly + delta)
  end.
Proof.
  revert delta chans fly m. induction ws as [|ch ws IH]; intros delta chans fly m Hl Hd Hq Hs Hfly; cbn [resize_loop].
  { destruct (Z.ltb_spec 0 delta); cbn; split_and!; try done; [by left; apply (line_empty chans)|right; lia]. }
  destruct (Z.ltb_spec 0 delta); [|cbn; split_and!; try done; right; lia].
  destruct (chans !! ch) as [[]|] eqn:Hc.
  - destruct (line_blocked ch ws chans m Hl) as (t & q' & tables & Hm); [congruence..|]. by exists t, q', ch, tables.
  - destruct (line_pop ch ws chans m Hl Hc) as (t & q' & Hm & Hpop). assert (q' = q) as -> by apply (Hq t _ Hm).
    pose proof (runs_waiter m t q ch Hm Hs). destruct (wake_counts m t q ch Hm) as (E1 & E2 & E3 & E4 & E5).
    rewrite sub64_small, add64_small by (unfold_ints; lia).
    specialize (IH (delta - 1) (delete ch chans) (fly + 1) (<[t := Running q]> m)).
    destruct (resize_loop (delta - 1) ws (delete ch chans) (fly + 1)) as [[woken [[ws' chans'] fly']]|]; cbn.
    + change (foldl (wake1 q) (wake1 q m ch) woken) with (wake q woken (wake1 q m ch)).
      rewrite (wake1_eq (ch :: ws) chans m t q ch Hl Hm).
      destruct IH as (I1 & I2 & I3 & I4 & I5 & I6 & I7);
        [by apply Hpop|lia|intros t' x [[<- <-]|[_ ?]]%lookup_insert_Some; eauto|by rewrite E5|lia|].
      split_and!; [done|intros c Hc'; right; by apply I2|lia|congruence|congruence|lia|]. destruct I7; [by left|right; lia].
    + destruct IH as (t' & q' & ch' & tables & Hm');
        [by apply Hpop|lia|intros t' x [[<- <-]|[_ ?]]%lookup_insert_Some; eauto|by rewrite E5|lia|].
      apply lookup_insert_Some in Hm' as [[_ ?]|[_ ?]]; [done|]. by exists t', q', ch', tables.
  - pose proof (IH delta chans fly m (line_pop_closed ch ws chans m Hl Hc) Hd Hq Hs Hfly) as Hr.
    destruct (resize_loop delta ws chans fly) as [[woken [[ws' chans'] fly']]|]; [|done].
    destruct Hr as (I1 & I2 & I3). split_and!; [done| |apply I3..]. intros c Hc'. right. by apply I2.
  - destruct (line_blocked ch ws chans m Hl) as (t & q' & tables & Hm); [congruence..|]. by exists t, q', ch, tables.
Qed.

(** *** Queues *)

Section Inv.
(** When the arguments of each rule stay [S_of] and [M_of]. *)
Context (fixed : Prop) (S_of M_of : list byte -> Z) (maxGlobal : Z).

(** The queue [qu] with its queries [m]; [cur] says that the map holds it.  A queue the map has dropped may
    count fewer running queries than there are, by one for each time a query that had given up was
    the last to leave it. *)
Record queue_inv (cur : bool) (qu : Queue) (m : gmap nat client) : Prop := {
  qi_size : Q_size qu = msum entered_queue m;
  qi_conc : 1 <= Q_maxConcurrency qu <= MaxInt64;
  qi_fly : if cur then onTheFlySize qu = msum runs m
           else onTheFlySize qu <= msum runs m /\
             msum runs m - onTheFlySize qu + msum not_entered m + (if 0 <? msum entered_queue m then 1 else 0) <= MaxInt64;
  qi_busy : 0 < msum waits_for_slot m -> Q_maxConcurrency qu <= onTheFlySize qu;
  qi_line : line_ok (waitingRequest qu) (Q_chans qu) m;
  qi_fresh : forall ch, ch ∈ waitingRequest qu -> (ch < Q_nextchan qu)%nat;
  qi_limits : fixed -> Q_maxQueueSize qu = S_of (Q_key qu) /\ Q_maxConcurrency qu = M_of (Q_key qu) /\
    onTheFlySize qu <= M_of (Q_key qu) /\ Q_size qu <= Z.max 0 (S_of (Q_key qu))
}.

(** The counts are between zero and the number of queries. *)
Lemma counts_bounds m :
  0 <= msum runs m /\ 0 <= msum waits_for_slot m /\ 0 <= msum not_entered m /\
  msum runs m + msum waits_for_slot m <= msum entered_queue m /\
  msum entered_queue m + msum not_entered m = Z.of_nat (size m).
Proof.
  induction m as [|t x m Hx IH] using map_ind; [by rewrite !msum_empty, map_size_empty|].
  rewrite !msum_insert, map_size_insert_None by done. destruct x; cbn; lia.
Qed.

(** [onTheFlySize] stays in the range of an [int]. *)
Lemma fly_bounds cur qu m :
  queue_inv cur qu m -> Z.of_nat (size m) <= MaxInt64 -> - MaxInt64 <= onTheFlySize qu <= msum runs m.
Proof.
  intros Hi Hs. pose proof (qi_fly _ _ _ Hi) as Hf. pose proof (counts_bounds m).
  destruct cur; [unfold MaxInt64; lia|]. destruct (0 <? msum entered_queue m); lia.
Qed.

(** A queue that the map drops. *)
Lemma inv_stale cur qu m : queue_inv cur qu m -> Z.of_nat (size m) <= MaxInt64 -> queue_inv false qu m.
Proof.
  intros Hi Hs. destruct cur; [|done]. pose proof (counts_bounds m). destruct Hi as [H1 H2 H3 H4 H5 H6 H7].
  split; try done. split; [lia|]. destruct (Z.ltb_spec 0 (msum entered_queue m)); lia.
Qed.

Lemma inv_new key ms mc t q :
  1 <= mc <= MaxInt64 -> (fixed -> ms = S_of key /\ mc = M_of key) -> queue_inv true (newQueue key ms mc) (<[t := Got q]> ∅).
Proof.
  intros Hmc Hf. split; cbn; rewrite ?msum_insert, ?msum_empty by apply lookup_empty; cbn; try done; try lia.
  - split; [apply NoDup_nil_2| | |by intros ch ?%not_elem_of_nil].
    + by intros t' x ch s [[_ <-]|[_ ?]]%lookup_insert_Some Ho.
    + by intros t1 t2 x1 x2 ch s1 s2 [[_ <-]|[_ ?]]%lookup_insert_Some.
  - by intros ch ?%not_elem_of_nil.
  - intros [-> ->]%Hf. lia.
Qed.

(** Another query gets the queue. *)
Lemma inv_get cur qu m t q :
  queue_inv cur qu m -> m !! t = None -> cur = true -> queue_inv cur qu (<[t := Got q]> m).
Proof.
  intros [H1 H2 H3 H4 H5 H6 H7] Ht ->. split; rewrite ?msum_insert by done; cbn; try done; try lia.
  apply line_free; [done|by intros x; rewrite Ht|done].
Qed.

(** A query that is not let in. *)
Lemma inv_refuse cur qu m t q : queue_inv cur qu m -> m !! t = Some (Got q) -> queue_inv cur qu (delete t m).
Proof.
  intros [H1 H2 H3 H4 H5 H6 H7] Ht. split; rewrite ?(msum_delete _ _ _ _ Ht); cbn; rewrite ?Z.sub_0_r; try done.
  - destruct cur; [done|]. split; [lia|]. destruct H3. lia.
  - apply (line_free _ _ m t (Got q)); [done|intros x; rewrite Ht; by intros [= <-]|done].
Qed.

(** A query that enters: [size], [count] and [max] change. *)
Lemma enter_size cur qu m t q :
  queue_inv cur qu m -> m !! t = Some (Got q) -> Z.of_nat (size m) <= MaxInt64 -> add64 (Q_size qu) 1 = Q_size qu + 1.
Proof.
  intros Hi Ht Hs. apply add64_small. rewrite (qi_size _ _ _ Hi). pose proof (counts_bounds m).
  pose proof (msum_le not_entered m t _ (fun _ x _ => ltac:(destruct x; cbn; lia)) Ht) as H'. cbn in H'. unfold_ints. lia.
Qed.

Lemma inv_pass cur qu m t q :
  queue_inv cur qu m -> m !! t = Some (Got q) -> Z.of_nat (size m) <= MaxInt64 ->
  onTheFlySize qu < Q_maxConcurrency qu -> Q_size qu < Q_maxQueueSize qu ->
  queue_inv cur (with_fly (add64 (onTheFlySize qu) 1) (enter_queue qu)) (<[t := Running q]> m).
Proof.
  intros Hi Ht Hs Hlt Hsz. pose proof (enter_size cur qu m t q Hi Ht Hs) as Ea. pose proof (fly_bounds cur qu m Hi Hs).
  destruct Hi as [H1 H2 H3 H4 H5 H6 H7].
  split; cbn; rewrite ?(msum_replace _ _ _ _ _ Ht), ?Ea, ?(add64_small (onTheFlySize qu)) by (unfold_ints; lia); cbn; try done; try lia.
  - pose proof (counts_bounds m). destruct cur; [lia|]. destruct H3. split; [lia|].
    destruct (0 <? msum entered_queue m), (0 <? msum entered_queue m - 0 + 1); lia.
  - apply line_free; [done|intros x; rewrite Ht; by intros [= <-]|done].
  - intros Hf. destruct (H7 Hf) as (? & ? & ? & ?). split_and!; lia.
Qed.

Lemma inv_wait cur qu m t q tables :
  queue_inv cur qu m -> m !! t = Some (Got q) -> Z.of_nat (size m) <= MaxInt64 ->
  Q_maxConcurrency qu <= onTheFlySize qu -> Q_size qu < Q_maxQueueSize qu ->
  queue_inv cur (push_chan (enter_queue qu)) (<[t := Parked q (Q_nextchan qu) tables]> m).
Proof.
  intros Hi Ht Hs Hlt Hsz. pose proof (enter_size cur qu m t q Hi Ht Hs) as Ea. destruct Hi as [H1 H2 H3 H4 H5 H6 H7].
  split; cbn; rewrite ?(msum_replace _ _ _ _ _ Ht), ?Ea; cbn; try done; try lia.
  - pose proof (counts_bounds m). destruct cur; [lia|]. destruct H3. split; [lia|].
    destruct (0 <? msum entered_queue m), (0 <? msum entered_queue m - 0 + 1); lia.
  - apply line_push; [done|intros x; rewrite Ht; by intros [= <-]| |done]. intros Hin%H6. lia.
  - intros ch [Hch%H6| ->%list_elem_of_singleton]%elem_of_app; lia.
  - intros Hf. destruct (H7 Hf) as (? & ? & ? & ?). split_and!; lia.
Qed.

(** A query that waits changes the state of its channel. *)
Lemma inv_state cur qu m t x ch s s' y :
  queue_inv cur qu m -> m !! t = Some x -> owns_chan x = Some (ch, s) ->
  (owns_chan y = Some (ch, s') \/ (exists q, y = Cancelled q) /\ s' = Closed) ->
  queue_inv cur (with_waiting (onTheFlySize qu) (waitingRequest qu) (<[ch := s']> (Q_chans qu)) qu) (<[t := y]> m).
Proof.
  intros [H1 H2 H3 H4 H5 H6 H7] Ht Ho Hy.
  assert (entered_queue x = 1 /\ entered_queue y = 1 /\ runs x = 0 /\ runs y = 0 /\ not_entered x = 0 /\ not_entered y = 0 /\
    waits_for_slot x = 1 /\ waits_for_slot y <= 1) as (? & ? & ? & ? & ? & ? & ? & ?).
  { destruct x; try done; destruct Hy as [Hy|[[qc ->] ->]]; try destruct y; cbn in *; split_and!; (lia || done). }
  split; cbn; rewrite ?(msum_replace _ _ _ _ _ Ht); try done; try lia.
  - destruct cur; [lia|]. destruct H3. split; [lia|].
    replace (msum entered_queue m - entered_queue x + entered_queue y) with (msum entered_queue m) by lia. lia.
  - apply (line_state _ _ m t x ch s); [done..|]. destruct Hy as [?|[[qc ->] ->]]; [by left|by right].
Qed.

(** *** Leaving a queue *)

(** What a query that entered and does not wait counts for. *)
Definition leaves (x : client) : Prop := (exists q, x = Running q) \/ exists q, x = Cancelled q.

Lemma leave_counts m t x :
  m !! t = Some x -> leaves x ->
  msum entered_queue (delete t m) = msum entered_queue m - 1 /\ msum runs (delete t m) = msum runs m - runs x /\
  msum not_entered (delete t m) = msum not_entered m /\ msum waits_for_slot (delete t m) = msum waits_for_slot m /\
  1 <= msum entered_queue m /\ runs x <= msum runs m.
Proof.
  intros Ht Hx. rewrite !(msum_delete _ _ _ _ Ht). pose proof (counts_bounds (delete t m)) as Hb.
  rewrite !(msum_delete _ _ _ _ Ht) in Hb. destruct Hx as [[q ->]|[q ->]]; cbn in *; lia.
Qed.

(** The last query to leave. *)
Lemma inv_last cur qu m t x :
  queue_inv cur qu m -> m !! t = Some x -> leaves x -> Z.of_nat (size m) <= MaxInt64 -> Q_size qu = 1 ->
  queue_inv false (with_fly (sub64 (onTheFlySize qu) 1) (with_Qsize 0 qu)) (delete t m).
Proof.
  intros Hi Ht Hx Hs Hsz. pose proof (fly_bounds cur qu m Hi Hs). pose proof (counts_bounds m).
  destruct (leave_counts m t x Ht Hx) as (E1 & E2 & E3 & E4 & E5 & E6). destruct Hi as [H1 H2 H3 H4 H5 H6 H7].
  split; cbn; rewrite ?E1, ?E2, ?E3, ?E4, ?sub64_small by (unfold_ints; lia); try done; try lia.
  - replace (0 <? msum entered_queue m - 1) with false by (symmetry; apply Z.ltb_ge; lia).
    assert (0 <= runs x <= 1) by (destruct Hx as [[q ->]|[q ->]]; cbn; lia).
    destruct cur; [lia|]. replace (0 <? msum entered_queue m) with true in H3 by (symmetry; apply Z.ltb_lt; lia).
    lia.
  - apply (line_free _ _ m t x); [done|rewrite Ht; intros y [= <-]|]; destruct Hx as [[q ->]|[q ->]]; done.
  - intros Hf. destruct (H7 Hf) as (? & ? & ? & ?). split_and!; lia.
Qed.

(** Another query stays: [fly], [ws] and [chans] are what becomes of the queue, [m'] of its queries. *)
Lemma inv_leave cur qu m t x fly ws chans m' :
  queue_inv cur qu m -> m !! t = Some x -> leaves x -> 1 < Q_size qu ->
  msum entered_queue m' = msum entered_queue m - 1 -> msum not_entered m' = msum not_entered m ->
  fly - msum runs m' = onTheFlySize qu - msum runs m ->
  fly <= onTheFlySize qu -> (0 < msum waits_for_slot m' -> Q_maxConcurrency qu <= fly) ->
  line_ok ws chans m' -> (forall c, c ∈ ws -> c ∈ waitingRequest qu) ->
  queue_inv cur (with_waiting fly ws chans (with_Qsize (Q_size qu - 1) qu)) m'.
Proof.
  intros [H1 H2 H3 H4 H5 H6 H7] Ht Hx Hsz E1 E3 E2 Hle Hw Hline Hsub. split; cbn; rewrite ?E1, ?E3; try done; try lia.
  - destruct cur; [lia|]. replace (0 <? msum entered_queue m - 1) with true by (symmetry; apply Z.ltb_lt; lia).
    replace (0 <? msum entered_queue m) with true in H3 by (symmetry; apply Z.ltb_lt; lia). lia.
  - intros ch Hch. apply H6. by apply Hsub.
  - intros Hf. destruct (H7 Hf) as (? & ? & ? & ?). split_and!; lia.
Qed.

(** *** The controller *)

(** The map holds queue [q]. *)
Definition current (cc : ConcurrencyController) (q : nat) (qu : Queue) : bool := bool_decide (ccl_queues cc !! Q_key qu = Some q).

Record ccl_ok (cc : ConcurrencyController) (l : gmap nat client) : Prop := {
  so_queue : forall q qu, ccl_heap cc !! q = Some qu -> queue_inv (current cc q qu) qu (at_queue q l);
  so_next : forall q, is_Some (ccl_heap cc !! q) -> (q < ccl_next cc)%nat;
  so_map : forall k q, ccl_queues cc !! k = Some q -> exists qu, ccl_heap cc !! q = Some qu /\ Q_key qu = k;
  so_client : forall t x, l !! t = Some x -> is_Some (ccl_heap cc !! cl_queue x);
  so_global : ccl_globalSize cc = msum entered_queue l;
  so_bound : Z.of_nat (size l) <= MaxInt64;
  so_limit : ccl_globalSize cc <= Z.max 0 maxGlobal;
  so_cache : exists c, cc_rep (ccl_cache cc) c
}.

Lemma lookup_at q l t x : at_queue q l !! t = Some x <-> l !! t = Some x /\ cl_queue x = q.
Proof. unfold at_queue. by rewrite map_lookup_filter_Some. Qed.

Lemma at_insert q l t y : cl_queue y = q -> at_queue q (<[t := y]> l) = <[t := y]> (at_queue q l).
Proof. intros Hy. unfold at_queue. by rewrite map_filter_insert_True. Qed.

Lemma at_delete q l t : at_queue q (delete t l) = delete t (at_queue q l).
Proof. apply map_filter_delete. Qed.

Lemma at_other q' l l' :
  (forall t x, cl_queue x = q' -> l !! t = Some x <-> l' !! t = Some x) -> at_queue q' l' = at_queue q' l.
Proof. intros H. apply map_eq. intros t. apply option_eq. intros x. rewrite !lookup_at. naive_solver. Qed.

Lemma at_insert_other q q' l t x y :
  q' <> q -> l !! t = Some x \/ l !! t = None /\ x = y -> cl_queue x = q -> cl_queue y = q ->
  at_queue q' (<[t := y]> l) = at_queue q' l.
Proof.
  intros Hne Hx Hcx Hcy. apply at_other. intros t' z Hz. rewrite lookup_insert_Some. split.
  - intros Hl. right. split; [|done]. intros <-. destruct Hx as [Hx|[Hx _]]; congruence.
  - intros [[<- <-]|[_ ?]]; [congruence|done].
Qed.

Lemma at_delete_other q q' l t x : q' <> q -> l !! t = Some x -> cl_queue x = q -> at_queue q' (delete t l) = at_queue q' l.
Proof.
  intros Hne Hx Hcx. apply at_other. intros t' z Hz. rewrite lookup_delete_Some. split; [|naive_solver].
  intros Hl. split; [|done]. intros <-. congruence.
Qed.

Lemma at_wake1 q l ch : at_queue q (wake1 q l ch) = wake1 q (at_queue q l) ch.
Proof.
  apply map_eq. intros t. apply option_eq. intros x. rewrite lookup_at. unfold wake1. rewrite !lookup_fmap_Some.
  setoid_rewrite lookup_at. split.
  - intros ((y & <- & Hy) & Hq). exists y. split; [done|]. split; [done|].
    destruct y as [| |q' ch'| |]; cbn in *; try done. by destruct (decide (q' = q /\ ch' = ch)) as [[-> _]|].
  - intros (y & <- & Hy & Hq). split; [by exists y|].
    destruct y as [| |q' ch'| |]; cbn in *; try done. by destruct (decide (q' = q /\ ch' = ch)).
Qed.

Lemma at_wake1_other q q' l ch : q' <> q -> at_queue q' (wake1 q l ch) = at_queue q' l.
Proof.
  intros Hne. apply at_other. intros t x Hx. unfold wake1. rewrite lookup_fmap_Some. split.
  - intros Hl. exists x. split; [|done]. destruct x as [| |q2 ch2| |]; try done. by rewrite decide_False by (cbn in *; naive_solver).
  - intros (y & <- & Hy). destruct y as [| |q2 ch2| |]; try done. destruct (decide (q2 = q /\ ch2 = ch)); [cbn in Hx; congruence|done].
Qed.

Lemma wake_cons q ch woken l : wake q (ch :: woken) l = wake q woken (wake1 q l ch).
Proof. done. Qed.

Lemma at_wake q woken l : at_queue q (wake q woken l) = wake q woken (at_queue q l).
Proof. revert l. induction woken as [|ch woken IH]; intros l; [done|]. by rewrite !wake_cons, IH, at_wake1. Qed.

Lemma at_wake_other q q' woken l : q' <> q -> at_queue q' (wake q woken l) = at_queue q' l.
Proof. intros Hne. revert l. induction woken as [|ch woken IH]; intros l; [done|]. rewrite wake_cons, IH. by apply at_wake1_other. Qed.

Lemma size_at q l : Z.of_nat (size (at_queue q l)) <= Z.of_nat (size l).
Proof. apply Nat2Z.inj_le, map_subseteq_size, map_filter_subseteq. Qed.

(** Waking changes neither who is there nor what was entered. *)
Lemma wake_entered q woken l :
  msum entered_queue (wake q woken l) = msum entered_queue l /\ size (wake q woken l) = size l /\
  forall t, wake q woken l !! t = None <-> l !! t = None.
Proof.
  revert l. induction woken as [|ch woken IH]; intros l; [done|]. rewrite wake_cons. destruct (IH (wake1 q l ch)) as (-> & -> & Hd).
  unfold wake1. split_and!.
  - rewrite msum_fmap. apply msum_ext. intros x. destruct x; cbn; try done. by case_decide.
  - by rewrite map_size_fmap.
  - intros t. rewrite Hd. unfold wake1. rewrite lookup_fmap. by destruct (l !! t).
Qed.

Lemma wake_waits q woken l : msum waits_for_slot (wake q woken l) <= msum waits_for_slot l.
Proof.
  revert l. induction woken as [|ch woken IH]; intros l; [done|]. rewrite wake_cons. etrans; [apply IH|].
  unfold wake1. rewrite msum_fmap. apply msum_mono. intros x. destruct x; cbn; try done. by case_decide.
Qed.

Lemma wake_client q woken l t x :
  wake q woken l !! t = Some x -> exists y, l !! t = Some y /\ cl_queue y = cl_queue x.
Proof.
  revert l. induction woken as [|ch woken IH]; intros l; [by exists x|]. rewrite wake_cons. intros (y & Hy & Ey)%IH.
  unfold wake1 in Hy. apply lookup_fmap_Some in Hy as (z & <- & Hz). exists z. split; [done|].
  rewrite <- Ey. destruct z as [| |q' ch'| |]; try done. by destruct (decide (q' = q /\ ch' = ch)) as [[-> _]|].
Qed.

(** A step on queue [q] that may drop entries of the map. *)
Lemma ccl_update cc l cc' l' q qu qu' :
  ccl_ok cc l -> ccl_heap cc !! q = Some qu -> Q_key qu' = Q_key qu -> ccl_heap cc' = <[q := qu']> (ccl_heap cc) ->
  ccl_next cc' = ccl_next cc -> ccl_queues cc' ⊆ ccl_queues cc -> queue_inv (current cc' q qu') qu' (at_queue q l') ->
  (forall q', q' <> q -> at_queue q' l' = at_queue q' l) ->
  (forall t x, l' !! t = Some x -> exists y t', l !! t' = Some y /\ cl_queue x = cl_queue y \/ cl_queue x = q) ->
  ccl_globalSize cc' = msum entered_queue l' -> Z.of_nat (size l') <= MaxInt64 -> ccl_globalSize cc' <= Z.max 0 maxGlobal ->
  (exists c, cc_rep (ccl_cache cc') c) -> ccl_ok cc' l'.
Proof.
  intros Hok Hq Ek Eh En Hsub Hi Ho Hc Hg Hb Hlim Hcache. split; try done; rewrite ?Eh, ?En.
  - intros q' qu2. destruct (decide (q' = q)) as [->|Hne]; [rewrite lookup_insert_eq; by intros [= <-]|].
    rewrite lookup_insert_ne by done. intros Hq'. rewrite Ho by done. pose proof (so_queue _ _ Hok q' qu2 Hq') as Hi'.
    pose proof (size_at q' l). pose proof (so_bound _ _ Hok).
    assert (current cc' q' qu2 = current cc q' qu2 \/ current cc' q' qu2 = false) as [->| ->].
    { unfold current. destruct (decide (ccl_queues cc' !! Q_key qu2 = Some q')) as [E|E].
      - left. rewrite !bool_decide_eq_true_2; [done| |done]. by eapply lookup_weaken.
      - right. by rewrite bool_decide_eq_false_2. }
    + done.
    + eapply inv_stale; [done|lia].
  - intros q' Hq'. apply (so_next _ _ Hok). destruct (decide (q' = q)) as [->|]; [by eexists|]. by rewrite lookup_insert_ne in Hq'.
  - intros k q' Hk. destruct (so_map _ _ Hok k q') as (qu2 & H2 & <-); [by eapply lookup_weaken|].
    destruct (decide (q' = q)) as [->|]; [|exists qu2; by rewrite lookup_insert_ne].
    exists qu'. rewrite lookup_insert_eq. split; [done|]. congruence.
  - intros t x Hx. destruct (decide (cl_queue x = q)) as [->|Hne]; [rewrite lookup_insert_eq; by eexists|].
    rewrite lookup_insert_ne by done. destruct (Hc t x Hx) as (y & t' & [[Hy ->]|?]); [|done]. by apply (so_client _ _ Hok t').
Qed.

(** The queue of a query. *)
Lemma client_queue cc l t x :
  ccl_ok cc l -> l !! t = Some x ->
  exists qu, ccl_heap cc !! cl_queue x = Some qu /\ queue_inv (current cc (cl_queue x) qu) qu (at_queue (cl_queue x) l) /\
  at_queue (cl_queue x) l !! t = Some x /\ Z.of_nat (size (at_queue (cl_queue x) l)) <= MaxInt64.
Proof.
  intros Hok Hx. destruct (so_client _ _ Hok t x Hx) as [qu Hqu]. exists qu. split_and!; [done|by apply (so_queue _ _ Hok)|by apply lookup_at|].
  pose proof (size_at (cl_queue x) l). pose proof (so_bound _ _ Hok). lia.
Qed.

(** A query moves on in its queue. *)
Lemma ccl_move cc l cc' t x y q qu qu' :
  ccl_ok cc l -> l !! t = Some x -> cl_queue x = q -> cl_queue y = q -> ccl_heap cc !! q = Some qu -> Q_key qu' = Q_key qu ->
  ccl_heap cc' = <[q := qu']> (ccl_heap cc) -> ccl_next cc' = ccl_next cc -> ccl_queues cc' = ccl_queues cc ->
  queue_inv (current cc q qu) qu' (<[t := y]> (at_queue q l)) ->
  ccl_globalSize cc' = ccl_globalSize cc - entered_queue x + entered_queue y -> ccl_globalSize cc' <= Z.max 0 maxGlobal ->
  (exists c, cc_rep (ccl_cache cc') c) -> ccl_ok cc' (<[t := y]> l).
Proof.
  intros Hok Hx Hqx Hqy Hqu Ek Eh En Eq Hi Hg Hlim Hc. eapply (ccl_update cc l cc' _ q qu qu'); try done.
  - by rewrite Eq.
  - unfold current. rewrite Eq, Ek, at_insert by done. done.
  - intros q' Hne. apply (at_insert_other q q' l t x y); [done|by left|done|done].
  - intros t' z [[<- <-]|[_ Hz]]%lookup_insert_Some; [exists x, t; by right|]. exists z, t'. by left.
  - rewrite Hg, (so_global _ _ Hok), (msum_replace _ _ _ _ _ Hx). lia.
  - rewrite map_size_insert_Some by (by eexists). apply (so_bound _ _ Hok).
Qed.

(** The counters do not matter. *)
Lemma ccl_stats_ok st cc l : ccl_ok cc l -> ccl_ok (with_ccl_stats st cc) l.
Proof. intros [H1 H2 H3 H4 H5 H6 H7 H8]. by split. Qed.

Lemma set_chan_ok cc l t x ch s s' y :
  ccl_ok cc l -> l !! t = Some x -> owns_chan x = Some (ch, s) -> cl_queue y = cl_queue x ->
  (owns_chan y = Some (ch, s') \/ (exists q, y = Cancelled q) /\ s' = Closed) ->
  ccl_ok (set_chan (cl_queue x) ch s' cc) (<[t := y]> l).
Proof.
  intros Hok Hx Ho Hqy Hy. destruct (client_queue cc l t x Hok Hx) as (qu & Hqu & Hi & Hat & Hs).
  unfold set_chan. rewrite Hqu. apply (ccl_move cc l _ t x y (cl_queue x) qu
    (with_waiting (onTheFlySize qu) (waitingRequest qu) (<[ch := s']> (Q_chans qu)) qu)); try done; [|cbn|apply (so_limit _ _ Hok)|apply (so_cache _ _ Hok)].
  - by apply (inv_state _ qu _ t x ch s).
  - assert (entered_queue x = 1 /\ entered_queue y = 1) as [-> ->]; [|lia].
    split; [by destruct x|]. destruct Hy as [Hy|[[qc ->] _]]; [by destruct y|done].
Qed.

Lemma ccl_limits_ok tables qu cc :
  exists o st, ccl_limits false maxGlobal tables qu cc = (o, with_ccl_stats st cc) /\
  match o with
  | None => ccl_globalSize cc < maxGlobal /\ Q_size qu < Q_maxQueueSize qu
  | Some e => exists g size limit, e = ERefused g size limit
  end.
Proof.
  unfold ccl_limits, for_tables. destruct cc as [ca st qs h nx gs]. cbn.
  destruct (Z.leb_spec maxGlobal gs); cbn; [do 2 eexists; split; [reflexivity|by do 3 eexists]|].
  destruct (Z.leb_spec (Q_maxQueueSize qu) (Q_size qu)); do 2 eexists; (split; [reflexivity|]); [by do 3 eexists|done].
Qed.

Lemma lock_ok cc l t q tables now :
  ccl_ok cc l -> l !! t = Some (Got q) ->
  exists e cc', ccl_lockLocked false maxGlobal q tables now cc = Ret (e, cc') /\
  ccl_ok cc' (match e with
              | EPass => <[t := Running q]> l
              | ERefused _ _ _ => delete t l
              | EWait ch => <[t := Parked q ch tables]> l
              end).
Proof.
  intros Hok Hx. destruct (client_queue cc l t _ Hok Hx) as (qu & Hqu & Hi & Hat & Hs). cbn [cl_queue] in *.
  unfold ccl_lockLocked. rewrite Hqu. destruct (ccl_limits_ok tables qu cc) as (o & st & -> & Ho). destruct o as [e|].
  - destruct Ho as (g & sz & limit & ->). exists (ERefused g sz limit), (with_ccl_stats st cc). split; [done|]. apply ccl_stats_ok.
    apply (ccl_update cc l cc _ q qu qu); try done; try apply Hok.
    + by rewrite insert_id.
    + rewrite at_delete. by apply (inv_refuse _ _ _ t q).
    + intros q' Hne. by apply (at_delete_other q q' l t (Got q)).
    + intros t' z [_ Hz]%lookup_delete_Some. exists z, t'. by left.
    + rewrite (so_global _ _ Hok), (msum_delete _ _ _ _ Hx). cbn. lia.
    + rewrite map_size_delete_Some by (by eexists). pose proof (so_bound _ _ Hok). lia.
  - destruct Ho as [Hg Hsz]. destruct (so_cache _ _ Hok) as [c Hc]. cbn [ccl_cache with_ccl_stats].
    destruct (CC_Record_refines (Q_key (enter_queue qu)) now _ _ Hc) as (cache & -> & Hcache & _). cbn [mbind outcome_bind].
    assert (add64 (ccl_globalSize cc) 1 = ccl_globalSize cc + 1) as Ega.
    { apply add64_small. rewrite (so_global _ _ Hok). pose proof (counts_bounds (delete t l)) as Hb.
      rewrite !(msum_delete _ _ _ _ Hx), map_size_delete_Some in Hb by (by eexists). cbn in Hb.
      pose proof (so_bound _ _ Hok). unfold_ints. lia. }
    change (onTheFlySize (enter_queue qu)) with (onTheFlySize qu). change (Q_maxConcurrency (enter_queue qu)) with (Q_maxConcurrency qu).
    change (Q_nextchan (enter_queue qu)) with (Q_nextchan qu).
    destruct (Z.ltb_spec (onTheFlySize qu) (Q_maxConcurrency qu)); (do 2 eexists; split; [reflexivity|]);
      [apply (ccl_move cc l _ t (Got q) _ q qu (with_fly (add64 (onTheFlySize qu) 1) (enter_queue qu)))
      |apply (ccl_move cc l _ t (Got q) _ q qu (push_chan (enter_queue qu)))];
      cbn [ccl_heap with_Queue with_ccl_stats ccl_globalSize ccl_cache]; rewrite ?insert_insert_eq, ?Ega; try done; try (cbn; lia); try (by eexists);
      [by apply inv_pass|by apply inv_wait].
Qed.

(** A query leaves queue [q], which becomes [qu'], and the map may drop queues. *)
Lemma leave_update cc l t x q qu cc' qu' woken :
  ccl_ok cc l -> l !! t = Some x -> leaves x -> cl_queue x = q -> ccl_heap cc !! q = Some qu -> Q_key qu' = Q_key qu ->
  ccl_heap cc' = <[q := qu']> (ccl_heap cc) -> ccl_next cc' = ccl_next cc -> ccl_queues cc' ⊆ ccl_queues cc ->
  ccl_globalSize cc' = sub64 (ccl_globalSize cc) 1 -> ccl_cache cc' = ccl_cache cc ->
  queue_inv (current cc' q qu') qu' (wake q woken (delete t (at_queue q l))) -> ccl_ok cc' (wake q woken (delete t l)).
Proof.
  intros Hok Hx Hlv Hq Hqu Ek Eh En Eq Eg Ec Hi'. destruct (wake_entered q woken (delete t l)) as (W1 & W2 & _).
  pose proof (counts_bounds l). pose proof (so_bound _ _ Hok). pose proof (so_global _ _ Hok). pose proof (so_limit _ _ Hok).
  destruct (leave_counts l t x Hx Hlv) as (F1 & _ & _ & _ & F5 & _). rewrite sub64_small in Eg by (unfold_ints; lia).
  apply (ccl_update cc l cc' _ q qu qu'); try done.
  - by rewrite at_wake, at_delete.
  - intros q' Hne. rewrite at_wake_other by done. by apply (at_delete_other q q' l t x).
  - intros t' z (y & [_ Hy]%lookup_delete_Some & Ey)%wake_client. exists y, t'. by left.
  - lia.
  - rewrite W2, map_size_delete_Some by (by eexists). lia.
  - lia.
  - rewrite Ec. apply (so_cache _ _ Hok).
Qed.

(** The same when another query stays in the queue. *)
Lemma stay_update cc l t x q qu fly ws chans woken :
  ccl_ok cc l -> l !! t = Some x -> leaves x -> cl_queue x = q -> ccl_heap cc !! q = Some qu -> 1 < Q_size qu ->
  let m := at_queue q l in
  let m' := wake q woken (delete t m) in
  msum entered_queue m' = msum entered_queue m - 1 -> msum not_entered m' = msum not_entered m ->
  fly - msum runs m' = onTheFlySize qu - msum runs m -> fly <= onTheFlySize qu ->
  (0 < msum waits_for_slot m' -> Q_maxConcurrency qu <= fly) -> line_ok ws chans m' ->
  (forall c, c ∈ ws -> c ∈ waitingRequest qu) ->
  ccl_ok (with_Queue q (with_waiting fly ws chans (with_Qsize (Q_size qu - 1) qu)) (leave_queue q (with_Qsize (Q_size qu - 1) qu) cc))
    (wake q woken (delete t l)).
Proof.
  intros Hok Hx Hlv Hq Hqu Hsz m m' E1 E3 E2 Hle Hw Hline Hsub.
  apply (leave_update cc l t x q qu _ (with_waiting fly ws chans (with_Qsize (Q_size qu - 1) qu))); try done.
  - cbn. by rewrite insert_insert_eq.
  - change (current _ _ _) with (current cc q qu). apply (inv_leave _ qu m t x); try done; [by apply (so_queue _ _ Hok)|by apply lookup_at].
Qed.

(** Leaving: it does not panic, and blocks only for a query that is on its way to the [select]. *)
Lemma ccl_unlock_ok cc l t q (returnSlot : bool) :
  ccl_ok cc l -> l !! t = Some (if returnSlot then Running q else Cancelled q) ->
  (ccl_unlockLocked false q returnSlot cc = Ret None /\ exists t' ch tables, l !! t' = Some (Parked q ch tables)) \/
  exists o cc', ccl_unlockLocked false q returnSlot cc = Ret (Some (o, cc')) /\ ccl_ok cc' (wake q (option_list o) (delete t l)).
Proof.
  intros Hok Hx. set (x := if returnSlot then Running q else Cancelled q) in Hx. assert (cl_queue x = q) as Hq by (by destruct returnSlot).
  assert (leaves x) as Hlv by (destruct returnSlot; [left|right]; by eexists).
  destruct (client_queue cc l t x Hok Hx) as (qu & Hqu & Hi & Hat & Hs). rewrite Hq in Hqu, Hi, Hat, Hs.
  destruct (leave_counts _ t x Hat Hlv) as (E1 & E2 & E3 & E4 & E5 & E6). pose proof (qi_size _ _ _ Hi) as Hsz.
  pose proof (counts_bounds (at_queue q l)) as Hcb. pose proof (fly_bounds _ _ _ Hi Hs) as Hfb.
  pose proof (line_free _ _ _ t x (qi_line _ _ _ Hi)) as [_ Hline];
    [rewrite Hat; intros y [= <-]; by destruct returnSlot|by destruct returnSlot|].
  unfold ccl_unlockLocked. rewrite Hqu. cbn [Q_size with_Qsize onTheFlySize Q_maxConcurrency Q_key waitingRequest Q_chans].
  rewrite (sub64_small (Q_size qu)), (sub64_small (onTheFlySize qu)) by (unfold_ints; lia).
  destruct (Z.eqb_spec (Q_size qu - 1) 0) as [E0|E0].
  { right. eexists None, _. split; [reflexivity|].
    apply (leave_update cc l t x q qu _ (with_fly (onTheFlySize qu - 1) (with_Qsize (Q_size qu - 1) qu))); try done; cbn.
    - by rewrite insert_insert_eq.
    - apply delete_subseteq.
    - unfold current. cbn. rewrite lookup_delete_eq, bool_decide_eq_false_2 by done. rewrite E0.
      rewrite <- (sub64_small (onTheFlySize qu)) by (unfold_ints; lia). apply (inv_last _ qu _ t x Hi); (done || lia). }
  pose proof (stay_update cc l t x q qu) as Hstay. pose proof (qi_busy _ _ _ Hi) as Hbusy.
  destruct returnSlot; cbn [orb negb]; subst x; cbn in E2, E6.
  2:{ right. eexists None, _. split; [reflexivity|].
      replace (leave_queue _ _ _) with (with_Queue q (with_waiting (onTheFlySize qu) (waitingRequest qu) (Q_chans qu) (with_Qsize (Q_size qu - 1) qu))
        (leave_queue q (with_Qsize (Q_size qu - 1) qu) cc)) by (unfold with_Queue, leave_queue; cbn; by rewrite insert_insert_eq).
      apply (Hstay _ _ _ []); try done; cbn [wake foldl]; (lia || done). }
  destruct (Z.ltb_spec (Q_maxConcurrency qu) (onTheFlySize qu)).
  { right. eexists None, _. split; [reflexivity|]. apply (Hstay _ _ _ []); try done; cbn [wake foldl]; (lia || done). }
  pose proof (ccl_release_ok _ _ _ Hline) as Hr. destruct (release_loop (waitingRequest qu) (Q_chans qu)) as [[[[ch|] ws] chans]|].
  - right. eexists (Some ch), _. split; [reflexivity|]. destruct Hr as (Hsub & t' & q' & Ht' & Hl').
    assert (q' = q) as -> by (apply lookup_delete_Some in Ht' as [_ Ht']; by apply lookup_at in Ht' as [_ ?]).
    destruct (wake_counts _ t' q ch Ht') as (C1 & C2 & C3 & C4 & _).
    assert (wake q [ch] (delete t (at_queue q l)) = <[t' := Running q]> (delete t (at_queue q l))) as Ew by (by apply (wake1_eq (waitingRequest qu) (Q_chans qu))).
    apply Hstay; try done; cbn [option_list option_rect]; rewrite ?Ew; (lia || done || by apply Hl').
  - right. eexists None, _. split; [reflexivity|]. destruct Hr as [-> Hl']. pose proof (line_empty _ _ Hl').
    apply (Hstay _ _ _ []); try done; cbn [wake foldl]; (lia || done || by intros c ?%not_elem_of_nil).
  - left. split; [done|]. destruct Hr as (t' & q' & ch & tables & Ht'). apply lookup_delete_Some in Ht' as [_ Ht'].
    apply lookup_at in Ht' as [Ht' <-]. by exists t', ch, tables.
Qed.

(** *** Getting a queue *)

Lemma resize_inv qu m q ms mc :
  queue_inv true qu m -> ~ fixed -> 1 <= mc <= MaxInt64 -> (forall t x, m !! t = Some x -> cl_queue x = q) ->
  Z.of_nat (size m) <= MaxInt64 ->
  match resizeQueueLocked ms mc qu with
  | None => exists t ch tables, m !! t = Some (Parked q ch tables)
  | Some (woken, qu') => queue_inv true qu' (wake q woken m) /\ Q_key qu' = Q_key qu
  end.
Proof.
  intros Hi Hnf Hmc Hq Hs. pose proof (fly_bounds _ _ _ Hi Hs) as Hfb. destruct Hi as [H1 H2 H3 H4 H5 H6 H7]. unfold resizeQueueLocked.
  destruct (Z.ltb_spec (Q_maxConcurrency qu) mc) as [Hlt|Hge].
  - rewrite sub64_small by (unfold_ints; lia).
    pose proof (resize_ok q (mc - Q_maxConcurrency qu) _ _ (onTheFlySize qu) m H5 ltac:(lia) Hq Hs Hfb) as Hr.
    destruct (resize_loop _ _ _ _) as [[woken [[ws chans] fly]]|]; cbn.
    + destruct Hr as (I1 & I2 & I3 & I4 & I5 & I6 & I7). split; [|done]. split; cbn; rewrite ?I4; try done; try lia.
      * intros Hw. destruct I7 as [I7|I7]; [lia|]. assert (0 < msum waits_for_slot m); [|lia].
        pose proof (counts_bounds m). pose proof (counts_bounds (wake q woken m)).
        pose proof (wake_waits q woken m). lia.
      * intros ch Hch. apply H6. by apply I2.
    + destruct Hr as (t & q' & ch & tables & Ht). assert (q' = q) as -> by apply (Hq t _ Ht). by exists t, ch, tables.
  - cbn. split; [|done]. split; cbn; try done. intros Hw%H4. lia.
Qed.

(** A query gets queue [q], which the map holds and which becomes [qu']. *)
Lemma get_update cc l t q qu qu' woken :
  ccl_ok cc l -> l !! t = None -> Z.of_nat (size l) < MaxInt64 -> ccl_heap cc !! q = Some qu ->
  ccl_queues cc !! Q_key qu = Some q -> Q_key qu' = Q_key qu -> queue_inv true qu' (wake q woken (at_queue q l)) ->
  ccl_ok (with_Queue q qu' cc) (<[t := Got q]> (wake q woken l)).
Proof.
  intros Hok Ht Hs Hqu Hcur Ek Hi. destruct (wake_entered q woken l) as (W1 & W2 & W3). assert (wake q woken l !! t = None) as Htw by (by apply W3).
  apply (ccl_update cc l _ _ q qu qu'); try done; cbn.
  - unfold current. cbn. rewrite Ek, bool_decide_eq_true_2 by done. rewrite at_insert, at_wake by done.
    apply inv_get; [done| |done]. rewrite <- at_wake. destruct (at_queue q (wake q woken l) !! t) as [x|] eqn:E; [|done].
    apply lookup_at in E as [E _]. congruence.
  - intros q' Hne. rewrite (at_insert_other q q' _ t (Got q) (Got q)); [by apply at_wake_other|done|by right|done|done].
  - intros t' z [[<- <-]|[_ (y & Hy & Ey)%wake_client]]%lookup_insert_Some.
    + exists (Got q), t. by right.
    + exists y, t'. left. by split.
  - rewrite msum_insert, W1 by done. cbn. apply (so_global _ _ Hok).
  - rewrite map_size_insert_None, W2 by done. lia.
  - apply (so_limit _ _ Hok).
  - apply (so_cache _ _ Hok).
Qed.

(** A query makes a new queue. *)
Lemma get_new cc l t key ms mc :
  ccl_ok cc l -> l !! t = None -> Z.of_nat (size l) < MaxInt64 -> 1 <= mc <= MaxInt64 ->
  (fixed -> ms = S_of key /\ mc = M_of key) -> ccl_queues cc !! key = None ->
  ccl_ok {| ccl_cache := ccl_cache cc; ccl_stats := ccl_stats cc; ccl_queues := <[key := ccl_next cc]> (ccl_queues cc);
            ccl_heap := <[ccl_next cc := newQueue key ms mc]> (ccl_heap cc);
            ccl_next := S (ccl_next cc); ccl_globalSize := ccl_globalSize cc |} (<[t := Got (ccl_next cc)]> l).
Proof.
  intros Hok Ht Hs Hmc Hf Hk.
  assert (ccl_heap cc !! ccl_next cc = None) as Hnew.
  { destruct (ccl_heap cc !! ccl_next cc) eqn:E; [|done]. pose proof (so_next _ _ Hok (ccl_next cc) ltac:(by eexists)). lia. }
  assert (at_queue (ccl_next cc) l = ∅) as Hempty.
  { apply map_empty. intros t'. destruct (at_queue (ccl_next cc) l !! t') as [x|] eqn:E; [|done].
    apply lookup_at in E as [E Eq]. destruct (so_client _ _ Hok t' x E) as [qu Hqu]. congruence. }
  split; cbn.
  - intros q qu [[<- <-]|[Hne Hqu]]%lookup_insert_Some; unfold current; cbn.
    + rewrite lookup_insert_eq, bool_decide_eq_true_2 by done. rewrite at_insert, Hempty by done. by apply inv_new.
    + rewrite (at_insert_other (ccl_next cc) q _ t (Got (ccl_next cc)) (Got (ccl_next cc))); [|done|by right|done|done].
      pose proof (so_queue _ _ Hok q qu Hqu) as Hi. unfold current in Hi.
      destruct (decide (Q_key qu = key)) as [<-|Hnk]; [|by rewrite lookup_insert_ne].
      rewrite lookup_insert_eq. rewrite Hk in Hi. rewrite !bool_decide_eq_false_2 in * by congruence. done.
  - intros q Hq. destruct (decide (q = ccl_next cc)) as [->|]; [lia|]. rewrite lookup_insert_ne in Hq by done.
    pose proof (so_next _ _ Hok q Hq). lia.
  - intros k q [[<- <-]|[Hne Hq]]%lookup_insert_Some; [eexists; by rewrite lookup_insert_eq|].
    destruct (so_map _ _ Hok k q Hq) as (qu & Hqu & Ek). exists qu. split; [|done]. rewrite lookup_insert_ne; [done|]. intros <-. congruence.
  - intros t' x [[<- <-]|[_ Hx]]%lookup_insert_Some; [cbn; rewrite lookup_insert_eq; by eexists|].
    destruct (so_client _ _ Hok t' x Hx) as [qu Hqu]. destruct (decide (cl_queue x = ccl_next cc)) as [->|]; [rewrite lookup_insert_eq; by eexists|].
    rewrite lookup_insert_ne by done. by eexists.
  - rewrite msum_insert by done. cbn. apply (so_global _ _ Hok).
  - rewrite map_size_insert_None by done. lia.
  - apply (so_limit _ _ Hok).
  - apply (so_cache _ _ Hok).
Qed.

Lemma ccl_get_ok cc l t key ms mc :
  ccl_ok cc l -> l !! t = None -> Z.of_nat (size l) < MaxInt64 -> 1 <= mc <= MaxInt64 ->
  (fixed -> ms = S_of key /\ mc = M_of key) ->
  (GetOrCreateQueue key ms mc cc = Ret None /\ exists t' q ch tables, l !! t' = Some (Parked q ch tables)) \/
  exists q woken cc', GetOrCreateQueue key ms mc cc = Ret (Some (q, woken, cc')) /\ ccl_ok cc' (<[t := Got q]> (wake q woken l)).
Proof.
  intros Hok Ht Hs Hmc Hf. unfold GetOrCreateQueue. destruct (ccl_queues cc !! key) as [q|] eqn:Hk.
  2:{ right. exists (ccl_next cc), []. cbn. rewrite !lookup_insert_eq. cbn. rewrite !Z.eqb_refl. cbn. eexists. split; [reflexivity|]. by apply get_new. }
  destruct (so_map _ _ Hok key q Hk) as (qu & Hqu & <-). rewrite Hk, Hqu. pose proof (so_queue _ _ Hok q qu Hqu) as Hi.
  unfold current in Hi. rewrite bool_decide_eq_true_2 in Hi by done. pose proof (size_at q l) as Hsz.
  destruct (Z.eqb_spec (Q_maxQueueSize qu) ms) as [E1|E1], (Z.eqb_spec (Q_maxConcurrency qu) mc) as [E2|E2]; cbn [negb orb].
  { right. eexists q, [], _. split; [reflexivity|].
    replace cc with (with_Queue q qu cc) at 1 by (destruct cc; unfold with_Queue; cbn in *; by rewrite insert_id).
    by apply (get_update cc l t q qu qu []). }
  all: pose proof (resize_inv qu (at_queue q l) q ms mc Hi) as Hr;
    assert (~ fixed) as Hnf by (intros F; destruct (qi_limits _ _ _ Hi F) as (? & ? & _), (Hf F); congruence);
    specialize (Hr Hnf Hmc (fun t x H => proj2 (proj1 (lookup_at q l t x) H)) ltac:(lia));
    destruct (resizeQueueLocked ms mc qu) as [[woken qu']|]; cbn;
    [right; destruct Hr as [Hi' Ek]; eexists q, woken, _; split; [reflexivity|]; by apply (get_update cc l t q qu qu')
    |left; split; [done|]; destruct Hr as (t' & ch & tables & Ht'); apply lookup_at in Ht' as [Ht' _]; by exists t', q, ch, tables].
Qed.

(** *** Steps *)

Lemma delete_ok key cc l : ccl_ok cc l -> ccl_ok (DeleteQueue key cc) l.
Proof.
  intros Hok. split; cbn; try apply Hok.
  - intros q qu Hqu. pose proof (so_queue _ _ Hok q qu Hqu) as Hi. unfold current. cbn.
    destruct (decide (key = Q_key qu)) as [->|Hne]; [|unfold current in Hi; by rewrite lookup_delete_ne].
    rewrite lookup_delete_eq, bool_decide_eq_false_2 by done. eapply inv_stale; [done|].
    pose proof (size_at q l). pose proof (so_bound _ _ Hok). lia.
  - intros k q [_ Hk]%lookup_delete_Some. by apply (so_map _ _ Hok).
Qed.

Lemma ccl_init_ok combined : ccl_ok (NewConcurrencyController combined) ∅.
Proof.
  split; cbn; try (intros *; rewrite lookup_empty; done).
  - by rewrite msum_empty.
  - rewrite map_size_empty. unfold MaxInt64. lia.
  - lia.
  - exists []. apply cc_rep_new. unfold MaxInt64. lia.
Qed.

Context (args : list byte -> Z -> Z -> Prop).
Hypothesis args_ok : forall k ms mc, args k ms mc -> 1 <= mc <= MaxInt64 /\ (fixed -> ms = S_of k /\ mc = M_of k).

Lemma ccl_step_inv t s s' : ccl_step false maxGlobal args t s s' -> ccl_ok (sys_cc s) (sys_cl s) -> ccl_ok (sys_cc s') (sys_cl s').
Proof.
  intros Hstep Hok. destruct Hstep as [cc l key ms mc q woken cc' Ht Hs Ha E|cc l q tables now cc' Ht E|cc l q tables now g sz limit cc' Ht E
    |cc l q tables now ch cc' Ht E|cc l q ch tables Ht|cc l q ch Ht|cc l q o cc' Ht E|cc l q o cc' Ht E|cc l key]; cbn [sys_cc sys_cl] in *.
  - destruct (args_ok _ _ _ Ha) as [Hmc Hf]. destruct (ccl_get_ok cc l t key ms mc Hok Ht Hs Hmc Hf) as [[E' _]|(q' & w' & cc2 & E' & Hok')];
      rewrite E in E'; [done|]. by injection E' as <- <- <-.
  - destruct (lock_ok cc l t q tables now Hok Ht) as (e & cc2 & E' & Hok'). rewrite E in E'. by injection E' as <- <-.
  - destruct (lock_ok cc l t q tables now Hok Ht) as (e & cc2 & E' & Hok'). rewrite E in E'. by injection E' as <- <-.
  - destruct (lock_ok cc l t q tables now Hok Ht) as (e & cc2 & E' & Hok'). rewrite E in E'. by injection E' as <- <-.
  - apply ccl_stats_ok. apply (set_chan_ok cc l t (Parked q ch tables) ch NotReady Sending); [done..|by left].
  - apply (set_chan_ok cc l t (Selecting q ch) ch Sending Closed); [done..|]. right. split; [by eexists|done].
  - destruct (ccl_unlock_ok cc l t q false Hok Ht) as [[E' _]|(o' & cc2 & E' & Hok')]; rewrite E in E'; [done|]. by injection E' as <- <-.
  - destruct (ccl_unlock_ok cc l t q true Hok Ht) as [[E' _]|(o' & cc2 & E' & Hok')]; rewrite E in E'; [done|]. by injection E' as <- <-.
  - by apply delete_ok.
Qed.

Lemma ccl_reachable combined s :
  rtc (ccl_any_step false maxGlobal args) (ccl_init combined) s -> ccl_ok (sys_cc s) (sys_cl s).
Proof.
  apply (rtc_keeps _ (fun s => ccl_ok (sys_cc s) (sys_cl s))); [apply ccl_init_ok|].
  intros a b Ha [t Hb]. by apply (ccl_step_inv t a b).
Qed.
End Inv.

(** ** What the controller promises *)

(** The queries of queue [q] that run, and those that run or wait. *)
Definition running (q : nat) (s : ccl_system) : Z := msum runs (at_queue q (sys_cl s)).
Definition inside (q : nat) (s : ccl_system) : Z := msum entered_queue (at_queue q (sys_cl s)).

(** C13: outside dry run, as long as the arguments of each rule stay the same, in every interleaving a queue that the map holds never
    has more than [maxConcurrency] running queries, and [Pending] counts its running and waiting ones.  A queue that the map has dropped,
    but that queries which looked it up before still use, keeps only the next limit: no queue ever has more than [maxQueueSize] running
    or waiting queries.  The global size counts the queries of all queues and keeps to its limit. *)
Theorem Ccl_limits args S_of M_of maxGlobal combined s :
  (forall k ms mc, args k ms mc -> 1 <= mc <= MaxInt64 /\ ms = S_of k /\ mc = M_of k) ->
  rtc (ccl_any_step false maxGlobal args) (ccl_init combined) s ->
  (forall k q, ccl_queues (sys_cc s) !! k = Some q ->
     running q s <= M_of k /\ inside q s <= Z.max 0 (S_of k) /\ ccl_Pending k (sys_cc s) = Ret (inside q s)) /\
  (forall q qu, ccl_heap (sys_cc s) !! q = Some qu -> inside q s <= Z.max 0 (S_of (Q_key qu))) /\
  ccl_globalSize (sys_cc s) = msum entered_queue (sys_cl s) /\ ccl_globalSize (sys_cc s) <= Z.max 0 maxGlobal.
Proof.
  intros Ha Hr. apply (ccl_reachable True S_of M_of) in Hr; [|intros k ms mc ?%Ha; naive_solver].
  assert (forall q qu, ccl_heap (sys_cc s) !! q = Some qu -> Q_size qu = inside q s /\ inside q s <= Z.max 0 (S_of (Q_key qu))) as Hin.
  { intros q qu Hqu. destruct (so_queue _ _ _ _ _ _ Hr q qu Hqu) as [H1 _ _ _ _ _ H7].
    destruct (H7 I) as (_ & _ & _ & H8). unfold inside. split; [done|lia]. }
  split_and!; [|by intros q qu [_ H]%Hin|apply (so_global _ _ _ _ _ _ Hr)|apply (so_limit _ _ _ _ _ _ Hr)].
  intros k q Hk. destruct (so_map _ _ _ _ _ _ Hr k q Hk) as (qu & Hqu & <-). destruct (Hin q qu Hqu) as [E Hle].
  pose proof (so_queue _ _ _ _ _ _ Hr q qu Hqu) as Hi. unfold current in Hi. rewrite bool_decide_eq_true_2 in Hi by done.
  destruct (qi_limits _ _ _ _ _ _ Hi I) as (_ & _ & Hfly & _). pose proof (qi_fly _ _ _ _ _ _ Hi) as Hf. cbn in Hf.
  split_and!; [unfold running; lia|done|]. unfold ccl_Pending. by rewrite Hk, Hqu, E.
Qed.

(** ** Everybody gets through *)

(** A step of a query that is there and is not blocked in the [select], so that it is not a query giving up. *)
Definition ccl_proceeds (maxGlobal : Z) (args : list byte -> Z -> Z -> Prop) (s s' : ccl_system) : Prop :=
  exists t x, sys_cl s !! t = Some x /\ (forall q ch, x <> Selecting q ch) /\ ccl_step false maxGlobal args t s s'.

(** How far a query is from its end. *)
Definition ccl_work (x : client) : Z :=
  match x with Got _ => 4 | Parked _ _ _ => 3 | Selecting _ _ => 2 | Cancelled _ | Running _ => 1 end.

Lemma ccl_work_bounds x : 1 <= ccl_work x <= 4.
Proof. destruct x; cbn; lia. Qed.

Lemma wake_work q woken l : msum ccl_work (wake q woken l) <= msum ccl_work l.
Proof.
  revert l. induction woken as [|ch woken IH]; intros l; [done|]. rewrite wake_cons. etrans; [apply IH|].
  unfold wake1. rewrite msum_fmap. apply msum_mono. intros x. destruct x; cbn; try lia. case_decide; cbn; lia.
Qed.

(** A query that satisfies [P], if there is one. *)
Lemma find_client (P : client -> Prop) `{forall x, Decision (P x)} l :
  (exists t x, l !! t = Some x /\ P x) \/ forall t x, l !! t = Some x -> ~ P x.
Proof.
  destruct (map_choose_or_empty (filter (fun p => P p.2) l)) as [(t & x & Hx)|He].
  - left. exists t, x. by apply map_lookup_filter_Some in Hx.
  - right. intros t x Hx Hp. assert (filter (fun p : nat * client => P p.2) l !! t = Some x) as E by (by apply map_lookup_filter_Some).
    by rewrite He, lookup_empty in E.
Qed.

Definition is_parked (x : client) : bool := match x with Parked _ _ _ => true | _ => false end.
Definition is_selecting (x : client) : bool := match x with Selecting _ _ => true | _ => false end.

Section Drain.
Context (S_of M_of : list byte -> Z) (maxGlobal : Z) (args : list byte -> Z -> Z -> Prop).
Hypothesis args_ok : forall k ms mc, args k ms mc -> 1 <= mc <= MaxInt64.

Definition drain_inv (s : ccl_system) : Prop := ccl_ok False S_of M_of maxGlobal (sys_cc s) (sys_cl s).

(** Nobody only waits: if a query waits in a queue, another one runs in it. *)
Lemma some_runs cc l t q ch :
  ccl_ok False S_of M_of maxGlobal cc l -> l !! t = Some (Selecting q ch) -> exists t', l !! t' = Some (Running q).
Proof.
  intros Hok Ht. destruct (client_queue _ _ _ _ cc l t _ Hok Ht) as (qu & Hqu & Hi & Hat & Hs). cbn [cl_queue] in *.
  pose proof (fly_bounds _ _ _ _ _ _ Hi Hs). pose proof (qi_conc _ _ _ _ _ _ Hi).
  pose proof (msum_le waits_for_slot _ t _ (fun _ x _ => ltac:(destruct x; cbn; lia)) Hat) as Hw. cbn in Hw.
  pose proof (qi_busy _ _ _ _ _ _ Hi ltac:(lia)) as Hbusy.
  destruct (msum_pos runs (at_queue q l)) as (t' & x & Hx & Hr); [intros ? [] _; cbn; lia|lia|].
  apply lookup_at in Hx as [Hx Hq]. exists t'. destruct x; cbn in *; try lia. congruence.
Qed.

Lemma ccl_progress s :
  drain_inv s -> 0 < msum ccl_work (sys_cl s) ->
  exists s', ccl_proceeds maxGlobal args s s' /\ drain_inv s' /\ msum ccl_work (sys_cl s') < msum ccl_work (sys_cl s).
Proof.
  destruct s as [cc l]. unfold drain_inv, ccl_proceeds. cbn [sys_cc sys_cl]. intros Hok Hpos.
  assert (forall t x s', l !! t = Some x -> is_selecting x = false -> ccl_step false maxGlobal args t {| sys_cc := cc; sys_cl := l |} s' ->
    msum ccl_work (sys_cl s') < msum ccl_work l -> exists s',
    (exists t x, l !! t = Some x /\ (forall q ch, x <> Selecting q ch) /\ ccl_step false maxGlobal args t {| sys_cc := cc; sys_cl := l |} s') /\
    ccl_ok False S_of M_of maxGlobal (sys_cc s') (sys_cl s') /\ msum ccl_work (sys_cl s') < msum ccl_work l) as Hgo.
  { intros t x s' Hx Hn Hstep Hw. exists s'. split_and!; [exists t, x; split_and!; [done|by intros q ch ->|done]| |done].
    eapply (ccl_step_inv False S_of M_of maxGlobal args); [|exact Hstep|done]. intros k ms mc ?%args_ok. done. }
  assert (forall t q o, l !! t = Some (Running q) \/ l !! t = Some (Cancelled q) ->
    msum ccl_work (wake q o (delete t l)) < msum ccl_work l) as Hleave.
  { intros t q o Hx. pose proof (wake_work q o (delete t l)).
    destruct Hx as [Hx|Hx]; rewrite (msum_delete _ _ _ _ Hx) in *; cbn in *; lia. }
  destruct (find_client (fun x => is_parked x = true) l) as [(t & x & Hx & Hp)|Hnp].
  { destruct x as [|q ch tables| | |]; try done. eapply Hgo; [done|done|by apply ccl_arrive|].
    cbn. rewrite (msum_replace _ _ _ _ _ Hx). cbn. lia. }
  destruct (find_client (fun x => is_selecting x = false) l) as [(t & x & Hx & Hs)|Hns].
  - destruct x as [q|q ch tables|q ch|q|q]; [| |done| |].
    + destruct (lock_ok _ _ _ _ cc l t q [] 0 Hok Hx) as (e & cc' & E & _).
      destruct e as [|g sz limit|ch]; (eapply Hgo; [done|done| |]);
        [by eapply ccl_pass| |by eapply ccl_refused| |by eapply ccl_wait|]; cbn;
        rewrite ?(msum_replace _ _ _ _ _ Hx), ?(msum_delete _ _ _ _ Hx); cbn; lia.
    + by destruct (Hnp t _ Hx).
    + destruct (ccl_unlock_ok _ _ _ _ cc l t q false Hok Hx) as [[_ (t' & ch & tables & Ht')]|(o & cc' & E & _)]; [by destruct (Hnp t' _ Ht')|].
      eapply Hgo; [done|done|by eapply ccl_abort|]. apply Hleave. by right.
    + destruct (ccl_unlock_ok _ _ _ _ cc l t q true Hok Hx) as [[_ (t' & ch & tables & Ht')]|(o & cc' & E & _)]; [by destruct (Hnp t' _ Ht')|].
      eapply Hgo; [done|done|by eapply ccl_done|]. apply Hleave. by left.
  - destruct (msum_pos ccl_work l) as (t & x & Hx & _); [intros k v _; pose proof (ccl_work_bounds v); lia|done|].
    specialize (Hns t x Hx) as Hs. destruct x as [|q ch'|q ch| |]; try by destruct Hs.
    destruct (some_runs cc l t q ch Hok Hx) as [t' Ht']. by destruct (Hns t' _ Ht').
Qed.
End Drain.

(** C14: when every rule allows at least one running query, from every reachable state, resized and dropped
    queues included, all queries that are there can run to their end: no step on the way panics or blocks for ever,
    nobody has to give up, and nobody waits for a new query. *)
Theorem Ccl_drains args maxGlobal combined s :
  (forall k ms mc, args k ms mc -> 1 <= mc <= MaxInt64) ->
  rtc (ccl_any_step false maxGlobal args) (ccl_init combined) s ->
  exists s', rtc (ccl_proceeds maxGlobal args) s s' /\ sys_cl s' = ∅.
Proof.
  intros Ha Hr. apply (ccl_reachable False (fun _ => 0) (fun _ => 0)) in Hr; [|intros k ms mc ?%Ha; done].
  destruct (drain (ccl_proceeds maxGlobal args) (drain_inv (fun _ => 0) (fun _ => 0) maxGlobal) (fun s => msum ccl_work (sys_cl s)) s)
    as (s' & Hs & _ & Hw).
  - intros s1 _. apply msum_nonneg. intros k v _. pose proof (ccl_work_bounds v). lia.
  - intros s1 Hi Hpos. by apply ccl_progress.
  - done.
  - exists s'. split; [done|]. apply map_eq. intros t. rewrite lookup_empty.
    destruct (sys_cl s' !! t) as [x|] eqn:Ht; [|done].
    pose proof (msum_le ccl_work _ t x (fun _ v _ => ltac:(pose proof (ccl_work_bounds v); lia)) Ht). pose proof (ccl_work_bounds x). lia.
Qed.

(** A query that leaves lets in the first one in line that has not given up. *)
Lemma release_first ws chans ch ws' chans' :
  release_loop ws chans = Some (Some ch, ws', chans') ->
  exists gone, ws = gone ++ ch :: ws' /\ Forall (fun c => chans !! c = Some Closed) gone /\ chans !! ch = Some Sending.
Proof.
  induction ws as [|c ws IH]; cbn [release_loop]; [done|]. destruct (chans !! c) as [[]|] eqn:Hc; try done.
  - intros [= <- <- _]. by exists [].
  - intros (gone & -> & Hg & Hs)%IH. exists (c :: gone). split_and!; [done|by constructor|done].
Qed.

(** ** Runs *)

(** The steps as operations on a state. *)
Inductive ccl_op :=
| OGet (t : nat) (key : list byte) (ms mc : Z)
| OEnter (t : nat)
| OArrive (t : nat)
| OCancel (t : nat)
| OLeave (t : nat).

Definition ccl_exec (maxGlobal : Z) (op : ccl_op) (s : ccl_system) : option ccl_system :=
  let cc := sys_cc s in
  let l := sys_cl s in
  match op with
  | OGet t key ms mc =>
      match l !! t, GetOrCreateQueue key ms mc cc with
      | None, Ret (Some (q, woken, cc)) => Some {| sys_cc := cc; sys_cl := <[t := Got q]> (wake q woken l) |}
      | _, _ => None
      end
  | OEnter t =>
      match l !! t with
      | Some (Got q) =>
          match ccl_lockLocked false maxGlobal q [] 0 cc with
          | Ret (EPass, cc) => Some {| sys_cc := cc; sys_cl := <[t := Running q]> l |}
          | Ret (ERefused _ _ _, cc) => Some {| sys_cc := cc; sys_cl := delete t l |}
          | Ret (EWait ch, cc) => Some {| sys_cc := cc; sys_cl := <[t := Parked q ch []]> l |}
          | Panic => None
          end
      | _ => None
      end
  | OArrive t =>
      match l !! t with
      | Some (Parked q ch tables) =>
          Some {| sys_cc := for_tables add_waits tables (set_chan q ch Sending cc); sys_cl := <[t := Selecting q ch]> l |}
      | _ => None
      end
  | OCancel t =>
      match l !! t with
      | Some (Selecting q ch) => Some {| sys_cc := set_chan q ch Closed cc; sys_cl := <[t := Cancelled q]> l |}
      | _ => None
      end
  | OLeave t =>
      match l !! t with
      | Some (Running q) =>
          match ccl_unlockLocked false q true cc with
          | Ret (Some (o, cc)) => Some {| sys_cc := cc; sys_cl := wake q (option_list o) (delete t l) |}
          | _ => None
          end
      | Some (Cancelled q) =>
          match ccl_unlockLocked false q false cc with
          | Ret (Some (o, cc)) => Some {| sys_cc := cc; sys_cl := wake q (option_list o) (delete t l) |}
          | _ => None
          end
      | _ => None
      end
  end.

Fixpoint ccl_run (maxGlobal : Z) (ops : list ccl_op) (s : ccl_system) : option ccl_system :=
  match ops with
  | [] => Some s
  | op :: ops => s ← ccl_exec maxGlobal op s; ccl_run maxGlobal ops s
  end.

(** The arguments of the operations, and that there is room for them. *)
Definition op_args (args : list byte -> Z -> Z -> Prop) (op : ccl_op) : Prop :=
  match op with OGet _ key ms mc => args key ms mc | _ => True end.

Lemma ccl_exec_step maxGlobal args op s s' :
  op_args args op -> Z.of_nat (size (sys_cl s)) < MaxInt64 -> ccl_exec maxGlobal op s = Some s' ->
  ccl_any_step false maxGlobal args s s' /\ (size (sys_cl s') <= S (size (sys_cl s)))%nat.
Proof.
  destruct s as [cc l]. cbn [sys_cl]. intros Ha Hs E.
  assert (forall t x, (size (<[t := x]> l) <= S (size l))%nat /\ (size (delete t l) <= S (size l))%nat) as Hsz.
  { intros t x. split; [|etrans; [apply map_subseteq_size, delete_subseteq|lia]].
    destruct (l !! t) eqn:Et; [rewrite map_size_insert_Some by (by eexists)|rewrite map_size_insert_None by done]; lia. }
  destruct op as [t key ms mc|t|t|t|t]; cbn in E; repeat case_match; simplify_eq; cbn [sys_cl].
  1: { split; [exists t; by eapply ccl_get|]. destruct (wake_entered n l0 l) as (_ & Esz & Ed).
       rewrite map_size_insert_None, Esz by (by apply Ed). lia. }
  all: (split; [exists t; by econstructor|]); try (by apply Hsz); try (by apply (Hsz t (Got 0)));
    match goal with |- context [wake ?q ?o ?l] => destruct (wake_entered q o l) as (_ & -> & _) end; by apply (Hsz t (Got 0)).
Qed.

Lemma ccl_run_steps maxGlobal args ops s s' :
  Forall (op_args args) ops -> Z.of_nat (size (sys_cl s) + length ops) < MaxInt64 -> ccl_run maxGlobal ops s = Some s' ->
  rtc (ccl_any_step false maxGlobal args) s s'.
Proof.
  revert s. induction ops as [|op ops IH]; intros s Ha Hs; cbn [ccl_run]; [intros [= ->]; apply rtc_refl|].
  apply Forall_cons in Ha as [Ha Has]. destruct (ccl_exec maxGlobal op s) as [s1|] eqn:E; [|done]. intros Hr.
  cbn [length] in Hs. apply (ccl_exec_step maxGlobal args) in E as [Hstep Hsz]; [|done|lia].
  eapply rtc_l; [done|]. apply IH; [done|lia|done].
Qed.

(** The number of running queries whose queue has key [k]. *)
Definition running_of (k : list byte) (s : ccl_system) : nat :=
  length (filter (fun p => match p.2 with
                           | Running q => match ccl_heap (sys_cc s) !! q with Some qu => bool_decide (Q_key qu = k) | None => false end
                           | _ => false
                           end = true) (map_to_list (sys_cl s))).

Definition rule : list byte := bs "rule1".

Definition sample_args (k : list byte) (ms mc : Z) : Prop := ms = 10 /\ mc = 1.

Ltac ops_args := repeat (apply Forall_cons; split; [cbn; try unfold sample_args; first [exact I|lia]|]); apply Forall_nil; exact I.

(** A query that got the queue before its last query left, and one that came after. *)
Definition two_queues : list ccl_op :=
  [OGet 1 rule 10 1; OEnter 1; OGet 2 rule 10 1; OLeave 1; OEnter 2; OGet 3 rule 10 1; OEnter 3].

(** Two running and one waiting query when the rule is changed to one and back to two. *)
Definition down_and_up : list ccl_op :=
  [OGet 1 rule 10 2; OEnter 1; OGet 2 rule 10 2; OEnter 2; OGet 3 rule 10 2; OEnter 3; OArrive 3;
   OGet 4 rule 10 1; OGet 5 rule 10 2].

(** The limit of a rule can be exceeded.  With a constant [maxConcurrency] of one, a query that got the queue
    before the last running query left it still uses it, while the map has dropped it and gives
    later queries a new one: two run.  And when the rule is changed from two to one and back to two, the second
    change lets a waiting query in although two run already: three run, on one queue. *)
Theorem Ccl_limit_exceeded combined :
  (exists s, rtc (ccl_any_step false 1000 (fun _ ms mc => ms = 10 /\ mc = 1)) (ccl_init combined) s /\ running_of rule s = 2%nat) /\
  (exists s q, rtc (ccl_any_step false 1000 (fun _ ms mc => ms = 10 /\ 1 <= mc <= 2)) (ccl_init combined) s /\
     ccl_queues (sys_cc s) !! rule = Some q /\ running q s = 3).
Proof.
  split.
  - assert (match ccl_run 1000 two_queues (ccl_init combined) with Some s => bool_decide (running_of rule s = 2%nat) | None => false end = true) as H
      by (destruct combined; vm_compute; reflexivity).
    destruct (ccl_run 1000 two_queues (ccl_init combined)) as [s|] eqn:E; [|done]. exists s. split; [|by apply bool_decide_eq_true_1 in H].
    apply (ccl_run_steps 1000 _ two_queues); [ops_args|by vm_compute|exact E].
  - assert (match ccl_run 1000 down_and_up (ccl_init combined) with
            | Some s => bool_decide (ccl_queues (sys_cc s) !! rule = Some 0%nat /\ running 0 s = 3) | None => false end = true) as H
      by (destruct combined; vm_compute; reflexivity).
    destruct (ccl_run 1000 down_and_up (ccl_init combined)) as [s|] eqn:E; [|done]. exists s, 0%nat. split; [|by apply bool_decide_eq_true_1 in H].
    apply (ccl_run_steps 1000 _ down_and_up); [ops_args|by vm_compute|exact E].
Qed.

(** A rule is changed to refuse all queries, [max_queue_size] zero, while one query runs and one waits. *)
Definition refuse_all : list ccl_op :=
  [OGet 1 rule 10 1; OEnter 1; OGet 2 rule 10 1; OEnter 2; OArrive 2; OGet 3 rule 0 0; OEnter 3; OLeave 1].

(** Both arguments are valid, the running query leaves, and the waiting one is not let in: nobody
    runs, and nobody is left to wake it up. *)
Example Ccl_stranded combined :
  args_valid 10 1 = true /\ args_valid 0 0 = true /\
  exists s, rtc (ccl_any_step false 1000 (fun _ ms mc => ms = 10 /\ mc = 1 \/ ms = 0 /\ mc = 0)) (ccl_init combined) s /\
  running 0 s = 0 /\ sys_cl s !! 2%nat = Some (Selecting 0 0) /\ size (sys_cl s) = 1%nat.
Proof.
  split_and!; [done|done|].
  assert (match ccl_run 1000 refuse_all (ccl_init combined) with
          | Some s => (running 0 s =? 0) && (match sys_cl s !! 2%nat with Some (Selecting 0 0) => true | _ => false end)
                      && (size (sys_cl s) =? 1)%nat
          | None => false end = true) as H by (destruct combined; vm_compute; reflexivity).
  destruct (ccl_run 1000 refuse_all (ccl_init combined)) as [s|] eqn:E; [|done]. exists s.
  apply andb_true_iff in H as [[H1%Z.eqb_eq H2]%andb_true_iff H3%Nat.eqb_eq]. split_and!; [|done| |done].
  - apply (ccl_run_steps 1000 _ refuse_all); [ops_args|by vm_compute|exact E].
  - by destruct (sys_cl s !! 2%nat) as [[| |[|] [|]| |]|].
Qed.

(** ** Witnesses *)

(** One query runs, one waits. *)
Definition ccl_sample : ccl_system :=
  default (ccl_init false) (ccl_run 1000 [OGet 1 rule 10 1; OEnter 1; OGet 2 rule 10 1; OEnter 2; OArrive 2] (ccl_init false)).

Lemma ccl_sample_reachable : rtc (ccl_any_step false 1000 sample_args) (ccl_init false) ccl_sample.
Proof.
  apply (ccl_run_steps 1000 _ [OGet 1 rule 10 1; OEnter 1; OGet 2 rule 10 1; OEnter 2; OArrive 2]);
    [ops_args|by vm_compute|]. unfold ccl_sample.
  assert (is_Some (ccl_run 1000 [OGet 1 rule 10 1; OEnter 1; OGet 2 rule 10 1; OEnter 2; OArrive 2] (ccl_init false))) as [s ->]; [|done].
  apply (bool_decide_eq_true_1 _). vm_compute. reflexivity.
Qed.

Lemma Ccl_limits_witness :
  (forall k q, ccl_queues (sys_cc ccl_sample) !! k = Some q ->
     running q ccl_sample <= 1 /\ inside q ccl_sample <= Z.max 0 10 /\ ccl_Pending k (sys_cc ccl_sample) = Ret (inside q ccl_sample)) /\
  (forall q qu, ccl_heap (sys_cc ccl_sample) !! q = Some qu -> inside q ccl_sample <= Z.max 0 10) /\
  ccl_globalSize (sys_cc ccl_sample) = msum entered_queue (sys_cl ccl_sample) /\ ccl_globalSize (sys_cc ccl_sample) <= Z.max 0 1000.
Proof.
  apply (Ccl_limits sample_args (fun _ => 10) (fun _ => 1) 1000 false ccl_sample); [|exact ccl_sample_reachable].
  intros k ms mc [-> ->]. unfold MaxInt64. lia.
Defined.

Lemma Ccl_drains_witness : exists s', rtc (ccl_proceeds 1000 sample_args) ccl_sample s' /\ sys_cl s' = ∅.
Proof.
  apply (Ccl_drains sample_args 1000 false ccl_sample); [|exact ccl_sample_reachable].
  intros k ms mc [-> ->]. unfold MaxInt64. lia.
Defined.
