(* ===== verification/IdPool.v ===== *)
(** * Pools of ids

    [go/pools/id_pool.go]: ids that are unique among their current users.  [handed]
    relates the pool to the ids that are given out after any calls of [Get] and [Put], and
    to the largest number of ids that were out at the same time.  A pool may start at any value
    ([go/vt/binlog/binlog_connection.go] takes a random one): the ids up to it are never given out. *)

From S2P Require Import Prelude.

(** ** The code *)

(** [IDPool]: the keys of the map [used], all of them true, and [maxUsed], a [uint32]. *)
Record IDPool := { used : gset Z; maxUsed : Z }.

(** [NewIDPool]. *)
Definition NewIDPool (initValue : Z) : IDPool := {| used := ∅; maxUsed := initValue |}.

(** [IDPool.Get]; [pick] is the key that ranging over the map visits first. *)
Definition IDPool_Get (pick : gset Z -> Z) (pool : IDPool) : Z * IDPool :=
  if bool_decide (used pool = ∅) then
    let id := uint32 (maxUsed pool + 1) in
    (id, {| used := used pool; maxUsed := id |})
  else
    let key := pick (used pool) in
    (key, {| used := used pool ∖ {[key]}; maxUsed := maxUsed pool |}).

(** [IDPool.Put]. *)
Definition IDPool_Put (id : Z) (pool : IDPool) : outcome IDPool :=
  if (id <? 1) || (maxUsed pool <? id) then Panic
  else if bool_decide (id ∈ used pool) then Panic
  else if id =? maxUsed pool then Ret {| used := used pool; maxUsed := uint32 (id - 1) |}
  else Ret {| used := used pool ∪ {[id]}; maxUsed := maxUsed pool |}.

(** ** Histories *)

(** A key of a map that is not empty. *)
Definition picks (pick : gset Z -> Z) : Prop := forall s, s <> ∅ -> pick s ∈ s.

(** [handed init pool out peak]: [Get] has given out the ids [out], which have not been put back, and never more than [peak] at the
    same time.  Clients put back what they got, and the 32 bits are enough for the ids when a further one is asked for. *)
Inductive handed (init : Z) : IDPool -> list Z -> Z -> Prop :=
| handed_start : handed init (NewIDPool init) [] 0
| handed_get pool out peak pick id pool' :
    handed init pool out peak -> init + zlen out < 2 ^ 32 - 1 -> picks pick -> IDPool_Get pick pool = (id, pool') ->
    handed init pool' (id :: out) (Z.max peak (zlen out + 1))
| handed_put pool out peak id out' pool' :
    handed init pool out peak -> out ≡ₚ id :: out' -> IDPool_Put id pool = Ret pool' -> handed init pool' out' peak.

Section Pool.
Context (init : Z).

Record pool_ok (pool : IDPool) (out : list Z) (peak : Z) : Prop := {
  pok_nodup : NoDup out;
  pok_disjoint : forall id, id ∈ out -> id ∉ used pool;
  pok_range : forall id, id ∈ out \/ id ∈ used pool <-> init < id <= maxUsed pool;
  pok_max : init <= maxUsed pool < 2 ^ 32;
  pok_peak : maxUsed pool <= init + peak
}.

Hypothesis init_nonneg : 0 <= init.

Lemma uint32_id z : 0 <= z < 2 ^ 32 -> uint32 z = z.
Proof. intros H. unfold uint32, wrapU. by apply Z.mod_small. Qed.

(** Without recycled ids those after [init] up to [maxUsed] are out. *)
Lemma out_all pool out peak : pool_ok pool out peak -> used pool = ∅ -> init + zlen out = maxUsed pool.
Proof.
  intros [H1 H2 H3 H4 H5] Hu. assert (out ≡ₚ seqZ (init + 1) (maxUsed pool - init)) as Hp.
  { apply NoDup_Permutation; [done|apply NoDup_seqZ|]. intros id. rewrite elem_of_seqZ. specialize (H3 id).
    rewrite Hu in H3. split.
    - intros Hid. assert (init < id <= maxUsed pool) by (apply H3; by left). lia.
    - intros Hid. destruct (proj2 H3) as [?|?]; [lia|done|]. by apply not_elem_of_empty in H. }
  unfold zlen. rewrite Hp, length_seqZ. lia.
Qed.

Lemma get_ok pool out peak pick :
  pool_ok pool out peak -> init + zlen out < 2 ^ 32 - 1 -> picks pick ->
  let '(id, pool') := IDPool_Get pick pool in (id ∉ out) /\ pool_ok pool' (id :: out) (Z.max peak (zlen out + 1)).
Proof.
  intros Hok Hlen Hpick. pose proof Hok as [H1 H2 H3 H4 H5]. unfold IDPool_Get. case_bool_decide as Hu.
  - pose proof (out_all _ _ _ Hok Hu) as Hall. rewrite uint32_id by lia.
    assert (maxUsed pool + 1 ∉ out) as Hn.
    { intros Hin. assert (init < maxUsed pool + 1 <= maxUsed pool) by (apply H3; by left). lia. }
    split; [done|]. split; cbn.
    + by apply NoDup_cons.
    + intros id _. rewrite Hu. apply not_elem_of_empty.
    + intros id. rewrite elem_of_cons. specialize (H3 id). split.
      * intros [[->|Hin]|Hin]; [lia| |]; (assert (init < id <= maxUsed pool); [apply H3; auto|lia]).
      * intros Hid. destruct (decide (id = maxUsed pool + 1)) as [->|Hne]; [by left; left|].
        destruct (proj2 H3) as [?|?]; [lia|by left; right|by right].
    + lia.
    + lia.
  - specialize (Hpick (used pool) Hu). set (key := pick (used pool)) in *.
    assert (key ∉ out) as Hn by (intros Hin; by apply (H2 key)). split; [done|]. split; cbn.
    + by apply NoDup_cons.
    + intros id [->|Hin]%elem_of_cons; [set_solver|]. apply H2 in Hin. set_solver.
    + intros id. rewrite elem_of_cons, elem_of_difference, elem_of_singleton, <- H3.
      destruct (decide (id = key)) as [->|Hne]; [by split; [right|left; left]|]. naive_solver.
    + done.
    + lia.
Qed.

(** [Put] accepts the ids that are out, and those that the pool started above. *)
Lemma put_accepts pool out peak id :
  pool_ok pool out peak -> IDPool_Put id pool <> Panic <-> id ∈ out \/ 1 <= id <= init.
Proof.
  intros [H1 H2 H3 H4 H5]. specialize (H2 id). specialize (H3 id). unfold IDPool_Put.
  destruct (Z.ltb_spec id 1); cbn [orb].
  { split; [done|]. intros [?|?]; [|lia]. assert (init < id <= maxUsed pool); [apply H3; by left|lia]. }
  destruct (Z.ltb_spec (maxUsed pool) id); cbn [orb].
  { split; [done|]. intros [?|?]; [|lia]. assert (init < id <= maxUsed pool); [apply H3; by left|lia]. }
  case_bool_decide as Hu.
  - split; [done|]. intros [?|?]; [by destruct H2|]. assert (init < id <= maxUsed pool); [apply H3; by right|lia].
  - split; [|intros _; by case_match]. intros _. destruct (decide (id <= init)); [right; lia|].
    destruct (proj2 H3) as [?|?]; [lia|by left|done].
Qed.

Lemma put_ok pool out peak id out' pool' :
  pool_ok pool out peak -> out ≡ₚ id :: out' -> IDPool_Put id pool = Ret pool' -> pool_ok pool' out' peak.
Proof.
  intros [H1 H2 H3 H4 H5] Hp Hput. rewrite Hp in H1. apply NoDup_cons in H1 as [Hn H1].
  assert (forall x, x ∈ out <-> x = id \/ x ∈ out') as Hout by (intros x; by rewrite Hp, elem_of_cons).
  assert (init < id <= maxUsed pool) as Hid by (apply H3; left; apply Hout; by left).
  unfold IDPool_Put in Hput. repeat case_test; try done; zify_tests; simplify_eq; split; cbn.
  - done.
  - intros x Hx. apply H2, Hout. by right.
  - intros x. rewrite uint32_id by lia. specialize (H3 x). rewrite Hout in H3. split.
    + intros Hx. assert (x <> maxUsed pool); [|assert (init < x <= maxUsed pool); [apply H3; naive_solver|lia]].
      intros ->. destruct Hx as [Hx|Hx]; [done|]. by apply (H2 (maxUsed pool)); [apply Hout; left|].
    + intros Hx. destruct (proj2 H3) as [[->|?]|?]; [lia|lia|by left|by right].
  - rewrite uint32_id by lia. lia.
  - rewrite uint32_id by lia. lia.
  - done.
  - intros x Hx. specialize (H2 x). rewrite Hout in H2. set_unfold. naive_solver.
  - intros x. rewrite <- H3, Hout. set_solver.
  - lia.
  - lia.
Qed.

Lemma handed_ok pool out peak : init < 2 ^ 32 -> handed init pool out peak -> pool_ok pool out peak.
Proof.
  intros Hi H. induction H as [|pool out peak pick id pool' _ IH Hl Hp Hg|pool out peak id out' pool' _ IH Hp Hput].
  - split; cbn; [apply NoDup_nil_2|..].
    + intros id _. apply not_elem_of_empty.
    + intros id. split; [intros [?%elem_of_nil|?%not_elem_of_empty]; done|lia].
    + lia.
    + lia.
  - pose proof (get_ok pool out peak pick IH Hl Hp) as H. rewrite Hg in H. by destruct H.
  - by apply (put_ok pool out peak id).
Qed.
End Pool.

(** ** What the pool promises *)

(** C30: for a pool that starts at [init], and clients that put back only ids they got: the ids that are out are distinct, and among the first
    ids after [init], at most as many as ever were out at the same time, however [Get] picks among the recycled ones; a further
    id is distinct from all of them and in the new bound.  [Put] of an id that is out succeeds, and of any other id
    panics, except that it accepts the ids from 1 to [init], which were never given out. *)
Theorem IDPool_unique init pool out peak pick :
  0 <= init < 2 ^ 32 -> handed init pool out peak -> picks pick -> init + zlen out < 2 ^ 32 - 1 ->
  NoDup out /\ (forall id, id ∈ out -> init < id <= init + peak) /\
  ((IDPool_Get pick pool).1 ∉ out) /\ init < (IDPool_Get pick pool).1 <= init + Z.max peak (zlen out + 1) /\
  (forall id, IDPool_Put id pool <> Panic <-> id ∈ out \/ 1 <= id <= init).
Proof.
  intros [Hi Hi'] Hh Hp Hl. pose proof (handed_ok _ Hi _ _ _ Hi' Hh) as Hok. pose proof Hok as [H1 H2 H3 H4 H5].
  pose proof (get_ok _ Hi pool out peak pick Hok Hl Hp) as Hget. destruct (IDPool_Get pick pool) as [id pool'].
  destruct Hget as [Hn [G1 G2 G3 G4 G5]]. cbn. split_and!; [done| |done| | |].
  - intros x Hx. assert (init < x <= maxUsed pool) by (apply H3; by left). lia.
  - assert (init < id <= maxUsed pool') by (apply G3; left; by left). lia.
  - assert (init < id <= maxUsed pool') by (apply G3; left; by left). lia.
  - intros x. by apply (put_accepts _ Hi _ out peak).
Qed.

(** The first of the elements. *)
Definition pick_first (s : gset Z) : Z := default 0 (head (elements s)).

Lemma pick_first_picks : picks pick_first.
Proof.
  intros s Hs. unfold pick_first. destruct (elements s) as [|x l] eqn:E.
  - by apply elements_empty_iff, leibniz_equiv_iff in E.
  - apply elem_of_elements. rewrite E. by left.
Qed.

(** Three ids of a pool that starts at 5; the second is back. *)
Definition pool_three : IDPool := (IDPool_Get pick_first (IDPool_Get pick_first (IDPool_Get pick_first (NewIDPool 5)).2).2).2.

Lemma pool_three_handed : handed 5 pool_three [8; 7; 6] 3.
Proof.
  apply (handed_get 5 (IDPool_Get pick_first (IDPool_Get pick_first (NewIDPool 5)).2).2 [7; 6] 2 pick_first);
    [|done|exact pick_first_picks|by vm_compute].
  apply (handed_get 5 (IDPool_Get pick_first (NewIDPool 5)).2 [6] 1 pick_first);
    [|done|exact pick_first_picks|by vm_compute].
  apply (handed_get 5 (NewIDPool 5) [] 0 pick_first); [|done|exact pick_first_picks|by vm_compute].
  apply (handed_start 5).
Qed.

Definition pool_seven : IDPool := {| used := {[7]}; maxUsed := 8 |}.

Lemma pool_seven_handed : handed 5 pool_seven [8; 6] 3.
Proof.
  apply (handed_put 5 pool_three [8; 7; 6] 3 7 [8; 6]); [exact pool_three_handed|constructor|].
  vm_compute. reflexivity.
Qed.

Lemma IDPool_unique_witness :
  NoDup [8; 6] /\ (forall id, id ∈ [8; 6] -> 5 < id <= 8) /\
  ((IDPool_Get pick_first pool_seven).1 ∉ [8; 6]) /\ 5 < (IDPool_Get pick_first pool_seven).1 <= 8 /\
  (forall id, IDPool_Put id pool_seven <> Panic <-> id ∈ [8; 6] \/ 1 <= id <= 5).
Proof.
  apply (IDPool_unique 5 pool_seven [8; 6] 3 pick_first); [lia|exact pool_seven_handed|exact pick_first_picks|reflexivity].
Defined.
