(* ===== verification/TxPrepPool.v ===== *)
(** * Prepared transactions

    [go/vt/vttablet/tabletserver/tx_prep_pool.go]: the pool that keeps the connections of
    prepared transactions for the second phase of a two-phase commit.  The theorem follows
    the connections through any sequence of calls. *)

From S2P Require Import Prelude.

Section Pool.
(** [*StatefulConnection]. *)
Context {C : Type}.

(** ** The code *)

(** [errPrepCommitting] and [errPrepFailed]. *)
Inductive prep_state := errPrepCommitting | errPrepFailed.

(** The errors of [Put]. *)
Inductive put_error :=
| DuplicateDTID (dtid : list byte)
| ExceededLimit (capacity : Z).

(** [TxPreparedPool]. *)
Record TxPreparedPool := {
  conns : gmap (list byte) C;
  reserved : gmap (list byte) prep_state;
  pp_capacity : Z
}.

(** [NewTxPreparedPool]. *)
Definition NewTxPreparedPool (capacity : Z) : TxPreparedPool :=
  {| conns := ∅; reserved := ∅; pp_capacity := if capacity <? 0 then 0 else capacity |}.

(** [Put]. *)
Definition Prep_Put (c : C) (dtid : list byte) (pp : TxPreparedPool) : result put_error unit * TxPreparedPool :=
  match reserved pp !! dtid with
  | Some _ => (Err (DuplicateDTID dtid), pp)
  | None =>
      match conns pp !! dtid with
      | Some _ => (Err (DuplicateDTID dtid), pp)
      | None =>
          if pp_capacity pp <=? Z.of_nat (size (conns pp)) then (Err (ExceededLimit (pp_capacity pp)), pp)
          else (Ok tt, {| conns := <[dtid := c]> (conns pp); reserved := reserved pp; pp_capacity := pp_capacity pp |})
      end
  end.

(** [FetchForRollback]; a nil connection is [None]. *)
Definition FetchForRollback (dtid : list byte) (pp : TxPreparedPool) : option C * TxPreparedPool :=
  match reserved pp !! dtid with
  | Some _ => (None, {| conns := conns pp; reserved := delete dtid (reserved pp); pp_capacity := pp_capacity pp |})
  | None => (conns pp !! dtid, {| conns := delete dtid (conns pp); reserved := reserved pp; pp_capacity := pp_capacity pp |})
  end.

(** [FetchForCommit]. *)
Definition FetchForCommit (dtid : list byte) (pp : TxPreparedPool) : result prep_state (option C) * TxPreparedPool :=
  match reserved pp !! dtid with
  | Some err => (Err err, pp)
  | None =>
      match conns pp !! dtid with
      | Some c =>
          (Ok (Some c), {| conns := delete dtid (conns pp); reserved := <[dtid := errPrepCommitting]> (reserved pp);
                           pp_capacity := pp_capacity pp |})
      | None => (Ok None, pp)
      end
  end.

(** [SetFailed]. *)
Definition SetFailed (dtid : list byte) (pp : TxPreparedPool) : TxPreparedPool :=
  {| conns := conns pp; reserved := <[dtid := errPrepFailed]> (reserved pp); pp_capacity := pp_capacity pp |}.

(** [Forget]. *)
Definition Forget (dtid : list byte) (pp : TxPreparedPool) : TxPreparedPool :=
  {| conns := conns pp; reserved := delete dtid (reserved pp); pp_capacity := pp_capacity pp |}.

(** [FetchAll]; the connections come in the order in which ranging visits them. *)
Definition FetchAll (pp : TxPreparedPool) : list C * TxPreparedPool :=
  ((map_to_list (conns pp)).*2, {| conns := ∅; reserved := ∅; pp_capacity := pp_capacity pp |}).

(** ** Histories

    [owned pp ins outs]: the connections [ins] were put into the pool successfully and
    [outs] were fetched from it. *)
Inductive owned (capacity : Z) : TxPreparedPool -> list C -> list C -> Prop :=
| owned_start : owned capacity (NewTxPreparedPool capacity) [] []
| owned_put pp ins outs c dtid pp' :
    owned capacity pp ins outs -> Prep_Put c dtid pp = (Ok tt, pp') -> owned capacity pp' (c :: ins) outs
| owned_put_fails pp ins outs c dtid e pp' :
    owned capacity pp ins outs -> Prep_Put c dtid pp = (Err e, pp') -> owned capacity pp' ins outs
| owned_rollback pp ins outs dtid o pp' :
    owned capacity pp ins outs -> FetchForRollback dtid pp = (o, pp') -> owned capacity pp' ins (option_list o ++ outs)
| owned_commit pp ins outs dtid o pp' :
    owned capacity pp ins outs -> FetchForCommit dtid pp = (Ok o, pp') -> owned capacity pp' ins (option_list o ++ outs)
| owned_commit_fails pp ins outs dtid e pp' :
    owned capacity pp ins outs -> FetchForCommit dtid pp = (Err e, pp') -> owned capacity pp' ins outs
| owned_failed pp ins outs dtid : owned capacity pp ins outs -> owned capacity (SetFailed dtid pp) ins outs
| owned_forget pp ins outs dtid : owned capacity pp ins outs -> owned capacity (Forget dtid pp) ins outs
| owned_all pp ins outs cs pp' :
    owned capacity pp ins outs -> FetchAll pp = (cs, pp') -> owned capacity pp' ins (cs ++ outs).

(** The connections in the pool. *)
Definition stored (pp : TxPreparedPool) : list C := (map_to_list (conns pp)).*2.

Record prep_ok (pp : TxPreparedPool) (ins outs : list C) : Prop := {
  pok_owned : ins ≡ₚ outs ++ stored pp;
  pok_capacity : Z.of_nat (size (conns pp)) <= pp_capacity pp;
  pok_committing : forall d, reserved pp !! d = Some errPrepCommitting -> conns pp !! d = None
}.

Lemma stored_insert (m : gmap (list byte) C) d c : m !! d = None -> (map_to_list (<[d := c]> m)).*2 ≡ₚ c :: (map_to_list m).*2.
Proof. intros H. by rewrite map_to_list_insert. Qed.

Lemma stored_delete (m : gmap (list byte) C) d : (map_to_list m).*2 ≡ₚ option_list (m !! d) ++ (map_to_list (delete d m)).*2.
Proof.
  destruct (m !! d) as [c|] eqn:E; cbn [option_list app].
  - rewrite <- (insert_id m d c E) at 1. rewrite <- insert_delete_eq. apply stored_insert, lookup_delete_eq.
  - by rewrite delete_id.
Qed.

Lemma delete_size (m : gmap (list byte) C) d : (size (delete d m) <= size m)%nat.
Proof. destruct (m !! d) eqn:E; [rewrite map_size_delete_Some by (by eexists); lia|by rewrite delete_id]. Qed.

(** Taking what [dtid] has out of the pool. *)
Lemma take_ok pp ins outs d r cap :
  prep_ok pp ins outs -> (forall d', r !! d' = Some errPrepCommitting -> d' = d \/ reserved pp !! d' = Some errPrepCommitting) ->
  cap = pp_capacity pp ->
  prep_ok {| conns := delete d (conns pp); reserved := r; pp_capacity := cap |} ins (option_list (conns pp !! d) ++ outs).
Proof.
  intros [H1 H2 H3] Hr ->. split; unfold stored in *; cbn.
  - rewrite H1, (stored_delete (conns pp) d). by rewrite (Permutation_app_swap_app outs), app_assoc.
  - pose proof (delete_size (conns pp) d). lia.
  - intros d' [->|H]%Hr; [apply lookup_delete_eq|]. apply lookup_delete_None. right. by apply H3.
Qed.

(** A change of the reserved ids that commits no further id. *)
Lemma reserve_ok pp ins outs r :
  prep_ok pp ins outs -> (forall d, r !! d = Some errPrepCommitting -> reserved pp !! d = Some errPrepCommitting) ->
  prep_ok {| conns := conns pp; reserved := r; pp_capacity := pp_capacity pp |} ins outs.
Proof. intros [H1 H2 H3] Hr. split; try done. intros d Hd. cbn in *. by apply H3, Hr. Qed.

Lemma owned_ok cap pp ins outs : owned cap pp ins outs -> prep_ok pp ins outs.
Proof.
  induction 1 as [|pp ins outs c d pp' _ IH E|pp ins outs c d e pp' _ IH E|pp ins outs d o pp' _ IH E
    |pp ins outs d o pp' _ IH E|pp ins outs d e pp' _ IH E|pp ins outs d _ IH|pp ins outs d _ IH|pp ins outs cs pp' _ IH E].
  - split; cbn; [done|rewrite map_size_empty; case_test; zify_tests; lia|by intros d; rewrite lookup_empty].
  - unfold Prep_Put in E. destruct (reserved pp !! d) eqn:Er; [done|]. destruct (conns pp !! d) eqn:Ec; [done|].
    case_test; [done|]. zify_tests. simplify_eq. destruct IH as [H1 H2 H3]. split; unfold stored in *; cbn.
    + rewrite stored_insert by done. rewrite H1. apply Permutation_middle.
    + rewrite map_size_insert_None by done. lia.
    + intros d' Hd'. rewrite lookup_insert_ne by congruence. by apply H3.
  - unfold Prep_Put in E. repeat case_match; by simplify_eq.
  - unfold FetchForRollback in E. destruct (reserved pp !! d) eqn:Er; simplify_eq.
    + apply reserve_ok; [done|]. by intros d' [_ H]%lookup_delete_Some.
    + apply take_ok; [done|by right|done].
  - unfold FetchForCommit in E. destruct (reserved pp !! d) eqn:Er; [done|]. destruct (conns pp !! d) as [c|] eqn:Ec; simplify_eq; [|done].
    rewrite <- Ec. apply take_ok; [done| |done]. intros d' [[-> _]|[_ H]]%lookup_insert_Some; [by left|by right].
  - unfold FetchForCommit in E. repeat case_match; by simplify_eq.
  - apply reserve_ok; [done|]. by intros d' [[_ ?]|[_ H]]%lookup_insert_Some.
  - apply reserve_ok; [done|]. by intros d' [_ H]%lookup_delete_Some.
  - unfold FetchAll in E. simplify_eq. destruct IH as [H1 H2 H3]. split; unfold stored in *; cbn.
    + rewrite map_to_list_empty, app_nil_r. by rewrite H1, Permutation_app_comm.
    + rewrite map_size_empty. lia.
    + intros d. by rewrite lookup_empty.
Qed.

(** Calls that leave a transaction id to its committer. *)
Definition commits (dtid : list byte) (pp : TxPreparedPool) : Prop :=
  reserved pp !! dtid = Some errPrepCommitting /\ conns pp !! dtid = None.
End Pool.

Arguments TxPreparedPool C : clear implicits.

(** ** What the pool promises *)

(** C28: after any calls, the connections that were put into the pool are exactly those that
    were fetched from it together with those that are still in it, so that none is lost
    and none is handed out twice; the pool holds at most its capacity; and once an id is
    fetched for commit, its connection is gone from the pool, a second fetch reports the
    commit in progress, and the id cannot be prepared again. *)
Theorem TxPreparedPool_ownership {C} cap (pp : TxPreparedPool C) ins outs :
  owned cap pp ins outs ->
  ins ≡ₚ outs ++ stored pp /\ Z.of_nat (size (conns pp)) <= Z.max 0 cap /\
  forall dtid c pp', FetchForCommit dtid pp = (Ok (Some c), pp') ->
    conns pp !! dtid = Some c /\ commits dtid pp' /\ FetchForCommit dtid pp' = (Err errPrepCommitting, pp') /\
    forall c', Prep_Put c' dtid pp' = (Err (DuplicateDTID dtid), pp').
Proof.
  intros Ho. pose proof (owned_ok _ _ _ _ Ho) as [H1 H2 H3]. split_and!; [done| |].
  - assert (pp_capacity pp = Z.max 0 cap) as E; [|lia].
    clear H1 H2 H3. induction Ho as [|? ? ? ? ? ? _ IH E|? ? ? ? ? ? ? _ IH E|? ? ? ? ? ? _ IH E|? ? ? ? ? ? _ IH E|? ? ? ? ? ? _ IH E| | |? ? ? ? ? _ IH E];
      try done; [cbn; case_test; zify_tests; lia|..];
      unfold Prep_Put, FetchForRollback, FetchForCommit, FetchAll in E; repeat case_match; by simplify_eq.
  - intros d c pp' E. unfold FetchForCommit in E. destruct (reserved pp !! d) eqn:Er; [done|].
    destruct (conns pp !! d) as [c0|] eqn:Ec; [|done]. simplify_eq. split; [done|].
    unfold commits, FetchForCommit, Prep_Put. cbn. rewrite lookup_insert_eq, lookup_delete_eq. done.
Qed.

Definition prep_demo : TxPreparedPool Z := (Prep_Put 7 (bs "d1") (NewTxPreparedPool 2)).2.

Lemma TxPreparedPool_ownership_witness :
  [7] ≡ₚ [] ++ stored prep_demo /\ Z.of_nat (size (conns prep_demo)) <= 2 /\
  forall dtid c pp', FetchForCommit dtid prep_demo = (Ok (Some c), pp') ->
    conns prep_demo !! dtid = Some c /\ commits dtid pp' /\ FetchForCommit dtid pp' = (Err errPrepCommitting, pp') /\
    forall c', Prep_Put c' dtid pp' = (Err (DuplicateDTID dtid), pp').
Proof.
  apply (TxPreparedPool_ownership 2 prep_demo [7] []).
  apply (owned_put 2 (NewTxPreparedPool 2) [] [] 7 (bs "d1")); [apply owned_start|reflexivity].
Defined.
