(* ===== verification/Numbered.v ===== *)
(** * Numbered resources

    [go/pools/numbered.go]: resources tracked by number, each used by one client at a time,
    with a memory of the recently unregistered ones in an LRU cache.  [Unregister] gives up
    the mutex between its two halves, so they are two operations here. *)

From S2P Require Import Prelude GoStd LruCache Consolidator.

Section Numbered.
Context {V : Type}.

(** ** The code *)

(** [numberedWrapper] and [unregistered]. *)
Record numberedWrapper := { nw_val : V; nw_inUse : bool; nw_purpose : list byte }.
Record unregistered := { un_reason : list byte; timeUnregistered : Z }.

(** [Numbered]. *)
Record Numbered := {
  resources : gmap Z numberedWrapper;
  recentlyUnregistered : LRUCache unregistered
}.

(** The errors. *)
Inductive numbered_error :=
| AlreadyPresent
| EndedAt (time : Z) (reason : list byte)
| NotFound
| InUse (purpose : list byte).

(** [NewNumbered]. *)
Definition NewNumbered : Numbered := {| resources := ∅; recentlyUnregistered := NewLRUCache 1000 |}.

(** [Register]. *)
Definition Register (id : Z) (val : V) (nu : Numbered) : result numbered_error unit * Numbered :=
  match resources nu !! id with
  | Some _ => (Err AlreadyPresent, nu)
  | None =>
      (Ok tt, {| resources := <[id := {| nw_val := val; nw_inUse := false; nw_purpose := [] |}]> (resources nu);
                 recentlyUnregistered := recentlyUnregistered nu |})
  end.

(** [unregister]; the broadcast to the waiters for an empty pool is [WaitForEmpty]'s. *)
Definition unregister (id : Z) (nu : Numbered) : bool * Numbered :=
  (bool_decide (is_Some (resources nu !! id)),
   {| resources := delete id (resources nu); recentlyUnregistered := recentlyUnregistered nu |}).

(** What [Unregister] does after [unregister] found the resource. *)
Definition remember (id : Z) (reason : list byte) (now : Z) (nu : Numbered) : outcome Numbered :=
  '(_, lru) ← LRU_Set unit_cost (strconv.FormatInt id) {| un_reason := reason; timeUnregistered := now |} now
                (recentlyUnregistered nu);
  Ret {| resources := resources nu; recentlyUnregistered := lru |}.

(** [Unregister]. *)
Definition Unregister (id : Z) (reason : list byte) (now : Z) (nu : Numbered) : outcome Numbered :=
  let '(success, nu) := unregister id nu in
  if success : bool then remember id reason now nu else Ret nu.

(** [Get]. *)
Definition Numbered_Get (id : Z) (purpose : list byte) (now : Z) (nu : Numbered)
  : outcome (result numbered_error V * Numbered) :=
  match resources nu !! id with
  | None =>
      '(v, lru) ← LRU_Get (strconv.FormatInt id) now (recentlyUnregistered nu);
      let nu := {| resources := resources nu; recentlyUnregistered := lru |} in
      match v with
      | Some unreg => Ret (Err (EndedAt (timeUnregistered unreg) (un_reason unreg)), nu)
      | None => Ret (Err NotFound, nu)
      end
  | Some nw =>
      if nw_inUse nw then Ret (Err (InUse (nw_purpose nw)), nu)
      else
        Ret (Ok (nw_val nw),
             {| resources := <[id := {| nw_val := nw_val nw; nw_inUse := true; nw_purpose := purpose |}]> (resources nu);
                recentlyUnregistered := recentlyUnregistered nu |})
  end.

(** [Put]. *)
Definition Numbered_Put (id : Z) (nu : Numbered) : bool * Numbered :=
  match resources nu !! id with
  | Some nw =>
      (true, {| resources := <[id := {| nw_val := nw_val nw; nw_inUse := false; nw_purpose := [] |}]> (resources nu);
                recentlyUnregistered := recentlyUnregistered nu |})
  | None => (false, nu)
  end.

(** [GetAll]. *)
Definition GetAll (nu : Numbered) : list V := nw_val <$> (map_to_list (resources nu)).*2.

(** [GetByFilter]. *)
Definition selected (match_ : V -> bool) (nw : numberedWrapper) : bool := negb (nw_inUse nw) && match_ (nw_val nw).

Definition GetByFilter (purpose : list byte) (match_ : V -> bool) (nu : Numbered) : list V * Numbered :=
  (nw_val <$> filter (fun nw => selected match_ nw = true) (map_to_list (resources nu)).*2,
   {| resources := (fun nw => if selected match_ nw
                              then {| nw_val := nw_val nw; nw_inUse := true; nw_purpose := purpose |} else nw)
                   <$> resources nu;
      recentlyUnregistered := recentlyUnregistered nu |}).

(** [WaitForEmpty] returns, [Size] and [StatsJSON]. *)
Definition WaitForEmpty (nu : Numbered) : bool := bool_decide (resources nu = ∅).

Definition Numbered_Size (nu : Numbered) : Z := Z.of_nat (size (resources nu)).

Definition StatsJSON (nu : Numbered) : list byte :=
  bs "{" ++ [z2b 34] ++ bs "Size" ++ [z2b 34] ++ bs ": " ++ strconv.FormatInt (Numbered_Size nu) ++ bs "}".

(** ** Sequences of operations *)

Inductive numbered_op :=
| NRegister (id : Z) (val : V)
| Nunregister (id : Z)
| Nremember (id : Z) (reason : list byte) (now : Z)
| NGet (id : Z) (purpose : list byte) (now : Z)
| NPut (id : Z)
| NGetByFilter (purpose : list byte) (match_ : V -> bool).

(** An operation, and the values it hands out. *)
Definition numbered_step (op : numbered_op) (nu : Numbered) : outcome (list V * Numbered) :=
  match op with
  | NRegister id val => Ret ([], (Register id val nu).2)
  | Nunregister id => Ret ([], (unregister id nu).2)
  | Nremember id reason now => nu ← remember id reason now nu; Ret ([], nu)
  | NGet id purpose now =>
      '(r, nu) ← Numbered_Get id purpose now nu;
      Ret (match r with Ok v => [v] | Err _ => [] end, nu)
  | NPut id => Ret ([], (Numbered_Put id nu).2)
  | NGetByFilter purpose match_ => Ret (GetByFilter purpose match_ nu)
  end.

Fixpoint numbered_run (ops : list numbered_op) (nu : Numbered) : outcome (list V * Numbered) :=
  match ops with
  | [] => Ret ([], nu)
  | op :: ops =>
      '(vs, nu) ← numbered_step op nu;
      '(vs', nu) ← numbered_run ops nu;
      Ret (vs ++ vs', nu)
  end.

(** The operations that end the use of [id]. *)
Definition ends (id : Z) (op : numbered_op) : bool :=
  match op with Nunregister id' | NPut id' => bool_decide (id = id') | _ => false end.

(** What the cache of unregistered resources is like. *)
Definition remembers (nu : Numbered) : Prop :=
  exists cs, lru_inv unit_cost 1 (recentlyUnregistered nu) cs /\ l_capacity (recentlyUnregistered nu) = 1000.

Lemma remembers_new : remembers NewNumbered.
Proof. exists []. split; [|done]. apply lru_inv_new. unfold MaxInt64. lia. Qed.

(** What an operation stores or looks up in the cache. *)
Definition cache_use (op : numbered_op) : option (Z * option unregistered) :=
  match op with
  | Nremember id reason now => Some (id, Some {| un_reason := reason; timeUnregistered := now |})
  | NGet id _ _ => Some (id, None)
  | _ => None
  end.

(** Every operation runs; the pairs of the cache change by at most one use of it. *)
Lemma step_remembers op nu cs :
  lru_inv unit_cost 1 (recentlyUnregistered nu) cs -> l_capacity (recentlyUnregistered nu) = 1000 ->
  exists vs nu' cs', numbered_step op nu = Ret (vs, nu') /\ lru_inv unit_cost 1 (recentlyUnregistered nu') cs' /\
  l_capacity (recentlyUnregistered nu') = 1000 /\
  (cs'.*2 = cs.*2 \/
   exists id o v, cache_use op = Some (id, o) /\
     (o = Some v \/ assoc (strconv.FormatInt id) cs.*2 = Some v) /\
     cs'.*2 = keep unit_cost 1000 ((strconv.FormatInt id, v) :: remove (strconv.FormatInt id) cs.*2)).
Proof.
  intros Hi Hcap. destruct op as [id val|id|id reason now|id purpose now|id|purpose match_]; cbn [numbered_step cache_use].
  - do 2 eexists. exists cs. split; [done|]. unfold Register. case_match; by eauto.
  - do 2 eexists. exists cs. by eauto.
  - unfold remember.
    destruct (LRU_Set_spec unit_cost 1 unit_bounds (strconv.FormatInt id) {| un_reason := reason; timeUnregistered := now |}
      now _ _ Hi) as (lru & cs' & -> & Hi' & Hcap' & Hcs'). cbn [mbind outcome_bind]. do 2 eexists. exists cs'.
    split; [done|]. cbn [recentlyUnregistered]. split_and!; [done|congruence|]. right. do 3 eexists. split; [done|]. split; [by left|].
    by rewrite Hcs', Hcap.
  - unfold Numbered_Get. destruct (resources nu !! id) as [nw|].
    + destruct (nw_inUse nw); do 2 eexists; exists cs; (split; [done|]); by eauto.
    + destruct (LRU_Get_spec unit_cost 1 (strconv.FormatInt id) now _ _ Hi) as (lru & cs' & -> & Hi' & Hcap' & Hcs').
      cbn [mbind outcome_bind]. destruct (assoc (strconv.FormatInt id) cs.*2) as [v|] eqn:Ea; do 2 eexists; exists cs';
        (split; [done|]); cbn [recentlyUnregistered]; (split_and!; [done|congruence|]); [right|by left].
      do 3 eexists. split; [done|]. split; [by right|]. rewrite Hcs'. symmetry. apply (keep_all unit_cost 1 unit_bounds).
      rewrite <- Hcs'. destruct Hi' as (_ & Ht & _). lia.
  - do 2 eexists. exists cs. split; [done|]. unfold Numbered_Put. case_match; by eauto.
  - do 2 eexists. exists cs. by eauto.
Qed.

Lemma run_remembers ops nu :
  remembers nu -> exists vs nu', numbered_run ops nu = Ret (vs, nu') /\ remembers nu'.
Proof.
  revert nu. induction ops as [|op ops IH]; intros nu Hr; [by do 2 eexists|]. cbn [numbered_run].
  destruct Hr as (cs & Hi & Hcap). destruct (step_remembers op nu cs Hi Hcap) as (vs & nu1 & cs1 & -> & Hi1 & Hcap1 & _).
  destruct (IH nu1) as (vs' & nu2 & E & Hr2); [by exists cs1|]. cbn [mbind outcome_bind]. rewrite E.
  cbn [mbind outcome_bind]. by do 2 eexists.
Qed.

(** ** Exclusive use *)

(** Resource [id] is in use for [purpose]. *)
Definition in_use (id : Z) (v : V) (purpose : list byte) (nu : Numbered) : Prop :=
  resources nu !! id = Some {| nw_val := v; nw_inUse := true; nw_purpose := purpose |}.

Lemma step_in_use op id v p nu vs nu' :
  in_use id v p nu -> ends id op = false -> numbered_step op nu = Ret (vs, nu') -> in_use id v p nu'.
Proof.
  unfold in_use. intros Hu He Hs. destruct op as [id' val|id'|id' reason now|id' purpose now|id'|purpose match_];
    cbn [numbered_step ends] in *.
  - unfold Register in Hs. destruct (resources nu !! id') eqn:E; cbn in Hs; simplify_eq; [done|].
    cbn. rewrite lookup_insert_ne; [done|congruence].
  - apply bool_decide_eq_false in He. unfold unregister in Hs. cbn in Hs. simplify_eq. cbn. by rewrite lookup_delete_ne.
  - unfold remember in Hs. destruct (LRU_Set _ _ _ _ _) as [[b lru]|]; cbn in Hs; by simplify_eq.
  - unfold Numbered_Get in Hs. destruct (resources nu !! id') as [nw|] eqn:E.
    + destruct (nw_inUse nw) eqn:Eu; cbn in Hs; simplify_eq; [done|]. cbn. rewrite lookup_insert_ne; [done|].
      intros ->. rewrite E in Hu. by simplify_eq.
    + destruct (LRU_Get _ _ _) as [[[u|] lru]|]; cbn in Hs; by simplify_eq.
  - apply bool_decide_eq_false in He. unfold Numbered_Put in Hs. destruct (resources nu !! id') eqn:E; cbn in Hs; simplify_eq; [|done].
    cbn. by rewrite lookup_insert_ne.
  - unfold GetByFilter in Hs. simplify_eq. cbn. by rewrite lookup_fmap, Hu.
Qed.

(** A client registers the value [v] under [id] only. *)
Definition registers_at (id : Z) (v : V) (op : numbered_op) : Prop :=
  match op with NRegister id' v' => v' = v -> id' = id | _ => True end.

Definition only_at (id : Z) (v : V) (nu : Numbered) : Prop :=
  forall id' nw, resources nu !! id' = Some nw -> nw_val nw = v -> id' = id.

Lemma step_only_at op id v nu vs nu' :
  only_at id v nu -> registers_at id v op -> numbered_step op nu = Ret (vs, nu') -> only_at id v nu'.
Proof.
  unfold only_at. intros Ho Hr Hs id1 nw1.
  destruct op as [id' val|id'|id' reason now|id' purpose now|id'|purpose match_]; cbn [numbered_step registers_at] in *.
  - unfold Register in Hs. destruct (resources nu !! id') eqn:E; cbn in Hs; simplify_eq; [by apply Ho|].
    cbn. intros [[<- <-]|[_ H]]%lookup_insert_Some; [done|by apply Ho].
  - unfold unregister in Hs. cbn in Hs. simplify_eq. cbn. intros [_ H]%lookup_delete_Some. by apply Ho.
  - unfold remember in Hs. destruct (LRU_Set _ _ _ _ _) as [[b lru]|]; cbn in Hs; simplify_eq. by apply Ho.
  - unfold Numbered_Get in Hs. destruct (resources nu !! id') as [nw|] eqn:E.
    + destruct (nw_inUse nw) eqn:Eu; cbn in Hs; simplify_eq; [by apply Ho|]. cbn.
      intros [[<- <-]|[_ H]]%lookup_insert_Some; [exact (Ho id' nw E)|by apply Ho].
    + destruct (LRU_Get _ _ _) as [[[u|] lru]|]; cbn in Hs; simplify_eq; by apply Ho.
  - unfold Numbered_Put in Hs. destruct (resources nu !! id') as [nw|] eqn:E; cbn in Hs; simplify_eq; [|by apply Ho].
    cbn. intros [[<- <-]|[_ H]]%lookup_insert_Some; [exact (Ho id' nw E)|by apply Ho].
  - unfold GetByFilter in Hs. simplify_eq. cbn. rewrite lookup_fmap. intros (nw & H & ->)%fmap_Some.
    destruct (selected match_ nw); exact (Ho id1 nw H).
Qed.

(** What [GetByFilter] returns: the values of resources that were not in use, and they are in use now. *)
Lemma GetByFilter_returns purpose match_ nu v :
  v ∈ (GetByFilter purpose match_ nu).1 ->
  exists id nw, resources nu !! id = Some nw /\ nw_inUse nw = false /\ nw_val nw = v /\ in_use id v purpose (GetByFilter purpose match_ nu).2.
Proof.
  cbn [GetByFilter fst snd]. intros (nw & -> & [Hsel Hin]%list_elem_of_filter)%list_elem_of_fmap.
  apply list_elem_of_fmap in Hin as ([id nw'] & -> & Hin%elem_of_map_to_list). cbn [snd] in *. exists id, nw'.
  pose proof Hsel as Hsel'. apply andb_true_iff in Hsel' as [Hu%negb_true_iff _]. split_and!; [done..|].
  unfold in_use. cbn [resources]. rewrite lookup_fmap, Hin. cbn [fmap option_fmap option_map]. by rewrite Hsel.
Qed.

(** What an operation is called for. *)
Definition purpose_of (op : numbered_op) : list byte :=
  match op with NGet _ purpose _ | NGetByFilter purpose _ => purpose | _ => [] end.

(** What is handed out was not in use, and is in use afterwards. *)
Lemma step_hands_out op nu vs nu' v :
  numbered_step op nu = Ret (vs, nu') -> v ∈ vs ->
  exists id nw, resources nu !! id = Some nw /\ nw_inUse nw = false /\ nw_val nw = v /\ in_use id v (purpose_of op) nu'.
Proof.
  intros Hs Hv. destruct op as [id' val|id'|id' reason now|id' purpose now|id'|purpose match_]; cbn [numbered_step purpose_of] in *;
    [by simplify_eq; apply elem_of_nil in Hv..| | |by simplify_eq; apply elem_of_nil in Hv|].
  - destruct (remember id' reason now nu); cbn in Hs; simplify_eq. by apply elem_of_nil in Hv.
  - unfold Numbered_Get in Hs. destruct (resources nu !! id') as [nw|] eqn:E.
    + destruct (nw_inUse nw) eqn:Eu; cbn in Hs; simplify_eq; [by apply elem_of_nil in Hv|].
      apply list_elem_of_singleton in Hv as ->. exists id', nw. split_and!; [done..|]. apply lookup_insert_eq.
    + destruct (LRU_Get _ _ _) as [[[u|] lru]|]; cbn in Hs; simplify_eq; by apply elem_of_nil in Hv.
  - injection Hs as <- <-. by apply GetByFilter_returns.
Qed.

(** As long as its use has not ended, a resource stays in use, and is not handed out. *)
Lemma run_in_use ops id v p nu vs nu' :
  in_use id v p nu -> only_at id v nu -> forallb (fun op => negb (ends id op)) ops = true -> Forall (registers_at id v) ops ->
  numbered_run ops nu = Ret (vs, nu') -> in_use id v p nu' /\ only_at id v nu' /\ v ∉ vs.
Proof.
  revert nu vs. induction ops as [|op ops IH]; intros nu vs Hu Ho He Hf Hr; cbn in *.
  { simplify_eq. split_and!; [done..|apply not_elem_of_nil]. }
  apply andb_true_iff in He as [He1%negb_true_iff He2]. apply Forall_cons in Hf as [Hf1 Hf2].
  destruct (numbered_step op nu) as [[vs1 nu1]|] eqn:E1; cbn in Hr; [|done].
  destruct (numbered_run ops nu1) as [[vs2 nu2]|] eqn:E2; cbn in Hr; [|done]. simplify_eq.
  destruct (IH nu1 vs2) as (? & ? & ?); [by apply (step_in_use op id v p nu vs1)|by apply (step_only_at op id v nu vs1)|done..|].
  split_and!; [done..|]. rewrite not_elem_of_app. split; [|done]. intros Hv.
  destruct (step_hands_out op nu vs1 nu1 v E1 Hv) as (id' & nw & Hl & Hnw & Hval & _).
  pose proof (Ho id' nw Hl Hval) as ->. unfold in_use in Hu. rewrite Hu in Hl. injection Hl as <-. discriminate Hnw.
Qed.

Lemma run_only_at ops id v nu vs nu' :
  only_at id v nu -> Forall (registers_at id v) ops -> numbered_run ops nu = Ret (vs, nu') -> only_at id v nu'.
Proof.
  revert nu vs. induction ops as [|op ops IH]; intros nu vs Ho Hf Hr; cbn in *; [by simplify_eq|].
  apply Forall_cons in Hf as [Hf1 Hf2].
  destruct (numbered_step op nu) as [[vs1 nu1]|] eqn:E1; cbn in Hr; [|done].
  destruct (numbered_run ops nu1) as [[vs2 nu2]|] eqn:E2; cbn in Hr; [|done]. simplify_eq.
  apply (IH nu1 vs2); [by apply (step_only_at op id v nu vs1)|done..].
Qed.

(** ** The memory of the cache *)

Lemma assoc_take_mono {A} k v j (l : list (list byte * A)) : assoc k (take j l) = Some v -> assoc k (take (S j) l) = Some v.
Proof.
  revert l. induction j as [|j IH]; intros [|[a b] l]; try done. cbn [take assoc]. case_bool_decide; [done|]. apply IH.
Qed.

Lemma assoc_take_remove {A} k k' v j (l : list (list byte * A)) :
  k <> k' -> assoc k (take j l) = Some v -> assoc k (take j (remove k' l)) = Some v.
Proof.
  intros Hne. unfold remove. revert j. induction l as [|[a b] l IH]; intros [|j] Ha; try done.
  cbn [take assoc] in Ha. rewrite filter_cons. cbn [fst]. destruct (decide (a <> k')) as [Hk|Hk].
  - cbn [take assoc]. case_bool_decide; [done|]. by apply IH.
  - apply dec_stable in Hk as ->. rewrite bool_decide_eq_false_2 in Ha by done. by apply assoc_take_mono, IH.
Qed.

Lemma keep_unit {A} cap (l : list (list byte * A)) : 0 <= cap -> keep unit_cost cap l = take (Z.to_nat cap) l.
Proof.
  revert cap. induction l as [|kv l IH]; intros cap Hc; [by rewrite take_nil|]. cbn [keep]. unfold unit_cost at 1 3.
  destruct (Z.leb_spec 1 cap).
  - rewrite IH by lia. by replace (Z.to_nat cap) with (S (Z.to_nat (cap - 1))) by lia.
  - by replace (Z.to_nat cap) with 0%nat by lia.
Qed.

(** One further use for another key moves a pair back by at most one place. *)
Lemma use_moves {A} k k' (v v' : A) j l :
  k <> k' -> (S j <= 1000)%nat -> assoc k (take j l) = Some v ->
  assoc k (take (S j) (keep unit_cost 1000 ((k', v') :: remove k' l))) = Some v.
Proof.
  intros Hne Hj Ha. rewrite keep_unit by lia. rewrite take_take. replace (S j `min` _)%nat with (S j) by lia.
  cbn [take assoc]. rewrite bool_decide_eq_false_2 by done. by apply assoc_take_remove.
Qed.

(** Operations after which [id] is still the unregistered resource it was. *)
Definition op_avoids (id : Z) (op : numbered_op) : Prop :=
  match op with
  | NRegister id' _ => id' <> id
  | Nremember id' _ _ => is_int64 id' /\ id' <> id
  | NGet id' _ _ => is_int64 id'
  | _ => True
  end.

Lemma FormatInt_inj a b : is_int64 a -> is_int64 b -> strconv.FormatInt a = strconv.FormatInt b -> a = b.
Proof. intros Ha Hb E. apply strconv.ParseInt_FormatInt in Ha, Hb. congruence. Qed.

Lemma assoc_take_all {A} k (v : A) j l : assoc k (take j l) = Some v -> assoc k l = Some v.
Proof.
  revert l. induction j as [|j IH]; intros [|[a b] l]; try done. cbn [take assoc]. case_bool_decide; [done|]. apply IH.
Qed.

Lemma step_absent op id nu vs nu' :
  resources nu !! id = None -> op_avoids id op -> numbered_step op nu = Ret (vs, nu') -> resources nu' !! id = None.
Proof.
  intros Hn Ha Hs. destruct op as [id' val|id'|id' reason now|id' purpose now|id'|purpose match_]; cbn [numbered_step op_avoids] in *.
  - unfold Register in Hs. destruct (resources nu !! id'); cbn in Hs; simplify_eq; [done|]. cbn. by rewrite lookup_insert_ne.
  - unfold unregister in Hs. cbn in Hs. simplify_eq. cbn. apply lookup_delete_None. by right.
  - unfold remember in Hs. destruct (LRU_Set _ _ _ _ _) as [[b lru]|]; cbn in Hs; by simplify_eq.
  - unfold Numbered_Get in Hs. destruct (resources nu !! id') as [nw|] eqn:E.
    + destruct (nw_inUse nw); cbn in Hs; simplify_eq; [done|]. cbn. rewrite lookup_insert_ne; [done|congruence].
    + destruct (LRU_Get _ _ _) as [[[u|] lru]|]; cbn in Hs; by simplify_eq.
  - unfold Numbered_Put in Hs. destruct (resources nu !! id') eqn:E; cbn in Hs; simplify_eq; [|done].
    cbn. rewrite lookup_insert_ne; [done|congruence].
  - unfold GetByFilter in Hs. simplify_eq. cbn. by rewrite lookup_fmap, Hn.
Qed.

Lemma run_recalls ops id v nu cs j :
  is_int64 id -> lru_inv unit_cost 1 (recentlyUnregistered nu) cs -> l_capacity (recentlyUnregistered nu) = 1000 ->
  resources nu !! id = None -> assoc (strconv.FormatInt id) (take j cs.*2) = Some v ->
  Forall (op_avoids id) ops -> (j + length ops <= 1000)%nat ->
  exists vs nu' cs', numbered_run ops nu = Ret (vs, nu') /\ lru_inv unit_cost 1 (recentlyUnregistered nu') cs' /\
  resources nu' !! id = None /\ assoc (strconv.FormatInt id) cs'.*2 = Some v.
Proof.
  intros Hid. revert nu cs j. induction ops as [|op ops IH]; intros nu cs j Hi Hcap Hn Ha Hops Hj.
  { exists [], nu, cs. split_and!; [done..|]. by eapply assoc_take_all. }
  apply Forall_cons in Hops as [Hop Hops]. cbn [length] in Hj. cbn [numbered_run].
  destruct (step_remembers op nu cs Hi Hcap) as (vs & nu1 & cs1 & E & Hi1 & Hcap1 & Huse). rewrite E. cbn [mbind outcome_bind].
  assert (assoc (strconv.FormatInt id) (take (S j) cs1.*2) = Some v) as Ha1.
  { destruct Huse as [->|(id' & o & v' & Hc & Hv & ->)]; [by apply assoc_take_mono|].
    assert (is_int64 id' /\ (id' = id -> o = None)) as [Hid' Ho].
    { destruct op; cbn in Hc; simplify_eq; cbn in Hop; naive_solver. }
    destruct (decide (id' = id)) as [->|Hne].
    - destruct Hv as [Hv|Hv]; [rewrite Ho in Hv by done; done|]. pose proof (assoc_take_all _ _ _ _ Ha) as Ha'.
      rewrite keep_unit by lia. rewrite take_take. replace (S j `min` _)%nat with (S j) by lia.
      cbn [take assoc]. rewrite bool_decide_eq_true_2 by done. congruence.
    - apply use_moves; [|lia|done]. intros Heq. apply Hne. symmetry. by apply FormatInt_inj. }
  destruct (IH nu1 cs1 (S j) Hi1 Hcap1) as (vs2 & nu2 & cs2 & E2 & Hi2 & Hn2 & Ha2);
    [by apply (step_absent op id nu vs)|done|done|lia|].
  rewrite E2. cbn [mbind outcome_bind]. by exists (vs ++ vs2), nu2, cs2.
Qed.
End Numbered.

Arguments numberedWrapper V : clear implicits.
Arguments Numbered V : clear implicits.
Arguments numbered_op V : clear implicits.

(** ** What the pool promises *)

(** C29: no sequence of operations panics, and once [Get] or [GetByFilter] has handed out a resource, which was registered under one
    number, no operation that follows hands it out again, [Get] and [GetByFilter] included, until it is put back or
    unregistered; a further [Get] reports the purpose it is in use for, and [GetByFilter] does not return it. *)
Theorem Numbered_exclusive {V} pre op (ops : list (numbered_op V)) id v :
  Forall (registers_at id v) (pre ++ op :: ops) -> forallb (fun op => negb (ends id op)) ops = true ->
  exists vs0 nu0, numbered_run pre NewNumbered = Ret (vs0, nu0) /\
  exists vs1 nu1, numbered_step op nu0 = Ret (vs1, nu1) /\
  exists vs nu2, numbered_run ops nu1 = Ret (vs, nu2) /\
  (v ∈ vs1 -> (v ∉ vs) /\ in_use id v (purpose_of op) nu2 /\
   (forall p now, Numbered_Get id p now nu2 = Ret (Err (InUse (purpose_of op)), nu2)) /\
   (forall p match_, (v ∉ (GetByFilter p match_ nu2).1) /\ in_use id v (purpose_of op) (GetByFilter p match_ nu2).2)).
Proof.
  intros [Hf0 [Hf1 Hf2]%Forall_cons]%Forall_app He.
  destruct (run_remembers pre _ (@remembers_new V)) as (vs0 & nu0 & E0 & Hr0). exists vs0, nu0. split; [done|].
  destruct (run_remembers [op] nu0 Hr0) as (vs1' & nu1 & E1 & Hr1). cbn in E1.
  destruct (numbered_step op nu0) as [[vs1 nu1']|] eqn:Eg; cbn in E1; [|done]. simplify_eq.
  exists vs1, nu1. split; [done|]. destruct (run_remembers ops nu1 Hr1) as (vs & nu2 & E2 & _).
  exists vs, nu2. split; [done|]. intros Hv.
  assert (only_at id v nu0) as Ho0.
  { apply (run_only_at pre id v NewNumbered vs0); [|done..]. intros id' nw. cbn. by rewrite lookup_empty. }
  destruct (step_hands_out op nu0 vs1 nu1 v Eg Hv) as (id' & nw & Hl & _ & Hval & Hu). pose proof (Ho0 id' nw Hl Hval) as ->.
  destruct (run_in_use ops id v (purpose_of op) nu1 vs nu2) as (Hu2 & Ho2 & Hn);
    [done|by apply (step_only_at op id v nu0 vs1)|done..|].
  split_and!; [done|done| |].
  - intros p now. unfold Numbered_Get. by rewrite Hu2.
  - intros p match_. split; [|unfold in_use in *; cbn; by rewrite lookup_fmap, Hu2].
    intros (id2 & nw2 & Hl2 & Hnw & Hval2 & _)%GetByFilter_returns. pose proof (Ho2 id2 nw2 Hl2 Hval2) as ->.
    unfold in_use in Hu2. rewrite Hu2 in Hl2. injection Hl2 as <-. discriminate Hnw.
Qed.

(** A registered resource that is unregistered is remembered: as long as fewer than a
    thousand operations follow and it is not registered again, [Get] reports when and why
    it ended. *)
Theorem Numbered_recalls {V} pre id reason now (ops : list (numbered_op V)) p now' nu0 vs0 :
  is_int64 id -> numbered_run pre NewNumbered = Ret (vs0, nu0) -> is_Some (resources nu0 !! id) ->
  Forall (op_avoids id) ops -> (length ops < 1000)%nat ->
  exists nu1 vs nu2 nu3, Unregister id reason now nu0 = Ret nu1 /\ numbered_run ops nu1 = Ret (vs, nu2) /\
  Numbered_Get id p now' nu2 = Ret (Err (EndedAt now reason), nu3).
Proof.
  intros Hid Hpre Hin Hops Hlen. destruct (run_remembers pre _ (@remembers_new V)) as (vs & nu & E & (cs & Hi & Hcap)).
  rewrite Hpre in E. injection E as <- <-. unfold Unregister, unregister. rewrite bool_decide_eq_true_2 by done.
  set (u := {| un_reason := reason; timeUnregistered := now |}).
  destruct (LRU_Set_spec unit_cost 1 unit_bounds (strconv.FormatInt id) u now _ _ Hi) as (lru & cs' & E & Hi' & Hcap' & Hcs').
  unfold remember. cbn [recentlyUnregistered]. fold u. rewrite E. cbn [mbind outcome_bind resources].
  set (nu1 := {| resources := delete id (resources nu0); recentlyUnregistered := lru |}).
  destruct (run_recalls ops id u nu1 cs' 1) as (vs & nu2 & cs2 & E2 & Hi2 & Hn2 & Ha2);
    [done|done|cbn; congruence|apply lookup_delete_eq| |done|lia|].
  { rewrite Hcs', Hcap, keep_unit by lia. rewrite take_take.
    replace (1 `min` _)%nat with 1%nat by lia. cbn [take assoc]. by rewrite bool_decide_eq_true_2. }
  destruct (LRU_Get_spec unit_cost 1 (strconv.FormatInt id) now' _ _ Hi2) as (lru3 & cs3 & E3 & _).
  do 4 eexists. split; [done|]. split; [done|]. unfold Numbered_Get. rewrite Hn2, E3, Ha2. cbn. done.
Qed.

Definition some_ops : list (numbered_op Z) := [NPut 6; NGetByFilter (bs "kill") (fun _ => true); NRegister 5 50; NGet 5 (bs "commit") 2].

(** The filter hands out both resources; then one of them is put back and handed out again, the other is not. *)
Lemma Numbered_exclusive_witness :
  exists nu0 vs1 nu1 vs nu2, numbered_run [NRegister 5 50; NRegister 6 60] NewNumbered = Ret ([], nu0) /\
  numbered_step (NGetByFilter (bs "begin") (fun _ => true)) nu0 = Ret (vs1, nu1) /\ 50 ∈ vs1 /\
  numbered_run some_ops nu1 = Ret (vs, nu2) /\ (50 ∉ vs) /\ 60 ∈ vs /\ in_use 5 50 (bs "begin") nu2.
Proof.
  destruct (Numbered_exclusive [NRegister 5 50; NRegister 6 60] (NGetByFilter (bs "begin") (fun _ => true)) some_ops 5 50)
    as (vs0 & nu0 & E0 & vs1 & nu1 & E1 & vs & nu2 & E2 & H); [repeat constructor; cbn; lia|reflexivity|].
  vm_compute in E0. injection E0 as <- <-. vm_compute in E1. injection E1 as <- <-. vm_compute in E2. injection E2 as <- <-.
  destruct H as (Hn & Hu & _); [set_solver|]. do 5 eexists. split; [vm_compute; reflexivity|].
  split; [vm_compute; reflexivity|]. split; [set_solver|]. split; [vm_compute; reflexivity|]. split; [exact Hn|]. split; [set_solver|exact Hu].
Defined.

Definition registered5 : Numbered bool := (Register 5 true NewNumbered).2.

Lemma Numbered_recalls_witness :
  exists nu1 vs nu2 nu3, Unregister 5 (bs "killed") 7 registered5 = Ret nu1 /\
  numbered_run [NRegister 6 false; NGet 6 (bs "begin") 8; Nunregister 6; Nremember 6 (bs "closed") 9] nu1 = Ret (vs, nu2) /\
  Numbered_Get 5 (bs "commit") 10 nu2 = Ret (Err (EndedAt 7 (bs "killed")), nu3).
Proof.
  apply (Numbered_recalls [NRegister 5 true] 5 (bs "killed") 7
    [NRegister 6 false; NGet 6 (bs "begin") 8; Nunregister 6; Nremember 6 (bs "closed") 9] (bs "commit") 10 registered5 []).
  - unfold_ints. lia.
  - reflexivity.
  - by eexists.
  - unfold op_avoids. unfold_ints. rewrite !Forall_cons, Forall_nil. lia.
  - cbn. lia.
Defined.
