(* ===== verification/Gateway.v ===== *)
(** * Picking a tablet

    [go/vt/vtgate/tabletgateway_lb.go] and the shuffle of
    [go/vt/vtgate/tabletgateway.go]: the gateway filters the healthy tablets by the GTID a
    read has to see and then balances the load among them.  The random numbers and
    [slices.SortFunc], which is not part of the program, are parameters. *)

From Corelib Require Import Floats.SpecFloat.
From S2P Require Import Prelude Intervals GoStd GtidTypes Gtid56 Position LastSeen.

(** ** The data *)

(** [query.MysqlThreadsStats] and [query.RealtimeStats], the fields that are read. *)
Record MysqlThreadsStats := { Connected : Z; Running : Z }.
Record RealtimeStats := { Qps : spec_float; MysqlThreadStats : option MysqlThreadsStats; TabletThreadsStats : Z }.

(** [topodata.TabletType]; [BATCH] is another name of [RDONLY]. *)
Inductive TabletType := UNKNOWN | PRIMARY | REPLICA | RDONLY | SPARE | EXPERIMENTAL | BACKUP | RESTORE | DRAINED.

#[export] Instance TabletType_eq_dec : EqDecision TabletType.
Proof. solve_decision. Defined.

(** [discovery.TabletHealth]: the alias and the type of the tablet, whether there is a connection to it, the
    cell of its target, its statistics, a pointer, and its position. *)
Record TabletHealth := {
  AliasCell : list byte;
  Uid : Z;
  Type_ : TabletType;
  Conn : bool;
  TargetCell : list byte;
  Stats : option RealtimeStats;
  th_Position : Position
}.

(** [ExecuteOptions_LoadBalancePolicy]. *)
Inductive LoadBalancePolicy :=
| RANDOM
| LEAST_GLOBAL_QPS
| LEAST_QPS
| LEAST_RT
| LEAST_BEHIND_PRIMARY
| LEAST_MYSQL_CONNECTED_CONNECTIONS
| LEAST_MYSQL_RUNNING_CONNECTIONS
| LEAST_TABLET_INUSE_CONNECTIONS.

(** [ExecuteOptions], the fields that are used; a nil pointer is [None]. *)
Record ExecuteOptions := {
  ReadAfterWriteGtid : list byte;
  LoadBalance : LoadBalancePolicy;
  CanLoadBalanceBetweenReplicAndRdonly : bool;
  TabletInfoToDisplay : option (list byte * Z * TabletType)
}.

(** [options.ReadAfterWriteGtid = ""]. *)
Definition clear_gtid (o : ExecuteOptions) : ExecuteOptions :=
  {| ReadAfterWriteGtid := []; LoadBalance := LoadBalance o;
     CanLoadBalanceBetweenReplicAndRdonly := CanLoadBalanceBetweenReplicAndRdonly o; TabletInfoToDisplay := TabletInfoToDisplay o |}.

(** [TabletCacheStatus], the fields that are read. *)
Record TabletCacheStatus := { QPS : spec_float; AvgLatency : spec_float }.

(** ** The shuffle *)

Section Shuffle.
Context (cell : list byte).

(** [(tablets[offset].Tablet.Alias.Cell == cell)]. *)
Definition same_cell (t : TabletHealth) : bool := bool_decide (AliasCell t = cell).

(** The loop of [nextTablet]; [fuel] is [length - offset]. *)
Fixpoint next_loop (fuel : nat) (tablets : list TabletHealth) (offset : Z) (sameCell : bool) : outcome Z :=
  match fuel with
  | O => Ret (-1)
  | S fuel =>
      t ← index tablets offset;
      if Bool.eqb (same_cell t) sameCell then Ret offset else next_loop fuel tablets (offset + 1) sameCell
  end.

(** [nextTablet]. *)
Definition nextTablet (tablets : list TabletHealth) (offset length : Z) (sameCell : bool) : outcome Z :=
  next_loop (Z.to_nat (length - offset)) tablets offset sameCell.

(** [tablets[i], tablets[j] = tablets[j], tablets[i]]. *)
Definition swap_tablets (tablets : list TabletHealth) (i j : Z) : outcome (list TabletHealth) :=
  x ← index tablets i;
  y ← index tablets j;
  tablets ← store tablets i y;
  store tablets j x.

(** The first loop of [shuffleTablets]: the tablets and [sameCellMax].  It would panic for want
    of [fuel]; [partition_ok] shows that it does not. *)
Fixpoint partition_loop (fuel : nat) (tablets : list TabletHealth) (sameCell diffCell : Z)
  : outcome (list TabletHealth * Z) :=
  match fuel with
  | O => Panic
  | S fuel =>
      let length := zlen tablets in
      let sameCellMax := diffCell - 1 in
      sameCell ← nextTablet tablets sameCell length true;
      diffCell ← nextTablet tablets diffCell length false;
      if (sameCell <? 0) || (diffCell <? 0) then Ret (tablets, sameCellMax)
      else if sameCell <? diffCell then partition_loop fuel tablets (diffCell + 1) diffCell
      else
        tablets ← swap_tablets tablets sameCell diffCell;
        partition_loop fuel tablets (sameCell + 1) (diffCell + 1)
  end.

(** The other two loops: [n] rounds for [i], [i - 1], ..., each with the element [rnd i]. *)
Fixpoint shuffle_loop (n : nat) (rnd : Z -> Z) (i : Z) (tablets : list TabletHealth) : outcome (list TabletHealth) :=
  match n with
  | O => Ret tablets
  | S n =>
      tablets ← swap_tablets tablets i (rnd i);
      shuffle_loop n rnd (i - 1) tablets
  end.

(** [shuffleTablets]; [intn k i n] is what [rand.Intn(n)] gives in round [i] of loop [k]. *)
Definition shuffleTablets (intn : bool -> Z -> Z -> Z) (tablets : list TabletHealth) : outcome (list TabletHealth) :=
  '(tablets, sameCellMax) ← partition_loop (S (length tablets)) tablets 0 0;
  tablets ← shuffle_loop (Z.to_nat sameCellMax) (fun i => intn true i (i + 1)) sameCellMax tablets;
  let diffCellMin := sameCellMax + 1 in
  shuffle_loop (Z.to_nat (zlen tablets - 1 - diffCellMin))
    (fun i => intn false i (i - sameCellMax) + diffCellMin) (zlen tablets - 1) tablets.

(** *** What the shuffle does *)

Lemma index_Some {A} (l : list A) i x : 0 <= i -> l !! Z.to_nat i = Some x -> index l i = Ret x.
Proof.
  intros Hi Hx. unfold index. pose proof (lookup_lt_Some _ _ _ Hx) as Hlt. rewrite Hx.
  destruct (Z.leb_spec 0 i); [|lia]. destruct (Z.ltb_spec i (zlen l)) as [_|H']; [done|]. unfold zlen in H'. lia.
Qed.

Lemma store_Some {A} (l : list A) i v : 0 <= i < zlen l -> store l i v = Ret (<[Z.to_nat i := v]> l).
Proof. intros Hi. unfold store. destruct (Z.leb_spec 0 i); [|lia]. by destruct (Z.ltb_spec i (zlen l)); [|lia]. Qed.

(** A swap exchanges two elements. *)
Lemma swap_ok l i j x y :
  0 <= i -> 0 <= j -> l !! Z.to_nat i = Some x -> l !! Z.to_nat j = Some y ->
  swap_tablets l i j = Ret (<[Z.to_nat j := x]> (<[Z.to_nat i := y]> l)) /\
  <[Z.to_nat j := x]> (<[Z.to_nat i := y]> l) ≡ₚ l.
Proof.
  intros Hi Hj Hx Hy. split.
  - pose proof (lookup_lt_Some _ _ _ Hx). pose proof (lookup_lt_Some _ _ _ Hy).
    unfold swap_tablets. rewrite (index_Some l i x), (index_Some l j y) by done. cbn [mbind outcome_bind].
    rewrite store_Some by (unfold zlen; lia). cbn [mbind outcome_bind].
    apply store_Some. unfold zlen. rewrite length_insert. lia.
  - by apply Permutation_insert_swap.
Qed.

(** The tablets at [d], ..., [e - 1] are in the cell, or none of them is. *)
Definition region (l : list TabletHealth) (d e : Z) (b : bool) : Prop :=
  forall k t, d <= k < e -> l !! Z.to_nat k = Some t -> same_cell t = b.

Lemma next_loop_spec l b fuel offset :
  0 <= offset -> Z.of_nat fuel = zlen l - offset ->
  (next_loop fuel l offset b = Ret (-1) /\ region l offset (zlen l) (negb b)) \/
  exists r t, next_loop fuel l offset b = Ret r /\ offset <= r < zlen l /\ l !! Z.to_nat r = Some t /\
    same_cell t = b /\ region l offset r (negb b).
Proof.
  revert offset. induction fuel as [|fuel IH]; intros offset Ho Hf; cbn [next_loop].
  - left. split; [done|]. intros k t Hk. lia.
  - destruct (lookup_lt_is_Some_2 l (Z.to_nat offset)) as [t Ht]; [unfold zlen in Hf; lia|].
    rewrite (index_Some l offset t) by done. cbn [mbind outcome_bind]. destruct (Bool.eqb (same_cell t) b) eqn:E.
    + right. exists offset, t. apply eqb_prop in E. split_and!; [done|lia|lia|done|done|]. intros k t' Hk. lia.
    + assert (same_cell t = negb b) as Et by (by destruct (same_cell t), b).
      assert (forall e, region l (offset + 1) e (negb b) -> region l offset e (negb b)) as Hstep.
      { intros e Hr k t' Hk Ht'. destruct (decide (k = offset)) as [->|Hne]; [by simplify_eq|]. apply (Hr k); [lia|done]. }
      destruct (IH (offset + 1)) as [[E' Hr]|(r & t' & E' & Hr & Ht' & Eb & Hreg)]; [lia|lia|left|right].
      * split; [done|by apply Hstep].
      * exists r, t'. split_and!; [done|lia|lia|done|done|by apply Hstep].
Qed.

Lemma nextTablet_spec l b offset :
  0 <= offset <= zlen l ->
  (nextTablet l offset (zlen l) b = Ret (-1) /\ region l offset (zlen l) (negb b)) \/
  exists r t, nextTablet l offset (zlen l) b = Ret r /\ offset <= r < zlen l /\ l !! Z.to_nat r = Some t /\
    same_cell t = b /\ region l offset r (negb b).
Proof. intros Ho. apply next_loop_spec; lia. Qed.

(** What a swap leaves at each place. *)
Lemma lookup_swap {A} (l : list A) i j x y k :
  0 <= i -> 0 <= j -> 0 <= k -> l !! Z.to_nat i = Some x -> l !! Z.to_nat j = Some y ->
  <[Z.to_nat j := x]> (<[Z.to_nat i := y]> l) !! Z.to_nat k =
  if decide (k = j) then Some x else if decide (k = i) then Some y else l !! Z.to_nat k.
Proof.
  intros Hi Hj Hk Hx Hy. apply lookup_lt_Some in Hx as Hxl. apply lookup_lt_Some in Hy as Hyl.
  destruct (decide (k = j)) as [->|Hne]; [rewrite list_lookup_insert_eq; [done|rewrite length_insert; lia]|].
  rewrite list_lookup_insert_ne by lia.
  destruct (decide (k = i)) as [->|Hne']; [by rewrite list_lookup_insert_eq|by rewrite list_lookup_insert_ne by lia].
Qed.

(** The tablets of the cell come first, up to [m]. *)
Definition cell_first (l : list TabletHealth) (m : Z) : Prop :=
  -1 <= m < zlen l /\ region l 0 (m + 1) true /\ (region l (m + 1) (zlen l) false \/ region l 0 (zlen l) true).

Lemma zlen_perm {A} (l l' : list A) : l ≡ₚ l' -> zlen l = zlen l'.
Proof. intros H. unfold zlen. by rewrite H. Qed.

Lemma partition_ok fuel l s d :
  0 <= d <= s -> s <= zlen l -> zlen l - s < Z.of_nat fuel -> (d < zlen l \/ l = []) ->
  region l 0 d true -> region l d s false ->
  exists l' m, partition_loop fuel l s d = Ret (l', m) /\ l' ≡ₚ l /\ (cell_first l' m \/ l' = [] /\ m = -1).
Proof.
  revert l s d. induction fuel as [|fuel IH]; intros l s d Hd Hs Hf Hne Hsame Hdiff; [lia|]. cbn [partition_loop].
  destruct (nextTablet_spec l true s) as [[-> Hno]|(s1 & ts & -> & Hs1 & Hts & Ets & Hno)]; [lia| |]; cbn [mbind outcome_bind].
  { destruct (nextTablet_spec l false d) as [[-> _]|(d1 & td & -> & _)]; [lia| |]; cbn [mbind outcome_bind Z.ltb orb];
      exists l, (d - 1); (split; [done|]); (split; [done|]); destruct Hne as [Hne| ->];
      [left|right; split; [done|]; change (zlen []) with 0 in Hs; lia|left|right; split; [done|]; change (zlen []) with 0 in Hs; lia];
      (split; [lia|]); replace (d - 1 + 1) with d by lia; (split; [done|left]); intros k t Hk Ht;
      (destruct (Z_lt_le_dec k s); [apply (Hdiff k)|apply (Hno k)]); (lia || done). }
  destruct (nextTablet_spec l false d) as [[-> Hnd]|(d1 & td & -> & Hd1 & Htd & Etd & Hnd)]; [lia| |]; cbn [mbind outcome_bind].
  { replace (_ || _) with true by (destruct (s1 <? 0); done). exists l, (d - 1). split; [done|]. split; [done|]. left. split; [lia|].
    replace (d - 1 + 1) with d by lia. split; [done|right]. intros k t Hk Ht.
    destruct (Z_lt_le_dec k d); [apply (Hsame k)|apply (Hnd k)]; (lia || done). }
  assert (s1 <> d1) by congruence. destruct (Z.ltb_spec s1 0); [lia|]. destruct (Z.ltb_spec d1 0); [lia|]. cbn [orb].
  assert (region l 0 d1 true) as Hsame1.
  { intros k t Hk Ht. destruct (Z_lt_le_dec k d); [apply (Hsame k)|apply (Hnd k)]; (lia || done). }
  destruct (Z.ltb_spec s1 d1).
  - apply IH; [lia|lia|lia|left; lia|done|]. intros k t Hk Ht. assert (k = d1) as -> by lia. congruence.
  - destruct (swap_ok l s1 d1 ts td) as [-> Hp]; [lia|lia|done|done|]. cbn [mbind outcome_bind].
    set (l1 := <[Z.to_nat d1 := ts]> (<[Z.to_nat s1 := td]> l)) in *.
    assert (zlen l1 = zlen l) as El by (by apply zlen_perm).
    destruct (IH l1 (s1 + 1) (d1 + 1)) as (l' & m & E & Hp' & Hc); [lia|lia|lia|left; lia| | |].
    + intros k t Hk. unfold l1. rewrite lookup_swap by (done || lia).
      destruct (decide (k = d1)); [by intros [= <-]|]. destruct (decide (k = s1)); [lia|]. apply Hsame1. lia.
    + intros k t Hk. unfold l1. rewrite lookup_swap by (done || lia). destruct (decide (k = d1)); [lia|].
      destruct (decide (k = s1)); [by intros [= <-]|]. intros Ht. destruct (Z_lt_le_dec k s); [apply (Hdiff k); (lia || done)|].
      apply (Hno k); (lia || done).
    + exists l', m. split; [done|]. split; [by rewrite Hp'|done].
Qed.

(** Both places on the same side of [m]. *)
Definition one_side (l : list TabletHealth) (m i j : Z) : Prop :=
  (0 <= i <= m /\ 0 <= j <= m) \/ (m < i < zlen l /\ m < j < zlen l).

Lemma swap_keeps l m i j :
  cell_first l m -> one_side l m i j ->
  exists l', swap_tablets l i j = Ret l' /\ l' ≡ₚ l /\ cell_first l' m.
Proof.
  intros (Hm & Hsame & Hrest) Hside.
  assert (0 <= i < zlen l /\ 0 <= j < zlen l) as [Hi Hj] by (unfold one_side in Hside; lia).
  destruct (lookup_lt_is_Some_2 l (Z.to_nat i)) as [x Hx]; [unfold zlen in Hi; lia|].
  destruct (lookup_lt_is_Some_2 l (Z.to_nat j)) as [y Hy]; [unfold zlen in Hj; lia|].
  destruct (swap_ok l i j x y) as [E Hp]; [lia|lia|done|done|]. eexists. split; [done|]. split; [done|].
  assert (forall d e b, region l d e b -> (forall k, k = i \/ k = j -> d <= k < e) \/ (forall k, k = i \/ k = j -> ~ d <= k < e) -> 0 <= d ->
    region (<[Z.to_nat j := x]> (<[Z.to_nat i := y]> l)) d e b) as Hreg.
  { intros d e b Hr Hin Hd k t Hk. rewrite lookup_swap by (done || lia). destruct (decide (k = j)) as [->|Hkj].
    - intros [= <-]. destruct Hin as [Hin|Hin]; [apply (Hr i); auto|]. by destruct (Hin j); auto.
    - destruct (decide (k = i)) as [->|Hki]; [|by apply Hr]. intros [= <-].
      destruct Hin as [Hin|Hin]; [apply (Hr j); auto|]. by destruct (Hin i); auto. }
  unfold cell_first. rewrite (zlen_perm _ _ Hp). split; [done|]. unfold one_side in Hside. split.
  - apply Hreg; [done| |lia]. destruct Hside; [left|right]; intros k [->| ->]; lia.
  - destruct Hrest as [Hr|Hr]; [left|right]; (apply Hreg; [done| |lia]).
    + destruct Hside; [right|left]; intros k [->| ->]; lia.
    + left. intros k [->| ->]; lia.
Qed.

Lemma shuffle_loop_keeps n rnd i l m :
  cell_first l m -> (forall r, i - Z.of_nat n < r <= i -> one_side l m r (rnd r)) ->
  exists l', shuffle_loop n rnd i l = Ret l' /\ l' ≡ₚ l /\ cell_first l' m.
Proof.
  revert i l. induction n as [|n IH]; intros i l Hc Hr; [by exists l|]. cbn [shuffle_loop].
  destruct (swap_keeps l m i (rnd i) Hc) as (l1 & -> & Hp & Hc1); [apply Hr; lia|]. cbn [mbind outcome_bind].
  destruct (IH (i - 1) l1 Hc1) as (l2 & E2 & Hp2 & Hc2).
  - intros r Hr'. unfold one_side. rewrite (zlen_perm _ _ Hp). apply Hr. lia.
  - exists l2. split; [done|]. split; [by rewrite Hp2|done].
Qed.

(** Nothing outside the cell comes before a tablet of the cell. *)
Definition local_first (l : list TabletHealth) : Prop :=
  forall i j t u, (i < j)%nat -> l !! i = Some t -> l !! j = Some u -> same_cell u = true -> same_cell t = true.

Lemma cell_first_local l m : cell_first l m -> local_first l.
Proof.
  intros (Hm & Hsame & Hrest) i j t u Hij Ht Hu Hc. apply lookup_lt_Some in Ht as Hl. apply lookup_lt_Some in Hu as Hl'.
  destruct Hrest as [Hr|Hr].
  - apply (Hsame (Z.of_nat i)); [|by rewrite Nat2Z.id]. destruct (Z_lt_le_dec (Z.of_nat i) (m + 1)); [lia|].
    assert (same_cell u = false); [|congruence]. apply (Hr (Z.of_nat j)); [unfold zlen; lia|by rewrite Nat2Z.id].
  - apply (Hr (Z.of_nat i)); [unfold zlen; lia|by rewrite Nat2Z.id].
Qed.

Lemma shuffleTablets_ok intn l :
  (forall b i n, 0 < n -> 0 <= intn b i n < n) ->
  exists l', shuffleTablets intn l = Ret l' /\ l' ≡ₚ l /\ local_first l'.
Proof.
  intros Hrnd. unfold shuffleTablets.
  destruct (partition_ok (S (length l)) l 0 0) as (l1 & m & -> & Hp & Hc);
    [lia|apply zlen_nonneg|unfold zlen; lia|destruct l; [by right|left; rewrite zlen_cons; pose proof (zlen_nonneg l); lia]
     |intros k t Hk; lia|intros k t Hk; lia|]. cbn [mbind outcome_bind].
  destruct Hc as [Hc|[-> ->]]; [|exists []; split; [done|]; split; [done|]; by intros i j t u _ Ht].
  pose proof Hc as (Hm & _ & _).
  destruct (shuffle_loop_keeps (Z.to_nat m) (fun i => intn true i (i + 1)) m l1 m Hc) as (l2 & -> & Hp2 & Hc2).
  { intros r Hr. left. pose proof (Hrnd true r (r + 1)). lia. }
  cbn [mbind outcome_bind]. pose proof (zlen_perm _ _ Hp2) as El.
  destruct (shuffle_loop_keeps (Z.to_nat (zlen l2 - 1 - (m + 1))) (fun i => intn false i (i - m) + (m + 1)) (zlen l2 - 1) l2 m Hc2)
    as (l3 & E3 & Hp3 & Hc3).
  { intros r Hr. right. pose proof (Hrnd false r (r - m)). lia. }
  exists l3. split; [done|]. split; [by rewrite Hp3, Hp2|by apply (cell_first_local l3 m)].
Qed.
End Shuffle.

(** ** Load balancing *)

Section Balance.
(** [slices.SortFunc] with a comparison that may panic, the random numbers, the fields
    [localCell] and [tabletStatusMap] of the gateway, and its [lastSeenGtid]. *)
Context (SortFunc : (TabletHealth -> TabletHealth -> outcome bool) -> list TabletHealth -> outcome (list TabletHealth)).
Context (intn : bool -> Z -> Z -> Z) (localCell : list byte) (statsMap : gmap (list byte) TabletCacheStatus).
Context (lastSeenGtid : LastSeenGtid).

(** The comparison by cell that all balancers share. *)
Definition by_cell (within : outcome bool) (a b : TabletHealth) : outcome bool :=
  if bool_decide (TargetCell a = TargetCell b) then within
  else if bool_decide (TargetCell a = localCell) then Ret true
  else if bool_decide (TargetCell b = localCell) then Ret false
  else Ret true.

(** A field of a pointer that may be nil. *)
Definition field {A B} (p : option A) (f : A -> B) : outcome B := match p with Some a => Ret (f a) | None => Panic end.

(** The comparison functions of the balancers. *)
Definition lessTabletInUse (a b : TabletHealth) : outcome bool :=
  by_cell (x ← field (Stats a) TabletThreadsStats; y ← field (Stats b) TabletThreadsStats; Ret (x <=? y)) a b.

Definition lessMysqlRunning (a b : TabletHealth) : outcome bool :=
  by_cell (s ← field (Stats a) MysqlThreadStats; x ← field s Running;
           s' ← field (Stats b) MysqlThreadStats; y ← field s' Running; Ret (x <=? y)) a b.

Definition lessMysqlConnected (a b : TabletHealth) : outcome bool :=
  by_cell (s ← field (Stats a) MysqlThreadStats; x ← field s Connected;
           s' ← field (Stats b) MysqlThreadStats; y ← field s' Connected; Ret (x <? y)) a b.

(** [Stats.GetQps()] is zero for a nil pointer. *)
Definition GetQps (s : option RealtimeStats) : spec_float := match s with Some s => Qps s | None => S754_zero false end.

Definition lessGlobalQPS (a b : TabletHealth) : outcome bool :=
  by_cell (Ret (SFleb (GetQps (Stats a)) (GetQps (Stats b)))) a b.

Definition cached_less (f : TabletCacheStatus -> spec_float) (a b : TabletHealth) : outcome bool :=
  match statsMap !! strconv.FormatInt (Uid a), statsMap !! strconv.FormatInt (Uid b) with
  | Some aStats, Some bStats => by_cell (Ret (SFleb (f aStats) (f bStats))) a b
  | _, _ => Ret true
  end.

Definition lessBehindPrimary (a b : TabletHealth) : outcome bool :=
  by_cell (Ret (AtLeast (th_Position a) (th_Position b))) a b.

(** The balancers: they reorder the candidates. *)
Definition balance_with (less : TabletHealth -> TabletHealth -> outcome bool) (candidates : list TabletHealth)
  : outcome (list TabletHealth) :=
  match candidates with [] => Ret [] | _ => SortFunc less candidates end.

Definition leastTabletInUseConnections := balance_with lessTabletInUse.
Definition leastMysqlRunningConnections := balance_with lessMysqlRunning.
Definition leastMysqlConnectedConnections := balance_with lessMysqlConnected.
Definition leastGlobalQPSLoadBalancer := balance_with lessGlobalQPS.
Definition leastQPSLoadBalancer := balance_with (cached_less QPS).
Definition leastRTLoadBalancer := balance_with (cached_less AvgLatency).
Definition leastBehindPrimaryLoadBalancer := balance_with lessBehindPrimary.

Definition randomLoadBalancer (candidates : list TabletHealth) : outcome (list TabletHealth) :=
  match candidates with [] => Ret [] | _ => shuffleTablets localCell intn candidates end.

(** [loadBalance]; nil options have the policy [RANDOM]. *)
Definition loadBalance (candidates : list TabletHealth) (options : option ExecuteOptions) : outcome (option TabletHealth) :=
  match candidates with
  | [] => Ret None
  | _ =>
      candidates ← match match options with Some o => LoadBalance o | None => RANDOM end with
        | LEAST_GLOBAL_QPS => leastGlobalQPSLoadBalancer candidates
        | LEAST_QPS => leastQPSLoadBalancer candidates
        | LEAST_RT => leastRTLoadBalancer candidates
        | LEAST_BEHIND_PRIMARY => leastBehindPrimaryLoadBalancer candidates
        | RANDOM => randomLoadBalancer candidates
        | LEAST_MYSQL_CONNECTED_CONNECTIONS => leastMysqlConnectedConnections candidates
        | LEAST_MYSQL_RUNNING_CONNECTIONS => leastMysqlRunningConnections candidates
        | LEAST_TABLET_INUSE_CONNECTIONS => leastTabletInUseConnections candidates
        end;
      t ← index candidates 0;
      Ret (Some t)
  end.

(** [filterAdvisorByGTIDThreshold]. *)
Definition filterAdvisorByGTIDThreshold (availableTablets : list TabletHealth) (options : option ExecuteOptions)
  : list TabletHealth :=
  match availableTablets, options with
  | [], _ | _, None => []
  | _, Some o =>
      if bool_decide (ReadAfterWriteGtid o = []) then []
      else
        match ParsePosition (flavor lastSeenGtid) (ReadAfterWriteGtid o) with
        | Err _ => []
        | Ok requestedPosition => filter (fun t => AtLeast (th_Position t) requestedPosition = true) availableTablets
        end
  end.

(** [PickTablet]: the tablet, or the error that there is none, and the options afterwards. *)
Definition PickTablet (availableTablets : list TabletHealth) (options : option ExecuteOptions)
  : outcome (option TabletHealth * option ExecuteOptions) :=
  match availableTablets with
  | [] => Ret (None, options)
  | _ =>
      let filtered := filterAdvisorByGTIDThreshold availableTablets options in
      let '(candidates, options) :=
        match filtered with
        | [] => (availableTablets, options)
        | _ => (filtered, clear_gtid <$> options)
        end in
      match candidates with
      | [] => Ret (None, options)
      | _ => chosenTablet ← loadBalance candidates options; Ret (chosenTablet, options)
      end
  end.

(** ** What the balancers promise *)

(** The documented behaviour of the parameters: [SortFunc] reorders the slice when its comparison
    returns, and [Intn] stays below its argument. *)
Definition sorts : Prop := forall less l,
  (forall a b, a ∈ l -> b ∈ l -> exists r, less a b = Ret r) -> exists l', SortFunc less l = Ret l' /\ l' ≡ₚ l.

Definition in_range : Prop := forall b i n, 0 < n -> 0 <= intn b i n < n.

(** A tablet that reported its statistics. *)
Definition reported (t : TabletHealth) : Prop := exists s m, Stats t = Some s /\ MysqlThreadStats s = Some m.

Lemma by_cell_ret o r a b : o = Ret r -> exists r', by_cell o a b = Ret r'.
Proof. intros ->. unfold by_cell. repeat case_match; by eexists. Qed.

Lemma loadBalance_ok l options :
  sorts -> in_range -> l <> [] -> Forall reported l -> exists t, loadBalance l options = Ret (Some t) /\ t ∈ l.
Proof.
  intros Hs Hr Hne Hrep. rewrite Forall_forall in Hrep.
  assert (forall less, (forall a b, a ∈ l -> b ∈ l -> exists r, less a b = Ret r) ->
    exists l', balance_with less l = Ret l' /\ l' ≡ₚ l) as Hb by (intros less; destruct l; [done|apply Hs]).
  assert (forall m : outcome (list TabletHealth), (exists l', m = Ret l' /\ l' ≡ₚ l) ->
    exists t, (c ← m; t ← index c 0; Ret (Some t)) = Ret (Some t) /\ t ∈ l) as Hfin.
  { intros m (l' & -> & Hp). destruct l' as [|t l']; [by apply Permutation_nil_l in Hp|].
    exists t. split; [done|]. rewrite <- Hp. by left. }
  unfold loadBalance. destruct l as [|t0 l]; [done|]. apply Hfin. set (c := t0 :: l) in *.
  destruct (match options with Some o => LoadBalance o | None => RANDOM end).
  - destruct (shuffleTablets_ok localCell intn c Hr) as (l' & E & Hp & _). by exists l'.
  - apply Hb. intros a b _ _. by eapply by_cell_ret.
  - apply Hb. intros a b _ _. unfold cached_less. repeat case_match; try (by eexists); by eapply by_cell_ret.
  - apply Hb. intros a b _ _. unfold cached_less. repeat case_match; try (by eexists); by eapply by_cell_ret.
  - apply Hb. intros a b _ _. by eapply by_cell_ret.
  - apply Hb. intros a b Ha Hb'. destruct (Hrep a Ha) as (sa & ma & E1 & E2), (Hrep b Hb') as (sb & mb & E3 & E4).
    eapply by_cell_ret. rewrite E1, E3. cbn. by rewrite E2, E4.
  - apply Hb. intros a b Ha Hb'. destruct (Hrep a Ha) as (sa & ma & E1 & E2), (Hrep b Hb') as (sb & mb & E3 & E4).
    eapply by_cell_ret. rewrite E1, E3. cbn. by rewrite E2, E4.
  - apply Hb. intros a b Ha Hb'. destruct (Hrep a Ha) as (sa & ma & E1 & E2), (Hrep b Hb') as (sb & mb & E3 & E4).
    eapply by_cell_ret. by rewrite E1, E3.
Qed.

(** The tablets that have seen [p]. *)
Definition advanced (p : Position) (l : list TabletHealth) : list TabletHealth :=
  filter (fun t => AtLeast (th_Position t) p = true) l.

Lemma filter_advanced l o p :
  ReadAfterWriteGtid o <> [] -> ParsePosition (flavor lastSeenGtid) (ReadAfterWriteGtid o) = Ok p ->
  filterAdvisorByGTIDThreshold l (Some o) = advanced p l.
Proof.
  intros Hg Hp. unfold filterAdvisorByGTIDThreshold. destruct l as [|t l]; [done|].
  by rewrite bool_decide_eq_false_2, Hp.
Qed.

Lemma PickTablet_ok l o p :
  sorts -> in_range -> l <> [] -> Forall reported l -> ReadAfterWriteGtid o <> [] ->
  ParsePosition (flavor lastSeenGtid) (ReadAfterWriteGtid o) = Ok p ->
  exists t, t ∈ l /\
  ((advanced p l <> [] /\ AtLeast (th_Position t) p = true /\
    PickTablet l (Some o) = Ret (Some t, Some (clear_gtid o))) \/
   (advanced p l = [] /\ PickTablet l (Some o) = Ret (Some t, Some o))).
Proof.
  intros Hs Hr Hne Hrep Hg Hp. unfold PickTablet. destruct l as [|t0 l0] eqn:El; [done|]. rewrite <- El in *. clear Hne.
  rewrite (filter_advanced l o p Hg Hp). destruct (advanced p l) as [|u us] eqn:Ef.
  - destruct (loadBalance_ok l (Some o) Hs Hr) as (t & E & Hin); [congruence|done|].
    exists t. split; [done|]. right. split; [done|]. rewrite El in *. rewrite E. done.
  - assert (forall t, t ∈ u :: us -> t ∈ l /\ AtLeast (th_Position t) p = true) as Hsub.
    { intros t. rewrite <- Ef. unfold advanced. rewrite list_elem_of_filter. naive_solver. }
    cbn [fmap option_fmap option_map].
    destruct (loadBalance_ok (u :: us) (Some (clear_gtid o)) Hs Hr) as (t & E & Hin);
      [done| |].
    { rewrite Forall_forall in *. intros t Ht. by apply Hrep, Hsub. }
    exists t. destruct (Hsub t Hin) as [Hl Hat]. split; [done|]. left. rewrite E. done.
Qed.

(** Without a requirement any tablet will do. *)
Lemma PickTablet_plain l options :
  sorts -> in_range -> l <> [] -> Forall reported l ->
  match options with Some o => ReadAfterWriteGtid o = [] | None => True end ->
  exists t, t ∈ l /\ PickTablet l options = Ret (Some t, options).
Proof.
  intros Hs Hr Hne Hrep Hg. destruct (loadBalance_ok l options Hs Hr Hne Hrep) as (t & E & Hin).
  exists t. split; [done|]. unfold PickTablet, filterAdvisorByGTIDThreshold. destruct l as [|t0 l]; [done|].
  destruct options as [o|]; [rewrite bool_decide_eq_true_2 by done|]; by rewrite E.
Qed.

(** In every case a call returns, picks one of the tablets, and at most clears the requirement. *)
Lemma PickTablet_total l options :
  sorts -> in_range -> l <> [] -> Forall reported l ->
  exists t options', t ∈ l /\ PickTablet l options = Ret (Some t, options') /\ (options' = options \/ options' = clear_gtid <$> options).
Proof.
  intros Hs Hr Hne Hrep. unfold PickTablet. destruct l as [|t0 l0] eqn:El; [done|]. rewrite <- El in *.
  destruct (filterAdvisorByGTIDThreshold l options) as [|u us] eqn:Ef.
  - destruct (loadBalance_ok l options Hs Hr) as (t & E & Hin); [congruence|done|].
    exists t, options. rewrite El in *. rewrite E. auto.
  - assert (forall t, t ∈ u :: us -> t ∈ l) as Hsub.
    { intros t. rewrite <- Ef. unfold filterAdvisorByGTIDThreshold. repeat case_match; try (by intros ?%not_elem_of_nil).
      intros H'%list_elem_of_filter. naive_solver. }
    destruct (loadBalance_ok (u :: us) (clear_gtid <$> options) Hs Hr) as (t & E & Hin); [done| |].
    { rewrite Forall_forall in *. auto. }
    exists t, (clear_gtid <$> options). rewrite E. auto.
Qed.
End Balance.

(** ** A sort for the examples *)

(** An insertion sort, an instance of [SortFunc]. *)
Fixpoint insert_by (less : TabletHealth -> TabletHealth -> outcome bool) (x : TabletHealth) (l : list TabletHealth)
  : outcome (list TabletHealth) :=
  match l with
  | [] => Ret [x]
  | y :: l' => b ← less x y; if b : bool then Ret (x :: l) else r ← insert_by less x l'; Ret (y :: r)
  end.

Fixpoint insertion_sort (less : TabletHealth -> TabletHealth -> outcome bool) (l : list TabletHealth) : outcome (list TabletHealth) :=
  match l with
  | [] => Ret []
  | x :: l => r ← insertion_sort less l; insert_by less x r
  end.

Lemma insertion_sort_sorts : sorts insertion_sort.
Proof.
  intros less l. induction l as [|x l IH]; intros Hl; [by exists []|]. cbn [insertion_sort].
  destruct IH as (r & -> & Hr); [intros a b Ha Hb; apply Hl; by right|]. cbn [mbind outcome_bind].
  assert (forall a, a ∈ r -> exists b, less x a = Ret b) as Hx.
  { intros a Ha. rewrite Hr in Ha. apply Hl; [by left|by right]. }
  enough (exists l', insert_by less x r = Ret l' /\ l' ≡ₚ x :: r) as (l' & E & Hp) by (exists l'; split; [done|by rewrite Hp, Hr]).
  clear Hl Hr. induction r as [|y r IH]; [by exists [x]|]. cbn [insert_by].
  destruct (Hx y) as [[|] ->]; [by left|by exists (x :: y :: r)|]. cbn [mbind outcome_bind].
  destruct IH as (r' & -> & Hr'); [intros a Ha; apply Hx; by right|]. cbn [mbind outcome_bind].
  exists (y :: r'). split; [done|]. rewrite Hr'. apply Permutation_swap.
Qed.

Lemma in_range_zero : in_range (fun _ _ _ => 0).
Proof. intros b i n Hn. lia. Qed.

(** C4: a read that has to see a GTID, which can be parsed, gets a tablet that has it, with the requirement taken
    off the options and nothing else changed, whenever some available tablet has it; otherwise it gets some
    available tablet and keeps the requirement, so that the tablet waits for it.  This
    holds for every load balancing policy, however the balancer sorts or shuffles, when all tablets have
    reported their statistics. *)
Theorem PickTablet_reads_its_writes SortFunc intn localCell statsMap gw l o p :
  sorts SortFunc -> in_range intn -> l <> [] -> Forall reported l -> ReadAfterWriteGtid o <> [] ->
  ParsePosition (flavor gw) (ReadAfterWriteGtid o) = Ok p ->
  exists t o', PickTablet SortFunc intn localCell statsMap gw l (Some o) = Ret (Some t, Some o') /\ t ∈ l /\
  ((exists u, u ∈ l /\ AtLeast (th_Position u) p = true) -> AtLeast (th_Position t) p = true /\ o' = clear_gtid o) /\
  ((forall u, u ∈ l -> AtLeast (th_Position u) p = false) -> o' = o).
Proof.
  intros Hs Hr Hne Hrep Hg Hp.
  destruct (PickTablet_ok SortFunc intn localCell statsMap gw l o p Hs Hr Hne Hrep Hg Hp) as (t & Hin & [(Hse & Hat & E)|(Hse & E)]).
  - exists t. eexists. split_and!; [done|done|done|]. intros Hno. by rewrite (Hno t Hin) in Hat.
  - exists t, o. split_and!; [done|done| |done]. intros (u & Hu & Hat).
    assert (u ∈ advanced p l) as H by (by apply list_elem_of_filter). rewrite Hse in H. by apply not_elem_of_nil in H.
Qed.

(** The in-place shuffle ends within one round per tablet and one more, without an index out of
    range, whatever the random numbers; it reorders the tablets so that none outside the
    cell comes before one of the cell, and so the balancer picks a tablet of the
    cell whenever there is one. *)
Theorem shuffleTablets_local_first cell intn l :
  in_range intn ->
  exists l', shuffleTablets cell intn l = Ret l' /\ l' ≡ₚ l /\ local_first cell l' /\
  ((exists t, t ∈ l /\ same_cell cell t = true) -> exists t, l' !! 0%nat = Some t /\ same_cell cell t = true).
Proof.
  intros Hr. destruct (shuffleTablets_ok cell intn l Hr) as (l' & E & Hp & Hl). exists l'. split_and!; [done..|].
  intros (t & Ht & Hc). rewrite <- Hp in Ht. apply list_elem_of_lookup_1 in Ht as [[|i] Hi]; [by exists t|].
  destruct (lookup_lt_is_Some_2 l' 0%nat) as [u Hu]; [apply lookup_lt_Some in Hi; lia|].
  exists u. split; [done|]. apply (Hl 0 (S i) u t)%nat; [lia|done..].
Qed.

(** ** Witnesses *)

(** Tablets of one cell: the first has the transactions up to 8, the second those up to 4. *)
Definition sample_stats : RealtimeStats :=
  {| Qps := S754_zero false; MysqlThreadStats := Some {| Connected := 3; Running := 1 |}; TabletThreadsStats := 2 |}.
Definition sample_tablet (cell : list byte) (uid last : Z) : TabletHealth :=
  {| AliasCell := cell; Uid := uid; Type_ := REPLICA; Conn := true; TargetCell := cell; Stats := Some sample_stats;
     th_Position := Some (Set56 (Some (one_server sid_a [Interval 1 last]))) |}.
Definition fresh_tablet : TabletHealth := sample_tablet (bs "zone1") 101 8.
Definition stale_tablet : TabletHealth := sample_tablet (bs "zone1") 102 4.
Definition sample_options (policy : LoadBalancePolicy) : ExecuteOptions :=
  {| ReadAfterWriteGtid := SID_String sid_a ++ bs ":7"; LoadBalance := policy;
     CanLoadBalanceBetweenReplicAndRdonly := false; TabletInfoToDisplay := None |}.
Definition sample_gw : LastSeenGtid := {| flavor := Mysql56FlavorID; gtidSet := None |}.
Definition sample_position : Position := Some (Set56 (Some (one_server sid_a [Interval 7 7]))).

Lemma sample_reported : Forall reported [stale_tablet; fresh_tablet].
Proof. repeat constructor; by eexists _, _. Qed.

Lemma PickTablet_reads_its_writes_witness :
  exists t o', PickTablet insertion_sort (fun _ _ _ => 0) (bs "zone1") ∅ sample_gw [stale_tablet; fresh_tablet]
    (Some (sample_options LEAST_MYSQL_RUNNING_CONNECTIONS)) = Ret (Some t, Some o') /\ t ∈ [stale_tablet; fresh_tablet] /\
  AtLeast (th_Position t) sample_position = true /\ o' = clear_gtid (sample_options LEAST_MYSQL_RUNNING_CONNECTIONS).
Proof.
  destruct (PickTablet_reads_its_writes insertion_sort (fun _ _ _ => 0) (bs "zone1") ∅ sample_gw [stale_tablet; fresh_tablet]
    (sample_options LEAST_MYSQL_RUNNING_CONNECTIONS) sample_position) as (t & o' & E & Hin & Hyes & _);
    [exact insertion_sort_sorts|exact in_range_zero|done|exact sample_reported|done|vm_compute; reflexivity|].
  exists t, o'. split; [exact E|]. split; [exact Hin|]. apply Hyes. exists fresh_tablet. split; [right; left|vm_compute; reflexivity].
Defined.

Lemma shuffleTablets_local_first_witness :
  let l := [sample_tablet (bs "zone2") 7 8; stale_tablet; sample_tablet (bs "zone3") 8 8; fresh_tablet] in
  exists l', shuffleTablets (bs "zone1") (fun _ _ _ => 0) l = Ret l' /\ l' ≡ₚ l /\ local_first (bs "zone1") l' /\
  ((exists t, t ∈ l /\ same_cell (bs "zone1") t = true) -> exists t, l' !! 0%nat = Some t /\ same_cell (bs "zone1") t = true).
Proof. intros l. apply (shuffleTablets_local_first (bs "zone1") (fun _ _ _ => 0) l). exact in_range_zero. Defined.
