(* ===== verification/GatewayRetry.v ===== *)
(** * Retrying on another tablet

    [withRetry] of [go/vt/vtgate/tabletgateway.go] and the [Execute] of
    [go/vt/vttablet/queryservice/wrapped.go] that is wrapped with it: a query is tried on one tablet after the
    other until an attempt succeeds or fails for good.  What the health check, the
    failover buffer, the keyspace watcher and the tablets answer in each round are parameters.
    The failpoints, which a normal build leaves out, and the statistics and the
    collation that a round records are not modelled. *)

From S2P Require Import Prelude Intervals GoStd GtidTypes Gtid56 Position LastSeen Gateway.

(** ** Errors *)

(** [vtrpc.Code], the codes that matter for a retry. *)
Inductive ErrCode := Code_UNAVAILABLE | Code_FAILED_PRECONDITION | Code_CLUSTER_EVENT | Code_INTERNAL | Code_other (n : Z).

(** The errors: those of [withRetry] itself, those of a tablet or of the buffer, and the
    wrapped ones. *)
Inductive gw_error :=
| NotInTransaction
| TypeNotAllowed (t : TabletType)
| BeingResharded
| PrimaryNotServing
| NoHealthyTablet
| VT14002
| VT14003 (cell : list byte) (uid : Z)
| Foreign (code : ErrCode)
| Buffering (bufferErr : gw_error) (original : option gw_error)
| InShard (e : gw_error) (keyspace shard : list byte) (type : TabletType).

(** [vterrors.Code]: wrapping keeps the code. *)
Fixpoint Code (e : gw_error) : ErrCode :=
  match e with
  | NotInTransaction => Code_INTERNAL
  | TypeNotAllowed _ => Code_FAILED_PRECONDITION
  | BeingResharded | PrimaryNotServing => Code_CLUSTER_EVENT
  | NoHealthyTablet | VT14002 | VT14003 _ _ => Code_UNAVAILABLE
  | Foreign code => code
  | Buffering e _ => Code e
  | InShard e _ _ _ => Code e
  end.

(** [querypb.Target]. *)
Record Target := { Keyspace : list byte; Shard : list byte; TargetType : TabletType }.

(** [NewShardError]; the target is not nil here. *)
Definition NewShardError (e : option gw_error) (target : Target) : option gw_error :=
  (fun e => InShard e (Keyspace target) (Shard target) (TargetType target)) <$> e.

(** [canRetry]; [done] says that the context is done. *)
Definition canRetry (done : bool) (err : option gw_error) : bool :=
  match err with
  | None => false
  | Some e =>
      if done then false
      else
        match Code e with
        | Code_UNAVAILABLE | Code_FAILED_PRECONDITION | Code_CLUSTER_EVENT => true
        | _ => false
        end
  end.

(** [%010d] of a number that is not negative. *)
Definition pad10 (s : list byte) : list byte := replicate (10 - length s) (z2b 48) ++ s.

(** [TabletAliasString] of an alias that is not nil. *)
Definition TabletAliasString (t : TabletHealth) : list byte :=
  AliasCell t ++ [z2b 45] ++ pad10 (strconv.FormatUint (Uid t)).

(** ** The loop *)

(** An attempt: the tablet [inner] was called with, the options at that moment and its
    answer. *)
Record attempt := { at_tablet : TabletHealth; at_options : option ExecuteOptions; at_err : option gw_error }.

(** The variables of [withRetry], the options it shares with the caller, and the attempts so far. *)
Record retry_state := {
  rs_err : option gw_error;
  invalidTablets : gset (list byte);
  bufferedOnce : bool;
  rs_options : option ExecuteOptions;
  attempts : list attempt
}.

Section Retry.
Context (SortFunc : (TabletHealth -> TabletHealth -> outcome bool) -> list TabletHealth -> outcome (list TabletHealth)).
Context (intn : nat -> bool -> Z -> Z -> Z) (localCell : list byte) (statsMap : nat -> gmap (list byte) TabletCacheStatus).
Context (lastSeenGtid : LastSeenGtid) (AllowedTabletTypes : list TabletType) (retryCount : Z).
(** Whether the buffer returned a [RetryDoneFunc], and its error. *)
Context (WaitForFailoverEnd : nat -> option gw_error -> bool * option gw_error).
(** [GetReplicAndRdonlyHealthyTabletStats] for [true] and [GetHealthyTabletStats] for [false]. *)
Context (healthy : nat -> bool -> list TabletHealth).
(** [TargetIsBeingResharded] and [PrimaryIsNotServing], when there is a watcher. *)
Context (kev : option (nat -> bool * bool)).
Context (inner : nat -> TabletHealth -> option ExecuteOptions -> bool * option gw_error).
Context (target : Target) (inTransaction : bool).

Definition with_err (st : retry_state) (e : option gw_error) : retry_state :=
  {| rs_err := e; invalidTablets := invalidTablets st; bufferedOnce := bufferedOnce st;
     rs_options := rs_options st; attempts := attempts st |}.

Definition with_options (st : retry_state) (o : option ExecuteOptions) : retry_state :=
  {| rs_err := rs_err st; invalidTablets := invalidTablets st; bufferedOnce := bufferedOnce st;
     rs_options := o; attempts := attempts st |}.

(** [invalidTablets[...] = true]. *)
Definition invalidate (st : retry_state) (t : TabletHealth) : retry_state :=
  {| rs_err := rs_err st; invalidTablets := {[ TabletAliasString t ]} ∪ invalidTablets st; bufferedOnce := bufferedOnce st;
     rs_options := rs_options st; attempts := attempts st |}.

(** The wait for the end of a failover; [true] when it failed. *)
Definition buffer_check (i : nat) (st : retry_state) : retry_state * bool :=
  if negb (bufferedOnce st) && negb inTransaction && bool_decide (TargetType target = PRIMARY) then
    let '(retryDone, bufferErr) := WaitForFailoverEnd i (rs_err st) in
    let st := {| rs_err := rs_err st; invalidTablets := invalidTablets st; bufferedOnce := retryDone || bufferedOnce st;
                 rs_options := rs_options st; attempts := attempts st |} in
    match bufferErr with
    | Some e => (with_err st (Some (Buffering e (rs_err st))), true)
    | None => (st, false)
    end
  else (st, false).

(** No healthy tablet: the state and whether to go on. *)
Definition no_tablets (i : nat) (st : retry_state) : retry_state * bool :=
  let '(resharded, notServing) := match kev with Some f => f i | None => (false, false) end in
  if resharded then (with_err st (Some BeingResharded), true)
  else if notServing then (with_err st (Some PrimaryNotServing), true)
  else (with_err st (Some NoHealthyTablet), false).

(** [options.TabletInfoToDisplay = ...]. *)
Definition record_info (t : TabletHealth) (o : ExecuteOptions) : ExecuteOptions :=
  {| ReadAfterWriteGtid := ReadAfterWriteGtid o; LoadBalance := LoadBalance o;
     CanLoadBalanceBetweenReplicAndRdonly := CanLoadBalanceBetweenReplicAndRdonly o;
     TabletInfoToDisplay := Some (AliasCell t, Uid t, Type_ t) |}.

(** The tablet is picked: one attempt on it, and whether to go on. *)
Definition try_tablet (i : nat) (st : retry_state) (th : TabletHealth) : retry_state * bool :=
  let st := with_options st (record_info th <$> rs_options st) in
  if negb (Conn th) then (invalidate (with_err st (Some (VT14003 (AliasCell th) (Uid th)))) th, true)
  else
    let '(retry, err) := inner i th (rs_options st) in
    let st :=
      {| rs_err := err; invalidTablets := invalidTablets st; bufferedOnce := bufferedOnce st; rs_options := rs_options st;
         attempts := attempts st ++ [{| at_tablet := th; at_options := rs_options st; at_err := err |}] |} in
    if retry then (invalidate st th, true) else (st, false).

(** The tablets that were not tried before. *)
Definition untried (st : retry_state) (l : list TabletHealth) : list TabletHealth :=
  filter (fun t => TabletAliasString t ∉ invalidTablets st) l.

(** A round of the loop: the state and whether to go on. *)
Definition retry_round (i : nat) (st : retry_state) : outcome (retry_state * bool) :=
  let '(st, failed) := buffer_check i st in
  if failed then Ret (st, false)
  else
    let tablets := healthy i (match rs_options st with Some o => CanLoadBalanceBetweenReplicAndRdonly o | None => false end) in
    match tablets with
    | [] => Ret (no_tablets i st)
    | _ =>
        '(th, options) ← PickTablet SortFunc (intn i) localCell (statsMap i) lastSeenGtid (untried st tablets) (rs_options st);
        let st := with_options st options in
        match th with
        | None => Ret (with_err st (Some (default VT14002 (rs_err st))), false)
        | Some th => Ret (try_tablet i st th)
        end
    end.

(** [n] rounds from round [i] on. *)
Fixpoint retry_loop (n i : nat) (st : retry_state) : outcome retry_state :=
  match n with
  | O => Ret st
  | S n =>
      '(st, continue) ← retry_round i st;
      if continue : bool then retry_loop n (S i) st else Ret st
  end.

Definition retry_init (options : option ExecuteOptions) : retry_state :=
  {| rs_err := None; invalidTablets := ∅; bufferedOnce := false; rs_options := options; attempts := [] |}.

(** [withRetry]: the error, if any, and the last state. *)
Definition withRetry (options : option ExecuteOptions) : outcome (option gw_error * retry_state) :=
  if inTransaction && negb (bool_decide (TargetType target = PRIMARY)) then Ret (Some NotInTransaction, retry_init options)
  else if negb (bool_decide (AllowedTabletTypes = [])) && negb (bool_decide (TargetType target ∈ AllowedTabletTypes)) then
    Ret (Some (TypeNotAllowed (TargetType target)), retry_init options)
  else
    st ← retry_loop (Z.to_nat (add64 retryCount 1)) 0 (retry_init options);
    Ret (NewShardError (rs_err st) target, st).

(** *** The invariant of the loop *)

(** An error that is worth another attempt. *)
Definition retryable (e : option gw_error) : Prop := canRetry false e = true.

Definition tried_ok (st : retry_state) : Prop :=
  NoDup (TabletAliasString ∘ at_tablet <$> attempts st) /\
  forall a, a ∈ attempts st -> Conn (at_tablet a) = true /\ exists i b, at_tablet a ∈ healthy i b.

(** Before round [i]. *)
Definition live (i : nat) (st : retry_state) : Prop :=
  tried_ok st /\ (length (attempts st) <= i)%nat /\ Forall (fun a => retryable (at_err a)) (attempts st) /\
  (forall a, a ∈ attempts st -> TabletAliasString (at_tablet a) ∈ invalidTablets st) /\
  ((0 < i)%nat -> rs_err st <> None) /\ (inTransaction = true -> attempts st = []).

(** After the last round: the attempts before the last one failed, and the last one gave the
    error unless a round without an attempt did. *)
Definition over (n : nat) (st : retry_state) : Prop :=
  tried_ok st /\ (length (attempts st) <= n)%nat /\
  exists l o, attempts st = l ++ option_list o /\ Forall (fun a => retryable (at_err a)) l /\
  (inTransaction = true -> l = []) /\
  match o with Some a => at_err a = rs_err st | None => rs_err st <> None end.

Hypothesis sorts_ok : sorts SortFunc.
Hypothesis intn_ok : forall i, in_range (intn i).
Hypothesis reported_ok : forall i b, Forall reported (healthy i b).
Hypothesis inner_ok : forall i t o e, inner i t o = (true, e) -> retryable e /\ inTransaction = false.

Lemma retryable_err e : retryable e -> e <> None.
Proof. by intros H ->. Qed.

(** A step that makes no attempt. *)
Lemma live_same i st st' :
  live i st -> attempts st' = attempts st -> invalidTablets st ⊆ invalidTablets st' -> rs_err st' <> None ->
  live (S i) st' /\ over (S i) st'.
Proof.
  intros (Ht & Hlen & Hf & Hi & He & Htx) Ea Hsub Herr. unfold live, over, tried_ok. rewrite Ea. split.
  - split_and!; [apply Ht|apply Ht|lia|done| |done|done]. intros a Ha. apply Hsub. auto.
  - split_and!; [apply Ht|apply Ht|lia|]. exists (attempts st), None. cbn. rewrite app_nil_r. done.
Qed.

Lemma live_options i st o : live i st -> live i (with_options st o).
Proof. done. Qed.

Lemma try_tablet_ok i st th b :
  live i st -> th ∈ untried st (healthy i b) ->
  let '(st', c) := try_tablet i st th in if c : bool then live (S i) st' else over (S i) st'.
Proof.
  intros Hl Hth. pose proof Hl as ((Hnd & Hok) & Hlen & Hf & Hi & He & Htx).
  apply list_elem_of_filter in Hth as [Hnew Hin]. unfold try_tablet. destruct (Conn th) eqn:Ec; cbn [negb].
  2:{ apply (live_same i st); [done|done|cbn; set_solver|done]. }
  cbn [rs_options with_options]. destruct (inner i th _) as [r e] eqn:Ei.
  assert (forall inv, tried_ok {| rs_err := e; invalidTablets := inv; bufferedOnce := bufferedOnce st; rs_options := record_info th <$> rs_options st;
    attempts := attempts st ++ [{| at_tablet := th; at_options := record_info th <$> rs_options st; at_err := e |}] |}) as Ht.
  { intros inv. unfold tried_ok. cbn [attempts]. split.
    - rewrite fmap_app. apply NoDup_app. split_and!; [done| |apply NoDup_singleton].
      intros x (a & -> & Ha)%list_elem_of_fmap Hx%list_elem_of_singleton. apply Hnew. cbn in Hx. rewrite <- Hx. by apply Hi.
    - intros a [Ha| ->%list_elem_of_singleton]%elem_of_app; [by apply Hok|]. cbn. eauto. }
  destruct r.
  - destruct (inner_ok _ _ _ _ Ei) as [Hr Htx']. split; [apply Ht|]. cbn [attempts invalidate invalidTablets rs_err].
    rewrite length_app, Forall_app. cbn. split_and!; [lia|done|by constructor| |by intros _; apply retryable_err|congruence].
    intros a [Ha| ->%list_elem_of_singleton]%elem_of_app; [by apply elem_of_union_r, Hi|by apply elem_of_union_l, elem_of_singleton].
  - split; [apply Ht|]. cbn [attempts rs_err]. rewrite length_app. split; [cbn; lia|].
    eexists (attempts st), (Some _). cbn. done.
Qed.

Lemma retry_round_ok i st :
  live i st -> exists st' c, retry_round i st = Ret (st', c) /\ if c : bool then live (S i) st' else over (S i) st'.
Proof.
  intros Hl. unfold retry_round.
  assert (let '(st1, f) := buffer_check i st in if f : bool then over (S i) st1 else live i st1) as Hb.
  { unfold buffer_check. destruct (_ && _); [|done]. destruct (WaitForFailoverEnd i (rs_err st)) as [r [e|]]; [|done].
    by apply (live_same i st). }
  destruct (buffer_check i st) as [st1 [|]]; [by exists st1, false|]. clear Hl.
  set (b := match rs_options st1 with Some o => _ | None => false end).
  destruct (healthy i b) as [|t0 l0] eqn:Eh.
  { assert (let '(st', c) := no_tablets i st1 in if c : bool then live (S i) st' else over (S i) st') as Hn.
    { unfold no_tablets. destruct (match kev with Some f => f i | None => _ end) as [[|] [|]];
        by apply (live_same i st1). }
    destruct (no_tablets i st1) as [st' c]. by exists st', c. }
  rewrite <- Eh. destruct (untried st1 (healthy i b)) as [|u us] eqn:Eu.
  { cbn. eexists _, false. split; [done|]. by apply (live_same i st1). }
  destruct (PickTablet_total SortFunc (intn i) localCell (statsMap i) lastSeenGtid (u :: us) (rs_options st1))
    as (th & o & Hin & -> & _); [done|done|done| |].
  { rewrite <- Eu. apply Forall_forall. intros t [_ Ht]%list_elem_of_filter. by apply (proj1 (Forall_forall _ _) (reported_ok i b)). }
  cbn [mbind outcome_bind]. pose proof (try_tablet_ok i (with_options st1 o) th b (live_options i st1 o Hb)) as Htry.
  destruct (try_tablet i (with_options st1 o) th) as [st' c]. exists st', c. split; [done|]. apply Htry.
  change (untried (with_options st1 o)) with (untried st1). by rewrite Eu.
Qed.

Lemma retry_loop_ok n i st :
  live i st -> (0 < i \/ 0 < n)%nat -> exists st', retry_loop n i st = Ret st' /\ over (i + n) st'.
Proof.
  revert i st. induction n as [|n IH]; intros i st Hl Hpos; cbn [retry_loop].
  - exists st. split; [done|]. destruct Hl as (Ht & Hlen & Hf & Hi & He & Htx). split; [done|]. split; [lia|].
    exists (attempts st), None. cbn. rewrite app_nil_r. split_and!; [done|done|done|]. apply He. lia.
  - destruct (retry_round_ok i st Hl) as (st1 & c & -> & Hc). cbn [mbind outcome_bind]. destruct c.
    + destruct (IH (S i) st1 Hc) as (st2 & E & Ho); [lia|]. exists st2. split; [done|]. by replace (i + S n)%nat with (S i + n)%nat by lia.
    + exists st1. split; [done|]. destruct Hc as (Ht & Hlen & H). split; [done|]. split; [lia|done].
Qed.

Lemma live_init options : live 0 (retry_init options).
Proof.
  split; [split; [apply NoDup_nil_2|by intros a ?%not_elem_of_nil]|].
  split_and!; [done|by apply Forall_nil_2|by intros a ?%not_elem_of_nil|intros; lia|done].
Qed.
End Retry.

(** [wrappedService.Execute] over [withRetry]: [execute] is what the tablets answer. *)
Definition Execute SortFunc intn localCell statsMap lastSeenGtid AllowedTabletTypes retryCount WaitForFailoverEnd healthy kev
    (ctxDone : nat -> bool) (execute : nat -> TabletHealth -> option ExecuteOptions -> option gw_error)
    (target : Target) (transactionID reservedID : Z) (options : option ExecuteOptions) : outcome (option gw_error * retry_state) :=
  let inDedicatedConn := negb (transactionID =? 0) || negb (reservedID =? 0) in
  withRetry SortFunc intn localCell statsMap lastSeenGtid AllowedTabletTypes retryCount WaitForFailoverEnd healthy kev
    (fun i conn options =>
       let innerErr := execute i conn options in
       (canRetry (ctxDone i) innerErr && negb inDedicatedConn, innerErr))
    target inDedicatedConn options.

(** ** What [Execute] promises *)

Lemma over_retryable inTransaction healthy n st i a :
  over healthy inTransaction n st -> attempts st !! i = Some a -> (S i < length (attempts st))%nat -> retryable (at_err a).
Proof.
  intros (_ & _ & l & o & El & Hf & _) Hi Hlt. rewrite El in *. rewrite length_app in Hlt.
  assert (i < length l)%nat by (destruct o; cbn in Hlt; lia). rewrite lookup_app_l in Hi by done.
  rewrite Forall_forall in Hf. apply Hf. by eapply list_elem_of_lookup_2.
Qed.

Lemma over_result inTransaction healthy n st :
  over healthy inTransaction n st -> rs_err st = None <-> exists a, last (attempts st) = Some a /\ at_err a = None.
Proof.
  intros (_ & _ & l & [a|] & -> & Hf & _ & Ho); cbn [option_list option_rect].
  - rewrite last_snoc, <- Ho. naive_solver.
  - rewrite app_nil_r. split; [done|]. intros (a & Ha & He). apply last_Some_elem_of in Ha.
    rewrite Forall_forall in Hf. by destruct (retryable_err (at_err a) (Hf a Ha)).
Qed.

(** C3: a query is tried at most [retryCount + 1] times, each time on another healthy tablet there
    is a connection to.  It is tried again only after an attempt failed with an
    error that allows it, never after one that succeeded, and never in a transaction or on a
    reserved connection.  It is reported to succeed exactly when the last attempt did. *)
Theorem Execute_attempts SortFunc intn localCell statsMap gw allowed retryCount wait healthy kev ctxDone execute target tx reserved options :
  sorts SortFunc -> (forall i, in_range (intn i)) -> (forall i b, Forall reported (healthy i b)) -> 0 <= retryCount < MaxInt64 ->
  exists err st,
  Execute SortFunc intn localCell statsMap gw allowed retryCount wait healthy kev ctxDone execute target tx reserved options = Ret (err, st) /\
  Z.of_nat (length (attempts st)) <= retryCount + 1 /\
  NoDup (TabletAliasString ∘ at_tablet <$> attempts st) /\
  (forall a, a ∈ attempts st -> Conn (at_tablet a) = true /\ exists i b, at_tablet a ∈ healthy i b) /\
  (forall i a, attempts st !! i = Some a -> (S i < length (attempts st))%nat -> retryable (at_err a)) /\
  (tx <> 0 \/ reserved <> 0 -> (length (attempts st) <= 1)%nat) /\
  (err = None <-> exists a, last (attempts st) = Some a /\ at_err a = None).
Proof.
  intros Hs Hr Hrep Hn. unfold Execute, withRetry. set (ded := negb (tx =? 0) || negb (reserved =? 0)).
  set (inner := fun (i : nat) (c : TabletHealth) o => (canRetry (ctxDone i) (execute i c o) && negb ded, execute i c o)).
  assert (forall i t o e, inner i t o = (true, e) -> retryable e /\ ded = false) as Hinner.
  { unfold inner. intros i t o e [= Hc <-]. apply andb_true_iff in Hc as [Hc Hd]. split; [|by apply negb_true_iff].
    unfold canRetry, retryable in *. by destruct (execute i t o), (ctxDone i). }
  assert (forall e, exists err st, @Ret (option gw_error * retry_state) (Some e, retry_init options) = Ret (err, st) /\
    err = Some e /\ attempts st = []) as Hearly by (intros e; by eexists _, _).
  destruct (ded && _); [|destruct (negb _ && _)].
  1-2: edestruct Hearly as (err & st & -> & -> & Ea); eexists _, st; rewrite Ea; cbn;
    split_and!; [done|lia|apply NoDup_nil_2|by intros a ?%not_elem_of_nil|by intros i a ?|lia|split; [done|naive_solver]].
  rewrite add64_small by (unfold_ints; lia).
  destruct (retry_loop_ok SortFunc intn localCell statsMap gw wait healthy kev inner target ded Hs Hr Hrep Hinner
    (Z.to_nat (retryCount + 1)) 0 (retry_init options) (live_init healthy ded options)) as (st & -> & Ho); [lia|].
  cbn [mbind outcome_bind]. eexists _, st. split; [done|]. pose proof Ho as ((Hnd & Hok) & Hlen & l & o & El & _ & Htx & _).
  split_and!; [lia|done|done|intros i a; by eapply over_retryable| |].
  - intros Hd. assert (ded = true) as Hd' by (unfold ded; destruct (Z.eqb_spec tx 0), (Z.eqb_spec reserved 0); naive_solver).
    rewrite El, (Htx Hd'). by destruct o; cbn; lia.
  - rewrite <- (over_result ded healthy _ st Ho). unfold NewShardError. by destruct (rs_err st).
Qed.

(** ** The requirement is lost on a retry *)

Lemma untried_other st t u :
  invalidTablets st = {[ TabletAliasString t ]} ∪ ∅ -> TabletAliasString t <> TabletAliasString u -> untried st [t; u] = [u].
Proof.
  intros Ei Hne. unfold untried. rewrite Ei, filter_cons_False by set_solver. rewrite filter_cons_True by set_solver. done.
Qed.

Lemma untried_init options l : untried (retry_init options) l = l.
Proof. unfold untried. induction l as [|t l IH]; [done|]. rewrite filter_cons_True by (cbn; set_solver). by rewrite IH. Qed.

(** A round that does not wait for a failover and finds a tablet. *)
Lemma retry_round_picks SortFunc intn localCell statsMap gw wait l kev inner target i st th o :
  TargetType target <> PRIMARY -> l <> [] ->
  PickTablet SortFunc (intn i) localCell (statsMap i) gw (untried st l) (rs_options st) = Ret (Some th, o) ->
  retry_round SortFunc intn localCell statsMap gw wait (fun _ _ => l) kev inner target false i st =
  Ret (try_tablet inner i (with_options st o) th).
Proof.
  intros Htt Hne Hpick. unfold retry_round, buffer_check. rewrite bool_decide_eq_false_2 by done. rewrite andb_false_r.
  destruct l as [|t0 l]; [done|]. by rewrite Hpick.
Qed.

(** [PickTablet] clears the GTID a read has to see in the options the retries share.  When the tablet
    that has it cannot answer, the read is tried on the tablet that lacks it, nothing
    makes that tablet wait, and the read is reported to succeed. *)
Theorem Execute_forgets_gtid SortFunc intn localCell statsMap gw retryCount wait kev execute target o p t u :
  sorts SortFunc -> (forall i, in_range (intn i)) -> Forall reported [t; u] -> 1 <= retryCount < MaxInt64 ->
  TargetType target <> PRIMARY -> TabletAliasString t <> TabletAliasString u -> Conn t = true -> Conn u = true ->
  ReadAfterWriteGtid o <> [] -> ParsePosition (flavor gw) (ReadAfterWriteGtid o) = Ok p ->
  AtLeast (th_Position t) p = true -> AtLeast (th_Position u) p = false ->
  (forall o, execute 0%nat t o = Some (Foreign Code_UNAVAILABLE)) -> (forall o, execute 1%nat u o = None) ->
  exists st a b o', Execute SortFunc intn localCell statsMap gw [] retryCount wait (fun _ _ => [t; u]) kev (fun _ => false) execute
    target 0 0 (Some o) = Ret (None, st) /\
  attempts st = [a; b] /\ at_tablet a = t /\ at_tablet b = u /\ at_options b = Some o' /\ ReadAfterWriteGtid o' = [].
Proof.
  intros Hs Hr Hrep Hn Htt Hne Hct Hcu Hg Hp Hat Hau Het Heu. unfold Execute, withRetry. cbn [Z.eqb negb orb andb].
  rewrite add64_small by (unfold_ints; lia). rewrite (bool_decide_eq_true_2 ([] = [])) by done. cbn [negb andb].
  replace (Z.to_nat (retryCount + 1)) with (S (S (Z.to_nat (retryCount - 1)))) by lia. cbn [retry_loop].
  destruct (PickTablet_ok SortFunc (intn 0%nat) localCell (statsMap 0%nat) gw [t; u] o p Hs (Hr 0%nat)) as (x & Hx & [(_ & Hax & Epick)|(Hno & _)]);
    [done..| |].
  2:{ unfold advanced in Hno. by rewrite filter_cons_True in Hno. }
  assert (x = t) as -> by (apply list_elem_of_In in Hx as [->|[->|[]]]; congruence).
  rewrite (retry_round_picks _ _ _ _ _ _ _ _ _ _ _ _ t (Some (clear_gtid o))) by (done || by rewrite untried_init).
  cbn [mbind outcome_bind]. unfold try_tablet at 1. rewrite Hct. cbn [negb rs_options with_options fmap option_fmap option_map].
  rewrite Het. cbn [canRetry Code andb].
  destruct (PickTablet_plain SortFunc (intn 1%nat) localCell (statsMap 1%nat) gw [u] (Some (record_info t (clear_gtid o))) Hs (Hr 1%nat))
    as (y & Hy%list_elem_of_singleton & Epick2); [done|by inversion_clear Hrep|done|]. subst y.
  rewrite (retry_round_picks _ _ _ _ _ _ _ _ _ _ _ _ u (Some (record_info t (clear_gtid o)))) by (done || by rewrite (untried_other _ t u)).
  cbn [mbind outcome_bind]. unfold try_tablet at 1. rewrite Hcu. cbn [negb rs_options with_options fmap option_fmap option_map].
  rewrite Heu. cbn [canRetry andb mbind outcome_bind NewShardError fmap option_fmap option_map rs_err].
  eexists _, _, _, _. split; [reflexivity|]. cbn [attempts with_options invalidate app]. done.
Qed.

(** ** Witnesses *)

Definition replica_target : Target := {| Keyspace := bs "ks"; Shard := bs "0"; TargetType := REPLICA |}.

(** The first tablet is not available. *)
Definition sample_execute (i : nat) (t : TabletHealth) (o : option ExecuteOptions) : option gw_error :=
  if bool_decide (Uid t = 101) then Some (Foreign Code_UNAVAILABLE) else None.

Lemma Execute_attempts_witness :
  exists err st,
  Execute insertion_sort (fun _ _ _ _ => 0) (bs "zone1") (fun _ => ∅) sample_gw [REPLICA] 2 (fun _ _ => (false, None))
    (fun _ _ => [stale_tablet; fresh_tablet]) None (fun _ => false) sample_execute replica_target 0 0 None = Ret (err, st) /\
  Z.of_nat (length (attempts st)) <= 2 + 1 /\
  NoDup (TabletAliasString ∘ at_tablet <$> attempts st) /\
  (forall a, a ∈ attempts st -> Conn (at_tablet a) = true /\
     exists (i : nat) (b : bool), at_tablet a ∈ (fun (_ : nat) (_ : bool) => [stale_tablet; fresh_tablet]) i b) /\
  (forall i a, attempts st !! i = Some a -> (S i < length (attempts st))%nat -> retryable (at_err a)) /\
  (0 <> 0 \/ 0 <> 0 -> (length (attempts st) <= 1)%nat) /\
  (err = None <-> exists a, last (attempts st) = Some a /\ at_err a = None).
Proof.
  apply (Execute_attempts insertion_sort (fun _ _ _ _ => 0) (bs "zone1") (fun _ => ∅) sample_gw [REPLICA] 2 (fun _ _ => (false, None))
    (fun _ _ => [stale_tablet; fresh_tablet]) None (fun _ => false) sample_execute replica_target 0 0 None);
    [exact insertion_sort_sorts|intros _; exact in_range_zero|intros _ _; exact sample_reported|unfold_ints; lia].
Defined.

Lemma Execute_forgets_gtid_witness :
  exists st a b o', Execute insertion_sort (fun _ _ _ _ => 0) (bs "zone1") (fun _ => ∅) sample_gw [] 2 (fun _ _ => (false, None))
    (fun _ _ => [fresh_tablet; stale_tablet]) None (fun _ => false) sample_execute
    replica_target 0 0 (Some (sample_options RANDOM)) = Ret (None, st) /\
  attempts st = [a; b] /\ at_tablet a = fresh_tablet /\ at_tablet b = stale_tablet /\ at_options b = Some o' /\
  ReadAfterWriteGtid o' = [].
Proof.
  apply (Execute_forgets_gtid insertion_sort (fun _ _ _ _ => 0) (bs "zone1") (fun _ => ∅) sample_gw 2 (fun _ _ => (false, None)) None
    sample_execute replica_target (sample_options RANDOM) sample_position fresh_tablet stale_tablet);
    [exact insertion_sort_sorts|intros _; exact in_range_zero|repeat constructor; by eexists _, _|unfold_ints; lia
    |done|vm_compute; discriminate|done|done|done|vm_compute; reflexivity..|intros o; reflexivity|intros o; reflexivity].
Defined.
